(** * SolarSystemSim: the physics core of [solarsym.system] and the layers
    that show it

    A shallow embedding of [solarsym/system/body.py] and
    [solarsym/system/system.py], and of the layers of [solarsym/pygame_ui.py],
    [solarsym/system_viewer.py] and [solarsym/drawer.py].

    Modelling conventions.
    - A Python [float] is a real number ([R]): rounding, overflow and NaN are
      not modelled.  The exceptions Python raises on real arguments are:
      [x / 0] raises [ZeroDivisionError], [math.sqrt] of a negative number and
      [math.log] of a non-positive number raise [ValueError].
    - A two-element list [[x, y]] is a pair.
    - Bodies are Python objects: they are compared, hashed and removed by
      identity and mutated in place.  A pool is therefore a list of references
      into a heap of body records.
    - [pygame]'s colour conversions are outside the repository: they are taken
      as an interface ([PygameColor]) that may raise.
    - The layers take what pygame tells them as arguments: the place of the
      mouse, the event, the size of the screen, the answer of the clip
      rectangle, the metrics of the font ([SystemFont]).  What they draw is
      the list of their drawing calls; what pygame makes of a call is not
      followed.  [float] and [int] of a string are an interface
      ([PythonParse]). *)

From Stdlib Require Import Reals Lra Lia ZArith List String Ascii Bool
  Permutation Sorted FunctionalExtensionality.
From Equations Require Import Equations.
Import ListNotations.
Open Scope R_scope.

(** ** Python results *)

Inductive PyError : Type :=
| ZeroDivisionError
| ValueError.

Inductive Result (A : Type) : Type :=
| Ok (a : A)
| Raise (e : PyError).

Arguments Ok {A} a.
Arguments Raise {A} e.

Definition bind {A B : Type} (m : Result A) (k : A -> Result B) : Result B :=
  match m with
  | Ok a => k a
  | Raise e => Raise e
  end.

Notation "x <- m ;; k" := (bind m (fun x => k))
  (at level 61, m at next level, right associativity).
Notation "' p <- m ;; k" := (bind m (fun p => k))
  (at level 61, p pattern, m at next level, right associativity).

(** A [for] loop whose body may raise: the state is threaded from left to
    right and the first exception ends the loop. *)
Fixpoint for_each {S A : Type} (body : S -> A -> Result S) (xs : list A) (s : S)
  : Result S :=
  match xs with
  | [] => Ok s
  | x :: rest => s' <- body s x ;; for_each body rest s'
  end.

(** ** Python arithmetic on floats *)

Definition Rltb (x y : R) : bool := if Rlt_dec x y then true else false.
Definition Rleb (x y : R) : bool := if Rle_dec x y then true else false.
Definition Reqb (x y : R) : bool := if Req_dec_T x y then true else false.

(** [x / y] *)
Definition py_div (x y : R) : Result R :=
  if Req_dec_T y 0 then Raise ZeroDivisionError else Ok (x / y).

(** [math.sqrt(x)] *)
Definition math_sqrt (x : R) : Result R :=
  if Rlt_dec x 0 then Raise ValueError else Ok (sqrt x).

(** [math.log(x)] *)
Definition math_log (x : R) : Result R :=
  if Rle_dec x 0 then Raise ValueError else Ok (ln x).

(** [math.atan2(y, x)]: the angle of the point [(x, y)], in [(-pi, pi]]. *)
Definition math_atan2 (y x : R) : R :=
  if Rlt_dec 0 x then atan (y / x)
  else if Rlt_dec x 0 then
         if Rle_dec 0 y then atan (y / x) + PI else atan (y / x) - PI
  else if Rlt_dec 0 y then PI / 2
  else if Rlt_dec y 0 then - (PI / 2)
  else 0.

(** [max(a, b)] and [min(a, b)]: the first argument unless the second is
    strictly larger (smaller). *)
Definition py_max (a b : R) : R := if Rlt_dec a b then b else a.
Definition py_min (a b : R) : R := if Rlt_dec b a then b else a.

(** [int(x)]: truncation towards zero. *)
Definition py_int (x : R) : Z :=
  if Rle_dec 0 x then Int_part x else (- Int_part (- x))%Z.

(** ** body.py *)

Definition Vec2 : Type := (R * R)%type.

(** A colour is a sequence of integer channels, as given by the caller. *)
Definition Color : Type := list Z.

(** [pygame.Color(c).hsva] and [pygame.Color(0)] with [.hsva = (h, s, v)]. *)
Class PygameColor : Type := {
  Color_hsva : Color -> Result (R * R * R * R);
  Color_of_hsva : R * R * R -> Result Color
}.

Definition GRAVITY_CONSTANT : R := 6.67430e3.
Definition SYSTEM_SCALE : R := 0.01.
Definition COLLISION_DAMPENING : R := 0.01.

Record SystemBody : Type := {
  name : string;
  mass : R;
  radius : R;
  color : Color;
  position : Vec2;
  velocity : Vec2;
  acceleration : Vec2
}.

Record CollisionInfo : Type := {
  granularity : Z;
  bias : R;
  impulse : R;
  reflect_dir : Vec2
}.

Record GravityInfo : Type := {
  force : R;
  direction : Vec2
}.

(** [SystemBody.__init__]: the fields are stored as given. *)
Definition SystemBody_init (nm : string) (m r : R) (c : Color)
    (pos : Vec2) (vel : Vec2) : SystemBody :=
  {| name := nm; mass := m; radius := r; color := c;
     position := (fst pos, snd pos);
     velocity := (fst vel, snd vel);
     acceleration := (0, 0) |}.

Definition set_acceleration (b : SystemBody) (a : Vec2) : SystemBody :=
  {| name := name b; mass := mass b; radius := radius b; color := color b;
     position := position b; velocity := velocity b; acceleration := a |}.

(** [SystemBody.move] *)
Definition move (self : SystemBody) (delta : R) : SystemBody :=
  let vx := fst (velocity self) + fst (acceleration self) * delta in
  let vy := snd (velocity self) + snd (acceleration self) * delta in
  {| name := name self; mass := mass self; radius := radius self;
     color := color self;
     position := (fst (position self) + vx * delta,
                  snd (position self) + vy * delta);
     velocity := (vx, vy);
     acceleration := (0, 0) |}.

(** [SystemBody.add_acceleration] *)
Definition add_acceleration (self : SystemBody) (a : Vec2) : SystemBody :=
  set_acceleration self
    (fst (acceleration self) + fst a, snd (acceleration self) + snd a).

(** [SystemBody.add_force] *)
Definition add_force (self : SystemBody) (f : Vec2) : Result SystemBody :=
  ax <- py_div (fst f) (mass self) ;;
  ay <- py_div (snd f) (mass self) ;;
  Ok (set_acceleration self
        (fst (acceleration self) + ax, snd (acceleration self) + ay)).

(** [SystemBody.calc_gravity_acceleration] *)
Definition calc_gravity_acceleration (self other : SystemBody) : Result R :=
  let dist_x := fst (position other) - fst (position self) in
  let dist_y := snd (position other) - snd (position self) in
  let dist_sqr := dist_x ^ 2 + dist_y ^ 2 in
  let mass_x := mass other in
  py_div (GRAVITY_CONSTANT * mass_x) dist_sqr.

(** [SystemBody.calc_gravity_at_point] *)
Definition calc_gravity_at_point (self : SystemBody) (point : Vec2)
  : Result GravityInfo :=
  let dist_x := fst point - fst (position self) in
  let dist_y := snd point - snd (position self) in
  let dist_sqr := dist_x ^ 2 + dist_y ^ 2 in
  let dist_sqr := py_max dist_sqr (radius self ^ 2) in
  dist <- math_sqrt dist_sqr ;;
  force <- py_div GRAVITY_CONSTANT dist_sqr ;;
  dir_x <- py_div dist_x dist ;;
  dir_y <- py_div dist_y dist ;;
  Ok {| force := force; direction := (dir_x, dir_y) |}.

(** [SystemBody.calc_collision_bias] *)
Definition calc_collision_bias (self other : SystemBody)
  : Result (option CollisionInfo) :=
  let rel_vel := (fst (velocity self) - fst (velocity other),
                  snd (velocity self) - snd (velocity other)) in
  let rel_pos := (fst (position self) - fst (position other),
                  snd (position self) - snd (position other)) in
  let rel_pos_mag := fst rel_pos ^ 2 + snd rel_pos ^ 2 in
  distance <- math_sqrt rel_pos_mag ;;
  let intersection := radius self + radius other - distance in
  if Rltb intersection 0 then Ok None
  else
    nx <- py_div (fst rel_pos) rel_pos_mag ;;
    ny <- py_div (snd rel_pos) rel_pos_mag ;;
    let col_normal := (nx, ny) in
    let rel_vel_n := fst rel_vel * fst col_normal + snd rel_vel * snd col_normal in
    if Rleb 0 rel_vel_n then Ok None
    else
      inv_self <- py_div 1 (mass self) ;;
      inv_other <- py_div 1 (mass other) ;;
      impulse <- py_div (-2 * rel_vel_n) (inv_self + inv_other) ;;
      ratio <- py_div (mass other) (mass self) ;;
      let impulse := impulse * ratio in
      let impulse := impulse * COLLISION_DAMPENING in
      impulse <- py_div impulse SYSTEM_SCALE ;;
      rel_vel_mag <- math_sqrt (fst rel_vel ^ 2 + snd rel_vel ^ 2) ;;
      vnx <- py_div (fst rel_vel) rel_vel_mag ;;
      vny <- py_div (snd rel_vel) rel_vel_mag ;;
      let reflection := (- vnx + 2 * rel_vel_n * fst col_normal,
                         - vny + 2 * rel_vel_n * snd col_normal) in
      bias <- py_div (mass self) (mass self + mass other) ;;
      Ok (Some {| granularity := 10; bias := bias; impulse := impulse;
                  reflect_dir := reflection |}).

(** [SystemBody.calc_blended_color] *)
Definition calc_blended_color `{pg : PygameColor} (self other : SystemBody) (bias : R)
  : Result Color :=
  '(h1, s1, v1, _) <- Color_hsva (color self) ;;
  '(h2, s2, v2, _) <- Color_hsva (color other) ;;
  let hue := h1 * bias + h2 * (1 - bias) in
  let sat := s1 * bias + s2 * (1 - bias) in
  let light := v1 * bias + v2 * (1 - bias) in
  Color_of_hsva (hue, sat, light).

(** ** system.py *)

(** A reference to a body object (its identity). *)
Definition Ref : Type := nat.

(** The objects the references point to. *)
Definition Heap : Type := Ref -> SystemBody.

Definition heap_set (h : Heap) (r : Ref) (b : SystemBody) : Heap :=
  fun r' => if Nat.eqb r' r then b else h r'.

(** A Python [set] of bodies, in insertion order. *)
Definition ref_mem (r : Ref) (s : list Ref) : bool := existsb (Nat.eqb r) s.

Definition ref_add (r : Ref) (s : list Ref) : list Ref :=
  if ref_mem r s then s else s ++ [r].

(** [SystemBodyPool._UpdateInfo] *)
Record UpdateInfo : Type := {
  new_color : Color;
  new_mass : R;
  new_radius : R;
  new_position : Vec2;
  due_acceleration : Vec2;
  affectors : list (Ref * CollisionInfo);
  affected : Ref
}.

Definition set_affectors (u : UpdateInfo) (l : list (Ref * CollisionInfo))
  : UpdateInfo :=
  {| new_color := new_color u; new_mass := new_mass u;
     new_radius := new_radius u; new_position := new_position u;
     due_acceleration := due_acceleration u; affectors := l;
     affected := affected u |}.

(** [_UpdateInfo.apply] *)
Definition apply (self : UpdateInfo) (h : Heap) : Heap :=
  let b := h (affected self) in
  heap_set h (affected self)
    {| name := name b; mass := new_mass self; radius := new_radius self;
       color := new_color self; position := position b;
       velocity := velocity b; acceleration := due_acceleration self |}.

(** A rectangle filled by [pygame.draw.rect] with the grey [(c, c, c)]. *)
Record DrawnRect : Type := {
  rect_left : Z;
  rect_top : Z;
  rect_w : Z;
  rect_h : Z;
  rect_intensity : Z
}.

(** A [pygame.Surface] created black, as the rectangles drawn on it. *)
Definition Surface : Type := list DrawnRect.

(** [pygame.Rect] *)
Record Rect : Type := {
  x : Z;
  y : Z;
  width : Z;
  height : Z
}.

Definition HEATMAP_CELL_SIZE : Z := 10.
Definition HEATMAP_UPDATE_INTERVAL : R := 15.0.

Record SystemBodyPool : Type := {
  bodies : list Ref;
  heap : Heap;
  center : Vec2;
  _heatmap : list (list R);
  _heatmap_active : bool;
  _heatmap_update_time : R;
  _heatmap_surface : option Surface
}.

(** [SystemBodyPool.__init__], over a heap. *)
Definition SystemBodyPool_init (h : Heap) : SystemBodyPool :=
  {| bodies := []; heap := h; center := (0, 0); _heatmap := [];
     _heatmap_active := true; _heatmap_update_time := 0.0;
     _heatmap_surface := None |}.

Definition with_bodies (p : SystemBodyPool) (l : list Ref) (h : Heap)
  : SystemBodyPool :=
  {| bodies := l; heap := h; center := center p; _heatmap := _heatmap p;
     _heatmap_active := _heatmap_active p;
     _heatmap_update_time := _heatmap_update_time p;
     _heatmap_surface := _heatmap_surface p |}.

(** [SystemBodyPool.add_body] *)
Definition add_body (p : SystemBodyPool) (body : Ref) : SystemBodyPool :=
  with_bodies p (bodies p ++ [body]) (heap p).

(** [SystemBodyPool.move_all] *)
Definition move_all (p : SystemBodyPool) (delta : R) : SystemBodyPool :=
  with_bodies p (bodies p)
    (fold_left (fun h body => heap_set h body (move (h body) delta))
       (bodies p) (heap p)).

(** [SystemBodyPool.intersects_body] *)
Definition intersects_body (body : SystemBody) (point : Vec2) : bool :=
  let dist_sqr := (fst point - fst (position body)) ^ 2
                  + (snd point - snd (position body)) ^ 2 in
  Rleb dist_sqr (radius body ^ 2).

(** The loop of [SystemBodyPool.intersects_point], which returns at the first
    body the point lies in. *)
Fixpoint intersects_first (h : Heap) (l : list Ref) (point : Vec2) : bool :=
  match l with
  | [] => false
  | body :: rest =>
      let dist_sqr := (fst point - fst (position (h body))) ^ 2
                      + (snd point - snd (position (h body))) ^ 2 in
      if Rleb dist_sqr (radius (h body) ^ 2) then true
      else intersects_first h rest point
  end.

(** [SystemBodyPool.intersects_point] *)
Definition intersects_point (p : SystemBodyPool) (point : Vec2) : bool :=
  intersects_first (heap p) (bodies p) point.

(** [SystemBodyPool.set_center] *)
Definition set_center (p : SystemBodyPool) (c : Vec2) : SystemBodyPool :=
  {| bodies := bodies p; heap := heap p; center := c; _heatmap := _heatmap p;
     _heatmap_active := _heatmap_active p;
     _heatmap_update_time := _heatmap_update_time p;
     _heatmap_surface := _heatmap_surface p |}.

(** *** update_system, first loop: gravity and collision detection *)

(** The body of the inner loop, for one [affector]. *)
Definition gravity_and_collision (affected : Ref)
    (st : Heap * list (Ref * CollisionInfo)) (affector : Ref)
  : Result (Heap * list (Ref * CollisionInfo)) :=
  let '(h, affs) := st in
  if Nat.eqb affected affector then Ok st
  else
    acceleration <- calc_gravity_acceleration (h affected) (h affector) ;;
    let affect_angle :=
      math_atan2 (snd (position (h affected)) - snd (position (h affector)))
                 (fst (position (h affected)) - fst (position (h affector))) in
    let accel_vector := (- acceleration * cos affect_angle,
                         - acceleration * sin affect_angle) in
    let h := heap_set h affected (add_acceleration (h affected) accel_vector) in
    col_info <- calc_collision_bias (h affected) (h affector) ;;
    match col_info with
    | None => Ok (h, affs)
    | Some ci => Ok (h, affs ++ [(affector, ci)])
    end.

(** The body of the outer loop, for one [affected]. *)
Definition collect_update (all : list Ref) (st : Heap * list UpdateInfo)
    (affected : Ref) : Result (Heap * list UpdateInfo) :=
  let '(h, pending_updates) := st in
  let update_info :=
    {| new_color := color (h affected); new_mass := mass (h affected);
       new_radius := radius (h affected); new_position := position (h affected);
       due_acceleration := (0, 0); affectors := []; affected := affected |} in
  '(h, affs) <- for_each (gravity_and_collision affected) all (h, []) ;;
  if (0 <? List.length affs)%nat
  then Ok (h, pending_updates ++ [set_affectors update_info affs])
  else Ok (h, pending_updates).

Definition collect_updates (p : SystemBodyPool)
  : Result (Heap * list UpdateInfo) :=
  for_each (collect_update (bodies p)) (bodies p) (heap p, []).

(** *** update_system, second loop: resolution *)

Record Resolution : Type := {
  bodies_to_remove : list Ref;
  bodies_to_merge : list Ref;
  body_merge_info : list (Ref * Ref)
}.

Definition no_resolution : Resolution :=
  {| bodies_to_remove := []; bodies_to_merge := []; body_merge_info := [] |}.

(** The test "the reflection isn't strong enough". *)
Definition weak_reflection (col_info : CollisionInfo) : bool :=
  let reflection_theta :=
    math_atan2 (snd (reflect_dir col_info)) (fst (reflect_dir col_info)) in
  Rleb (PI - 0.05) (Rabs reflection_theta)
  || Rltb (Rabs reflection_theta) 0.05
  || Rltb (impulse col_info) 10.

(** The partial transfer at the end of the loop body. *)
Definition transfer `{pg : PygameColor} (h : Heap) (this_update : UpdateInfo)
    (affector : Ref) (col_info : CollisionInfo) : Result UpdateInfo :=
  let m := new_mass this_update * bias col_info in
  let r := new_radius this_update * bias col_info in
  let m := m + mass (h affector) * (1 - bias col_info) in
  let r := r + radius (h affector) * (1 - bias col_info) in
  let acc :=
    (fst (due_acceleration this_update)
       + impulse col_info * fst (reflect_dir col_info),
     snd (due_acceleration this_update)
       + impulse col_info * snd (reflect_dir col_info)) in
  c <- calc_blended_color (h (affected this_update)) (h affector)
         (bias col_info) ;;
  Ok {| new_color := c; new_mass := m; new_radius := r;
        new_position := new_position this_update; due_acceleration := acc;
        affectors := affectors this_update;
        affected := affected this_update |}.

(** The body of the inner loop, for one recorded [(affector, col_info)]. *)
Definition resolve_collision `{pg : PygameColor} (h : Heap)
    (st : Resolution * UpdateInfo) (p : Ref * CollisionInfo)
  : Result (Resolution * UpdateInfo) :=
  let '(res, this_update) := st in
  let '(affector, col_info) := p in
  if Nat.eqb (affected this_update) affector then Ok st
  else if Rltb (bias col_info) 0.1 then
    Ok ({| bodies_to_remove :=
             ref_add (affected this_update) (bodies_to_remove res);
           bodies_to_merge := bodies_to_merge res;
           body_merge_info := body_merge_info res |}, this_update)
  else if weak_reflection col_info then
    if ref_mem (affected this_update) (bodies_to_merge res) then Ok st
    else
      let res :=
        {| bodies_to_remove := bodies_to_remove res;
           bodies_to_merge :=
             ref_add affector
               (ref_add (affected this_update) (bodies_to_merge res));
           body_merge_info :=
             body_merge_info res ++ [(affected this_update, affector)] |} in
      u <- transfer h this_update affector col_info ;;
      Ok (res, u)
  else
    u <- transfer h this_update affector col_info ;;
    Ok (res, u).

(** The body of the outer loop, for one pending update. *)
Definition resolve_update `{pg : PygameColor} (h : Heap)
    (st : Resolution * list UpdateInfo) (this_update : UpdateInfo)
  : Result (Resolution * list UpdateInfo) :=
  let '(res, resolved) := st in
  '(res, u) <- for_each (resolve_collision h) (affectors this_update)
                 (res, this_update) ;;
  Ok (res, resolved ++ [u]).

Definition resolve_updates `{pg : PygameColor} (h : Heap)
    (pending_updates : list UpdateInfo)
  : Result (Resolution * list UpdateInfo) :=
  for_each (resolve_update h) pending_updates (no_resolution, []).

(** *** update_system, third loop: committing the updates *)

Definition apply_updates (merge : list Ref) (pending_updates : list UpdateInfo)
    (h : Heap) : Heap :=
  fold_left
    (fun h update => if ref_mem (affected update) merge then h
                     else apply update h)
    pending_updates h.

(** *** update_system, fourth loop: merging *)

Record Merging : Type := {
  m_heap : Heap;
  m_remove : list Ref;
  m_add : list Ref;
  m_next : Ref
}.

(** The merged body of [body1] and [body2]. *)
Definition merged_body `{pg : PygameColor} (body1 body2 : SystemBody)
  : Result SystemBody :=
  let new_mass := mass body1 + mass body2 in
  let new_radius := radius body1 + radius body2 in
  new_color <- calc_blended_color body1 body2 0.5 ;;
  px <- py_div (fst (position body1) * mass body1
                + fst (position body2) * mass body2) new_mass ;;
  py <- py_div (snd (position body1) * mass body1
                + snd (position body2) * mass body2) new_mass ;;
  vx <- py_div (fst (velocity body1) * mass body1
                + fst (velocity body2) * mass body2) new_mass ;;
  vy <- py_div (snd (velocity body1) * mass body1
                + snd (velocity body2) * mass body2) new_mass ;;
  Ok (SystemBody_init (name body1 ++ "_" ++ name body2)%string new_mass new_radius
        new_color (px, py) (vx, vy)).

(** The body of the loop, for one [(body1, body2)]; the new object gets the
    next unused reference. *)
Definition merge_pair `{pg : PygameColor} (st : Merging) (p : Ref * Ref)
  : Result Merging :=
  let '(body1, body2) := p in
  new_body <- merged_body (m_heap st body1) (m_heap st body2) ;;
  Ok {| m_heap := heap_set (m_heap st) (m_next st) new_body;
        m_remove := ref_add body2 (ref_add body1 (m_remove st));
        m_add := m_add st ++ [m_next st];
        m_next := S (m_next st) |}.

(** *** update_system, last loops: removal and addition *)

(** [list.remove(x)]: the first occurrence goes; [ValueError] when absent. *)
Fixpoint list_remove (l : list Ref) (r : Ref) : Result (list Ref) :=
  match l with
  | [] => Raise ValueError
  | r' :: rest =>
      if Nat.eqb r' r then Ok rest
      else rest' <- list_remove rest r ;; Ok (r' :: rest')
  end.

(** A reference no body of the pool has. *)
Definition fresh_ref (l : list Ref) : Ref := S (list_max l).

(** [SystemBodyPool.update_system] *)
Definition update_system `{pg : PygameColor} (p : SystemBodyPool)
  : Result SystemBodyPool :=
  '(h, pending_updates) <- collect_updates p ;;
  '(res, pending_updates) <- resolve_updates h pending_updates ;;
  let h := apply_updates (bodies_to_merge res) pending_updates h in
  m <- for_each merge_pair (body_merge_info res)
         {| m_heap := h; m_remove := bodies_to_remove res; m_add := [];
            m_next := fresh_ref (bodies p) |} ;;
  remaining <- for_each list_remove (m_remove m) (bodies p) ;;
  Ok (with_bodies p (remaining ++ m_add m) (m_heap m)).

(** *** The heatmap *)

(** [SystemBodyPool.toggle_heatmap] *)
Definition toggle_heatmap (p : SystemBodyPool) (state : bool) : SystemBodyPool :=
  {| bodies := bodies p; heap := heap p; center := center p;
     _heatmap := _heatmap p; _heatmap_active := state;
     _heatmap_update_time := _heatmap_update_time p;
     _heatmap_surface := _heatmap_surface p |}.

Fixpoint range_from (start step : Z) (n : nat) : list Z :=
  match n with
  | O => []
  | S k => start :: range_from (start + step) step k
  end.

(** [range(start, stop, step)] for a positive [step]. *)
Definition py_range (start stop step : Z) : list Z :=
  range_from start step (Z.to_nat ((stop - start + step - 1) / step)).

(** [enumerate(l)] *)
Definition enumerate {A : Type} (l : list A) : list (Z * A) :=
  combine (map Z.of_nat (seq 0 (List.length l))) l.

(** The innermost loop of [update_heatmap]: the summed force at [point]. *)
Definition total_accel_at (h : Heap) (all : list Ref) (point : Vec2) : Result R :=
  for_each
    (fun total_accel body =>
       new_info <- calc_gravity_at_point (h body) point ;;
       Ok (total_accel + force new_info))
    all 0.

(** One row of the heatmap, at the screen ordinate [yv]. *)
Definition heatmap_row (h : Heap) (all : list Ref) (scale : R)
    (view_rect : Rect) (yv : Z) : Result (list R) :=
  for_each
    (fun row xv =>
       px <- py_div (IZR (xv - width view_rect / 2)) (SYSTEM_SCALE * scale) ;;
       py <- py_div (IZR (yv - height view_rect / 2)) (SYSTEM_SCALE * scale) ;;
       let point := (px + IZR (x view_rect), py + IZR (y view_rect)) in
       total_accel <- total_accel_at h all point ;;
       Ok (row ++ [total_accel]))
    (py_range (HEATMAP_CELL_SIZE / 2)
       (width view_rect + HEATMAP_CELL_SIZE / 2) HEATMAP_CELL_SIZE)
    [].

(** The grid [update_heatmap] computes. *)
Definition heatmap_grid (h : Heap) (all : list Ref) (scale : R)
    (view_rect : Rect) : Result (list (list R)) :=
  for_each
    (fun grid yv =>
       row <- heatmap_row h all scale view_rect yv ;;
       Ok (grid ++ [row]))
    (py_range (HEATMAP_CELL_SIZE / 2)
       (height view_rect + HEATMAP_CELL_SIZE / 2) HEATMAP_CELL_SIZE)
    [].

(** The first loop of [create_heatmap_surface]: [(accel_max, accel_min)]. *)
Definition heatmap_extrema (grid : list (list R)) : R * R :=
  fold_left
    (fun acc row =>
       fold_left
         (fun acc value => (py_max (fst acc) value, py_min (snd acc) value))
         row acc)
    grid (0, 1e20).

(** The cell drawn for [value] at column [xi] of row [yi]. *)
Definition heatmap_cell (data_range accel_min scaled_range : R)
    (yi xi : Z) (value : R) : Result DrawnRect :=
  l <- math_log value ;;
  q <- py_div l data_range ;;
  value <- py_div (q - accel_min) scaled_range ;;
  let color := py_int (value * 255) in
  Ok {| rect_left := xi * HEATMAP_CELL_SIZE; rect_top := yi * HEATMAP_CELL_SIZE;
        rect_w := HEATMAP_CELL_SIZE; rect_h := HEATMAP_CELL_SIZE;
        rect_intensity := color |}.

(** [SystemBodyPool.create_heatmap_surface], on the grid of the pool. *)
Definition create_heatmap_surface (grid : list (list R)) (view_rect : Rect)
  : Result Surface :=
  let surface : Surface := [] in
  let '(accel_max, accel_min) := heatmap_extrema grid in
  if Reqb (accel_min - accel_max) 0 then Ok surface
  else
    ratio <- py_div accel_max accel_min ;;
    data_range <- math_log ratio ;;
    accel_max <- py_div accel_max data_range ;;
    accel_min <- py_div accel_min data_range ;;
    let scaled_range := accel_max - accel_min in
    for_each
      (fun surface yrow =>
         for_each
           (fun surface xvalue =>
              cell <- heatmap_cell data_range accel_min scaled_range
                        (fst yrow) (fst xvalue) (snd xvalue) ;;
              Ok (surface ++ [cell]))
           (enumerate (snd yrow)) surface)
      (enumerate grid) surface.

(** [SystemBodyPool.update_heatmap] *)
Definition update_heatmap (p : SystemBodyPool) (delta scale : R)
    (view_rect : Rect) : Result SystemBodyPool :=
  if negb (_heatmap_active p) then Ok p
  else if Rltb (_heatmap_update_time p) HEATMAP_UPDATE_INTERVAL then
    Ok {| bodies := bodies p; heap := heap p; center := center p;
          _heatmap := _heatmap p; _heatmap_active := _heatmap_active p;
          _heatmap_update_time := _heatmap_update_time p + delta;
          _heatmap_surface := _heatmap_surface p |}
  else
    grid <- heatmap_grid (heap p) (bodies p) scale view_rect ;;
    surface <- create_heatmap_surface grid view_rect ;;
    Ok {| bodies := bodies p; heap := heap p; center := center p;
          _heatmap := grid; _heatmap_active := _heatmap_active p;
          _heatmap_update_time := 0.0;
          _heatmap_surface := Some surface |}.

(** A surface shows nothing when every rectangle drawn on it is black. *)
Definition blank (s : Surface) : Prop :=
  Forall (fun r => rect_intensity r = 0%Z) s.

(** ** pygame_ui.py *)

(** [round(x)]: the nearest integer, a half going to the even one. *)
Definition py_round (x : R) : Z :=
  let f := Int_part x in
  let d := x - IZR f in
  if Rlt_dec d (1 / 2) then f
  else if Rlt_dec (1 / 2) d then (f + 1)%Z
  else if Z.even f then f else (f + 1)%Z.

(** The [while] loop of [_circlepoints]. *)
Equations? circle_loop (x y e : Z) (points : list (Z * Z)) : list (Z * Z)
  by wf (Z.to_nat (x - y + 1)) lt :=
  circle_loop x y e points with Z_le_dec y x := {
    | right _ := points;
    | left _ with Z_lt_dec e 0 := {
        | left _ :=
            circle_loop x (y + 1) (e + (2 * (y + 1) - 1)) (points ++ [(x, y)]);
        | right _ :=
            circle_loop (x - 1) (y + 1)
              (e + (2 * ((y + 1) - (x - 1)) - 1)) (points ++ [(x, y)]) } }.
Proof. all: lia. Qed.

(** The order of Python on pairs of integers. *)
Definition pair_leb (p q : Z * Z) : bool :=
  (fst p <? fst q)%Z || ((fst p =? fst q)%Z && (snd p <=? snd q)%Z).

Fixpoint sorted_insert (p : Z * Z) (l : list (Z * Z)) : list (Z * Z) :=
  match l with
  | [] => [p]
  | q :: rest => if pair_leb p q then p :: q :: rest
                 else q :: sorted_insert p rest
  end.

(** [list.sort()] on pairs of integers: the ascending arrangement (the one
    there is, equal pairs being the same pair). *)
Definition list_sort (l : list (Z * Z)) : list (Z * Z) :=
  fold_right sorted_insert [] l.

(** The three list comprehensions of [_circlepoints]: the mirror images
    across the diagonal, the vertical axis and the horizontal axis. *)
Definition circle_mirrors (points : list (Z * Z)) : list (Z * Z) :=
  let points :=
    points ++ map (fun p => (snd p, fst p))
                (filter (fun p => (fst p >? snd p)%Z) points) in
  let points :=
    points ++ map (fun p => ((- fst p)%Z, snd p))
                (filter (fun p => negb (fst p =? 0)%Z) points) in
  points ++ map (fun p => (fst p, (- snd p)%Z))
              (filter (fun p => negb (snd p =? 0)%Z) points).

(** The points [_circlepoints] computes for the integer [r]. *)
Definition circle_points (r : Z) : list (Z * Z) :=
  let points := circle_loop r 0 (1 - r) [] in
  list_sort (circle_mirrors points).

(** [_circle_cache]: the lists computed so far, by radius. *)
Definition CircleCache : Type := Z -> option (list (Z * Z)).

Definition cache_store (cache : CircleCache) (r : Z) (points : list (Z * Z))
  : CircleCache :=
  fun k => if (k =? r)%Z then Some points else cache k.

(** [_circlepoints]: the list and the cache afterwards. *)
Definition _circlepoints (cache : CircleCache) (r : R)
  : list (Z * Z) * CircleCache :=
  let r := py_round r in
  match cache r with
  | Some points => (points, cache)
  | None => let points := circle_points r in
            (points, cache_store cache r points)
  end.

(** ** Drawing and the viewer: body.py, system.py and system_viewer.py *)

(** The exceptions of the user interface: Python's [IndexError],
    [AttributeError] and [UnboundLocalError], and those of the engine. *)
Inductive UIError : Type :=
| IndexError
| AttributeError
| UnboundLocalError
| Py (e : PyError).

(** What a call of the user interface gives: its result, or the exception
    that leaves it (the state behind a raised exception is not followed). *)
Inductive UIResult (A : Type) : Type :=
| Done (a : A)
| Failed (e : UIError).

Arguments Done {A} a.
Arguments Failed {A} e.

Definition ui_bind {A B : Type} (m : UIResult A) (k : A -> UIResult B)
  : UIResult B :=
  match m with
  | Done a => k a
  | Failed e => Failed e
  end.

Notation "x <~ m ;; k" := (ui_bind m (fun x => k))
  (at level 61, m at next level, right associativity).

(** A call into the engine. *)
Definition engine {A : Type} (m : Result A) : UIResult A :=
  match m with
  | Ok a => Done a
  | Raise e => Failed (Py e)
  end.

(** What the drawing calls put on the screen, in the order of the calls:
    [screen.blit] of the heatmap, [self._draw_info], [pygame.draw.circle]
    and [pygame.draw.line]. *)
Inductive DrawCommand : Type :=
| Blit_heatmap (surface : Surface)
| Draw_info (body : SystemBody) (at_position : Vec2) (at_radius : R)
| Draw_circle (c : Color) (at_center : Vec2) (at_radius : R)
| Draw_line (c : Color) (start_pos end_pos : Vec2) (line_width : Z).

(** [color[i] = min(255, color[i] + 50)] on a list. *)
Fixpoint brighten (c : Color) (i : nat) : UIResult Color :=
  match c, i with
  | [], _ => Failed IndexError
  | v :: rest, O => Done (Z.min 255 (v + 50) :: rest)
  | v :: rest, S k => rest' <~ brighten rest k ;; Done (v :: rest')
  end.

(** [SystemBody.draw], on a screen of the given width and height. *)
Definition draw (self : SystemBody) (screen_width screen_height : Z) (zoom : R)
    (centre : Vec2) (is_hovered : bool) : UIResult (list DrawCommand) :=
  let screen_pos :=
    ((fst (position self) - fst centre) * SYSTEM_SCALE * zoom
     + IZR screen_width / 2,
     (snd (position self) - snd centre) * SYSTEM_SCALE * zoom
     + IZR screen_height / 2) in
  let screen_radius := radius self * SYSTEM_SCALE * zoom in
  let c := color self in
  if is_hovered then
    c <~ brighten c 0 ;;
    c <~ brighten c 1 ;;
    c <~ brighten c 2 ;;
    Done [Draw_info self screen_pos screen_radius;
          Draw_circle [0; 0; 0]%Z screen_pos (screen_radius + 2);
          Draw_circle c screen_pos screen_radius]
  else
    Done [Draw_circle [0; 0; 0]%Z screen_pos (screen_radius + 2);
          Draw_circle c screen_pos screen_radius].

(** A loop of drawing calls. *)
Fixpoint draw_each {A : Type} (body : A -> UIResult (list DrawCommand))
    (xs : list A) (drawn : list DrawCommand) : UIResult (list DrawCommand) :=
  match xs with
  | [] => Done drawn
  | x :: rest => d <~ body x ;; draw_each body rest (drawn ++ d)
  end.

(** [SystemBodyPool.draw_all], with the mouse at [mouse_pos]. *)
Definition draw_all (p : SystemBodyPool) (screen_width screen_height : Z)
    (view_pos : Vec2) (zoom : R) (mouse_pos : Z * Z)
  : UIResult (list DrawCommand) :=
  click_x <~ engine (py_div (IZR (fst mouse_pos)) (SYSTEM_SCALE * zoom)) ;;
  click_y <~ engine (py_div (IZR (snd mouse_pos)) (SYSTEM_SCALE * zoom)) ;;
  abs_x <~ engine (py_div (IZR (fst mouse_pos) + IZR screen_width / 2)
                     (SYSTEM_SCALE * zoom)) ;;
  abs_y <~ engine (py_div (IZR (snd mouse_pos) + IZR screen_height / 2)
                     (SYSTEM_SCALE * zoom)) ;;
  let abs_point := (fst view_pos + abs_x, snd view_pos + abs_y) in
  let drawn :=
    match _heatmap_active p, _heatmap_surface p with
    | true, Some surface => [Blit_heatmap surface]
    | _, _ => []
    end in
  draw_each
    (fun body => draw (heap p body) screen_width screen_height zoom view_pos
                   (intersects_body (heap p body) abs_point))
    (bodies p) drawn.

(** [pygame.Rect.collidepoint]: a point on the left or the top edge is
    inside, a point on the right or the bottom edge is not; and
    [pygame.Rect.centerx], [centery]: [x + w / 2] in the integer division of
    C. *)
Definition collidepoint (r : Rect) (point : Z * Z) : bool :=
  (x r <=? fst point)%Z && (fst point <? x r + width r)%Z
  && (y r <=? snd point)%Z && (snd point <? y r + height r)%Z.

Definition centerx (r : Rect) : Z := (x r + Z.quot (width r) 2)%Z.
Definition centery (r : Rect) : Z := (y r + Z.quot (height r) 2)%Z.

(** [pygame.Rect(x, y, w, h)] with float coordinates: pygame's conversion of
    a coordinate to an integer. *)
Class PygameRect : Type := {
  Rect_coordinate : R -> Z
}.

(** [RenderView.ControlState] *)
Inductive ControlState : Type :=
| STATE_NONE
| STATE_SELECTED
| STATE_DROPPED.

Definition ControlState_eqb (a b : ControlState) : bool :=
  match a, b with
  | STATE_NONE, STATE_NONE => true
  | STATE_SELECTED, STATE_SELECTED => true
  | STATE_DROPPED, STATE_DROPPED => true
  | _, _ => false
  end.

(** [RenderView].  The body being dragged is an object of its own until it
    is dropped into the pool (the preview that hands it over keeps a new
    one); [None] stands for the attribute before [start_drag_body] and for
    the [None] stored after the drop. *)
Record RenderView : Type := {
  _system : SystemBodyPool;
  _view_pos : Vec2;
  _zoom : R;
  _drag_view_active : bool;
  _drag_last_pos : Vec2;
  _control_state : ControlState;
  _drop_pos : Vec2;
  _drag_body : option SystemBody
}.

(** [RenderView.__init__], the pool being [SystemBodyPool()] over [h]. *)
Definition RenderView_init (h : Heap) : RenderView :=
  {| _system := SystemBodyPool_init h; _view_pos := (0.0, 0.0); _zoom := 1.0;
     _drag_view_active := false; _drag_last_pos := (0.0, 0.0);
     _control_state := STATE_NONE; _drop_pos := (0.0, 0.0);
     _drag_body := None |}.

Definition with_system (v : RenderView) (p : SystemBodyPool) : RenderView :=
  {| _system := p; _view_pos := _view_pos v; _zoom := _zoom v;
     _drag_view_active := _drag_view_active v;
     _drag_last_pos := _drag_last_pos v;
     _control_state := _control_state v; _drop_pos := _drop_pos v;
     _drag_body := _drag_body v |}.

(** [RenderView.set_system] *)
Definition set_system (v : RenderView) (p : SystemBodyPool) : RenderView :=
  with_system v p.

(** [RenderView.start_drag_body] *)
Definition start_drag_body (v : RenderView) (body : SystemBody) : RenderView :=
  {| _system := _system v; _view_pos := _view_pos v; _zoom := _zoom v;
     _drag_view_active := _drag_view_active v;
     _drag_last_pos := _drag_last_pos v;
     _control_state := STATE_SELECTED; _drop_pos := _drop_pos v;
     _drag_body := Some body |}.

(** [RenderView.toggle_heatmap] *)
Definition RenderView_toggle_heatmap (v : RenderView) (state : bool)
  : RenderView :=
  with_system v (toggle_heatmap (_system v) state).

(** An attribute of the dragged body. *)
Definition the_drag_body (v : RenderView) : UIResult SystemBody :=
  match _drag_body v with
  | Some body => Done body
  | None => Failed AttributeError
  end.

Definition mouse_point (mouse_pos : Z * Z) : Vec2 :=
  (IZR (fst mouse_pos), IZR (snd mouse_pos)).

(** [RenderView.pre_draw], with the mouse at [mouse_pos]. *)
Definition pre_draw `{pg : PygameColor} `{pr : PygameRect} (v : RenderView)
    (delta : R) (view_rect : Rect) (mouse_pos : Z * Z) : UIResult RenderView :=
  p <~ engine (update_system (_system v)) ;;
  p <~ engine (update_heatmap p delta (_zoom v)
                 {| x := Rect_coordinate (fst (_view_pos v));
                    y := Rect_coordinate (snd (_view_pos v));
                    width := 1600; height := 900 |}) ;;
  let v := with_system v p in
  v <~ (if _drag_view_active v then
          inv_zoom <~ engine (py_div 1 (_zoom v)) ;;
          let view_pos :=
            (fst (_view_pos v)
             + (fst (_drag_last_pos v) - IZR (fst mouse_pos)) * 100
               * inv_zoom,
             snd (_view_pos v)
             + (snd (_drag_last_pos v) - IZR (snd mouse_pos)) * 100
               * inv_zoom) in
          Done {| _system := set_center (_system v) view_pos;
                  _view_pos := view_pos; _zoom := _zoom v;
                  _drag_view_active := _drag_view_active v;
                  _drag_last_pos := mouse_point mouse_pos;
                  _control_state := _control_state v;
                  _drop_pos := _drop_pos v; _drag_body := _drag_body v |}
        else Done v) ;;
  if ControlState_eqb (_control_state v) STATE_SELECTED then
    px <~ engine (py_div (IZR (fst mouse_pos - centerx view_rect))
                    (SYSTEM_SCALE * _zoom v)) ;;
    py <~ engine (py_div (IZR (snd mouse_pos - centery view_rect))
                    (SYSTEM_SCALE * _zoom v)) ;;
    body <~ the_drag_body v ;;
    Done {| _system := _system v; _view_pos := _view_pos v; _zoom := _zoom v;
            _drag_view_active := _drag_view_active v;
            _drag_last_pos := _drag_last_pos v;
            _control_state := _control_state v;
            _drop_pos := mouse_point mouse_pos;
            _drag_body :=
              Some {| name := name body; mass := mass body;
                      radius := radius body; color := color body;
                      position := (px + fst (_view_pos v),
                                   py + snd (_view_pos v));
                      velocity := velocity body;
                      acceleration := acceleration body |} |}
  else Done v.

(** [RenderView.post_draw] *)
Definition post_draw (v : RenderView) (delta : R) : RenderView :=
  with_system v (move_all (_system v) delta).

(** [RenderView.draw], on a screen of the given size with the mouse at
    [mouse_pos]. *)
Definition RenderView_draw (v : RenderView) (screen_width screen_height : Z)
    (mouse_pos : Z * Z) : UIResult (list DrawCommand) :=
  drawn <~ draw_all (_system v) screen_width screen_height (_view_pos v)
             (_zoom v) mouse_pos ;;
  match _control_state v with
  | STATE_SELECTED =>
      body <~ the_drag_body v ;;
      d <~ draw body screen_width screen_height (_zoom v) (_view_pos v) true ;;
      Done (drawn ++ d)
  | STATE_DROPPED =>
      body <~ the_drag_body v ;;
      d <~ draw body screen_width screen_height (_zoom v) (_view_pos v) false ;;
      Done (drawn ++ d
            ++ [Draw_line [0; 0; 0]%Z (_drop_pos v) (mouse_point mouse_pos) 4;
                Draw_circle [0; 0; 0]%Z (_drop_pos v) 5;
                Draw_circle [0; 0; 0]%Z (mouse_point mouse_pos) 5;
                Draw_line [255; 0; 0]%Z (_drop_pos v) (mouse_point mouse_pos) 2;
                Draw_circle [255; 0; 0]%Z (_drop_pos v) 3;
                Draw_circle [255; 0; 0]%Z (mouse_point mouse_pos) 3])
  | STATE_NONE => Done drawn
  end.

(** The events the layers tell apart, and pygame's numbers of the mouse
    buttons and of the keys. *)
Inductive Event : Type :=
| MOUSEWHEEL (wheel_y : Z)
| MOUSEBUTTONDOWN (button : Z)
| MOUSEBUTTONUP (button : Z)
| KEYDOWN (key : Z) (unicode : string)
| OTHER_EVENT.

Definition BUTTON_LEFT : Z := 1.
Definition BUTTON_MIDDLE : Z := 2.
Definition K_BACKSPACE : Z := 8.
Definition K_RETURN : Z := 13.

(** [RenderView.on_event], with the mouse at [mouse_pos] and
    [pygame_ui.DELTA_TIME_CUR] at [delta_time_cur]: what it returns and the
    view afterwards. *)
Definition on_event (v : RenderView) (event : Event) (rect : Rect)
    (mouse_pos : Z * Z) (delta_time_cur : R) : UIResult (bool * RenderView) :=
  match event with
  | MOUSEWHEEL wheel_y =>
      let zoom := if (0 <? wheel_y)%Z then _zoom v * 0.9 else _zoom v * 1.1 in
      Done (true,
            {| _system := _system v; _view_pos := _view_pos v; _zoom := zoom;
               _drag_view_active := _drag_view_active v;
               _drag_last_pos := _drag_last_pos v;
               _control_state := _control_state v; _drop_pos := _drop_pos v;
               _drag_body := _drag_body v |})
  | MOUSEBUTTONDOWN button =>
      if negb (collidepoint rect mouse_pos) then Done (false, v)
      else if ControlState_eqb (_control_state v) STATE_DROPPED
              && (button =? BUTTON_LEFT)%Z then
        vx <~ engine (py_div ((IZR (fst mouse_pos) - fst (_drop_pos v))
                              * delta_time_cur * 0.1)
                        (SYSTEM_SCALE * _zoom v)) ;;
        vy <~ engine (py_div ((IZR (snd mouse_pos) - snd (_drop_pos v))
                              * delta_time_cur * 0.1)
                        (SYSTEM_SCALE * _zoom v)) ;;
        body <~ the_drag_body v ;;
        let body :=
          {| name := name body; mass := mass body; radius := radius body;
             color := color body; position := position body;
             velocity := (vx, vy); acceleration := acceleration body |} in
        let r := fresh_ref (bodies (_system v)) in
        let p := add_body (with_bodies (_system v) (bodies (_system v))
                             (heap_set (heap (_system v)) r body)) r in
        Done (true,
              {| _system := p; _view_pos := _view_pos v; _zoom := _zoom v;
                 _drag_view_active := _drag_view_active v;
                 _drag_last_pos := _drag_last_pos v;
                 _control_state := STATE_NONE; _drop_pos := _drop_pos v;
                 _drag_body := None |})
      else if (button =? BUTTON_MIDDLE)%Z || (button =? BUTTON_LEFT)%Z then
        Done (true,
              {| _system := _system v; _view_pos := _view_pos v;
                 _zoom := _zoom v; _drag_view_active := true;
                 _drag_last_pos := mouse_point mouse_pos;
                 _control_state := _control_state v; _drop_pos := _drop_pos v;
                 _drag_body := _drag_body v |})
      else Done (false, v)
  | MOUSEBUTTONUP button =>
      if ControlState_eqb (_control_state v) STATE_SELECTED
         && (button =? BUTTON_LEFT)%Z then
        Done (true,
              {| _system := _system v; _view_pos := _view_pos v;
                 _zoom := _zoom v; _drag_view_active := _drag_view_active v;
                 _drag_last_pos := _drag_last_pos v;
                 _control_state := STATE_DROPPED; _drop_pos := _drop_pos v;
                 _drag_body := _drag_body v |})
      else if (button =? BUTTON_MIDDLE)%Z || (button =? BUTTON_LEFT)%Z then
        Done (true,
              {| _system := _system v; _view_pos := _view_pos v;
                 _zoom := _zoom v; _drag_view_active := false;
                 _drag_last_pos := _drag_last_pos v;
                 _control_state := _control_state v; _drop_pos := _drop_pos v;
                 _drag_body := _drag_body v |})
      else Done (false, v)
  | KEYDOWN _ _ => Done (false, v)
  | OTHER_EVENT => Done (false, v)
  end.

(** [ease_in_out] of drawer.py and system_viewer.py *)
Definition ease_in_out (t : R) : R := 3 * t ^ 2 - 2 * t ^ 3.

(** ** drawer.py *)

(** [SYSTEM_FONT], as far as the drawer asks it: the height of a line and the
    width of a rendered text. *)
Class SystemFont : Type := {
  SYSTEM_FONT_get_height : Z;
  SYSTEM_FONT_width : string -> Z
}.

(** [float(s)] and [int(s)] on a string: [None] where Python raises
    ValueError. *)
Class PythonParse : Type := {
  py_float_of : string -> option R;
  py_int_of : string -> option Z
}.

(** [s[:-1]] *)
Fixpoint drop_last (s : string) : string :=
  match s with
  | EmptyString => EmptyString
  | String c EmptyString => EmptyString
  | String c rest => String c (drop_last rest)
  end.

(** [s.split(',')] *)
Fixpoint split_commas (s : string) : list string :=
  match s with
  | EmptyString => [EmptyString]
  | String c rest =>
      if Ascii.eqb c ","%char then EmptyString :: split_commas rest
      else match split_commas rest with
           | field :: fields => String c field :: fields
           | [] => [String c EmptyString]
           end
  end.

(** [parts[i]] *)
Definition item (parts : list string) (i : nat) : UIResult string :=
  match nth_error parts i with
  | Some s => Done s
  | None => Failed IndexError
  end.

(** [int(s)] and [float(s)] *)
Definition py_int_str `{parse : PythonParse} (s : string) : UIResult Z :=
  match py_int_of s with
  | Some n => Done n
  | None => Failed (Py ValueError)
  end.

Definition py_float_str `{parse : PythonParse} (s : string) : UIResult R :=
  match py_float_of s with
  | Some v => Done v
  | None => Failed (Py ValueError)
  end.

(** [try: ... except ValueError: pass], the state being [a] when the
    exception is raised. *)
Definition except_ValueError_pass {A : Type} (m : UIResult A) (a : A)
  : UIResult A :=
  match m with
  | Failed (Py ValueError) => Done a
  | _ => m
  end.

(** [math.fmod(x, y)] for [y] other than zero. *)
Definition math_fmod (x y : R) : R := x - y * IZR (py_int (x / y)).

(** *** BodyPreviewUI *)

(** [BodyPreviewUI].  There is one viewer, passed along with the preview;
    [_system_viewer] tells whether [set_system_viewer] has stored it
    ([None] otherwise). *)
Record BodyPreviewUI : Type := {
  _body : SystemBody;
  _system_viewer : bool
}.

(** [BodyPreviewUI.__init__] *)
Definition BodyPreviewUI_init : BodyPreviewUI :=
  {| _body := SystemBody_init "Earth" 500.972 800 [0; 0; 255]%Z (0, 0) (0, 0);
     _system_viewer := false |}.

(** [BodyPreviewUI.get_body] and [set_body] *)
Definition get_body (p : BodyPreviewUI) : SystemBody := _body p.

Definition set_body (p : BodyPreviewUI) (body : SystemBody) : BodyPreviewUI :=
  {| _body := body; _system_viewer := _system_viewer p |}.

(** [BodyPreviewUI.set_system_viewer] *)
Definition BodyPreviewUI_set_system_viewer (p : BodyPreviewUI)
  : BodyPreviewUI :=
  {| _body := _body p; _system_viewer := true |}.

(** [BodyPreviewUI.on_event], with the mouse at [mouse_pos]: what it returns,
    the preview and the viewer afterwards. *)
Definition BodyPreviewUI_on_event (p : BodyPreviewUI) (viewer : RenderView)
    (event : Event) (rect : Rect) (mouse_pos : Z * Z)
  : UIResult (bool * BodyPreviewUI * RenderView) :=
  match event with
  | MOUSEBUTTONDOWN _ =>
      if collidepoint rect mouse_pos then
        if _system_viewer p then
          let viewer := start_drag_body viewer (_body p) in
          Done (true,
                {| _body :=
                     SystemBody_init (name (_body p)) (mass (_body p))
                       (radius (_body p)) (color (_body p)) (0, 0) (0, 0);
                   _system_viewer := _system_viewer p |},
                viewer)
        else Failed AttributeError
      else Done (false, p, viewer)
  | _ => Done (false, p, viewer)
  end.

(** *** BodyDrawerTextbox *)

Definition LABEL_PADDING : Z := 5.
Definition FIELD_INNER_PADDING : Z := 5.

Record BodyDrawerTextbox : Type := {
  _label : string;
  _hint : string;
  _value : string;
  _focused : bool;
  _focused_counter : R
}.

(** [BodyDrawerTextbox.__init__] *)
Definition BodyDrawerTextbox_init (label hint : string) : BodyDrawerTextbox :=
  {| _label := label; _hint := hint; _value := ""; _focused := false;
     _focused_counter := 0.0 |}.

(** The property [value] and its setter *)
Definition value (t : BodyDrawerTextbox) : string := _value t.

Definition set_value (t : BodyDrawerTextbox) (v : string) : BodyDrawerTextbox :=
  {| _label := _label t; _hint := _hint t; _value := v;
     _focused := _focused t; _focused_counter := _focused_counter t |}.

(** [BodyDrawerTextbox.focus], [unfocus] and [is_focused] *)
Definition focus (t : BodyDrawerTextbox) : BodyDrawerTextbox :=
  {| _label := _label t; _hint := _hint t; _value := _value t;
     _focused := true; _focused_counter := 0.0 |}.

Definition set_focused (t : BodyDrawerTextbox) (state : bool)
  : BodyDrawerTextbox :=
  {| _label := _label t; _hint := _hint t; _value := _value t;
     _focused := state; _focused_counter := _focused_counter t |}.

Definition unfocus (t : BodyDrawerTextbox) : BodyDrawerTextbox :=
  set_focused t false.

Definition is_focused (t : BodyDrawerTextbox) : bool := _focused t.

(** [BodyDrawerTextbox.intersects], with the mouse at [mouse_pos]. *)
Definition BodyDrawerTextbox_intersects `{font : SystemFont}
    (t : BodyDrawerTextbox) (rect : Rect) (mouse_pos : Z * Z) : bool :=
  let text_height := SYSTEM_FONT_get_height in
  let textbox_height := height rect in
  let textbox_height :=
    if (textbox_height =? 0)%Z then text_height else textbox_height in
  let label_width := (SYSTEM_FONT_width (_label t) + LABEL_PADDING * 2)%Z in
  let textbox_height := (textbox_height + FIELD_INNER_PADDING * 2)%Z in
  let textbox_rect :=
    {| x := (x rect + label_width)%Z; y := y rect; width := width rect;
       height := textbox_height |} in
  collidepoint textbox_rect mouse_pos.

(** [BodyDrawerTextbox.draw]: the textbox afterwards.  [clip_collides] is
    [screen.get_clip().colliderect]; the calls that render and blit assign
    no attribute and are left out. *)
Definition BodyDrawerTextbox_draw `{font : SystemFont} (t : BodyDrawerTextbox)
    (delta : R) (rect : Rect) (clip_collides : Rect -> bool)
  : UIResult BodyDrawerTextbox :=
  let text_height := SYSTEM_FONT_get_height in
  let textbox_height := height rect in
  let textbox_height :=
    if (textbox_height =? 0)%Z then text_height else textbox_height in
  let textbox_height := (textbox_height + FIELD_INNER_PADDING * 2)%Z in
  let textbox_rect :=
    {| x := x rect; y := y rect; width := width rect;
       height := textbox_height |} in
  let counted :=
    {| _label := _label t; _hint := _hint t; _value := _value t;
       _focused := _focused t;
       _focused_counter := _focused_counter t + 1 * delta |} in
  if negb (clip_collides textbox_rect) then Done t
  else if negb (String.eqb (_value t) "") then Done counted
  else if negb (String.eqb (_hint t) "") then Done counted
  else if _focused t && Rltb (math_fmod (_focused_counter t) 120) 60.0 then
    (* [text_rect] is read here and was never assigned *)
    Failed UnboundLocalError
  else Done counted.

(** [BodyDrawerTextbox.on_event], with the mouse at [mouse_pos]: what it
    returns and the textbox afterwards. *)
Definition BodyDrawerTextbox_on_event `{font : SystemFont}
    (t : BodyDrawerTextbox) (event : Event) (rect : Rect) (mouse_pos : Z * Z)
  : bool * BodyDrawerTextbox :=
  match event with
  | KEYDOWN key unicode =>
      if _focused t then
        if (key =? K_BACKSPACE)%Z then
          (true, set_value t (drop_last (_value t)))
        else if (key =? K_RETURN)%Z then (true, set_focused t false)
        else (true, set_value t (_value t ++ unicode)%string)
      else (false, t)
  | MOUSEBUTTONDOWN _ =>
      let t := set_focused t (BodyDrawerTextbox_intersects t rect mouse_pos) in
      if _focused t then (true, t) else (false, t)
  | _ => (false, t)
  end.

(** *** BodyDrawerUI *)

Definition DRAWER_CLOSED_X : Z := -490.
Definition DRAWER_OPEN_X : Z := 0.

Record BodyDrawerUI : Type := {
  _presets : list SystemBody;
  _body_preview : BodyPreviewUI;
  _input_name : BodyDrawerTextbox;
  _input_mass : BodyDrawerTextbox;
  _input_radius : BodyDrawerTextbox;
  _input_color : BodyDrawerTextbox;
  _drawer_x_current : Z;
  _drawer_lerping : bool;
  _drawer_lerp : R;
  _drawer_x_begin : Z;
  _drawer_x_end : Z;
  _drawer_closing : bool;
  _drawer_opening : bool
}.

(** [BodyDrawerUI.__init__] *)
Definition BodyDrawerUI_init : BodyDrawerUI :=
  {| _presets := [];
     _input_name := BodyDrawerTextbox_init "Name" "Enter the name of the body";
     _input_mass := BodyDrawerTextbox_init "Mass" "Enter the mass of the body";
     _input_radius :=
       BodyDrawerTextbox_init "Radius" "Enter the radius of the body";
     _input_color :=
       BodyDrawerTextbox_init "Color" "Enter the color of the body";
     _body_preview := BodyPreviewUI_init;
     _drawer_lerp := 0.0; _drawer_x_current := DRAWER_CLOSED_X;
     _drawer_x_begin := 0; _drawer_x_end := 0; _drawer_lerping := false;
     _drawer_closing := false; _drawer_opening := false |}.

(** The drawer with other layers inside. *)
Definition with_layers (d : BodyDrawerUI) (preview : BodyPreviewUI)
    (name_box mass_box radius_box color_box : BodyDrawerTextbox)
  : BodyDrawerUI :=
  {| _presets := _presets d; _body_preview := preview;
     _input_name := name_box; _input_mass := mass_box;
     _input_radius := radius_box; _input_color := color_box;
     _drawer_x_current := _drawer_x_current d;
     _drawer_lerping := _drawer_lerping d; _drawer_lerp := _drawer_lerp d;
     _drawer_x_begin := _drawer_x_begin d; _drawer_x_end := _drawer_x_end d;
     _drawer_closing := _drawer_closing d;
     _drawer_opening := _drawer_opening d |}.

(** [BodyDrawerUI.set_system_viewer] and [set_presets] *)
Definition set_system_viewer (d : BodyDrawerUI) : BodyDrawerUI :=
  with_layers d (BodyPreviewUI_set_system_viewer (_body_preview d))
    (_input_name d) (_input_mass d) (_input_radius d) (_input_color d).

Definition set_presets (d : BodyDrawerUI) (presets : list SystemBody)
  : BodyDrawerUI :=
  {| _presets := presets; _body_preview := _body_preview d;
     _input_name := _input_name d; _input_mass := _input_mass d;
     _input_radius := _input_radius d; _input_color := _input_color d;
     _drawer_x_current := _drawer_x_current d;
     _drawer_lerping := _drawer_lerping d; _drawer_lerp := _drawer_lerp d;
     _drawer_x_begin := _drawer_x_begin d; _drawer_x_end := _drawer_x_end d;
     _drawer_closing := _drawer_closing d;
     _drawer_opening := _drawer_opening d |}.

(** The rectangle [BodyDrawerUI] gives the layer [top] pixels below the top
    of [dyn_rect]. *)
Definition layer_rect (dyn_rect : Rect) (top layer_height : Z) : Rect :=
  {| x := (x dyn_rect + 10)%Z; y := (y dyn_rect + top)%Z;
     width := (width dyn_rect - 20)%Z; height := layer_height |}.

(** The end of [BodyDrawerUI.draw], from "Calculate the drawer position"
    on. *)
Definition drawer_position (d : BodyDrawerUI) (delta : R) (mouse_pos : Z * Z)
  : BodyDrawerUI :=
  let drawer_rect :=
    {| x := _drawer_x_current d; y := 0; width := 500; height := 900 |} in
  let drawer_diff := Rabs (IZR (DRAWER_OPEN_X - DRAWER_CLOSED_X)) in
  let d :=
    if negb (_drawer_opening d) && collidepoint drawer_rect mouse_pos
       && Rltb (_drawer_lerp d) 1.0 then
      {| _presets := _presets d; _body_preview := _body_preview d;
         _input_name := _input_name d; _input_mass := _input_mass d;
         _input_radius := _input_radius d; _input_color := _input_color d;
         _drawer_lerping := true; _drawer_opening := true;
         _drawer_closing := false;
         _drawer_x_begin := DRAWER_CLOSED_X; _drawer_x_end := DRAWER_OPEN_X;
         _drawer_lerp :=
           Rabs (IZR (_drawer_x_current d - DRAWER_CLOSED_X) / drawer_diff);
         _drawer_x_current := _drawer_x_current d |}
    else if negb (_drawer_closing d)
            && negb (collidepoint drawer_rect mouse_pos)
            && Rltb (_drawer_lerp d) 1.0 then
      {| _presets := _presets d; _body_preview := _body_preview d;
         _input_name := _input_name d; _input_mass := _input_mass d;
         _input_radius := _input_radius d; _input_color := _input_color d;
         _drawer_lerping := true; _drawer_opening := false;
         _drawer_closing := true;
         _drawer_x_begin := DRAWER_OPEN_X; _drawer_x_end := DRAWER_CLOSED_X;
         _drawer_lerp :=
           Rabs (IZR (_drawer_x_current d - DRAWER_OPEN_X) / drawer_diff);
         _drawer_x_current := _drawer_x_current d |}
    else d in
  if _drawer_lerping d then
    let x_current :=
      py_int (IZR (_drawer_x_begin d)
              + IZR (_drawer_x_end d - _drawer_x_begin d)
                * ease_in_out (_drawer_lerp d)) in
    let lerp := _drawer_lerp d + 0.02 * delta in
    if Rleb 1.0 lerp then
      {| _presets := _presets d; _body_preview := _body_preview d;
         _input_name := _input_name d; _input_mass := _input_mass d;
         _input_radius := _input_radius d; _input_color := _input_color d;
         _drawer_x_current := x_current; _drawer_lerping := false;
         _drawer_lerp := 0.0; _drawer_x_begin := _drawer_x_begin d;
         _drawer_x_end := _drawer_x_end d;
         _drawer_closing := _drawer_closing d;
         _drawer_opening := _drawer_opening d |}
    else
      {| _presets := _presets d; _body_preview := _body_preview d;
         _input_name := _input_name d; _input_mass := _input_mass d;
         _input_radius := _input_radius d; _input_color := _input_color d;
         _drawer_x_current := x_current; _drawer_lerping := _drawer_lerping d;
         _drawer_lerp := lerp; _drawer_x_begin := _drawer_x_begin d;
         _drawer_x_end := _drawer_x_end d;
         _drawer_closing := _drawer_closing d;
         _drawer_opening := _drawer_opening d |}
  else d.

(** [BodyDrawerUI.draw], with the mouse at [mouse_pos]: the drawer
    afterwards.  The calls that draw assign no attribute and are left out;
    the preview's [draw] assigns none either. *)
Definition BodyDrawerUI_draw `{font : SystemFont} (d : BodyDrawerUI) (delta : R)
    (mouse_pos : Z * Z) (clip_collides : Rect -> bool)
  : UIResult BodyDrawerUI :=
  let dyn_rect :=
    {| x := _drawer_x_current d; y := 0; width := 500; height := 900 |} in
  name_box <~ BodyDrawerTextbox_draw (_input_name d) delta
                (layer_rect dyn_rect 420 30) clip_collides ;;
  mass_box <~ BodyDrawerTextbox_draw (_input_mass d) delta
                (layer_rect dyn_rect 460 30) clip_collides ;;
  radius_box <~ BodyDrawerTextbox_draw (_input_radius d) delta
                  (layer_rect dyn_rect 500 30) clip_collides ;;
  color_box <~ BodyDrawerTextbox_draw (_input_color d) delta
                 (layer_rect dyn_rect 540 30) clip_collides ;;
  let d := with_layers d (_body_preview d) name_box mass_box radius_box
             color_box in
  Done (drawer_position d delta mouse_pos).

(** The body of the preview with another attribute. *)
Definition set_name (b : SystemBody) (nm : string) : SystemBody :=
  {| name := nm; mass := mass b; radius := radius b; color := color b;
     position := position b; velocity := velocity b;
     acceleration := acceleration b |}.

Definition set_mass (b : SystemBody) (m : R) : SystemBody :=
  {| name := name b; mass := m; radius := radius b; color := color b;
     position := position b; velocity := velocity b;
     acceleration := acceleration b |}.

Definition set_radius (b : SystemBody) (r : R) : SystemBody :=
  {| name := name b; mass := mass b; radius := r; color := color b;
     position := position b; velocity := velocity b;
     acceleration := acceleration b |}.

Definition set_color (b : SystemBody) (c : Color) : SystemBody :=
  {| name := name b; mass := mass b; radius := radius b; color := c;
     position := position b; velocity := velocity b;
     acceleration := acceleration b |}.

(** [event.type == KEYDOWN and event.key == K_RETURN] *)
Definition is_return (event : Event) : bool :=
  match event with
  | KEYDOWN key _ => (key =? K_RETURN)%Z
  | _ => false
  end.

(** The [try] statements of [BodyDrawerUI.on_event]: the body of the preview
    after Return in the box of the mass, the radius and the colour. *)
Definition commit_mass `{parse : PythonParse} (body : SystemBody)
    (text : string) : UIResult SystemBody :=
  except_ValueError_pass
    (m <~ py_float_str text ;; Done (set_mass body m)) body.

Definition commit_radius `{parse : PythonParse} (body : SystemBody)
    (text : string) : UIResult SystemBody :=
  except_ValueError_pass
    (r <~ py_float_str text ;; Done (set_radius body r)) body.

Definition commit_color `{parse : PythonParse} (body : SystemBody)
    (text : string) : UIResult SystemBody :=
  except_ValueError_pass
    (let color := split_commas text in
     s0 <~ item color 0 ;; c0 <~ py_int_str s0 ;;
     s1 <~ item color 1 ;; c1 <~ py_int_str s1 ;;
     s2 <~ item color 2 ;; c2 <~ py_int_str s2 ;;
     Done (set_color body [c0; c1; c2])) body.

(** [BodyDrawerUI.on_event], with the mouse at [mouse_pos]: what it returns
    ([None] counting as [False]), the drawer and the viewer afterwards. *)
Definition BodyDrawerUI_on_event `{font : SystemFont} `{parse : PythonParse}
    (d : BodyDrawerUI) (viewer : RenderView) (event : Event) (rect : Rect)
    (mouse_pos : Z * Z) : UIResult (bool * BodyDrawerUI * RenderView) :=
  let dyn_rect :=
    {| x := _drawer_x_current d; y := y rect; width := width rect;
       height := height rect |} in
  r <~ BodyPreviewUI_on_event (_body_preview d) viewer event
         (layer_rect dyn_rect 10 400) mouse_pos ;;
  let '(handled, preview, viewer) := r in
  let d := with_layers d preview (_input_name d) (_input_mass d)
             (_input_radius d) (_input_color d) in
  if handled then Done (true, d, viewer)
  else
    let (handled, name_box) :=
      BodyDrawerTextbox_on_event (_input_name d) event
        (layer_rect dyn_rect 420 30) mouse_pos in
    let d := with_layers d (_body_preview d) name_box (_input_mass d)
               (_input_radius d) (_input_color d) in
    if handled then
      let preview :=
        if is_return event then
          set_body (_body_preview d)
            (set_name (get_body (_body_preview d)) (value (_input_name d)))
        else _body_preview d in
      Done (true,
            with_layers d preview (_input_name d) (_input_mass d)
              (_input_radius d) (_input_color d),
            viewer)
    else
      let (handled, mass_box) :=
        BodyDrawerTextbox_on_event (_input_mass d) event
          (layer_rect dyn_rect 460 30) mouse_pos in
      let d := with_layers d (_body_preview d) (_input_name d) mass_box
                 (_input_radius d) (_input_color d) in
      if handled then
        body <~ (if is_return event then
                   commit_mass (get_body (_body_preview d))
                     (value (_input_mass d))
                 else Done (get_body (_body_preview d))) ;;
        Done (true,
              with_layers d (set_body (_body_preview d) body) (_input_name d)
                (_input_mass d) (_input_radius d) (_input_color d),
              viewer)
      else
        let (handled, radius_box) :=
          BodyDrawerTextbox_on_event (_input_radius d) event
            (layer_rect dyn_rect 500 30) mouse_pos in
        let d := with_layers d (_body_preview d) (_input_name d)
                   (_input_mass d) radius_box (_input_color d) in
        if handled then
          body <~ (if is_return event then
                     commit_radius (get_body (_body_preview d))
                       (value (_input_radius d))
                   else Done (get_body (_body_preview d))) ;;
          Done (true,
                with_layers d (set_body (_body_preview d) body)
                  (_input_name d) (_input_mass d) (_input_radius d)
                  (_input_color d),
                viewer)
        else
          let (handled, color_box) :=
            BodyDrawerTextbox_on_event (_input_color d) event
              (layer_rect dyn_rect 540 30) mouse_pos in
          let d := with_layers d (_body_preview d) (_input_name d)
                     (_input_mass d) (_input_radius d) color_box in
          if handled then
            body <~ (if is_return event then
                       commit_color (get_body (_body_preview d))
                         (value (_input_color d))
                     else Done (get_body (_body_preview d))) ;;
            Done (true,
                  with_layers d (set_body (_body_preview d) body)
                    (_input_name d) (_input_mass d) (_input_radius d)
                    (_input_color d),
                  viewer)
          else Done (false, d, viewer).

(** * Notions the statements use *)

(** ** The quantities of [calc_collision_bias] *)

(** [rel_pos], [rel_vel] and [rel_pos_mag] of the source. *)
Definition rel_pos (self other : SystemBody) : Vec2 :=
  (fst (position self) - fst (position other),
   snd (position self) - snd (position other)).

Definition rel_vel (self other : SystemBody) : Vec2 :=
  (fst (velocity self) - fst (velocity other),
   snd (velocity self) - snd (velocity other)).

Definition rel_pos_mag (self other : SystemBody) : R :=
  fst (rel_pos self other) ^ 2 + snd (rel_pos self other) ^ 2.

(** [intersection]: the depth by which the two discs overlap. *)
Definition intersection (self other : SystemBody) : R :=
  radius self + radius other - sqrt (rel_pos_mag self other).

(** [col_normal]: the relative position over its squared magnitude. *)
Definition col_normal (self other : SystemBody) : Vec2 :=
  (fst (rel_pos self other) / rel_pos_mag self other,
   snd (rel_pos self other) / rel_pos_mag self other).

(** [rel_vel_n]: the relative velocity along [col_normal]. *)
Definition rel_vel_n (self other : SystemBody) : R :=
  fst (rel_vel self other) * fst (col_normal self other)
  + snd (rel_vel self other) * snd (col_normal self other).

(** The magnitude of a vector. *)
Definition norm (v : Vec2) : R := sqrt (fst v ^ 2 + snd v ^ 2).

(** The record [calc_collision_bias] returns when it returns one. *)
Definition collision_info (self other : SystemBody) : CollisionInfo :=
  {| granularity := 10;
     bias := mass self / (mass self + mass other);
     impulse :=
       -2 * rel_vel_n self other / (1 / mass self + 1 / mass other)
       * (mass other / mass self) * COLLISION_DAMPENING / SYSTEM_SCALE;
     reflect_dir :=
       (- (fst (rel_vel self other) / norm (rel_vel self other))
        + 2 * rel_vel_n self other * fst (col_normal self other),
        - (snd (rel_vel self other) / norm (rel_vel self other))
        + 2 * rel_vel_n self other * snd (col_normal self other)) |}.

(** [dist_sqr] of [calc_gravity_at_point], after the [max]. *)
Definition floored_dist_sqr (self : SystemBody) (point : Vec2) : R :=
  py_max ((fst point - fst (position self)) ^ 2
          + (snd point - snd (position self)) ^ 2)
         (radius self ^ 2).

(** ** The first loop of [update_system], in closed form *)

(** Two bodies that differ in their acceleration at most. *)
Definition same_but_acceleration (a b : SystemBody) : Prop :=
  name a = name b /\ mass a = mass b /\ radius a = radius b /\
  color a = color b /\ position a = position b /\ velocity a = velocity b.

Definition heaps_agree (h h' : Heap) : Prop :=
  forall r, same_but_acceleration (h r) (h' r).

(** [accel_vector]: what [affector] adds to the acceleration of [affected]. *)
Definition gravity_vector (affected affector : SystemBody) : Vec2 :=
  let acceleration :=
    GRAVITY_CONSTANT * mass affector
    / ((fst (position affector) - fst (position affected)) ^ 2
       + (snd (position affector) - snd (position affected)) ^ 2) in
  let affect_angle :=
    math_atan2 (snd (position affected) - snd (position affector))
               (fst (position affected) - fst (position affector)) in
  (- acceleration * cos affect_angle, - acceleration * sin affect_angle).

Definition vadd (u v : Vec2) : Vec2 := (fst u + fst v, snd u + snd v).

(** What the inner loop records for the body [i] and one affector [j]. *)
Definition detected_one (h : Heap) (i j : Ref) : list (Ref * CollisionInfo) :=
  if Nat.eqb i j then []
  else match calc_collision_bias (h i) (h j) with
       | Ok (Some ci) => [(j, ci)]
       | _ => []
       end.

(** The affectors the inner loop records for [i] over the bodies [l]. *)
Definition detected (h : Heap) (i : Ref) (l : list Ref)
  : list (Ref * CollisionInfo) :=
  flat_map (detected_one h i) l.

(** The acceleration of [i] after the inner loop over [l]. *)
Definition gravity_total (h : Heap) (i : Ref) (l : list Ref) (acc : Vec2)
  : Vec2 :=
  fold_left
    (fun acc j =>
       if Nat.eqb i j then acc else vadd acc (gravity_vector (h i) (h j)))
    l acc.

(** The pair [(i, j)] raises nothing in the inner loop. *)
Definition pair_ok (h : Heap) (i j : Ref) : Prop :=
  (exists a, calc_gravity_acceleration (h i) (h j) = Ok a) /\
  (exists o, calc_collision_bias (h i) (h j) = Ok o).

(** No pair of a body of [l] with another body of [all] raises. *)
Definition pairs_ok (h : Heap) (all l : list Ref) : Prop :=
  Forall (fun i => Forall (fun j => j <> i -> pair_ok h i j) all) l.

(** The update record of [i] when the second loop starts. *)
Definition update_info_of (h : Heap) (i : Ref)
    (affs : list (Ref * CollisionInfo)) : UpdateInfo :=
  {| new_color := color (h i); new_mass := mass (h i);
     new_radius := radius (h i); new_position := position (h i);
     due_acceleration := (0, 0); affectors := affs; affected := i |}.

Definition pending_one (h : Heap) (all : list Ref) (i : Ref)
  : list UpdateInfo :=
  match detected h i all with
  | [] => []
  | d => [update_info_of h i d]
  end.

(** [pending_updates] after the first loop over [l]. *)
Definition pending_of (h : Heap) (all l : list Ref) : list UpdateInfo :=
  flat_map (pending_one h all) l.

(** The acceleration of [r] after the first loop over [l]. *)
Definition accel_after (h : Heap) (all l : list Ref) (r : Ref) (acc : Vec2)
  : Vec2 :=
  fold_left
    (fun acc i => if Nat.eqb r i then gravity_total h r all acc else acc)
    l acc.

(** The heap after the first loop: accelerations have gravity added. *)
Definition heap_after_gravity (p : SystemBodyPool) : Heap :=
  fun r => set_acceleration (heap p r)
             (accel_after (heap p) (bodies p) (bodies p) r
                (acceleration (heap p r))).

(** ** The second loop: what a resolution may hold *)

(** Every body of a merge pair is claimed in [bodies_to_merge]. *)
Definition merge_closed (res : Resolution) : Prop :=
  forall b1 b2, In (b1, b2) (body_merge_info res) ->
    In b1 (bodies_to_merge res) /\ In b2 (bodies_to_merge res).

(** The resolution names bodies of [refs] only. *)
Definition within (refs : list Ref) (res : Resolution) : Prop :=
  incl (bodies_to_remove res) refs /\ incl (bodies_to_merge res) refs /\
  forall b1 b2, In (b1, b2) (body_merge_info res) -> In b1 refs /\ In b2 refs.

(** The three collections only grow. *)
Definition grows (res res' : Resolution) : Prop :=
  incl (bodies_to_remove res) (bodies_to_remove res') /\
  incl (bodies_to_merge res) (bodies_to_merge res') /\
  incl (body_merge_info res) (body_merge_info res').

(** The invariant of the inner loop for the update of [a]. *)
Definition inner_inv (refs : list Ref) (res0 : Resolution) (a : Ref)
    (affs : list (Ref * CollisionInfo)) (s : Resolution * UpdateInfo) : Prop :=
  grows res0 (fst s) /\ affected (snd s) = a /\ affectors (snd s) = affs /\
  (merge_closed res0 -> merge_closed (fst s)) /\
  (within refs res0 -> within refs (fst s)).

(** The pending updates name bodies of [refs] only. *)
Definition pending_within (refs : list Ref) (pend : list UpdateInfo) : Prop :=
  forall u, In u pend ->
    In (affected u) refs /\ forall p, In p (affectors u) -> In (fst p) refs.

(** The update record after a partial transfer that blends to [c]. *)
Definition after_transfer (h : Heap) (u : UpdateInfo) (j : Ref)
    (ci : CollisionInfo) (c : Color) : UpdateInfo :=
  {| new_color := c;
     new_mass := new_mass u * bias ci + mass (h j) * (1 - bias ci);
     new_radius := new_radius u * bias ci + radius (h j) * (1 - bias ci);
     new_position := new_position u;
     due_acceleration :=
       (fst (due_acceleration u) + impulse ci * fst (reflect_dir ci),
        snd (due_acceleration u) + impulse ci * snd (reflect_dir ci));
     affectors := affectors u;
     affected := affected u |}.

(** ** The phases of a tick *)

(** What the second loop has decided when it ends. *)
Definition tick_resolution `{pg : PygameColor} (p : SystemBodyPool)
  : Result Resolution :=
  '(h, pending_updates) <- collect_updates p ;;
  '(res, _) <- resolve_updates h pending_updates ;;
  Ok res.

(** The heap the merge loop reads: after the commit loop. *)
Definition tick_committed `{pg : PygameColor} (p : SystemBodyPool)
  : Result Heap :=
  '(h, pending_updates) <- collect_updates p ;;
  '(res, pending_updates) <- resolve_updates h pending_updates ;;
  Ok (apply_updates (bodies_to_merge res) pending_updates h).

(** The body [merged_body] builds when the colours blend to [c]. *)
Definition merged_of (body1 body2 : SystemBody) (c : Color) : SystemBody :=
  {| name := (name body1 ++ "_" ++ name body2)%string;
     mass := mass body1 + mass body2;
     radius := radius body1 + radius body2;
     color := c;
     position :=
       ((fst (position body1) * mass body1 + fst (position body2) * mass body2)
        / (mass body1 + mass body2),
        (snd (position body1) * mass body1 + snd (position body2) * mass body2)
        / (mass body1 + mass body2));
     velocity :=
       ((fst (velocity body1) * mass body1 + fst (velocity body2) * mass body2)
        / (mass body1 + mass body2),
        (snd (velocity body1) * mass body1 + snd (velocity body2) * mass body2)
        / (mass body1 + mass body2));
     acceleration := (0, 0) |}.

(** The physical state of a body: everything but its name. *)
Definition physics (b : SystemBody) : R * R * Color * Vec2 * Vec2 * Vec2 :=
  (mass b, radius b, color b, position b, velocity b, acceleration b).

(** The bodies of a pool, as physical states in pool order. *)
Definition outcome (p : SystemBodyPool)
  : list (R * R * Color * Vec2 * Vec2 * Vec2) :=
  map (fun r => physics (heap p r)) (bodies p).

(** ** The heatmap *)

(** One value taken into the running [(accel_max, accel_min)]. *)
Definition absorb (acc : R * R) (value : R) : R * R :=
  (py_max (fst acc) value, py_min (snd acc) value).

(** The intensity [create_heatmap_surface] gives the single cell of a grid
    whose value tops the initial minimum. *)
Definition lone_cell_intensity (v : R) : Z :=
  let data_range := ln (v / 1e20) in
  py_int ((ln v / data_range - 1e20 / data_range)
          / (v / data_range - 1e20 / data_range) * 255).

(** ** Forces and momenta *)

(** The mass-weighted sum of the accelerations of the bodies [l]. *)
Definition net_force (h : Heap) (l : list Ref) : Vec2 :=
  fold_right
    (fun r f => (mass (h r) * fst (acceleration (h r)) + fst f,
                 mass (h r) * snd (acceleration (h r)) + snd f))
    (0, 0) l.

(** The bodies of [l] have positive masses and sit at different places. *)
Definition well_placed (h : Heap) (l : list Ref) : Prop :=
  (forall i, In i l -> 0 < mass (h i)) /\
  (forall i j, In i l -> In j l -> i <> j -> position (h i) <> position (h j)).

(** pygame's colour conversions raise nothing. *)
Definition colours_total (pg : PygameColor) : Prop :=
  (forall c, exists v, Color_hsva c = Ok v) /\
  (forall t, exists c, Color_of_hsva t = Ok c).

(** The sum of a list of reals. *)
Definition Rsum (l : list R) : R := fold_right Rplus 0 l.

(** The merge pairs have different first bodies, and one of the bodies they
    name comes second only. *)
Definition claims_once (res : Resolution) : Prop :=
  NoDup (map fst (body_merge_info res)) /\
  (body_merge_info res <> [] ->
   exists a j, In (a, j) (body_merge_info res)
               /\ ~ In j (map fst (body_merge_info res))).

(** ** The heatmap, cell by cell *)

(** The world point [update_heatmap] samples for the screen point
    [(xv, yv)]. *)
Definition sample_point (scale : R) (view_rect : Rect) (xv yv : Z) : Vec2 :=
  (IZR (xv - width view_rect / 2) / (SYSTEM_SCALE * scale) + IZR (x view_rect),
   IZR (yv - height view_rect / 2) / (SYSTEM_SCALE * scale) + IZR (y view_rect)).

(** The summed force of the bodies [all] at [point]. *)
Definition field_at (h : Heap) (all : list Ref) (point : Vec2) : R :=
  Rsum (map (fun body => GRAVITY_CONSTANT / floored_dist_sqr (h body) point) all).

(** The force at the surface of each body, summed. *)
Definition surface_field (h : Heap) (all : list Ref) : R :=
  Rsum (map (fun body => GRAVITY_CONSTANT / radius (h body) ^ 2) all).

(** The screen ordinates (abscissae) the heatmap samples. *)
Definition sample_rows (view_rect : Rect) : list Z :=
  py_range (HEATMAP_CELL_SIZE / 2)
    (height view_rect + HEATMAP_CELL_SIZE / 2) HEATMAP_CELL_SIZE.

Definition sample_columns (view_rect : Rect) : list Z :=
  py_range (HEATMAP_CELL_SIZE / 2)
    (width view_rect + HEATMAP_CELL_SIZE / 2) HEATMAP_CELL_SIZE.

(** The intensity [create_heatmap_surface] gives a cell of value [v] when
    the extrema are [accel_max] and [accel_min]. *)
Definition cell_intensity (accel_max accel_min v : R) : Z :=
  py_int ((ln v - accel_min) / (accel_max - accel_min) * 255).

(** The rectangles drawn for a grid, row by row. *)
Definition drawn_cells (accel_max accel_min : R) (grid : list (list R))
  : Surface :=
  List.concat
    (map (fun yrow =>
            map (fun xvalue =>
                   {| rect_left := fst xvalue * HEATMAP_CELL_SIZE;
                      rect_top := fst yrow * HEATMAP_CELL_SIZE;
                      rect_w := HEATMAP_CELL_SIZE; rect_h := HEATMAP_CELL_SIZE;
                      rect_intensity :=
                        cell_intensity accel_max accel_min (snd xvalue) |})
                (enumerate (snd yrow)))
       (enumerate grid)).

(** ** The circle of [_circlepoints] *)

(** Every list the cache holds is the one [_circlepoints] computes. *)
Definition cache_sound (cache : CircleCache) : Prop :=
  forall r points, cache r = Some points -> points = circle_points r.

(** The order of Python on pairs of integers, strictly. *)
Definition pair_lt (p q : Z * Z) : Prop :=
  (fst p < fst q)%Z \/ (fst p = fst q /\ snd p < snd q)%Z.

(** What the loop has established when it appends [(x, y)] for the radius
    [r]: [e] tracks the distance to the circle. *)
Definition loop_inv (r x y e : Z) : Prop :=
  (e = x * x + y * y - r * r + 1 - x /\ 0 <= y /\ x <= r /\
   1 - 2 * x <= e /\ e <= 2 * y + 1)%Z.

(** A point of the first octant near the circle of radius [r]. *)
Definition octant_point (r : Z) (p : Z * Z) : Prop :=
  (0 <= snd p <= fst p /\ fst p <= r /\
   r * r - fst p <= fst p * fst p + snd p * snd p
   /\ fst p * fst p + snd p * snd p <= r * r + fst p + 2 * snd p)%Z.

(** ** The viewer *)

(** The view can take any call: the zoom is positive, and a body is held
    whenever the control state says so. *)
Definition viewer_ready (v : RenderView) : Prop :=
  0 < _zoom v /\ (_control_state v <> STATE_NONE -> _drag_body v <> None).

(** The rectangle [pre_draw] hands to the heatmap. *)
Definition heatmap_view `{pr : PygameRect} (v : RenderView) : Rect :=
  {| x := Rect_coordinate (fst (_view_pos v));
     y := Rect_coordinate (snd (_view_pos v));
     width := 1600; height := 900 |}.

(** The calls the application makes on the view. *)
Inductive ViewerCall : Type :=
| Call_set_system (system : SystemBodyPool)
| Call_start_drag_body (body : SystemBody)
| Call_toggle_heatmap (state : bool)
| Call_on_event (event : Event) (rect : Rect) (mouse_pos : Z * Z)
    (delta_time_cur : R)
| Call_pre_draw (delta : R) (view_rect : Rect) (mouse_pos : Z * Z)
| Call_post_draw (delta : R).

Definition viewer_call `{pg : PygameColor} `{pr : PygameRect} (v : RenderView)
    (c : ViewerCall) : UIResult RenderView :=
  match c with
  | Call_set_system system => Done (set_system v system)
  | Call_start_drag_body body => Done (start_drag_body v body)
  | Call_toggle_heatmap state => Done (RenderView_toggle_heatmap v state)
  | Call_on_event event rect mouse_pos delta_time_cur =>
      r <~ on_event v event rect mouse_pos delta_time_cur ;; Done (snd r)
  | Call_pre_draw delta view_rect mouse_pos =>
      pre_draw v delta view_rect mouse_pos
  | Call_post_draw delta => Done (post_draw v delta)
  end.

Fixpoint viewer_run `{pg : PygameColor} `{pr : PygameRect} (v : RenderView)
    (calls : list ViewerCall) : UIResult RenderView :=
  match calls with
  | [] => Done v
  | c :: rest => v' <~ viewer_call v c ;; viewer_run v' rest
  end.

(** Where [draw] centres what it draws of a body. *)
Definition screen_position (body : SystemBody) (screen_width screen_height : Z)
    (zoom : R) (centre : Vec2) : Vec2 :=
  ((fst (position body) - fst centre) * SYSTEM_SCALE * zoom
   + IZR screen_width / 2,
   (snd (position body) - snd centre) * SYSTEM_SCALE * zoom
   + IZR screen_height / 2).

(** The centre of a drawing command, when it has one. *)
Definition centred_at (at_point : Vec2) (c : DrawCommand) : Prop :=
  match c with
  | Draw_info _ q _ => q = at_point
  | Draw_circle _ q _ => q = at_point
  | _ => True
  end.

(** The radius [draw] gives the disc of a body. *)
Definition screen_radius (body : SystemBody) (zoom : R) : R :=
  radius body * SYSTEM_SCALE * zoom.

(** The point one screen to the right of and below [mouse_pos] lies in the
    disc drawn for [body]. *)
Definition disc_holds_shifted_mouse (body : SystemBody)
    (screen_width screen_height : Z) (zoom : R) (view_pos : Vec2)
    (mouse_pos : Z * Z) : bool :=
  let sp := screen_position body screen_width screen_height zoom view_pos in
  Rleb ((fst sp - (IZR (fst mouse_pos) + IZR screen_width)) ^ 2
        + (snd sp - (IZR (snd mouse_pos) + IZR screen_height)) ^ 2)
       (screen_radius body zoom ^ 2).

(** The disc drawn for [body] is a true disc and crosses neither the right
    nor the lower edge of the screen. *)
Definition clear_of_far_edges (body : SystemBody)
    (screen_width screen_height : Z) (zoom : R) (view_pos : Vec2) : Prop :=
  let sp := screen_position body screen_width screen_height zoom view_pos in
  screen_radius body zoom <> 0 /\
  fst sp + Rabs (screen_radius body zoom) <= IZR screen_width /\
  snd sp + Rabs (screen_radius body zoom) <= IZR screen_height.

Definition is_Draw_info (c : DrawCommand) : bool :=
  match c with
  | Draw_info _ _ _ => true
  | _ => false
  end.

(** ** The drawer *)

(** What the frames keep of the drawer: it is on its track, the progress of
    the movement is in [0, 1), and a movement runs between the two ends. *)
Definition drawer_on_track (d : BodyDrawerUI) : Prop :=
  (DRAWER_CLOSED_X <= _drawer_x_current d <= DRAWER_OPEN_X)%Z /\
  0 <= _drawer_lerp d < 1 /\
  (_drawer_lerping d = true ->
   (_drawer_x_begin d = DRAWER_CLOSED_X /\ _drawer_x_end d = DRAWER_OPEN_X) \/
   (_drawer_x_begin d = DRAWER_OPEN_X /\ _drawer_x_end d = DRAWER_CLOSED_X)).

(** Every box of the drawer has a hint to show. *)
Definition hints_given (d : BodyDrawerUI) : Prop :=
  _hint (_input_name d) <> ""%string /\ _hint (_input_mass d) <> ""%string /\
  _hint (_input_radius d) <> ""%string /\ _hint (_input_color d) <> ""%string.

(** [d'] is [d] with other layers, whose boxes kept their hints. *)
Definition relayered (d d' : BodyDrawerUI) : Prop :=
  exists preview name_box mass_box radius_box color_box,
    d' = with_layers d preview name_box mass_box radius_box color_box /\
    _hint name_box = _hint (_input_name d) /\
    _hint mass_box = _hint (_input_mass d) /\
    _hint radius_box = _hint (_input_radius d) /\
    _hint color_box = _hint (_input_color d).

(** The calls the application makes on the drawer. *)
Inductive DrawerCall : Type :=
| Call_set_system_viewer
| Call_set_presets (presets : list SystemBody)
| Call_drawer_draw (delta : R) (mouse_pos : Z * Z)
    (clip_collides : Rect -> bool)
| Call_drawer_on_event (event : Event) (rect : Rect) (mouse_pos : Z * Z).

Definition drawer_call `{font : SystemFont} `{parse : PythonParse}
    (s : BodyDrawerUI * RenderView) (c : DrawerCall)
  : UIResult (BodyDrawerUI * RenderView) :=
  match c with
  | Call_set_system_viewer => Done (set_system_viewer (fst s), snd s)
  | Call_set_presets presets => Done (set_presets (fst s) presets, snd s)
  | Call_drawer_draw delta mouse_pos clip_collides =>
      d <~ BodyDrawerUI_draw (fst s) delta mouse_pos clip_collides ;;
      Done (d, snd s)
  | Call_drawer_on_event event rect mouse_pos =>
      r <~ BodyDrawerUI_on_event (fst s) (snd s) event rect mouse_pos ;;
      Done (snd (fst r), snd r)
  end.

Fixpoint drawer_run `{font : SystemFont} `{parse : PythonParse}
    (s : BodyDrawerUI * RenderView) (calls : list DrawerCall)
  : UIResult (BodyDrawerUI * RenderView) :=
  match calls with
  | [] => Done s
  | c :: rest => s' <~ drawer_call s c ;; drawer_run s' rest
  end.

(** The time step of a call, where it has one. *)
Definition call_delta (c : DrawerCall) : R :=
  match c with
  | Call_drawer_draw delta _ _ => delta
  | _ => 0
  end.

(** Key strokes in a textbox, one event each. *)
Definition type_keys `{font : SystemFont} (t : BodyDrawerTextbox)
    (keys : list (Z * string)) (rect : Rect) (mouse_pos : Z * Z)
  : BodyDrawerTextbox :=
  fold_left
    (fun t k =>
       snd (BodyDrawerTextbox_on_event t (KEYDOWN (fst k) (snd k)) rect
              mouse_pos))
    keys t.

(** A key that types one character. *)
Definition types_a_character (k : Z * string) : Prop :=
  fst k <> K_BACKSPACE /\ fst k <> K_RETURN /\ String.length (snd k) = 1%nat.

(** The drawer after Return in the box of the colour, the body of the
    preview being [body]. *)
Definition color_entered (d : BodyDrawerUI) (body : SystemBody)
  : BodyDrawerUI :=
  with_layers d (set_body (_body_preview d) body) (_input_name d)
    (_input_mass d) (_input_radius d) (set_focused (_input_color d) false).

Definition is_None {A : Type} (o : option A) : bool :=
  match o with
  | None => true
  | Some _ => false
  end.

(** * Concrete pools *)

(** An instance of pygame's conversions to run the model on concrete pools:
    total, and the conversions of a grey [[c; c; c]] (hue 0, saturation 0,
    value [c * 100 / 255]).  The general statements hold for every
    instance. *)
Definition grey_pygame : PygameColor :=
  {| Color_hsva := fun c => Ok (0, 0, IZR (hd 0%Z c) * 100 / 255, 100);
     Color_of_hsva := fun hsv =>
       let c := py_int (snd hsv * 255 / 100) in Ok [c; c; c; 255%Z] |}.

(** The colour [calc_blended_color] gives under [grey_pygame]. *)
Definition grey_blend (a b : SystemBody) (bias : R) : Color :=
  let v := IZR (hd 0%Z (color a)) * 100 / 255 * bias
           + IZR (hd 0%Z (color b)) * 100 / 255 * (1 - bias) in
  let c := py_int (v * 255 / 100) in [c; c; c; 255%Z].

(** ** Two bodies at rest: A (mass 1000, radius 50) at the origin and
    B (mass 10, radius 5) at (52, 0), overlapping by 3. *)
Definition body_A : SystemBody :=
  SystemBody_init "A" 1000 50 [255; 255; 255]%Z (0, 0) (0, 0).

Definition body_B : SystemBody :=
  SystemBody_init "B" 10 5 [128; 128; 128]%Z (52, 0) (0, 0).

Definition scenario_heap : Heap :=
  fun r => match r with O => body_A | _ => body_B end.

Definition scenario_pool : SystemBodyPool :=
  add_body (add_body (SystemBodyPool_init scenario_heap) 0%nat) 1%nat.

(** ** A light body running into a heavy one: the Moon (mass 1) moves at
    speed 1 towards the Sun (mass 100) at rest; the discs overlap by 2. *)
Definition sun : SystemBody :=
  SystemBody_init "Sun" 100 6 [255; 255; 255]%Z (0, 0) (0, 0).

Definition moon : SystemBody :=
  SystemBody_init "Moon" 1 6 [128; 128; 128]%Z (10, 0) (-1, 0).

Definition head_on_heap : Heap :=
  fun r => match r with O => sun | _ => moon end.

Definition head_on_pool : SystemBodyPool :=
  add_body (add_body (SystemBodyPool_init head_on_heap) 0%nat) 1%nat.

(** Its pending updates and the resolution of its tick. *)
Definition head_on_updates : list UpdateInfo :=
  [update_info_of head_on_heap 0%nat [(1%nat, collision_info sun moon)];
   update_info_of head_on_heap 1%nat [(0%nat, collision_info moon sun)]].

Definition head_on_resolution : Resolution :=
  {| bodies_to_remove := [1%nat]; bodies_to_merge := [0%nat; 1%nat];
     body_merge_info := [(0%nat, 1%nat)] |}.

(** ** Three bodies closing in on one line: X (mass 3) at rest between
    Y (mass 2) coming from the left and Z (mass 1) coming from the right;
    all three discs overlap. *)
Definition body_X : SystemBody :=
  SystemBody_init "X" 3 2 [255; 255; 255]%Z (0, 0) (0, 0).

Definition body_Y : SystemBody :=
  SystemBody_init "Y" 2 2 [128; 128; 128]%Z (-1, 0) (1, 0).

Definition body_Z : SystemBody :=
  SystemBody_init "Z" 1 2 [64; 64; 64]%Z (1, 0) (-1, 0).

Definition triple_heap : Heap :=
  fun r => match r with O => body_X | S O => body_Y | _ => body_Z end.

(** The pool lists X, Y, Z. *)
Definition triple_pool : SystemBodyPool :=
  add_body
    (add_body (add_body (SystemBodyPool_init triple_heap) 0%nat) 1%nat) 2%nat.

(** The same bodies, listed Y, Z, X. *)
Definition triple_pool_rotated : SystemBodyPool :=
  add_body
    (add_body (add_body (SystemBodyPool_init triple_heap) 1%nat) 2%nat) 0%nat.

Definition triple_updates : list UpdateInfo :=
  [update_info_of triple_heap 0%nat
     [(1%nat, collision_info body_X body_Y);
      (2%nat, collision_info body_X body_Z)];
   update_info_of triple_heap 1%nat
     [(0%nat, collision_info body_Y body_X);
      (2%nat, collision_info body_Y body_Z)];
   update_info_of triple_heap 2%nat
     [(0%nat, collision_info body_Z body_X);
      (1%nat, collision_info body_Z body_Y)]].

Definition triple_rotated_updates : list UpdateInfo :=
  [update_info_of triple_heap 1%nat
     [(2%nat, collision_info body_Y body_Z);
      (0%nat, collision_info body_Y body_X)];
   update_info_of triple_heap 2%nat
     [(1%nat, collision_info body_Z body_Y);
      (0%nat, collision_info body_Z body_X)];
   update_info_of triple_heap 0%nat
     [(1%nat, collision_info body_X body_Y);
      (2%nat, collision_info body_X body_Z)]].

Definition triple_resolution : Resolution :=
  {| bodies_to_remove := []; bodies_to_merge := [0; 1; 2]%nat;
     body_merge_info := [(0, 1); (2, 0)]%nat |}.

Definition triple_rotated_resolution : Resolution :=
  {| bodies_to_remove := []; bodies_to_merge := [1; 2; 0]%nat;
     body_merge_info := [(1, 2); (0, 1)]%nat |}.

(** ** Dust between a giant and a pebble: the dust (mass 1) rests between
    the giant (mass 100) coming from the left and the pebble (mass 1) coming
    from the right; all three discs overlap. *)
Definition dust : SystemBody :=
  SystemBody_init "dust" 1 2 [255; 255; 255]%Z (0, 0) (0, 0).

Definition giant : SystemBody :=
  SystemBody_init "giant" 100 2 [128; 128; 128]%Z (-1, 0) (1, 0).

Definition pebble : SystemBody :=
  SystemBody_init "pebble" 1 2 [64; 64; 64]%Z (1, 0) (-1, 0).

Definition crowd_heap : Heap :=
  fun r => match r with O => dust | S O => giant | _ => pebble end.

(** The pool lists the dust, the giant, the pebble. *)
Definition crowd_pool : SystemBodyPool :=
  add_body
    (add_body (add_body (SystemBodyPool_init crowd_heap) 0%nat) 1%nat) 2%nat.

Definition crowd_updates : list UpdateInfo :=
  [update_info_of crowd_heap 0%nat
     [(1%nat, collision_info dust giant); (2%nat, collision_info dust pebble)];
   update_info_of crowd_heap 1%nat
     [(0%nat, collision_info giant dust); (2%nat, collision_info giant pebble)];
   update_info_of crowd_heap 2%nat
     [(0%nat, collision_info pebble dust); (1%nat, collision_info pebble giant)]].

Definition crowd_resolution : Resolution :=
  {| bodies_to_remove := [0; 2]%nat; bodies_to_merge := [0; 2; 1]%nat;
     body_merge_info := [(0, 2); (1, 0)]%nat |}.

(** ** Two bodies dropped on the same spot. *)
Definition twin_a : SystemBody :=
  SystemBody_init "a" 5 1 [255; 255; 255]%Z (3, 4) (0, 0).

Definition twin_b : SystemBody :=
  SystemBody_init "b" 5 1 [255; 255; 255]%Z (3, 4) (1, 0).

Definition twin_heap : Heap :=
  fun r => match r with O => twin_a | _ => twin_b end.

Definition twin_pool : SystemBodyPool :=
  add_body (add_body (SystemBodyPool_init twin_heap) 0%nat) 1%nat.

(** ** A body of radius 2 at the origin. *)
Definition planet : SystemBody :=
  SystemBody_init "planet" 1 2 [255; 255; 255]%Z (0, 0) (0, 0).

(** ** Pools whose heatmap is due for a refresh *)

(** No body yet, under the viewport of the screen. *)
Definition empty_pool : SystemBodyPool :=
  {| bodies := []; heap := fun _ => body_A; center := (0, 0); _heatmap := [];
     _heatmap_active := true; _heatmap_update_time := 15.0;
     _heatmap_surface := None |}.

Definition screen_view : Rect :=
  {| x := 0; y := 0; width := 1600; height := 900 |}.

(** A body a nanometre wide, under a viewport of one cell centred on it. *)
Definition speck : SystemBody :=
  SystemBody_init "speck" 1 1e-9 [255; 255; 255]%Z (0, 0) (0, 0).

Definition speck_pool : SystemBodyPool :=
  {| bodies := [0%nat]; heap := fun _ => speck; center := (0, 0);
     _heatmap := []; _heatmap_active := true; _heatmap_update_time := 15.0;
     _heatmap_surface := None |}.

Definition one_cell_view : Rect :=
  {| x := 0; y := 0; width := 10; height := 10 |}.

(** ** A pair that bounces: a body of mass 30 falls at speed 1 on a body of
    mass 20 at rest right below it; the discs overlap by 1. *)
Definition falling : SystemBody :=
  SystemBody_init "falling" 30 1 [255; 255; 255]%Z (0, 1) (0, -1).

Definition resting : SystemBody :=
  SystemBody_init "resting" 20 1 [128; 128; 128]%Z (0, 0) (0, 0).

Definition bounce_heap : Heap :=
  fun r => match r with O => falling | _ => resting end.

Definition bounce_pool : SystemBodyPool :=
  add_body (add_body (SystemBodyPool_init bounce_heap) 0%nat) 1%nat.

(** ** Views *)

(** An instance of pygame's conversion of a rectangle's coordinates, to run
    the viewer on concrete views: truncation.  The general statements hold for
    every instance. *)
Definition int_rect : PygameRect := {| Rect_coordinate := py_int |}.

(** A planet alone in the pool. *)
Definition planet_pool : SystemBodyPool :=
  add_body (SystemBodyPool_init (fun _ => planet)) 0%nat.

(** A view of an empty pool without heatmap, then holding a planet. *)
Definition plain_view : RenderView :=
  RenderView_toggle_heatmap (RenderView_init (fun _ => planet)) false.

Definition holding_view : RenderView := start_drag_body plain_view planet.

(** The calls of picking a body and releasing the button. *)
Definition pick_and_release : list ViewerCall :=
  [Call_toggle_heatmap false; Call_start_drag_body planet;
   Call_on_event (MOUSEBUTTONUP BUTTON_LEFT) screen_view (1000, 300)%Z 1].

(** The view holding the planet, released. *)
Definition released_view : RenderView :=
  {| _system := toggle_heatmap (SystemBodyPool_init (fun _ => planet)) false;
     _view_pos := (0.0, 0.0); _zoom := 1.0; _drag_view_active := false;
     _drag_last_pos := (0.0, 0.0); _control_state := STATE_DROPPED;
     _drop_pos := (0.0, 0.0); _drag_body := Some planet |}.

(** ** Drawers *)

(** Instances to run the drawer on concrete texts: a font ten pixels wide per
    character, and the reading of plain decimal numerals, on which it agrees
    with [int] and [float].  The general statements hold for every
    instance. *)
Definition fixed_font : SystemFont :=
  {| SYSTEM_FONT_get_height := 20;
     SYSTEM_FONT_width := fun s => (10 * Z.of_nat (String.length s))%Z |}.

Definition digit_of (c : ascii) : option Z :=
  let n := Z.of_nat (nat_of_ascii c) in
  if (48 <=? n)%Z && (n <=? 57)%Z then Some (n - 48)%Z else None.

Fixpoint digits_value (s : string) (acc : Z) : option Z :=
  match s with
  | EmptyString => Some acc
  | String c rest =>
      match digit_of c with
      | Some d => digits_value rest (10 * acc + d)%Z
      | None => None
      end
  end.

Definition plain_decimal (s : string) : option Z :=
  match s with
  | EmptyString => None
  | _ => digits_value s 0
  end.

Definition decimal_parse : PythonParse :=
  {| py_float_of := fun s => option_map IZR (plain_decimal s);
     py_int_of := plain_decimal |}.

(** The drawer of the application with a text in the focused box of the
    colour. *)
Definition drawer_with_color (text : string) : BodyDrawerUI :=
  with_layers (set_system_viewer BodyDrawerUI_init)
    (_body_preview (set_system_viewer BodyDrawerUI_init))
    (_input_name BodyDrawerUI_init) (_input_mass BodyDrawerUI_init)
    (_input_radius BodyDrawerUI_init)
    (set_focused (set_value (_input_color BodyDrawerUI_init) text) true).

(** A focused textbox holding "12". *)
Definition box_12 : BodyDrawerTextbox :=
  set_focused (set_value (BodyDrawerTextbox_init "Mass" "") "12") true.

(** The first calls of the application on the drawer, the mouse over it: the
    drawer starts to open. *)
Definition opening_calls : list DrawerCall :=
  [Call_set_system_viewer;
   Call_drawer_on_event (MOUSEWHEEL 1) screen_view (5, 5)%Z;
   Call_drawer_draw 10 (5, 5)%Z (fun _ => true)].

(** * Python arithmetic *)

Lemma py_div_ok x y : y <> 0 -> py_div x y = Ok (x / y).
Proof. intros Hy. unfold py_div. destruct (Req_dec_T y 0); [contradiction | reflexivity]. Qed.

Lemma py_div_zero x : py_div x 0 = Raise ZeroDivisionError.
Proof. unfold py_div. destruct (Req_dec_T 0 0); [reflexivity | contradiction]. Qed.

Lemma math_sqrt_ok x : 0 <= x -> math_sqrt x = Ok (sqrt x).
Proof. intros Hx. unfold math_sqrt. destruct (Rlt_dec x 0); [lra | reflexivity]. Qed.

Lemma math_log_ok x : 0 < x -> math_log x = Ok (ln x).
Proof. intros Hx. unfold math_log. destruct (Rle_dec x 0); [lra | reflexivity]. Qed.

Lemma Rltb_true x y : x < y -> Rltb x y = true.
Proof. intros. unfold Rltb. destruct (Rlt_dec x y); [reflexivity | contradiction]. Qed.
Lemma Rltb_false x y : y <= x -> Rltb x y = false.
Proof. intros. unfold Rltb. destruct (Rlt_dec x y); [lra | reflexivity]. Qed.
Lemma Rleb_true x y : x <= y -> Rleb x y = true.
Proof. intros. unfold Rleb. destruct (Rle_dec x y); [reflexivity | contradiction]. Qed.
Lemma Rleb_false x y : y < x -> Rleb x y = false.
Proof. intros. unfold Rleb. destruct (Rle_dec x y); [lra | reflexivity]. Qed.
Lemma Reqb_true x y : x = y -> Reqb x y = true.
Proof. intros. unfold Reqb. destruct (Req_dec_T x y); [reflexivity | contradiction]. Qed.
Lemma Reqb_false x y : x <> y -> Reqb x y = false.
Proof. intros. unfold Reqb. destruct (Req_dec_T x y); [contradiction | reflexivity]. Qed.

Lemma sum_sqr_nonneg a b : 0 <= a ^ 2 + b ^ 2.
Proof. nra. Qed.

Lemma py_max_ge_r a b : b <= py_max a b.
Proof. unfold py_max. destruct (Rlt_dec a b); lra. Qed.
Lemma py_max_ge_l a b : a <= py_max a b.
Proof. unfold py_max. destruct (Rlt_dec a b); lra. Qed.

Lemma calc_gravity_at_point_ok b pt :
  radius b <> 0 ->
  calc_gravity_at_point b pt =
    Ok {| force := GRAVITY_CONSTANT / floored_dist_sqr b pt;
          direction := ((fst pt - fst (position b)) / sqrt (floored_dist_sqr b pt),
                        (snd pt - snd (position b)) / sqrt (floored_dist_sqr b pt)) |}.
Proof.
  intros Hr. unfold calc_gravity_at_point. fold (floored_dist_sqr b pt).
  assert (Hpos : 0 < floored_dist_sqr b pt).
  { pose proof (py_max_ge_r
                  ((fst pt - fst (position b)) ^ 2
                   + (snd pt - snd (position b)) ^ 2) (radius b ^ 2)).
    unfold floored_dist_sqr.
    assert (0 < radius b ^ 2)
      by (destruct (Rtotal_order (radius b) 0) as [|[|]]; nra).
    lra. }
  rewrite math_sqrt_ok by lra. cbn [bind].
  rewrite py_div_ok by lra. cbn [bind].
  assert (Hs : sqrt (floored_dist_sqr b pt) <> 0).
  { pose proof (sqrt_lt_R0 _ Hpos). lra. }
  rewrite !py_div_ok by exact Hs. reflexivity.
Qed.

Lemma norm_scaled dx dy d : 0 < d -> norm (dx / sqrt d, dy / sqrt d) = sqrt ((dx ^ 2 + dy ^ 2) / d).
Proof.
  intros Hd. unfold norm. cbn [fst snd]. f_equal.
  pose proof (sqrt_lt_R0 _ Hd) as Hs.
  pose proof (sqrt_sqrt d (Rlt_le _ _ Hd)) as Hss.
  remember (sqrt d) as s eqn:Es. clear Es. subst d. field. lra.
Qed.

(** direction is a unit vector outside; shorter inside *)
Lemma direction_norm b pt :
  radius b <> 0 ->
  let d2 := (fst pt - fst (position b)) ^ 2 + (snd pt - snd (position b)) ^ 2 in
  let dir := ((fst pt - fst (position b)) / sqrt (floored_dist_sqr b pt),
              (snd pt - snd (position b)) / sqrt (floored_dist_sqr b pt)) in
  (radius b ^ 2 <= d2 -> norm dir = 1) /\
  (d2 < radius b ^ 2 -> norm dir = sqrt d2 / Rabs (radius b) /\ norm dir < 1).
Proof.
  intros Hr d2 dir.
  assert (Hr2 : 0 < radius b ^ 2) by (destruct (Rtotal_order (radius b) 0) as [|[|]]; nra).
  assert (Hd2 : 0 <= d2) by (apply sum_sqr_nonneg).
  split; intros H.
  - unfold dir. rewrite norm_scaled.
    + unfold floored_dist_sqr. fold d2. unfold py_max.
      destruct (Rlt_dec d2 (radius b ^ 2)); [lra |].
      replace (d2 / d2) with 1 by (field; lra). apply sqrt_1.
    + pose proof (py_max_ge_r d2 (radius b ^ 2)). unfold floored_dist_sqr. fold d2. lra.
  - assert (E : floored_dist_sqr b pt = radius b ^ 2).
    { unfold floored_dist_sqr. fold d2. unfold py_max.
      destruct (Rlt_dec d2 (radius b ^ 2)); [reflexivity | lra]. }
    unfold dir. rewrite norm_scaled by lra. fold d2. rewrite E.
    assert (Es : sqrt (radius b ^ 2) = Rabs (radius b)).
    { replace (radius b ^ 2) with (Rsqr (radius b)) by (unfold Rsqr; ring). apply sqrt_Rsqr_abs. }
    rewrite sqrt_div_alt by lra. rewrite Es. split; [reflexivity |].
    assert (Ha : 0 < Rabs (radius b)) by (apply Rabs_pos_lt; exact Hr).
    apply (Rmult_lt_reg_r (Rabs (radius b))); [exact Ha |].
    unfold Rdiv. rewrite Rmult_assoc, Rinv_l, Rmult_1_r, Rmult_1_l by lra.
    rewrite <- Es. apply sqrt_lt_1_alt. lra.
Qed.

(** * [calc_collision_bias], case by case *)

Lemma rel_pos_mag_nonneg a b : 0 <= rel_pos_mag a b.
Proof. apply sum_sqr_nonneg. Qed.

Lemma calc_collision_bias_unfold self other :
  calc_collision_bias self other =
  (distance <- math_sqrt (rel_pos_mag self other) ;;
   if Rltb (radius self + radius other - distance) 0 then Ok None
   else
     nx <- py_div (fst (rel_pos self other)) (rel_pos_mag self other) ;;
     ny <- py_div (snd (rel_pos self other)) (rel_pos_mag self other) ;;
     let rvn := fst (rel_vel self other) * nx + snd (rel_vel self other) * ny in
     if Rleb 0 rvn then Ok None
     else
       inv_self <- py_div 1 (mass self) ;;
       inv_other <- py_div 1 (mass other) ;;
       impulse <- py_div (-2 * rvn) (inv_self + inv_other) ;;
       ratio <- py_div (mass other) (mass self) ;;
       impulse <- py_div (impulse * ratio * COLLISION_DAMPENING) SYSTEM_SCALE ;;
       rel_vel_mag <- math_sqrt (fst (rel_vel self other) ^ 2
                                 + snd (rel_vel self other) ^ 2) ;;
       vnx <- py_div (fst (rel_vel self other)) rel_vel_mag ;;
       vny <- py_div (snd (rel_vel self other)) rel_vel_mag ;;
       bias <- py_div (mass self) (mass self + mass other) ;;
       Ok (Some {| granularity := 10; bias := bias; impulse := impulse;
                   reflect_dir := (- vnx + 2 * rvn * nx, - vny + 2 * rvn * ny) |})).
Proof. reflexivity. Qed.

Lemma calc_collision_bias_apart a b :
  intersection a b < 0 -> calc_collision_bias a b = Ok None.
Proof.
  intros H. rewrite calc_collision_bias_unfold.
  rewrite math_sqrt_ok by apply rel_pos_mag_nonneg. cbn [bind].
  fold (intersection a b). rewrite Rltb_true by exact H. reflexivity.
Qed.

Lemma calc_collision_bias_coincident a b :
  position a = position b -> 0 <= radius a + radius b ->
  calc_collision_bias a b = Raise ZeroDivisionError.
Proof.
  intros Hp Hr. rewrite calc_collision_bias_unfold.
  assert (E : rel_pos_mag a b = 0).
  { unfold rel_pos_mag, rel_pos. rewrite Hp. cbn [fst snd]. ring. }
  rewrite E. rewrite math_sqrt_ok by lra. cbn [bind]. rewrite sqrt_0.
  rewrite Rltb_false by lra. rewrite py_div_zero. reflexivity.
Qed.

Lemma calc_collision_bias_separating a b :
  rel_pos_mag a b <> 0 -> 0 <= rel_vel_n a b ->
  calc_collision_bias a b = Ok None.
Proof.
  intros Hp Hv. rewrite calc_collision_bias_unfold.
  rewrite math_sqrt_ok by apply rel_pos_mag_nonneg. cbn [bind].
  destruct (Rltb (radius a + radius b - sqrt (rel_pos_mag a b)) 0); [reflexivity |].
  rewrite !py_div_ok by exact Hp. cbn [bind]. cbv zeta.
  change (fst (rel_vel a b) * (fst (rel_pos a b) / rel_pos_mag a b)
          + snd (rel_vel a b) * (snd (rel_pos a b) / rel_pos_mag a b))
    with (rel_vel_n a b).
  rewrite Rleb_true by exact Hv. reflexivity.
Qed.

Lemma approaching_moves a b :
  rel_vel_n a b < 0 -> 0 < fst (rel_vel a b) ^ 2 + snd (rel_vel a b) ^ 2.
Proof.
  intros H.
  destruct (Req_dec_T (fst (rel_vel a b)) 0) as [E1 | N1];
  destruct (Req_dec_T (snd (rel_vel a b)) 0) as [E2 | N2].
  - unfold rel_vel_n in H. rewrite E1, E2 in H. lra.
  - assert (0 < snd (rel_vel a b) ^ 2)
      by (destruct (Rtotal_order (snd (rel_vel a b)) 0) as [|[|]]; nra).
    nra.
  - assert (0 < fst (rel_vel a b) ^ 2)
      by (destruct (Rtotal_order (fst (rel_vel a b)) 0) as [|[|]]; nra).
    nra.
  - assert (0 < fst (rel_vel a b) ^ 2)
      by (destruct (Rtotal_order (fst (rel_vel a b)) 0) as [|[|]]; nra).
    nra.
Qed.

Lemma calc_collision_bias_some a b :
  rel_pos_mag a b <> 0 -> 0 <= intersection a b -> rel_vel_n a b < 0 ->
  mass a <> 0 -> mass b <> 0 -> 1 / mass a + 1 / mass b <> 0 ->
  mass a + mass b <> 0 ->
  calc_collision_bias a b = Ok (Some (collision_info a b)).
Proof.
  intros Hp Hi Hv Ha Hb Hinv Hsum. rewrite calc_collision_bias_unfold.
  rewrite math_sqrt_ok by apply rel_pos_mag_nonneg. cbn [bind].
  fold (intersection a b). rewrite Rltb_false by exact Hi.
  rewrite !py_div_ok by exact Hp. cbn [bind]. cbv zeta.
  change (fst (rel_vel a b) * (fst (rel_pos a b) / rel_pos_mag a b)
          + snd (rel_vel a b) * (snd (rel_pos a b) / rel_pos_mag a b))
    with (rel_vel_n a b).
  rewrite Rleb_false by exact Hv.
  rewrite (py_div_ok 1 (mass a)) by exact Ha. cbn [bind].
  rewrite (py_div_ok 1 (mass b)) by exact Hb. cbn [bind].
  rewrite py_div_ok by exact Hinv. cbn [bind].
  rewrite py_div_ok by exact Ha. cbn [bind].
  rewrite py_div_ok by (unfold SYSTEM_SCALE; lra). cbn [bind].
  pose proof (approaching_moves a b Hv) as Hm.
  rewrite math_sqrt_ok by lra. cbn [bind].
  pose proof (sqrt_lt_R0 _ Hm) as Hs.
  rewrite !py_div_ok by lra. cbn [bind].
  reflexivity.
Qed.

Lemma rel_pos_mag_sym a b : rel_pos_mag b a = rel_pos_mag a b.
Proof. unfold rel_pos_mag, rel_pos. cbn [fst snd]. ring. Qed.

Lemma rel_vel_n_sym a b : rel_vel_n b a = rel_vel_n a b.
Proof.
  unfold rel_vel_n, col_normal. rewrite (rel_pos_mag_sym a b).
  unfold rel_vel, rel_pos. cbn [fst snd].
  unfold Rdiv. ring.
Qed.

Lemma intersection_sym a b : intersection b a = intersection a b.
Proof. unfold intersection. rewrite rel_pos_mag_sym. ring. Qed.

(** * The first loop of [update_system]

    Only accelerations change, and nothing the loop reads depends on them. *)

Lemma same_but_acceleration_refl a : same_but_acceleration a a.
Proof. repeat split. Qed.

Lemma same_but_acceleration_sym a b :
  same_but_acceleration a b -> same_but_acceleration b a.
Proof. unfold same_but_acceleration. intuition congruence. Qed.

Lemma same_but_acceleration_set a v : same_but_acceleration a (set_acceleration a v).
Proof. repeat split. Qed.

Lemma set_acceleration_eta a : set_acceleration a (acceleration a) = a.
Proof. destruct a. reflexivity. Qed.

Lemma calc_gravity_acceleration_ext a a' b b' :
  same_but_acceleration a a' -> same_but_acceleration b b' ->
  calc_gravity_acceleration a b = calc_gravity_acceleration a' b'.
Proof.
  intros (_ & _ & _ & _ & Hp & _) (_ & Hm & _ & _ & Hq & _).
  unfold calc_gravity_acceleration. rewrite Hp, Hm, Hq. reflexivity.
Qed.

Lemma calc_collision_bias_ext a a' b b' :
  same_but_acceleration a a' -> same_but_acceleration b b' ->
  calc_collision_bias a b = calc_collision_bias a' b'.
Proof.
  intros (_ & Hm & Hr & _ & Hp & Hv) (_ & Hm' & Hr' & _ & Hp' & Hv').
  unfold calc_collision_bias. rewrite Hm, Hr, Hp, Hv, Hm', Hr', Hp', Hv'.
  reflexivity.
Qed.

Lemma gravity_vector_ext a a' b b' :
  same_but_acceleration a a' -> same_but_acceleration b b' ->
  gravity_vector a b = gravity_vector a' b'.
Proof.
  intros (_ & _ & _ & _ & Hp & _) (_ & Hm & _ & _ & Hq & _).
  unfold gravity_vector. rewrite Hp, Hm, Hq. reflexivity.
Qed.

Lemma detected_ext h h' i l : heaps_agree h h' -> detected h i l = detected h' i l.
Proof.
  intros Hh. unfold detected. induction l as [| j l IH]; [reflexivity |].
  cbn [flat_map]. rewrite IH. f_equal. unfold detected_one.
  rewrite (calc_collision_bias_ext _ _ _ _ (Hh i) (Hh j)). reflexivity.
Qed.

Lemma gravity_total_ext h h' i l acc :
  heaps_agree h h' -> gravity_total h i l acc = gravity_total h' i l acc.
Proof.
  intros Hh. unfold gravity_total. revert acc.
  induction l as [| j l IH]; intros acc; [reflexivity |].
  cbn [fold_left]. rewrite IH.
  rewrite (gravity_vector_ext _ _ _ _ (Hh i) (Hh j)). reflexivity.
Qed.

Lemma pair_ok_ext h h' i j : heaps_agree h h' -> pair_ok h i j -> pair_ok h' i j.
Proof.
  intros Hh [[a Ha] [o Ho]]. split.
  - exists a. rewrite <- Ha. symmetry. apply calc_gravity_acceleration_ext; apply Hh.
  - exists o. rewrite <- Ho. symmetry. apply calc_collision_bias_ext; apply Hh.
Qed.

Lemma heap_set_same h r b : heap_set h r b r = b.
Proof. unfold heap_set. rewrite Nat.eqb_refl. reflexivity. Qed.

Lemma heap_set_other h r b r' : r' <> r -> heap_set h r b r' = h r'.
Proof. intros H. unfold heap_set. apply Nat.eqb_neq in H. rewrite H. reflexivity. Qed.

Lemma heaps_agree_set h i v :
  heaps_agree h (heap_set h i (set_acceleration (h i) v)).
Proof.
  intros r. unfold heap_set. destruct (Nat.eqb r i) eqn:E.
  - apply Nat.eqb_eq in E. subst r. apply same_but_acceleration_set.
  - apply same_but_acceleration_refl.
Qed.

Lemma calc_gravity_acceleration_value a b x :
  calc_gravity_acceleration a b = Ok x ->
  x = GRAVITY_CONSTANT * mass b
      / ((fst (position b) - fst (position a)) ^ 2
         + (snd (position b) - snd (position a)) ^ 2).
Proof.
  unfold calc_gravity_acceleration, py_div.
  destruct (Req_dec_T _ 0); [discriminate |]. intros H. inversion H. reflexivity.
Qed.

(** One step of the inner loop. *)
Lemma gravity_and_collision_step i h affs j :
  gravity_and_collision i (h, affs) j =
  if Nat.eqb i j then Ok (h, affs)
  else
    _ <- calc_gravity_acceleration (h i) (h j) ;;
    o <- calc_collision_bias (h i) (h j) ;;
    Ok (heap_set h i
          (set_acceleration (h i)
             (vadd (acceleration (h i)) (gravity_vector (h i) (h j)))),
        affs ++ detected_one h i j).
Proof.
  unfold gravity_and_collision. destruct (Nat.eqb i j) eqn:E; [reflexivity |].
  destruct (calc_gravity_acceleration (h i) (h j)) as [a | e] eqn:Ha; [| reflexivity].
  cbn [bind]. apply calc_gravity_acceleration_value in Ha.
  rewrite heap_set_same.
  assert (Hj : j <> i) by (apply Nat.eqb_neq in E; congruence).
  rewrite (heap_set_other _ _ _ _ Hj).
  assert (Hc : calc_collision_bias (add_acceleration (h i)
             (- a * cos (math_atan2 (snd (position (h i)) - snd (position (h j)))
                                     (fst (position (h i)) - fst (position (h j)))),
              - a * sin (math_atan2 (snd (position (h i)) - snd (position (h j)))
                                     (fst (position (h i)) - fst (position (h j))))))
             (h j) = calc_collision_bias (h i) (h j)).
  { apply calc_collision_bias_ext; [| apply same_but_acceleration_refl].
    apply same_but_acceleration_sym, same_but_acceleration_set. }
  rewrite Hc. unfold detected_one. rewrite E.
  destruct (calc_collision_bias (h i) (h j)) as [[ci |] | e]; cbn [bind];
    subst a; try reflexivity.
  rewrite app_nil_r. reflexivity.
Qed.

(** The inner loop, when it raises nothing. *)
Lemma inner_loop_spec i l : forall h affs h' affs',
  for_each (gravity_and_collision i) l (h, affs) = Ok (h', affs') ->
  (forall r, h' r = if Nat.eqb r i
                    then set_acceleration (h i)
                           (gravity_total h i l (acceleration (h i)))
                    else h r) /\
  affs' = affs ++ detected h i l /\
  Forall (fun j => j <> i -> pair_ok h i j) l.
Proof.
  induction l as [| j l IH]; intros h affs h' affs' H.
  - cbn in H. inversion H; subst. repeat split.
    + intros r. destruct (Nat.eqb r i) eqn:E; [| reflexivity].
      apply Nat.eqb_eq in E. subst r. cbn. symmetry. apply set_acceleration_eta.
    + cbn. symmetry. apply app_nil_r.
    + constructor.
  - cbn [for_each] in H. rewrite gravity_and_collision_step in H.
    destruct (Nat.eqb i j) eqn:E.
    + cbn [bind] in H. apply IH in H. destruct H as (Hh & Ha & Hok).
      repeat split.
      * intros r. rewrite Hh. unfold gravity_total. cbn [fold_left]. rewrite E. reflexivity.
      * rewrite Ha. unfold detected. cbn [flat_map].
        unfold detected_one at 2. rewrite E. reflexivity.
      * constructor; [| exact Hok]. intros Hn. apply Nat.eqb_eq in E. congruence.
    + destruct (calc_gravity_acceleration (h i) (h j)) as [a | e] eqn:Hg; [| discriminate].
      cbn [bind] in H.
      destruct (calc_collision_bias (h i) (h j)) as [o | e] eqn:Hc; [| discriminate].
      cbn [bind] in H.
      set (h1 := heap_set h i _) in H.
      assert (Hag : heaps_agree h h1) by apply heaps_agree_set.
      apply IH in H. destruct H as (Hh & Ha & Hok).
      repeat split.
      * intros r. rewrite Hh. destruct (Nat.eqb r i) eqn:Er.
        -- rewrite <- (gravity_total_ext h h1) by exact Hag.
           unfold h1. rewrite !heap_set_same. cbn [acceleration set_acceleration].
           unfold gravity_total. cbn [fold_left]. rewrite E. reflexivity.
        -- unfold h1. apply heap_set_other. apply Nat.eqb_neq. exact Er.
      * rewrite Ha. rewrite <- (detected_ext h h1) by exact Hag.
        unfold detected. cbn [flat_map]. rewrite app_assoc. reflexivity.
      * constructor.
        -- intros _. split; eauto.
        -- eapply Forall_impl; [| exact Hok]. cbn. intros k Hk Hne.
           eapply pair_ok_ext; [| apply Hk; exact Hne].
           intros r. apply same_but_acceleration_sym, Hag.
Qed.

Lemma inner_loop_succeeds i l : forall h affs,
  Forall (fun j => j <> i -> pair_ok h i j) l ->
  exists h' affs', for_each (gravity_and_collision i) l (h, affs) = Ok (h', affs').
Proof.
  induction l as [| j l IH]; intros h affs H.
  - cbn. eauto.
  - inversion H as [| ? ? Hj Hl]; subst. cbn [for_each].
    rewrite gravity_and_collision_step. destruct (Nat.eqb i j) eqn:E.
    + cbn [bind]. apply IH. exact Hl.
    + assert (Hne : j <> i) by (apply Nat.eqb_neq in E; congruence).
      destruct (Hj Hne) as [[a Ha] [o Ho]]. rewrite Ha, Ho. cbn [bind].
      apply IH. eapply Forall_impl; [| exact Hl]. cbn. intros k Hk Hn.
      eapply pair_ok_ext; [| apply Hk; exact Hn]. apply heaps_agree_set.
Qed.

Lemma update_info_of_ext h h' i d :
  heaps_agree h h' -> update_info_of h i d = update_info_of h' i d.
Proof.
  intros Hh. destruct (Hh i) as (_ & Hm & Hr & Hc & Hp & _).
  unfold update_info_of. rewrite Hm, Hr, Hc, Hp. reflexivity.
Qed.

Lemma pending_of_ext h h' all l :
  heaps_agree h h' -> pending_of h all l = pending_of h' all l.
Proof.
  intros Hh. unfold pending_of. induction l as [| i l IH]; [reflexivity |].
  cbn [flat_map]. rewrite IH. f_equal. unfold pending_one.
  rewrite (detected_ext h h') by exact Hh.
  destruct (detected h' i all); [reflexivity |].
  rewrite (update_info_of_ext h h') by exact Hh. reflexivity.
Qed.

Lemma accel_after_ext h h' all l r acc :
  heaps_agree h h' -> accel_after h all l r acc = accel_after h' all l r acc.
Proof.
  intros Hh. unfold accel_after. revert acc.
  induction l as [| i l IH]; intros acc; [reflexivity |].
  cbn [fold_left]. rewrite IH. rewrite (gravity_total_ext h h') by exact Hh.
  reflexivity.
Qed.

Lemma pairs_ok_ext h h' all l :
  heaps_agree h h' -> pairs_ok h all l -> pairs_ok h' all l.
Proof.
  intros Hh H. unfold pairs_ok in *. eapply Forall_impl; [| exact H].
  cbn. intros i Hi. eapply Forall_impl; [| exact Hi]. cbn. intros j Hj Hn.
  eapply pair_ok_ext; [exact Hh | apply Hj; exact Hn].
Qed.

Lemma heaps_agree_sym h h' : heaps_agree h h' -> heaps_agree h' h.
Proof. intros H r. apply same_but_acceleration_sym, H. Qed.

(** One step of the outer loop. *)
Lemma collect_update_step all h pend i :
  collect_update all (h, pend) i =
  ('(h1, affs) <- for_each (gravity_and_collision i) all (h, []) ;;
   Ok (h1, pend ++ match affs with [] => [] | d => [update_info_of h i d] end)).
Proof.
  unfold collect_update.
  destruct (for_each (gravity_and_collision i) all (h, [])) as [[h1 affs] | e];
    [| reflexivity].
  cbn [bind]. destruct affs as [| a affs]; cbn.
  - rewrite app_nil_r. reflexivity.
  - reflexivity.
Qed.

Lemma outer_loop_spec all l : forall h pend h' pend',
  for_each (collect_update all) l (h, pend) = Ok (h', pend') ->
  (forall r, h' r = set_acceleration (h r)
                      (accel_after h all l r (acceleration (h r)))) /\
  pend' = pend ++ pending_of h all l /\
  pairs_ok h all l.
Proof.
  induction l as [| i l IH]; intros h pend h' pend' H.
  - cbn in H. inversion H; subst. repeat split.
    + intros r. cbn. symmetry. apply set_acceleration_eta.
    + cbn. symmetry. apply app_nil_r.
    + constructor.
  - cbn [for_each] in H. rewrite collect_update_step in H.
    destruct (for_each (gravity_and_collision i) all (h, [])) as [[h1 affs] | e] eqn:Hin;
      [| discriminate].
    cbn [bind] in H. apply inner_loop_spec in Hin.
    destruct Hin as (Hh1 & Haffs & Hok1). cbn [app] in Haffs.
    assert (Hag : heaps_agree h h1).
    { intros r. rewrite Hh1. destruct (Nat.eqb r i) eqn:E.
      - apply Nat.eqb_eq in E. subst r. apply same_but_acceleration_set.
      - apply same_but_acceleration_refl. }
    apply IH in H. destruct H as (Hh & Hp & Hok).
    repeat split.
    + intros r. rewrite Hh. rewrite <- (accel_after_ext h h1) by exact Hag.
      unfold accel_after at 2. cbn [fold_left]. fold (accel_after h all l r).
      rewrite Hh1. destruct (Nat.eqb r i) eqn:E.
      * apply Nat.eqb_eq in E. subst r. reflexivity.
      * reflexivity.
    + rewrite Hp. rewrite <- (pending_of_ext h h1) by exact Hag.
      unfold pending_of. cbn [flat_map]. rewrite <- app_assoc.
      unfold pending_one. subst affs. destruct (detected h i all); reflexivity.
    + constructor; [exact Hok1 |].
      eapply pairs_ok_ext; [apply heaps_agree_sym; exact Hag | exact Hok].
Qed.

Lemma outer_loop_succeeds all l : forall h pend,
  pairs_ok h all l ->
  exists h' pend', for_each (collect_update all) l (h, pend) = Ok (h', pend').
Proof.
  induction l as [| i l IH]; intros h pend H.
  - cbn. eauto.
  - inversion H as [| ? ? Hi Hl]; subst. cbn [for_each].
    rewrite collect_update_step.
    destruct (inner_loop_succeeds i all h [] Hi) as (h1 & affs & Hin).
    rewrite Hin. cbn [bind].
    apply IH. eapply pairs_ok_ext; [| exact Hl].
    apply inner_loop_spec in Hin. destruct Hin as (Hh1 & _ & _).
    intros r. rewrite Hh1. destruct (Nat.eqb r i) eqn:E.
    + apply Nat.eqb_eq in E. subst r. apply same_but_acceleration_set.
    + apply same_but_acceleration_refl.
Qed.

Theorem collect_updates_spec p h pend :
  collect_updates p = Ok (h, pend) ->
  (forall r, h r = heap_after_gravity p r) /\
  pend = pending_of (heap p) (bodies p) (bodies p) /\
  pairs_ok (heap p) (bodies p) (bodies p).
Proof.
  unfold collect_updates. intros H. apply outer_loop_spec in H.
  destruct H as (Hh & Hp & Hok). repeat split; assumption.
Qed.

Theorem collect_updates_succeeds p :
  pairs_ok (heap p) (bodies p) (bodies p) ->
  exists h, collect_updates p = Ok (h, pending_of (heap p) (bodies p) (bodies p))
            /\ forall r, h r = heap_after_gravity p r.
Proof.
  intros H. destruct (outer_loop_succeeds _ _ (heap p) [] H) as (h & pend & E).
  exists h. pose proof E as E'. apply outer_loop_spec in E'.
  destruct E' as (Hh & Hp & _). cbn [app] in Hp. subst pend.
  split; [exact E | exact Hh].
Qed.

Lemma heap_after_gravity_agree p : heaps_agree (heap p) (heap_after_gravity p).
Proof. intros r. apply same_but_acceleration_set. Qed.

(** * Loops and sets of references *)

Lemma bind_ok {A B} (m : Result A) (k : A -> Result B) b :
  bind m k = Ok b -> exists a, m = Ok a /\ k a = Ok b.
Proof. destruct m as [a | e]; cbn; [eauto | discriminate]. Qed.

(** An invariant of the loop body holds after the loop. *)
Lemma for_each_invariant {S A} (body : S -> A -> Result S) (P : S -> Prop) xs :
  (forall s x s', In x xs -> P s -> body s x = Ok s' -> P s') ->
  forall s s', P s -> for_each body xs s = Ok s' -> P s'.
Proof.
  induction xs as [| x xs IH]; intros Hstep s s' Hs H.
  - cbn in H. inversion H; subst. exact Hs.
  - cbn [for_each] in H. apply bind_ok in H. destruct H as (s1 & H1 & H2).
    apply (IH (fun s0 y s0' Hy => Hstep s0 y s0' (or_intror Hy)) s1 s');
      [| exact H2].
    apply (Hstep s x s1); [left; reflexivity | exact Hs | exact H1].
Qed.

Lemma ref_mem_In r s : ref_mem r s = true <-> In r s.
Proof.
  unfold ref_mem. rewrite existsb_exists. split.
  - intros (x & Hx & E). apply Nat.eqb_eq in E. subst. exact Hx.
  - intros H. exists r. split; [exact H | apply Nat.eqb_refl].
Qed.

Lemma ref_mem_not_In r s : ref_mem r s = false <-> ~ In r s.
Proof.
  rewrite <- ref_mem_In. destruct (ref_mem r s); split; intros; congruence.
Qed.

Lemma In_ref_add x r s : In x (ref_add r s) <-> x = r \/ In x s.
Proof.
  unfold ref_add. destruct (ref_mem r s) eqn:E.
  - apply ref_mem_In in E. split; [auto | intros [-> | H]; assumption].
  - rewrite in_app_iff. cbn. intuition.
Qed.

(** * The second loop of [update_system] *)

Section Resolution.
Context `{pg : PygameColor}.

Lemma grows_refl res : grows res res.
Proof. repeat split; apply incl_refl. Qed.

Lemma grows_trans a b c : grows a b -> grows b c -> grows a c.
Proof.
  intros (H1 & H2 & H3) (K1 & K2 & K3).
  repeat split; eapply incl_tran; eassumption.
Qed.

Lemma transfer_keeps h u j ci u' :
  transfer h u j ci = Ok u' ->
  affected u' = affected u /\ affectors u' = affectors u.
Proof.
  unfold transfer. intros E. apply bind_ok in E. destruct E as (c & _ & E).
  inversion E; subst. split; reflexivity.
Qed.

Lemma resolve_collision_absorb h res u j ci :
  affected u <> j -> bias ci < 0.1 ->
  resolve_collision h (res, u) (j, ci) =
  Ok ({| bodies_to_remove := ref_add (affected u) (bodies_to_remove res);
         bodies_to_merge := bodies_to_merge res;
         body_merge_info := body_merge_info res |}, u).
Proof.
  intros Hn Hb. unfold resolve_collision.
  apply Nat.eqb_neq in Hn. rewrite Hn. rewrite Rltb_true by exact Hb. reflexivity.
Qed.

Lemma resolve_collision_claimed h res u j ci :
  affected u <> j -> 0.1 <= bias ci -> weak_reflection ci = true ->
  In (affected u) (bodies_to_merge res) ->
  resolve_collision h (res, u) (j, ci) = Ok (res, u).
Proof.
  intros Hn Hb Hw Hm. unfold resolve_collision.
  apply Nat.eqb_neq in Hn. rewrite Hn. rewrite Rltb_false by exact Hb.
  rewrite Hw. apply ref_mem_In in Hm. rewrite Hm. reflexivity.
Qed.

Lemma resolve_collision_merge h res u j ci :
  affected u <> j -> 0.1 <= bias ci -> weak_reflection ci = true ->
  ~ In (affected u) (bodies_to_merge res) ->
  resolve_collision h (res, u) (j, ci) =
  (u' <- transfer h u j ci ;;
   Ok ({| bodies_to_remove := bodies_to_remove res;
          bodies_to_merge := ref_add j (ref_add (affected u) (bodies_to_merge res));
          body_merge_info := body_merge_info res ++ [(affected u, j)] |}, u')).
Proof.
  intros Hn Hb Hw Hm. unfold resolve_collision.
  apply Nat.eqb_neq in Hn. rewrite Hn. rewrite Rltb_false by exact Hb.
  rewrite Hw. apply ref_mem_not_In in Hm. rewrite Hm. reflexivity.
Qed.

Lemma resolve_collision_bounce h res u j ci :
  affected u <> j -> 0.1 <= bias ci -> weak_reflection ci = false ->
  resolve_collision h (res, u) (j, ci) =
  (u' <- transfer h u j ci ;; Ok (res, u')).
Proof.
  intros Hn Hb Hw. unfold resolve_collision.
  apply Nat.eqb_neq in Hn. rewrite Hn. rewrite Rltb_false by exact Hb.
  rewrite Hw. reflexivity.
Qed.

(** The cases of one resolution step that raised nothing. *)
Lemma resolve_collision_cases h res u j ci res' u' :
  resolve_collision h (res, u) (j, ci) = Ok (res', u') ->
  affected u' = affected u /\ affectors u' = affectors u /\
  ((res' = res) \/
   (affected u <> j /\ bias ci < 0.1 /\
    res' = {| bodies_to_remove := ref_add (affected u) (bodies_to_remove res);
              bodies_to_merge := bodies_to_merge res;
              body_merge_info := body_merge_info res |}) \/
   (affected u <> j /\ 0.1 <= bias ci /\
    res' = {| bodies_to_remove := bodies_to_remove res;
              bodies_to_merge :=
                ref_add j (ref_add (affected u) (bodies_to_merge res));
              body_merge_info := body_merge_info res ++ [(affected u, j)] |})).
Proof.
  intros E. unfold resolve_collision in E.
  destruct (Nat.eqb (affected u) j) eqn:En.
  { inversion E; subst. auto. }
  apply Nat.eqb_neq in En.
  unfold Rltb in E. destruct (Rlt_dec (bias ci) 0.1) as [Hb | Hb].
  { inversion E; subst. split; [reflexivity |]. split; [reflexivity |].
    right. left. auto. }
  assert (Hb' : 0.1 <= bias ci) by lra.
  destruct (weak_reflection ci).
  - destruct (ref_mem (affected u) (bodies_to_merge res)).
    + inversion E; subst. auto.
    + apply bind_ok in E. destruct E as (u1 & Ht & E). inversion E; subst.
      apply transfer_keeps in Ht. destruct Ht as [Ha Hf].
      split; [exact Ha |]. split; [exact Hf |]. right. right. auto.
  - apply bind_ok in E. destruct E as (u1 & Ht & E). inversion E; subst.
    apply transfer_keeps in Ht. destruct Ht as [Ha Hf]. auto.
Qed.

Lemma resolve_collision_grows h res u j ci res' u' :
  resolve_collision h (res, u) (j, ci) = Ok (res', u') -> grows res res'.
Proof.
  intros E. apply resolve_collision_cases in E.
  destruct E as (_ & _ & [-> | [(_ & _ & ->) | (_ & _ & ->)]]).
  - apply grows_refl.
  - repeat split; cbn; try apply incl_refl.
    intros x Hx. apply In_ref_add. auto.
  - repeat split; cbn; try apply incl_refl.
    + intros x Hx. apply In_ref_add. right. apply In_ref_add. auto.
    + apply incl_appl, incl_refl.
Qed.

Lemma merge_closed_grows_step h res u j ci res' u' :
  resolve_collision h (res, u) (j, ci) = Ok (res', u') ->
  merge_closed res -> merge_closed res'.
Proof.
  intros E Hc. apply resolve_collision_cases in E.
  destruct E as (_ & _ & [-> | [(_ & _ & ->) | (_ & _ & ->)]]).
  - exact Hc.
  - exact Hc.
  - intros b1 b2 Hin. cbn in *. apply in_app_iff in Hin.
    destruct Hin as [Hin | [Hin | []]].
    + destruct (Hc _ _ Hin) as [H1 H2].
      split; apply In_ref_add; right; apply In_ref_add; auto.
    + inversion Hin; subst. split; apply In_ref_add.
      * right. apply In_ref_add. auto.
      * auto.
Qed.

Lemma within_step refs h res u j ci res' u' :
  resolve_collision h (res, u) (j, ci) = Ok (res', u') ->
  In (affected u) refs -> In j refs -> within refs res -> within refs res'.
Proof.
  intros E Ha Hj (W1 & W2 & W3). apply resolve_collision_cases in E.
  destruct E as (_ & _ & [-> | [(_ & _ & ->) | (_ & _ & ->)]]).
  - split; [exact W1 |]. split; [exact W2 | exact W3].
  - split; [| split; [exact W2 | exact W3]]. cbn.
    intros x Hx. apply In_ref_add in Hx. destruct Hx as [-> | Hx]; auto.
  - split; [exact W1 |]. split; cbn.
    + intros x Hx. apply In_ref_add in Hx. destruct Hx as [-> | Hx]; [exact Hj |].
      apply In_ref_add in Hx. destruct Hx as [-> | Hx]; auto.
    + intros b1 b2 Hin. apply in_app_iff in Hin.
      destruct Hin as [Hin | [Hin | []]]; [apply W3; exact Hin |].
      inversion Hin; subst. auto.
Qed.

Lemma resolve_inner_inv refs h u l res res' u' :
  for_each (resolve_collision h) l (res, u) = Ok (res', u') ->
  In (affected u) refs -> (forall p, In p l -> In (fst p) refs) ->
  inner_inv refs res (affected u) (affectors u) (res', u').
Proof.
  intros E Ha Hl.
  apply (for_each_invariant (resolve_collision h)
           (inner_inv refs res (affected u) (affectors u)) l) with (s := (res, u));
    [| | exact E].
  - intros [r1 u1] [j ci] [r2 u2] Hin (G & A & F & C & W) Es. cbn [fst snd] in *.
    pose proof (resolve_collision_cases _ _ _ _ _ _ _ Es) as (A' & F' & _).
    split; [| split; [| split; [| split]]].
    + eapply grows_trans; [exact G |]. eapply resolve_collision_grows; exact Es.
    + cbn. congruence.
    + cbn. congruence.
    + intros Hc. eapply merge_closed_grows_step; [exact Es | auto].
    + intros Hw. eapply within_step; [exact Es | | | auto].
      * rewrite A. exact Ha.
      * apply (Hl _ Hin).
  - split; [apply grows_refl |]. cbn [fst snd].
    split; [reflexivity |]. split; [reflexivity |]. split; intros K; exact K.
Qed.

Lemma resolve_inner_grows h l : forall res u res' u',
  for_each (resolve_collision h) l (res, u) = Ok (res', u') ->
  grows res res' /\ affected u' = affected u.
Proof.
  induction l as [| [k ck] l IH]; intros res u res' u' E.
  - cbn in E. inversion E; subst. split; [apply grows_refl | reflexivity].
  - cbn [for_each] in E. apply bind_ok in E. destruct E as ([r1 u1] & E1 & E2).
    apply IH in E2. destruct E2 as [G A].
    pose proof (resolve_collision_cases _ _ _ _ _ _ _ E1) as (A1 & _ & _).
    split; [| congruence].
    eapply grows_trans; [eapply resolve_collision_grows; exact E1 | exact G].
Qed.

(** A pairing with bias below 0.1 marks the affected body for removal. *)
Lemma resolve_inner_absorbs h l : forall res u res' u',
  for_each (resolve_collision h) l (res, u) = Ok (res', u') ->
  forall j ci, In (j, ci) l -> affected u <> j -> bias ci < 0.1 ->
  In (affected u) (bodies_to_remove res').
Proof.
  induction l as [| [k ck] l IH]; intros res u res' u' E j ci Hin Hn Hb;
    [contradiction |].
  cbn [for_each] in E. apply bind_ok in E. destruct E as ([r1 u1] & E1 & E2).
  destruct Hin as [Heq | Hin].
  - inversion Heq; subst k ck.
    rewrite resolve_collision_absorb in E1 by assumption.
    inversion E1; subst r1 u1.
    apply resolve_inner_grows in E2. destruct E2 as [(G & _ & _) _].
    apply G. cbn. apply In_ref_add. left. reflexivity.
  - pose proof (resolve_collision_cases _ _ _ _ _ _ _ E1) as (A1 & _ & _).
    rewrite <- A1. eapply IH; [exact E2 | exact Hin | congruence | exact Hb].
Qed.

End Resolution.

Section ResolutionLoop.
Context `{pg : PygameColor}.

Lemma resolve_update_ok h res resolved u res' resolved' :
  resolve_update h (res, resolved) u = Ok (res', resolved') ->
  exists u', for_each (resolve_collision h) (affectors u) (res, u) = Ok (res', u')
             /\ resolved' = resolved ++ [u'].
Proof.
  unfold resolve_update. intros E. apply bind_ok in E.
  destruct E as ([r1 u1] & E1 & E2). inversion E2; subst. eauto.
Qed.

Lemma resolve_outer_spec refs h pend : forall res resolved res' resolved',
  for_each (resolve_update h) pend (res, resolved) = Ok (res', resolved') ->
  pending_within refs pend ->
  grows res res' /\
  (merge_closed res -> merge_closed res') /\
  (within refs res -> within refs res') /\
  (exists new, resolved' = resolved ++ new /\
               map affected new = map affected pend) /\
  (forall u j ci, In u pend -> In (j, ci) (affectors u) -> affected u <> j ->
                  bias ci < 0.1 -> In (affected u) (bodies_to_remove res')).
Proof.
  induction pend as [| u pend IH]; intros res resolved res' resolved' E Hw.
  - cbn in E. inversion E; subst.
    split; [apply grows_refl |]. split; [auto |]. split; [auto |].
    split; [exists []; split; [symmetry; apply app_nil_r | reflexivity] |].
    intros u j ci [].
  - cbn [for_each] in E. apply bind_ok in E. destruct E as ([r1 l1] & E1 & E2).
    apply resolve_update_ok in E1. destruct E1 as (u' & E1 & ->).
    assert (Hw' : pending_within refs pend).
    { intros v Hv. apply Hw. right. exact Hv. }
    destruct (Hw u (or_introl eq_refl)) as [Hu Hu'].
    pose proof (resolve_inner_inv refs h u (affectors u) res r1 u' E1 Hu Hu')
      as (G1 & A1 & _ & C1 & W1). cbn [fst snd] in *.
    specialize (IH _ _ _ _ E2 Hw'). destruct IH as (G & C & W & (new & -> & Hn) & Hab).
    split; [eapply grows_trans; eassumption |].
    split; [auto |]. split; [auto |]. split.
    + exists (u' :: new). split; [rewrite <- app_assoc; reflexivity |].
      cbn [map]. rewrite A1, Hn. reflexivity.
    + intros v j ci [<- | Hv] Hin Hne Hb.
      * destruct G as (G & _ & _). apply G.
        eapply resolve_inner_absorbs; eassumption.
      * eapply Hab; eassumption.
Qed.

Lemma merge_closed_none : merge_closed no_resolution.
Proof. intros b1 b2 []. Qed.

Lemma within_none refs : within refs no_resolution.
Proof.
  split; [intros x [] |]. split; [intros x [] |]. intros b1 b2 [].
Qed.

Theorem resolve_updates_spec refs h pend res pend' :
  resolve_updates h pend = Ok (res, pend') ->
  pending_within refs pend ->
  merge_closed res /\ within refs res /\
  map affected pend' = map affected pend /\
  (forall u j ci, In u pend -> In (j, ci) (affectors u) -> affected u <> j ->
                  bias ci < 0.1 -> In (affected u) (bodies_to_remove res)).
Proof.
  unfold resolve_updates. intros E Hw.
  apply (resolve_outer_spec refs) in E; [| exact Hw].
  destruct E as (_ & C & W & (new & E & Hn) & Hab). cbn [app] in E. subst new.
  split; [apply C, merge_closed_none |].
  split; [apply W, within_none |]. split; assumption.
Qed.

End ResolutionLoop.

(** The pending updates of the first loop name bodies of the pool. *)
Lemma In_detected h i l j ci :
  In (j, ci) (detected h i l) <->
  In j l /\ i <> j /\ calc_collision_bias (h i) (h j) = Ok (Some ci).
Proof.
  unfold detected. rewrite in_flat_map. split.
  - intros (k & Hk & Hin). unfold detected_one in Hin.
    destruct (Nat.eqb i k) eqn:E; [contradiction |].
    apply Nat.eqb_neq in E.
    destruct (calc_collision_bias (h i) (h k)) as [[c |] | e] eqn:Hc;
      try contradiction.
    destruct Hin as [Hin | []]. inversion Hin; subst. repeat split; assumption.
  - intros (Hj & Hn & Hc). exists j. split; [exact Hj |].
    unfold detected_one. apply Nat.eqb_neq in Hn. rewrite Hn, Hc. left. reflexivity.
Qed.

Lemma In_pending_of h all l u :
  In u (pending_of h all l) <->
  exists i, In i l /\ detected h i all <> [] /\
            u = update_info_of h i (detected h i all).
Proof.
  unfold pending_of. rewrite in_flat_map. split.
  - intros (i & Hi & Hin). exists i. split; [exact Hi |].
    unfold pending_one in Hin. destruct (detected h i all) eqn:E; [contradiction |].
    destruct Hin as [<- | []]. split; [discriminate | reflexivity].
  - intros (i & Hi & Hne & ->). exists i. split; [exact Hi |].
    unfold pending_one. destruct (detected h i all) eqn:E; [congruence |].
    left. reflexivity.
Qed.

Lemma pending_of_within h all : pending_within all (pending_of h all all).
Proof.
  intros u Hu. apply In_pending_of in Hu. destruct Hu as (i & Hi & _ & ->).
  cbn [affected affectors update_info_of]. split; [exact Hi |].
  intros [j ci] Hin. apply In_detected in Hin. cbn. tauto.
Qed.

(** * The commit, merge and removal loops *)

Lemma apply_other u h r : r <> affected u -> apply u h r = h r.
Proof. intros Hn. unfold apply. apply heap_set_other. exact Hn. Qed.

Lemma apply_updates_claimed merge pend : forall h r,
  In r merge -> apply_updates merge pend h r = h r.
Proof.
  unfold apply_updates. induction pend as [| u pend IH]; intros h r Hr;
    [reflexivity |].
  cbn [fold_left]. destruct (ref_mem (affected u) merge) eqn:E.
  - apply IH. exact Hr.
  - rewrite IH by exact Hr. apply apply_other.
    apply ref_mem_not_In in E. congruence.
Qed.

Lemma apply_updates_untouched merge pend : forall h r,
  ~ In r (map affected pend) -> apply_updates merge pend h r = h r.
Proof.
  unfold apply_updates. induction pend as [| u pend IH]; intros h r Hr;
    [reflexivity |].
  cbn [fold_left]. cbn [map] in Hr.
  assert (Hr' : ~ In r (map affected pend)) by (intros K; apply Hr; right; exact K).
  assert (Hn : r <> affected u) by (intros K; apply Hr; left; congruence).
  destruct (ref_mem (affected u) merge).
  - apply IH. exact Hr'.
  - rewrite IH by exact Hr'. apply apply_other. exact Hn.
Qed.

Section Merging.
Context `{pg : PygameColor}.

Lemma merge_pair_ok st b1 b2 m :
  merge_pair st (b1, b2) = Ok m ->
  exists nb, merged_body (m_heap st b1) (m_heap st b2) = Ok nb /\
    m = {| m_heap := heap_set (m_heap st) (m_next st) nb;
           m_remove := ref_add b2 (ref_add b1 (m_remove st));
           m_add := m_add st ++ [m_next st];
           m_next := S (m_next st) |}.
Proof.
  unfold merge_pair. intros E. apply bind_ok in E. destruct E as (nb & E1 & E2).
  exists nb. split; [exact E1 |]. inversion E2. reflexivity.
Qed.

Lemma merge_loop_spec mi : forall st m,
  for_each merge_pair mi st = Ok m ->
  m_next m = (m_next st + List.length mi)%nat /\
  m_add m = m_add st ++ seq (m_next st) (List.length mi) /\
  (forall r, (r < m_next st)%nat -> m_heap m r = m_heap st r) /\
  (forall x, In x (m_remove m) <->
             In x (m_remove st) \/
             exists b1 b2, In (b1, b2) mi /\ (x = b1 \/ x = b2)) /\
  (forall b1 b2, In (b1, b2) mi -> (b1 < m_next st)%nat -> (b2 < m_next st)%nat ->
     exists r, In r (seq (m_next st) (List.length mi)) /\
               merged_body (m_heap st b1) (m_heap st b2) = Ok (m_heap m r)).
Proof.
  induction mi as [| [c1 c2] mi IH]; intros st m E.
  - cbn in E. inversion E; subst. cbn.
    split; [lia |]. split; [symmetry; apply app_nil_r |].
    split; [reflexivity |]. split.
    + intros x. split; [auto | intros [K | (b1 & b2 & [] & _)]; exact K].
    + intros b1 b2 [].
  - cbn [for_each] in E. apply bind_ok in E. destruct E as (st1 & E1 & E2).
    apply merge_pair_ok in E1. destruct E1 as (nb & Hnb & ->).
    apply IH in E2. cbn [m_next m_add m_heap m_remove] in E2.
    destruct E2 as (N & A & Hh & R & M). cbn [List.length].
    split; [lia |].
    split; [rewrite A, <- app_assoc; reflexivity |].
    split; [| split].
    + intros r Hr. rewrite Hh by lia. apply heap_set_other. lia.
    + intros x. rewrite R. rewrite !In_ref_add. split.
      * intros [[-> | [-> | K]] | (b1 & b2 & Hin & Hx)].
        -- right. exists c1, c2. split; [left; reflexivity | auto].
        -- right. exists c1, c2. split; [left; reflexivity | auto].
        -- left. exact K.
        -- right. exists b1, b2. split; [right; exact Hin | exact Hx].
      * intros [K | (b1 & b2 & [Heq | Hin] & Hx)].
        -- auto.
        -- inversion Heq; subst. destruct Hx as [-> | ->]; auto.
        -- right. exists b1, b2. auto.
    + intros b1 b2 [Heq | Hin] L1 L2.
      * inversion Heq; subst c1 c2. exists (m_next st). split; [left; reflexivity |].
        rewrite Hh by lia. rewrite heap_set_same. exact Hnb.
      * destruct (M b1 b2 Hin) as (r & Hr & Hm); [lia | lia |].
        exists r. split; [right; exact Hr |].
        rewrite <- Hm. rewrite !heap_set_other by lia. reflexivity.
Qed.

End Merging.

Lemma list_remove_spec l r : forall l',
  list_remove l r = Ok l' ->
  In r l /\ (forall x, In x l' -> In x l) /\
  (forall x, x <> r -> In x l -> In x l') /\
  (NoDup l -> NoDup l' /\ ~ In r l').
Proof.
  induction l as [| y l IH]; intros l' E; [discriminate |].
  cbn [list_remove] in E. destruct (Nat.eqb y r) eqn:Ey.
  - apply Nat.eqb_eq in Ey. subst y. inversion E; subst l'.
    split; [left; reflexivity |]. split; [intros x Hx; right; exact Hx |].
    split; [intros x Hn [K | K]; [congruence | exact K] |].
    intros Hd. inversion Hd; subst. auto.
  - apply Nat.eqb_neq in Ey. apply bind_ok in E. destruct E as (t & E1 & E2).
    inversion E2; subst l'. destruct (IH _ E1) as (I1 & I2 & I3 & I4).
    split; [right; exact I1 |].
    split; [intros x [-> | Hx]; [left; reflexivity | right; auto] |].
    split; [intros x Hn [-> | Hx]; [left; reflexivity | right; auto] |].
    intros Hd. inversion Hd as [| ? ? Hy Hl]; subst.
    destruct (I4 Hl) as [D N]. split.
    + constructor; [intros K; apply Hy, I2, K | exact D].
    + intros [K | K]; [congruence | exact (N K)].
Qed.

Lemma remove_loop_spec rs : forall l l',
  for_each list_remove rs l = Ok l' ->
  (forall x, In x l' -> In x l) /\
  (forall x, In x l -> ~ In x rs -> In x l') /\
  (NoDup l -> NoDup l' /\ forall r, In r rs -> ~ In r l').
Proof.
  induction rs as [| r rs IH]; intros l l' E.
  - cbn in E. inversion E; subst. repeat split; auto.
  - cbn [for_each] in E. apply bind_ok in E. destruct E as (l1 & E1 & E2).
    apply list_remove_spec in E1. destruct E1 as (_ & S1 & S2 & S3).
    apply IH in E2. destruct E2 as (T1 & T2 & T3).
    split; [auto |]. split.
    + intros x Hx Hn. apply T2.
      * apply S2; [| exact Hx]. intros ->. apply Hn. left. reflexivity.
      * intros K. apply Hn. right. exact K.
    + intros Hd. destruct (S3 Hd) as [D1 N1]. destruct (T3 D1) as [D2 N2].
      split; [exact D2 |]. intros x [<- | Hx]; [| exact (N2 _ Hx)].
      intros K. apply N1. apply T1. exact K.
Qed.

Lemma fresh_ref_above l x : In x l -> (x < fresh_ref l)%nat.
Proof.
  unfold fresh_ref. induction l as [| y l IH]; intros Hin; [contradiction |].
  cbn [list_max fold_right]. destruct Hin as [-> | Hin]; [lia |].
  specialize (IH Hin). unfold list_max in IH. lia.
Qed.

Section Tick.
Context `{pg : PygameColor}.

Lemma update_system_phases p p' :
  update_system p = Ok p' ->
  exists h pend res pend' m remaining,
    collect_updates p = Ok (h, pend) /\
    resolve_updates h pend = Ok (res, pend') /\
    for_each merge_pair (body_merge_info res)
      {| m_heap := apply_updates (bodies_to_merge res) pend' h;
         m_remove := bodies_to_remove res; m_add := [];
         m_next := fresh_ref (bodies p) |} = Ok m /\
    for_each list_remove (m_remove m) (bodies p) = Ok remaining /\
    p' = with_bodies p (remaining ++ m_add m) (m_heap m).
Proof.
  unfold update_system. intros E.
  apply bind_ok in E. destruct E as ([h pend] & E1 & E).
  apply bind_ok in E. destruct E as ([res pend'] & E2 & E).
  apply bind_ok in E. destruct E as (m & E3 & E).
  apply bind_ok in E. destruct E as (remaining & E4 & E).
  inversion E. exists h, pend, res, pend', m, remaining. auto.
Qed.

End Tick.

(** * The tick as a whole *)

Section Tick2.
Context `{pg : PygameColor}.

Lemma calc_blended_color_ext a a' b b' bias :
  same_but_acceleration a a' -> same_but_acceleration b b' ->
  calc_blended_color a b bias = calc_blended_color a' b' bias.
Proof.
  intros (_ & _ & _ & Hc & _) (_ & _ & _ & Hc' & _).
  unfold calc_blended_color. rewrite Hc, Hc'. reflexivity.
Qed.

Lemma merged_body_ext a a' b b' :
  same_but_acceleration a a' -> same_but_acceleration b b' ->
  merged_body a b = merged_body a' b'.
Proof.
  intros Ha Hb. unfold merged_body.
  rewrite (calc_blended_color_ext _ _ _ _ 0.5 Ha Hb).
  destruct Ha as (Hn & Hm & Hr & _ & Hp & Hv).
  destruct Hb as (Hn' & Hm' & Hr' & _ & Hp' & Hv').
  rewrite Hn, Hm, Hr, Hp, Hv, Hn', Hm', Hr', Hp', Hv'. reflexivity.
Qed.

Lemma merged_body_ok a b nb :
  merged_body a b = Ok nb ->
  exists c, calc_blended_color a b 0.5 = Ok c /\ mass a + mass b <> 0 /\
            nb = merged_of a b c.
Proof.
  unfold merged_body. intros E. apply bind_ok in E. destruct E as (c & Ec & E).
  exists c. split; [exact Ec |].
  unfold py_div in E. destruct (Req_dec_T (mass a + mass b) 0) as [Z | NZ];
    [discriminate |].
  cbn [bind] in E. inversion E. split; [exact NZ | reflexivity].
Qed.

Lemma merged_body_value a b c :
  calc_blended_color a b 0.5 = Ok c -> mass a + mass b <> 0 ->
  merged_body a b = Ok (merged_of a b c).
Proof.
  intros Ec NZ. unfold merged_body. rewrite Ec. cbn [bind].
  rewrite !py_div_ok by exact NZ. reflexivity.
Qed.

(** The facts of a tick that raised nothing, phase by phase. *)
Lemma tick_facts p p' :
  update_system p = Ok p' ->
  exists res pend' m remaining,
    tick_resolution p = Ok res /\
    resolve_updates (heap_after_gravity p)
      (pending_of (heap p) (bodies p) (bodies p)) = Ok (res, pend') /\
    tick_committed p =
      Ok (apply_updates (bodies_to_merge res) pend' (heap_after_gravity p)) /\
    merge_closed res /\ within (bodies p) res /\
    map affected pend' =
      map affected (pending_of (heap p) (bodies p) (bodies p)) /\
    for_each merge_pair (body_merge_info res)
      {| m_heap := apply_updates (bodies_to_merge res) pend' (heap_after_gravity p);
         m_remove := bodies_to_remove res; m_add := [];
         m_next := fresh_ref (bodies p) |} = Ok m /\
    for_each list_remove (m_remove m) (bodies p) = Ok remaining /\
    p' = with_bodies p (remaining ++ m_add m) (m_heap m).
Proof.
  intros E. apply update_system_phases in E.
  destruct E as (h & pend & res & pend' & m & remaining & E1 & E2 & E3 & E4 & ->).
  pose proof (collect_updates_spec _ _ _ E1) as (Hh & -> & _).
  assert (h = heap_after_gravity p) by (apply functional_extensionality; exact Hh).
  subst h.
  pose proof (resolve_updates_spec (bodies p) _ _ _ _ E2
                (pending_of_within _ _)) as (C & W & A & _).
  exists res, pend', m, remaining.
  unfold tick_resolution, tick_committed. rewrite E1. cbn [bind]. rewrite E2.
  cbn [bind]. repeat (split; [first [reflexivity | assumption] |]). reflexivity.
Qed.

(** The body a merge pair leaves in the pool. *)
Lemma merge_pair_result p p' res b1 b2 :
  NoDup (bodies p) -> update_system p = Ok p' -> tick_resolution p = Ok res ->
  In (b1, b2) (body_merge_info res) ->
  exists r c,
    In r (bodies p') /\ ~ In r (bodies p) /\
    calc_blended_color (heap p b1) (heap p b2) 0.5 = Ok c /\
    heap p' r = merged_of (heap p b1) (heap p b2) c /\
    ~ In b1 (bodies p') /\ ~ In b2 (bodies p').
Proof.
  intros Hd E Er Hin. apply tick_facts in E.
  destruct E as (res0 & pend' & m & remaining & Er0 & _ & _ & C & W & _ & Em & Erem & ->).
  rewrite Er0 in Er. inversion Er; subst res0. clear Er.
  destruct W as (_ & _ & W3). destruct (W3 _ _ Hin) as [I1 I2].
  destruct (C _ _ Hin) as [M1 M2].
  pose proof (fresh_ref_above _ _ I1) as L1.
  pose proof (fresh_ref_above _ _ I2) as L2.
  pose proof (merge_loop_spec _ _ _ Em) as (_ & Ha & _ & Hr & Hm).
  cbn [m_next m_add m_heap m_remove] in *.
  destruct (Hm _ _ Hin L1 L2) as (r & Hrs & Hmb).
  rewrite !apply_updates_claimed in Hmb by assumption.
  rewrite (merged_body_ext _ (heap p b1) _ (heap p b2)) in Hmb
    by (apply same_but_acceleration_sym, heap_after_gravity_agree).
  apply merged_body_ok in Hmb. destruct Hmb as (c & Ec & _ & Hnb).
  pose proof (remove_loop_spec _ _ _ Erem) as (R1 & _ & R3).
  destruct (R3 Hd) as [_ R4].
  assert (Fr : forall x, In x (bodies p) -> ~ In x (m_add m)).
  { intros x Hx K. rewrite Ha in K. cbn [app] in K. apply in_seq in K.
    pose proof (fresh_ref_above _ _ Hx). lia. }
  exists r, c. cbn [bodies heap with_bodies].
  split; [apply in_or_app; right; rewrite Ha; exact Hrs |].
  split; [intros K; apply (Fr _ K); rewrite Ha; exact Hrs |].
  split; [exact Ec |]. split; [exact Hnb |].
  split; intros K; apply in_app_or in K; destruct K as [K | K].
  - apply (R4 b1); [| exact K]. apply Hr. right. exists b1, b2. auto.
  - exact (Fr _ I1 K).
  - apply (R4 b2); [| exact K]. apply Hr. right. exists b1, b2. auto.
  - exact (Fr _ I2 K).
Qed.

(** The bodies of a merge pair are not committed to. *)
Lemma merge_pair_frame p res h2 b :
  tick_resolution p = Ok res -> tick_committed p = Ok h2 ->
  In b (bodies_to_merge res) ->
  h2 b = heap_after_gravity p b.
Proof.
  unfold tick_resolution, tick_committed. intros Er Ec Hb.
  destruct (collect_updates p) as [[h pend] | e] eqn:E1; [| discriminate].
  cbn [bind] in *.
  destruct (resolve_updates h pend) as [[res0 pend'] | e] eqn:E2; [| discriminate].
  cbn [bind] in *. inversion Er; subst res0. inversion Ec; subst h2.
  rewrite apply_updates_claimed by exact Hb.
  apply collect_updates_spec in E1. destruct E1 as (Hh & _). apply Hh.
Qed.

Lemma tick_resolution_closed p res :
  tick_resolution p = Ok res -> merge_closed res /\ within (bodies p) res.
Proof.
  unfold tick_resolution. intros Er.
  destruct (collect_updates p) as [[h pend] | e] eqn:E1; [| discriminate].
  cbn [bind] in *.
  destruct (resolve_updates h pend) as [[res0 pend'] | e] eqn:E2; [| discriminate].
  cbn [bind] in *. inversion Er; subst res0.
  pose proof (collect_updates_spec _ _ _ E1) as (_ & -> & _).
  pose proof (resolve_updates_spec (bodies p) _ _ _ _ E2
                (pending_of_within _ _)) as (C & W & _). auto.
Qed.

(** A pairing with bias below 0.1 removes the affected body. *)
Lemma absorbed_result p p' a b ci :
  NoDup (bodies p) -> update_system p = Ok p' ->
  In a (bodies p) -> In b (bodies p) -> a <> b ->
  calc_collision_bias (heap p a) (heap p b) = Ok (Some ci) -> bias ci < 0.1 ->
  (exists res, tick_resolution p = Ok res /\ In a (bodies_to_remove res)) /\
  ~ In a (bodies p').
Proof.
  intros Hd E Ia Ib Hab Hc Hbias. apply tick_facts in E.
  destruct E as (res & pend' & m & remaining & Er & E2 & _ & _ & _ & _ & Em & Erem & ->).
  assert (Hdet : In (b, ci) (detected (heap p) a (bodies p))).
  { apply In_detected. auto. }
  assert (Hu : In (update_info_of (heap p) a (detected (heap p) a (bodies p)))
                  (pending_of (heap p) (bodies p) (bodies p))).
  { apply In_pending_of. exists a. split; [exact Ia |]. split; [| reflexivity].
    intros K. rewrite K in Hdet. contradiction. }
  pose proof (resolve_updates_spec (bodies p) _ _ _ _ E2
                (pending_of_within _ _)) as (_ & _ & _ & Habs).
  specialize (Habs _ b ci Hu Hdet Hab Hbias). cbn [affected update_info_of] in Habs.
  split; [exists res; auto |].
  pose proof (merge_loop_spec _ _ _ Em) as (_ & Ha & _ & Hr & _).
  cbn [m_next m_add m_heap m_remove] in *.
  pose proof (remove_loop_spec _ _ _ Erem) as (_ & _ & R3).
  destruct (R3 Hd) as [_ R4]. cbn [bodies with_bodies].
  intros K. apply in_app_or in K. destruct K as [K | K].
  - apply (R4 a); [| exact K]. apply Hr. left. exact Habs.
  - rewrite Ha in K. cbn [app] in K. apply in_seq in K.
    pose proof (fresh_ref_above _ _ Ia). lia.
Qed.

End Tick2.

(** * Running the model on concrete pools *)

Lemma calc_gravity_acceleration_ok a b :
  rel_pos_mag a b <> 0 -> exists x, calc_gravity_acceleration a b = Ok x.
Proof.
  intros Hp. unfold calc_gravity_acceleration. eexists. apply py_div_ok.
  intros K. apply Hp. unfold rel_pos_mag, rel_pos. cbn [fst snd].
  rewrite <- K. ring.
Qed.

Lemma pair_ok_intro h i j o :
  rel_pos_mag (h i) (h j) <> 0 -> calc_collision_bias (h i) (h j) = Ok o ->
  pair_ok h i j.
Proof.
  intros Hp Hc. split; [apply calc_gravity_acceleration_ok; exact Hp | eauto].
Qed.

Theorem collect_updates_eval p :
  pairs_ok (heap p) (bodies p) (bodies p) ->
  collect_updates p =
  Ok (heap_after_gravity p, pending_of (heap p) (bodies p) (bodies p)).
Proof.
  intros Hok. destruct (collect_updates_succeeds p Hok) as (h & E & Hh).
  rewrite E. f_equal. f_equal. apply functional_extensionality. exact Hh.
Qed.

Section NoCollision.
Context `{pg : PygameColor}.

(** A tick in which no collision is detected changes accelerations only. *)
Lemma no_collision_tick p :
  pairs_ok (heap p) (bodies p) (bodies p) ->
  pending_of (heap p) (bodies p) (bodies p) = [] ->
  update_system p = Ok (with_bodies p (bodies p) (heap_after_gravity p)).
Proof.
  intros Hok Hp. unfold update_system. rewrite collect_updates_eval by exact Hok.
  rewrite Hp. cbn. rewrite app_nil_r. reflexivity.
Qed.

End NoCollision.

Lemma detected_one_none h i j :
  calc_collision_bias (h i) (h j) = Ok None -> detected_one h i j = [].
Proof. intros E. unfold detected_one. rewrite E. destruct (Nat.eqb i j); reflexivity. Qed.

Lemma detected_one_self h i : detected_one h i i = [].
Proof. unfold detected_one. rewrite Nat.eqb_refl. reflexivity. Qed.

Lemma detected_one_some h i j ci :
  i <> j -> calc_collision_bias (h i) (h j) = Ok (Some ci) ->
  detected_one h i j = [(j, ci)].
Proof.
  intros Hn E. unfold detected_one. rewrite E. apply Nat.eqb_neq in Hn.
  rewrite Hn. reflexivity.
Qed.

(** ** Two bodies at rest *)

Lemma scenario_apart : rel_pos_mag body_A body_B <> 0.
Proof. unfold rel_pos_mag, rel_pos. cbn [position body_A body_B SystemBody_init fst snd]. lra. Qed.

Lemma scenario_AB : calc_collision_bias body_A body_B = Ok None.
Proof.
  apply calc_collision_bias_separating; [exact scenario_apart |].
  unfold rel_vel_n, rel_vel.
  cbn [velocity body_A body_B SystemBody_init fst snd]. lra.
Qed.

Lemma scenario_BA : calc_collision_bias body_B body_A = Ok None.
Proof.
  apply calc_collision_bias_separating.
  - rewrite rel_pos_mag_sym. exact scenario_apart.
  - rewrite rel_vel_n_sym. unfold rel_vel_n, rel_vel.
    cbn [velocity body_A body_B SystemBody_init fst snd]. lra.
Qed.

Lemma pairs_ok_intro h all l :
  (forall i j, In i l -> In j all -> j <> i -> pair_ok h i j) ->
  pairs_ok h all l.
Proof.
  intros K. apply Forall_forall. intros i Hi. apply Forall_forall.
  intros j Hj Hn. apply K; assumption.
Qed.

Lemma scenario_pairs_ok :
  pairs_ok (heap scenario_pool) (bodies scenario_pool) (bodies scenario_pool).
Proof.
  apply pairs_ok_intro. intros i j Hi Hj Hn.
  cbn in Hi, Hj. destruct Hi as [<- | [<- | []]]; destruct Hj as [<- | [<- | []]];
    try (exfalso; apply Hn; reflexivity).
  - apply (pair_ok_intro _ _ _ None); [exact scenario_apart | exact scenario_AB].
  - apply (pair_ok_intro _ _ _ None);
      [rewrite rel_pos_mag_sym; exact scenario_apart | exact scenario_BA].
Qed.

Lemma scenario_pending :
  pending_of (heap scenario_pool) (bodies scenario_pool) (bodies scenario_pool)
  = [].
Proof.
  unfold pending_of, pending_one, detected.
  cbn [bodies scenario_pool add_body with_bodies SystemBodyPool_init app
       flat_map heap].
  rewrite !detected_one_self.
  rewrite (detected_one_none scenario_heap 0%nat 1%nat) by exact scenario_AB.
  rewrite (detected_one_none scenario_heap 1%nat 0%nat) by exact scenario_BA.
  reflexivity.
Qed.

Lemma scenario_tick :
  update_system (pg := grey_pygame) scenario_pool =
  Ok (with_bodies scenario_pool [0; 1]%nat (heap_after_gravity scenario_pool)).
Proof.
  rewrite no_collision_tick; [reflexivity | exact scenario_pairs_ok | exact scenario_pending].
Qed.

Lemma calc_blended_color_grey a b bias :
  calc_blended_color (pg := grey_pygame) a b bias = Ok (grey_blend a b bias).
Proof. reflexivity. Qed.

Lemma transfer_grey h u j ci :
  transfer (pg := grey_pygame) h u j ci =
  Ok (after_transfer h u j ci (grey_blend (h (affected u)) (h j) (bias ci))).
Proof. reflexivity. Qed.

Lemma weak_by_impulse ci : impulse ci < 10 -> weak_reflection ci = true.
Proof.
  intros Hi. unfold weak_reflection. rewrite (Rltb_true _ _ Hi).
  apply orb_true_r.
Qed.

Lemma overlap_by_square m s : 0 <= s -> m <= s * s -> 0 <= s - sqrt m.
Proof.
  intros Hs Hm. destruct (Rle_dec 0 m) as [Hm0 | Hm0].
  - assert (sqrt m <= sqrt (s * s)) by (apply sqrt_le_1; nra).
    rewrite sqrt_square in H by exact Hs. lra.
  - rewrite sqrt_neg_0 by lra. lra.
Qed.

Ltac fields :=
  cbn [name mass radius color position velocity acceleration SystemBody_init
       fst snd bias impulse reflect_dir granularity].

(** ** The Moon running into the Sun *)

Lemma sun_moon_rel_pos_mag : rel_pos_mag sun moon = 100.
Proof. unfold rel_pos_mag, rel_pos, sun, moon. fields. lra. Qed.

Lemma sun_moon_rel_vel_n : rel_vel_n sun moon = - (1 / 10).
Proof.
  unfold rel_vel_n, col_normal. rewrite sun_moon_rel_pos_mag.
  unfold rel_vel, rel_pos, sun, moon. fields. lra.
Qed.

Lemma sun_moon_info :
  calc_collision_bias sun moon = Ok (Some (collision_info sun moon)).
Proof.
  apply calc_collision_bias_some.
  - rewrite sun_moon_rel_pos_mag. lra.
  - unfold intersection. rewrite sun_moon_rel_pos_mag.
    unfold sun, moon. fields. apply overlap_by_square; lra.
  - rewrite sun_moon_rel_vel_n. lra.
  - unfold sun. fields. lra.
  - unfold moon. fields. lra.
  - unfold sun, moon. fields. lra.
  - unfold sun, moon. fields. lra.
Qed.

Lemma moon_sun_info :
  calc_collision_bias moon sun = Ok (Some (collision_info moon sun)).
Proof.
  apply calc_collision_bias_some.
  - rewrite rel_pos_mag_sym, sun_moon_rel_pos_mag. lra.
  - rewrite intersection_sym. unfold intersection. rewrite sun_moon_rel_pos_mag.
    unfold sun, moon. fields. apply overlap_by_square; lra.
  - rewrite rel_vel_n_sym, sun_moon_rel_vel_n. lra.
  - unfold moon. fields. lra.
  - unfold sun. fields. lra.
  - unfold sun, moon. fields. lra.
  - unfold sun, moon. fields. lra.
Qed.

Lemma sun_moon_bias : bias (collision_info sun moon) = 100 / 101.
Proof. unfold collision_info, sun, moon. fields. lra. Qed.

Lemma moon_sun_bias : bias (collision_info moon sun) = 1 / 101.
Proof. unfold collision_info, sun, moon. fields. lra. Qed.

Lemma sun_moon_impulse : impulse (collision_info sun moon) = 1 / 505.
Proof.
  unfold collision_info. fields. rewrite sun_moon_rel_vel_n.
  unfold sun, moon, COLLISION_DAMPENING, SYSTEM_SCALE. fields. lra.
Qed.

Lemma head_on_pairs_ok :
  pairs_ok (heap head_on_pool) (bodies head_on_pool) (bodies head_on_pool).
Proof.
  apply pairs_ok_intro. intros i j Hi Hj Hn.
  cbn in Hi, Hj. destruct Hi as [<- | [<- | []]]; destruct Hj as [<- | [<- | []]];
    try (exfalso; apply Hn; reflexivity).
  - eapply pair_ok_intro; [| exact sun_moon_info].
    change (rel_pos_mag sun moon <> 0). rewrite sun_moon_rel_pos_mag. lra.
  - eapply pair_ok_intro; [| exact moon_sun_info].
    change (rel_pos_mag moon sun <> 0).
    rewrite rel_pos_mag_sym, sun_moon_rel_pos_mag. lra.
Qed.

Lemma head_on_pending :
  pending_of (heap head_on_pool) (bodies head_on_pool) (bodies head_on_pool)
  = head_on_updates.
Proof.
  unfold pending_of, pending_one, detected.
  cbn [bodies head_on_pool add_body with_bodies SystemBodyPool_init app flat_map heap].
  rewrite !detected_one_self.
  rewrite (detected_one_some head_on_heap 0%nat 1%nat _ ltac:(discriminate) sun_moon_info).
  rewrite (detected_one_some head_on_heap 1%nat 0%nat _ ltac:(discriminate) moon_sun_info).
  reflexivity.
Qed.

Lemma head_on_resolve :
  exists pend',
    resolve_updates (pg := grey_pygame) (heap_after_gravity head_on_pool)
      head_on_updates = Ok (head_on_resolution, pend').
Proof.
  unfold resolve_updates, head_on_updates. cbn [for_each].
  unfold resolve_update at 1. cbn [affectors update_info_of for_each].
  rewrite resolve_collision_merge.
  2: { cbn [affected]. discriminate. }
  2: { rewrite sun_moon_bias. lra. }
  2: { apply weak_by_impulse. rewrite sun_moon_impulse. lra. }
  2: { cbn. tauto. }
  rewrite transfer_grey. cbn [bind].
  unfold resolve_update at 1. cbn [affectors update_info_of for_each].
  rewrite resolve_collision_absorb.
  2: { cbn [affected]. discriminate. }
  2: { rewrite moon_sun_bias. lra. }
  cbn [bind]. eexists. reflexivity.
Qed.

Lemma head_on_tick :
  exists p',
    update_system (pg := grey_pygame) head_on_pool = Ok p' /\
    bodies p' = [2%nat] /\
    heap p' 2%nat = merged_of sun moon (grey_blend sun moon 0.5).
Proof.
  destruct head_on_resolve as (pend' & Er).
  unfold update_system. rewrite collect_updates_eval by exact head_on_pairs_ok.
  rewrite head_on_pending. cbn [bind]. rewrite Er. cbn [bind].
  unfold head_on_resolution.
  cbn [body_merge_info bodies_to_remove bodies_to_merge for_each].
  unfold merge_pair at 1. cbn [m_heap m_next m_remove m_add].
  rewrite !apply_updates_claimed by (cbn; tauto).
  rewrite (merged_body_ext _ sun _ moon
             (same_but_acceleration_sym _ _ (heap_after_gravity_agree head_on_pool 0%nat))
             (same_but_acceleration_sym _ _ (heap_after_gravity_agree head_on_pool 1%nat))).
  rewrite (merged_body_value sun moon (grey_blend sun moon 0.5)).
  2: { apply calc_blended_color_grey. }
  2: { unfold sun, moon. fields. lra. }
  cbn [bind m_remove m_add m_heap].
  eexists. split; [| split].
  - cbn [bodies head_on_pool add_body with_bodies SystemBodyPool_init app
         ref_add ref_mem existsb Nat.eqb orb for_each list_remove bind
         fresh_ref list_max fold_right Nat.max].
    reflexivity.
  - reflexivity.
  - cbn [heap with_bodies]. apply heap_set_same.
Qed.

(** ** Three bodies closing in on one line *)

Ltac bodies3 := unfold body_X, body_Y, body_Z; fields.

Lemma XY_mag : rel_pos_mag body_X body_Y = 1.
Proof. unfold rel_pos_mag, rel_pos. bodies3. lra. Qed.
Lemma XZ_mag : rel_pos_mag body_X body_Z = 1.
Proof. unfold rel_pos_mag, rel_pos. bodies3. lra. Qed.
Lemma YZ_mag : rel_pos_mag body_Y body_Z = 4.
Proof. unfold rel_pos_mag, rel_pos. bodies3. lra. Qed.

Lemma XY_vn : rel_vel_n body_X body_Y = -1.
Proof. unfold rel_vel_n, col_normal. rewrite XY_mag. unfold rel_vel, rel_pos. bodies3. lra. Qed.
Lemma XZ_vn : rel_vel_n body_X body_Z = -1.
Proof. unfold rel_vel_n, col_normal. rewrite XZ_mag. unfold rel_vel, rel_pos. bodies3. lra. Qed.
Lemma YZ_vn : rel_vel_n body_Y body_Z = -1.
Proof. unfold rel_vel_n, col_normal. rewrite YZ_mag. unfold rel_vel, rel_pos. bodies3. lra. Qed.

Lemma YX_mag : rel_pos_mag body_Y body_X = 1.
Proof. rewrite rel_pos_mag_sym. exact XY_mag. Qed.
Lemma ZX_mag : rel_pos_mag body_Z body_X = 1.
Proof. rewrite rel_pos_mag_sym. exact XZ_mag. Qed.
Lemma ZY_mag : rel_pos_mag body_Z body_Y = 4.
Proof. rewrite rel_pos_mag_sym. exact YZ_mag. Qed.
Lemma YX_vn : rel_vel_n body_Y body_X = -1.
Proof. rewrite rel_vel_n_sym. exact XY_vn. Qed.
Lemma ZX_vn : rel_vel_n body_Z body_X = -1.
Proof. rewrite rel_vel_n_sym. exact XZ_vn. Qed.
Lemma ZY_vn : rel_vel_n body_Z body_Y = -1.
Proof. rewrite rel_vel_n_sym. exact YZ_vn. Qed.

Ltac pair_info Hmag Hvn :=
  apply calc_collision_bias_some;
  [ rewrite Hmag; lra
  | unfold intersection; rewrite Hmag; bodies3; apply overlap_by_square; lra
  | rewrite Hvn; lra
  | bodies3; lra | bodies3; lra | bodies3; lra | bodies3; lra ].

Lemma XY_info :
  calc_collision_bias body_X body_Y = Ok (Some (collision_info body_X body_Y)).
Proof. pair_info XY_mag XY_vn. Qed.
Lemma XZ_info :
  calc_collision_bias body_X body_Z = Ok (Some (collision_info body_X body_Z)).
Proof. pair_info XZ_mag XZ_vn. Qed.
Lemma YZ_info :
  calc_collision_bias body_Y body_Z = Ok (Some (collision_info body_Y body_Z)).
Proof. pair_info YZ_mag YZ_vn. Qed.
Lemma YX_info :
  calc_collision_bias body_Y body_X = Ok (Some (collision_info body_Y body_X)).
Proof. pair_info YX_mag YX_vn. Qed.
Lemma ZX_info :
  calc_collision_bias body_Z body_X = Ok (Some (collision_info body_Z body_X)).
Proof. pair_info ZX_mag ZX_vn. Qed.
Lemma ZY_info :
  calc_collision_bias body_Z body_Y = Ok (Some (collision_info body_Z body_Y)).
Proof. pair_info ZY_mag ZY_vn. Qed.

(** Every pairing is a weak one between bodies of comparable mass. *)
Ltac pair_weak Hvn :=
  split;
  [ unfold collision_info; bodies3; lra
  | unfold collision_info; fields; rewrite Hvn;
    unfold COLLISION_DAMPENING, SYSTEM_SCALE; bodies3; lra ].

Lemma XY_weak :
  0.1 <= bias (collision_info body_X body_Y)
  /\ impulse (collision_info body_X body_Y) < 10.
Proof. pair_weak XY_vn. Qed.
Lemma XZ_weak :
  0.1 <= bias (collision_info body_X body_Z)
  /\ impulse (collision_info body_X body_Z) < 10.
Proof. pair_weak XZ_vn. Qed.
Lemma YZ_weak :
  0.1 <= bias (collision_info body_Y body_Z)
  /\ impulse (collision_info body_Y body_Z) < 10.
Proof. pair_weak YZ_vn. Qed.
Lemma YX_weak :
  0.1 <= bias (collision_info body_Y body_X)
  /\ impulse (collision_info body_Y body_X) < 10.
Proof. pair_weak YX_vn. Qed.
Lemma ZX_weak :
  0.1 <= bias (collision_info body_Z body_X)
  /\ impulse (collision_info body_Z body_X) < 10.
Proof. pair_weak ZX_vn. Qed.
Lemma ZY_weak :
  0.1 <= bias (collision_info body_Z body_Y)
  /\ impulse (collision_info body_Z body_Y) < 10.
Proof. pair_weak ZY_vn. Qed.

Lemma triple_pair_ok i j :
  In i [0; 1; 2]%nat -> In j [0; 1; 2]%nat -> j <> i -> pair_ok triple_heap i j.
Proof.
  intros Hi Hj Hn. cbn in Hi, Hj.
  destruct Hi as [<- | [<- | [<- | []]]]; destruct Hj as [<- | [<- | [<- | []]]];
    try (exfalso; apply Hn; reflexivity).
  - eapply pair_ok_intro; [| exact XY_info].
    change (rel_pos_mag body_X body_Y <> 0). rewrite XY_mag. lra.
  - eapply pair_ok_intro; [| exact XZ_info].
    change (rel_pos_mag body_X body_Z <> 0). rewrite XZ_mag. lra.
  - eapply pair_ok_intro; [| exact YX_info].
    change (rel_pos_mag body_Y body_X <> 0). rewrite YX_mag. lra.
  - eapply pair_ok_intro; [| exact YZ_info].
    change (rel_pos_mag body_Y body_Z <> 0). rewrite YZ_mag. lra.
  - eapply pair_ok_intro; [| exact ZX_info].
    change (rel_pos_mag body_Z body_X <> 0). rewrite ZX_mag. lra.
  - eapply pair_ok_intro; [| exact ZY_info].
    change (rel_pos_mag body_Z body_Y <> 0). rewrite ZY_mag. lra.
Qed.

Lemma triple_pairs_ok :
  pairs_ok (heap triple_pool) (bodies triple_pool) (bodies triple_pool).
Proof.
  apply pairs_ok_intro. intros i j Hi Hj Hn. apply triple_pair_ok; assumption.
Qed.

Lemma triple_rotated_pairs_ok :
  pairs_ok (heap triple_pool_rotated) (bodies triple_pool_rotated)
    (bodies triple_pool_rotated).
Proof.
  apply pairs_ok_intro. intros i j Hi Hj Hn. apply triple_pair_ok; [| | exact Hn].
  - cbn in Hi. cbn. tauto.
  - cbn in Hj. cbn. tauto.
Qed.

Ltac detect_all :=
  unfold pending_of, pending_one, detected;
  cbn [bodies triple_pool triple_pool_rotated add_body with_bodies
       SystemBodyPool_init app flat_map heap];
  rewrite !detected_one_self;
  rewrite (detected_one_some triple_heap 0%nat 1%nat _ ltac:(discriminate) XY_info);
  rewrite (detected_one_some triple_heap 0%nat 2%nat _ ltac:(discriminate) XZ_info);
  rewrite (detected_one_some triple_heap 1%nat 0%nat _ ltac:(discriminate) YX_info);
  rewrite (detected_one_some triple_heap 1%nat 2%nat _ ltac:(discriminate) YZ_info);
  rewrite (detected_one_some triple_heap 2%nat 0%nat _ ltac:(discriminate) ZX_info);
  rewrite (detected_one_some triple_heap 2%nat 1%nat _ ltac:(discriminate) ZY_info);
  reflexivity.

Lemma triple_pending :
  pending_of (heap triple_pool) (bodies triple_pool) (bodies triple_pool)
  = triple_updates.
Proof. detect_all. Qed.

Lemma triple_rotated_pending :
  pending_of (heap triple_pool_rotated) (bodies triple_pool_rotated)
    (bodies triple_pool_rotated)
  = triple_rotated_updates.
Proof. detect_all. Qed.

Ltac update_fields :=
  cbn [affected affectors update_info_of after_transfer bodies_to_merge
       bodies_to_remove body_merge_info no_resolution ref_add ref_mem existsb
       Nat.eqb orb app].

(** One pairing that claims a merge, and one met by an already claimed body. *)
Ltac claims Hweak :=
  rewrite resolve_collision_merge;
  [ rewrite transfer_grey; cbn [bind]; update_fields
  | update_fields; discriminate
  | exact (proj1 Hweak)
  | apply weak_by_impulse; exact (proj2 Hweak)
  | update_fields; cbn [In]; intuition discriminate ].

Ltac claimed Hweak :=
  rewrite resolve_collision_claimed;
  [ cbn [bind]; update_fields
  | update_fields; discriminate
  | exact (proj1 Hweak)
  | apply weak_by_impulse; exact (proj2 Hweak)
  | update_fields; cbn [In]; tauto ].

Ltac next_update :=
  unfold resolve_update at 1; update_fields; cbn [for_each].

Lemma triple_resolve h :
  exists pend',
    resolve_updates (pg := grey_pygame) h triple_updates
    = Ok (triple_resolution, pend').
Proof.
  unfold resolve_updates, triple_updates. cbn [for_each].
  next_update. claims XY_weak. claimed XZ_weak.
  next_update. claimed YX_weak. claimed YZ_weak.
  next_update. claims ZX_weak. claimed ZY_weak.
  eexists. reflexivity.
Qed.

Lemma triple_rotated_resolve h :
  exists pend',
    resolve_updates (pg := grey_pygame) h triple_rotated_updates
    = Ok (triple_rotated_resolution, pend').
Proof.
  unfold resolve_updates, triple_rotated_updates. cbn [for_each].
  next_update. claims YZ_weak. claimed YX_weak.
  next_update. claimed ZY_weak. claimed ZX_weak.
  next_update. claims XY_weak. claimed XZ_weak.
  eexists. reflexivity.
Qed.

Ltac merge_step a b ia ib pool :=
  unfold merge_pair at 1; cbn [m_heap m_next m_remove m_add];
  rewrite ?heap_set_other by discriminate;
  rewrite !apply_updates_claimed by (cbn [In]; tauto);
  rewrite (merged_body_ext _ a _ b
             (same_but_acceleration_sym _ _ (heap_after_gravity_agree pool ia))
             (same_but_acceleration_sym _ _ (heap_after_gravity_agree pool ib)));
  rewrite (merged_body_value a b (grey_blend a b 0.5));
  [ cbn [bind m_remove m_add m_heap m_next]
  | apply calc_blended_color_grey
  | bodies3; lra ].

Ltac pool_lists :=
  cbn [bodies triple_pool triple_pool_rotated add_body with_bodies
       SystemBodyPool_init app ref_add ref_mem existsb Nat.eqb orb for_each
       list_remove bind fresh_ref list_max fold_right Nat.max heap].

Lemma triple_tick :
  exists p',
    update_system (pg := grey_pygame) triple_pool = Ok p' /\
    bodies p' = [3; 4]%nat /\
    heap p' 3%nat = merged_of body_X body_Y (grey_blend body_X body_Y 0.5) /\
    heap p' 4%nat = merged_of body_Z body_X (grey_blend body_Z body_X 0.5).
Proof.
  destruct (triple_resolve (heap_after_gravity triple_pool)) as (pend' & Er).
  unfold update_system. rewrite collect_updates_eval by exact triple_pairs_ok.
  rewrite triple_pending. cbn [bind]. rewrite Er. cbn [bind].
  unfold triple_resolution.
  cbn [body_merge_info bodies_to_remove bodies_to_merge for_each].
  merge_step body_X body_Y 0%nat 1%nat triple_pool.
  merge_step body_Z body_X 2%nat 0%nat triple_pool.
  eexists. split; [| split; [| split]].
  - pool_lists. reflexivity.
  - reflexivity.
  - pool_lists. rewrite heap_set_other by discriminate. apply heap_set_same.
  - pool_lists. apply heap_set_same.
Qed.

Lemma triple_rotated_tick :
  exists p',
    update_system (pg := grey_pygame) triple_pool_rotated = Ok p' /\
    bodies p' = [3; 4]%nat /\
    heap p' 3%nat = merged_of body_Y body_Z (grey_blend body_Y body_Z 0.5) /\
    heap p' 4%nat = merged_of body_X body_Y (grey_blend body_X body_Y 0.5).
Proof.
  destruct (triple_rotated_resolve (heap_after_gravity triple_pool_rotated))
    as (pend' & Er).
  unfold update_system. rewrite collect_updates_eval by exact triple_rotated_pairs_ok.
  rewrite triple_rotated_pending. cbn [bind]. rewrite Er. cbn [bind].
  unfold triple_rotated_resolution.
  cbn [body_merge_info bodies_to_remove bodies_to_merge for_each].
  merge_step body_Y body_Z 1%nat 2%nat triple_pool_rotated.
  merge_step body_X body_Y 0%nat 1%nat triple_pool_rotated.
  eexists. split; [| split; [| split]].
  - pool_lists. reflexivity.
  - reflexivity.
  - pool_lists. rewrite heap_set_other by discriminate. apply heap_set_same.
  - pool_lists. apply heap_set_same.
Qed.

(** ** Dust between a giant and a pebble *)

Ltac crowd := unfold dust, giant, pebble; fields.

Ltac crowd_mag := unfold rel_pos_mag, rel_pos; crowd; lra.

Ltac crowd_vn Hmag :=
  unfold rel_vel_n, col_normal; rewrite Hmag; unfold rel_vel, rel_pos; crowd; lra.

Lemma dust_giant_mag : rel_pos_mag dust giant = 1.
Proof. crowd_mag. Qed.
Lemma dust_pebble_mag : rel_pos_mag dust pebble = 1.
Proof. crowd_mag. Qed.
Lemma giant_dust_mag : rel_pos_mag giant dust = 1.
Proof. crowd_mag. Qed.
Lemma giant_pebble_mag : rel_pos_mag giant pebble = 4.
Proof. crowd_mag. Qed.
Lemma pebble_dust_mag : rel_pos_mag pebble dust = 1.
Proof. crowd_mag. Qed.
Lemma pebble_giant_mag : rel_pos_mag pebble giant = 4.
Proof. crowd_mag. Qed.

Lemma dust_giant_vn : rel_vel_n dust giant = -1.
Proof. crowd_vn dust_giant_mag. Qed.
Lemma dust_pebble_vn : rel_vel_n dust pebble = -1.
Proof. crowd_vn dust_pebble_mag. Qed.
Lemma giant_dust_vn : rel_vel_n giant dust = -1.
Proof. crowd_vn giant_dust_mag. Qed.
Lemma giant_pebble_vn : rel_vel_n giant pebble = -1.
Proof. crowd_vn giant_pebble_mag. Qed.
Lemma pebble_dust_vn : rel_vel_n pebble dust = -1.
Proof. crowd_vn pebble_dust_mag. Qed.
Lemma pebble_giant_vn : rel_vel_n pebble giant = -1.
Proof. crowd_vn pebble_giant_mag. Qed.

Ltac crowd_info Hmag Hvn :=
  apply calc_collision_bias_some;
  [ rewrite Hmag; lra
  | unfold intersection; rewrite Hmag; crowd; apply overlap_by_square; lra
  | rewrite Hvn; lra
  | crowd; lra | crowd; lra | crowd; lra | crowd; lra ].

Lemma dust_giant_info :
  calc_collision_bias dust giant = Ok (Some (collision_info dust giant)).
Proof. crowd_info dust_giant_mag dust_giant_vn. Qed.
Lemma dust_pebble_info :
  calc_collision_bias dust pebble = Ok (Some (collision_info dust pebble)).
Proof. crowd_info dust_pebble_mag dust_pebble_vn. Qed.
Lemma giant_dust_info :
  calc_collision_bias giant dust = Ok (Some (collision_info giant dust)).
Proof. crowd_info giant_dust_mag giant_dust_vn. Qed.
Lemma giant_pebble_info :
  calc_collision_bias giant pebble = Ok (Some (collision_info giant pebble)).
Proof. crowd_info giant_pebble_mag giant_pebble_vn. Qed.
Lemma pebble_dust_info :
  calc_collision_bias pebble dust = Ok (Some (collision_info pebble dust)).
Proof. crowd_info pebble_dust_mag pebble_dust_vn. Qed.
Lemma pebble_giant_info :
  calc_collision_bias pebble giant = Ok (Some (collision_info pebble giant)).
Proof. crowd_info pebble_giant_mag pebble_giant_vn. Qed.

Ltac crowd_weak Hvn :=
  split;
  [ unfold collision_info; crowd; lra
  | unfold collision_info; fields; rewrite Hvn;
    unfold COLLISION_DAMPENING, SYSTEM_SCALE; crowd; lra ].

Lemma dust_giant_bias : bias (collision_info dust giant) < 0.1.
Proof. unfold collision_info; crowd; lra. Qed.
Lemma pebble_giant_bias : bias (collision_info pebble giant) < 0.1.
Proof. unfold collision_info; crowd; lra. Qed.
Lemma dust_pebble_weak :
  0.1 <= bias (collision_info dust pebble)
  /\ impulse (collision_info dust pebble) < 10.
Proof. crowd_weak dust_pebble_vn. Qed.
Lemma giant_dust_weak :
  0.1 <= bias (collision_info giant dust)
  /\ impulse (collision_info giant dust) < 10.
Proof. crowd_weak giant_dust_vn. Qed.
Lemma giant_pebble_weak :
  0.1 <= bias (collision_info giant pebble)
  /\ impulse (collision_info giant pebble) < 10.
Proof. crowd_weak giant_pebble_vn. Qed.
Lemma pebble_dust_weak :
  0.1 <= bias (collision_info pebble dust)
  /\ impulse (collision_info pebble dust) < 10.
Proof. crowd_weak pebble_dust_vn. Qed.

Lemma crowd_pairs_ok :
  pairs_ok (heap crowd_pool) (bodies crowd_pool) (bodies crowd_pool).
Proof.
  apply pairs_ok_intro. intros i j Hi Hj Hn. cbn in Hi, Hj.
  destruct Hi as [<- | [<- | [<- | []]]]; destruct Hj as [<- | [<- | [<- | []]]];
    try (exfalso; apply Hn; reflexivity).
  - eapply pair_ok_intro; [| exact dust_giant_info].
    change (rel_pos_mag dust giant <> 0). rewrite dust_giant_mag. lra.
  - eapply pair_ok_intro; [| exact dust_pebble_info].
    change (rel_pos_mag dust pebble <> 0). rewrite dust_pebble_mag. lra.
  - eapply pair_ok_intro; [| exact giant_dust_info].
    change (rel_pos_mag giant dust <> 0). rewrite giant_dust_mag. lra.
  - eapply pair_ok_intro; [| exact giant_pebble_info].
    change (rel_pos_mag giant pebble <> 0). rewrite giant_pebble_mag. lra.
  - eapply pair_ok_intro; [| exact pebble_dust_info].
    change (rel_pos_mag pebble dust <> 0). rewrite pebble_dust_mag. lra.
  - eapply pair_ok_intro; [| exact pebble_giant_info].
    change (rel_pos_mag pebble giant <> 0). rewrite pebble_giant_mag. lra.
Qed.

Lemma crowd_pending :
  pending_of (heap crowd_pool) (bodies crowd_pool) (bodies crowd_pool)
  = crowd_updates.
Proof.
  unfold pending_of, pending_one, detected.
  cbn [bodies crowd_pool add_body with_bodies SystemBodyPool_init app flat_map heap].
  rewrite !detected_one_self.
  rewrite (detected_one_some crowd_heap 0%nat 1%nat _ ltac:(discriminate) dust_giant_info).
  rewrite (detected_one_some crowd_heap 0%nat 2%nat _ ltac:(discriminate) dust_pebble_info).
  rewrite (detected_one_some crowd_heap 1%nat 0%nat _ ltac:(discriminate) giant_dust_info).
  rewrite (detected_one_some crowd_heap 1%nat 2%nat _ ltac:(discriminate) giant_pebble_info).
  rewrite (detected_one_some crowd_heap 2%nat 0%nat _ ltac:(discriminate) pebble_dust_info).
  rewrite (detected_one_some crowd_heap 2%nat 1%nat _ ltac:(discriminate) pebble_giant_info).
  reflexivity.
Qed.

(** A pairing whose affected body is negligible. *)
Ltac absorbed Hbias :=
  rewrite resolve_collision_absorb;
  [ cbn [bind]; update_fields
  | update_fields; discriminate
  | exact Hbias ].

Lemma crowd_resolve h :
  exists pend',
    resolve_updates (pg := grey_pygame) h crowd_updates
    = Ok (crowd_resolution, pend').
Proof.
  unfold resolve_updates, crowd_updates. cbn [for_each].
  next_update. absorbed dust_giant_bias. claims dust_pebble_weak.
  next_update. claims giant_dust_weak. claimed giant_pebble_weak.
  next_update. claimed pebble_dust_weak. absorbed pebble_giant_bias.
  eexists. reflexivity.
Qed.

Lemma crowd_tick_resolution :
  tick_resolution (pg := grey_pygame) crowd_pool = Ok crowd_resolution.
Proof.
  destruct (crowd_resolve (heap_after_gravity crowd_pool)) as (pend' & Er).
  unfold tick_resolution. rewrite collect_updates_eval by exact crowd_pairs_ok.
  rewrite crowd_pending. cbn [bind]. rewrite Er. reflexivity.
Qed.

Ltac crowd_merge a b ia ib :=
  unfold merge_pair at 1; cbn [m_heap m_next m_remove m_add];
  rewrite ?heap_set_other by discriminate;
  rewrite !apply_updates_claimed by (cbn [In]; tauto);
  rewrite (merged_body_ext _ a _ b
             (same_but_acceleration_sym _ _ (heap_after_gravity_agree crowd_pool ia))
             (same_but_acceleration_sym _ _ (heap_after_gravity_agree crowd_pool ib)));
  rewrite (merged_body_value a b (grey_blend a b 0.5));
  [ cbn [bind m_remove m_add m_heap m_next]
  | apply calc_blended_color_grey
  | crowd; lra ].

Lemma crowd_tick :
  exists p',
    update_system (pg := grey_pygame) crowd_pool = Ok p' /\
    bodies p' = [3; 4]%nat /\
    heap p' 3%nat = merged_of dust pebble (grey_blend dust pebble 0.5) /\
    heap p' 4%nat = merged_of giant dust (grey_blend giant dust 0.5).
Proof.
  destruct (crowd_resolve (heap_after_gravity crowd_pool)) as (pend' & Er).
  unfold update_system. rewrite collect_updates_eval by exact crowd_pairs_ok.
  rewrite crowd_pending. cbn [bind]. rewrite Er. cbn [bind].
  unfold crowd_resolution.
  cbn [body_merge_info bodies_to_remove bodies_to_merge for_each].
  crowd_merge dust pebble 0%nat 2%nat.
  crowd_merge giant dust 1%nat 0%nat.
  eexists. split; [| split; [| split]].
  - cbn [bodies crowd_pool add_body with_bodies SystemBodyPool_init app ref_add
         ref_mem existsb Nat.eqb orb for_each list_remove bind fresh_ref
         list_max fold_right Nat.max heap].
    reflexivity.
  - reflexivity.
  - cbn [heap with_bodies]. rewrite heap_set_other by discriminate.
    apply heap_set_same.
  - cbn [heap with_bodies]. apply heap_set_same.
Qed.

(** * The order of the bodies collection *)

Lemma fold_left_permutation {A B} (f : A -> B -> A) l l' :
  (forall a x y, f (f a x) y = f (f a y) x) ->
  Permutation l l' -> forall a, fold_left f l a = fold_left f l' a.
Proof.
  intros Hc Hp. induction Hp as [| x l l' _ IH | x y l | l l' l'' _ IH1 _ IH2];
    intros a; cbn [fold_left].
  - reflexivity.
  - apply IH.
  - rewrite Hc. reflexivity.
  - rewrite IH1. apply IH2.
Qed.

Lemma vadd_swap a u v : vadd (vadd a u) v = vadd (vadd a v) u.
Proof. unfold vadd. cbn [fst snd]. f_equal; ring. Qed.

Lemma gravity_total_permutation h i l l' acc :
  Permutation l l' -> gravity_total h i l acc = gravity_total h i l' acc.
Proof.
  intros Hp. unfold gravity_total. apply fold_left_permutation; [| exact Hp].
  intros a x y. destruct (Nat.eqb i x), (Nat.eqb i y); try reflexivity.
  apply vadd_swap.
Qed.

Lemma accel_after_permutation h all all' l l' r acc :
  Permutation all all' -> Permutation l l' ->
  accel_after h all l r acc = accel_after h all' l' r acc.
Proof.
  intros Ha Hl. unfold accel_after.
  rewrite (fold_left_permutation _ l l'); [| | exact Hl].
  - clear Hl. revert acc. induction l' as [| i l'' IH]; intros acc; [reflexivity |].
    cbn [fold_left]. rewrite (gravity_total_permutation h r all all') by exact Ha.
    apply IH.
  - intros a x y. destruct (Nat.eqb r x), (Nat.eqb r y); reflexivity.
Qed.

Lemma pairs_ok_permutation h all all' l l' :
  Permutation all all' -> Permutation l l' ->
  pairs_ok h all l -> pairs_ok h all' l'.
Proof.
  intros Ha Hl Hok. unfold pairs_ok in *. rewrite Forall_forall in *.
  intros i Hi. apply (Permutation_in _ (Permutation_sym Hl)) in Hi.
  specialize (Hok i Hi). rewrite Forall_forall in *.
  intros j Hj. apply Hok. apply (Permutation_in _ (Permutation_sym Ha)). exact Hj.
Qed.

Lemma flat_map_nil {A B} (f : A -> list B) l :
  flat_map f l = [] <-> forall x, In x l -> f x = [].
Proof.
  induction l as [| y l IH]; cbn [flat_map].
  - split; [intros _ x [] | reflexivity].
  - split.
    + intros E. apply app_eq_nil in E. destruct E as [E1 E2].
      intros x [<- | Hx]; [exact E1 | apply IH; assumption].
    + intros K. rewrite (K y (or_introl eq_refl)).
      apply IH. intros x Hx. apply K. right. exact Hx.
Qed.

Lemma pending_of_nil h all l :
  pending_of h all l = [] <->
  forall i j, In i l -> In j all -> detected_one h i j = [].
Proof.
  unfold pending_of. rewrite flat_map_nil. split.
  - intros K i j Hi Hj. specialize (K i Hi). unfold pending_one in K.
    destruct (detected h i all) eqn:E; [| discriminate].
    unfold detected in E. rewrite flat_map_nil in E. apply E. exact Hj.
  - intros K i Hi. unfold pending_one.
    assert (E : detected h i all = []).
    { unfold detected. apply flat_map_nil. intros j Hj. apply K; assumption. }
    rewrite E. reflexivity.
Qed.

Lemma pending_of_nil_permutation h all all' l l' :
  Permutation all all' -> Permutation l l' ->
  pending_of h all l = [] -> pending_of h all' l' = [].
Proof.
  intros Ha Hl. rewrite !pending_of_nil. intros K i j Hi Hj. apply K.
  - apply (Permutation_in _ (Permutation_sym Hl)). exact Hi.
  - apply (Permutation_in _ (Permutation_sym Ha)). exact Hj.
Qed.

Section Order.
Context `{pg : PygameColor}.

Lemma no_collision_permuted p l' h :
  Permutation (bodies p) l' -> collect_updates p = Ok (h, []) ->
  update_system p = Ok (with_bodies p (bodies p) (heap_after_gravity p)) /\
  update_system (with_bodies p l' (heap p))
    = Ok (with_bodies p l' (heap_after_gravity p)).
Proof.
  intros Hp Hc. apply collect_updates_spec in Hc. destruct Hc as (_ & He & Hok).
  symmetry in He. split; [apply no_collision_tick; assumption |].
  rewrite no_collision_tick.
  - cbn [bodies heap with_bodies]. f_equal. unfold with_bodies.
    cbn [center _heatmap _heatmap_active _heatmap_update_time _heatmap_surface].
    f_equal. apply functional_extensionality. intros r.
    unfold heap_after_gravity. cbn [bodies heap]. f_equal.
    apply accel_after_permutation; apply Permutation_sym; exact Hp.
  - cbn [bodies heap with_bodies].
    eapply pairs_ok_permutation; [exact Hp | exact Hp | exact Hok].
  - cbn [bodies heap with_bodies].
    eapply pending_of_nil_permutation; [exact Hp | exact Hp | exact He].
Qed.

End Order.

(** * The heatmap *)

Lemma absorb_twice acc v : absorb (absorb acc v) v = absorb acc v.
Proof.
  unfold absorb, py_max, py_min. cbn [fst snd].
  destruct (Rlt_dec (fst acc) v), (Rlt_dec v (snd acc)); f_equal;
    match goal with |- context [Rlt_dec ?a ?b] => destruct (Rlt_dec a b) end;
    try reflexivity; lra.
Qed.

Lemma extrema_row_uniform v row : forall acc,
  Forall (eq v) row ->
  fold_left absorb row acc = match row with [] => acc | _ => absorb acc v end.
Proof.
  induction row as [| c row IH]; intros acc Hu; [reflexivity |].
  inversion Hu as [| ? ? <- Hrow]; subst. cbn [fold_left].
  rewrite (IH _ Hrow). destruct row; [reflexivity | apply absorb_twice].
Qed.

Lemma extrema_grid_uniform v grid : forall acc,
  Forall (Forall (eq v)) grid ->
  fold_left (fun acc row => fold_left absorb row acc) grid acc
  = match List.concat grid with [] => acc | _ => absorb acc v end.
Proof.
  induction grid as [| row grid IH]; intros acc Hu; [reflexivity |].
  inversion Hu as [| ? ? Hrow Hgrid]; subst. cbn [fold_left List.concat].
  rewrite (IH _ Hgrid). rewrite (extrema_row_uniform v row acc Hrow).
  destruct row as [| c row]; cbn [app]; [reflexivity |].
  destruct (List.concat grid); [reflexivity | apply absorb_twice].
Qed.

Lemma heatmap_extrema_uniform v grid :
  Forall (Forall (eq v)) grid -> List.concat grid <> [] ->
  heatmap_extrema grid = (py_max 0 v, py_min 1e20 v).
Proof.
  intros Hu Hne. unfold heatmap_extrema.
  change (fun acc row =>
            fold_left
              (fun acc0 value =>
                 (py_max (fst acc0) value, py_min (snd acc0) value))
              row acc)
    with (fun acc row => fold_left absorb row acc).
  rewrite (extrema_grid_uniform v grid _ Hu).
  destruct (List.concat grid); [congruence | reflexivity].
Qed.

(** A uniform grid within the initial extrema is drawn blank. *)
Lemma create_heatmap_surface_uniform v grid view_rect :
  Forall (Forall (eq v)) grid -> List.concat grid <> [] -> 0 <= v <= 1e20 ->
  create_heatmap_surface grid view_rect = Ok [].
Proof.
  intros Hu Hne Hv. unfold create_heatmap_surface.
  rewrite (heatmap_extrema_uniform v grid Hu Hne).
  assert (E1 : py_max 0 v = v) by (unfold py_max; destruct (Rlt_dec 0 v); lra).
  assert (E2 : py_min 1e20 v = v) by (unfold py_min; destruct (Rlt_dec v 1e20); lra).
  rewrite E1, E2. rewrite Reqb_true by lra. reflexivity.
Qed.

(** With no cell at all the extrema stay apart and the logarithm of
    [0 / 1e20] is taken. *)
Lemma create_heatmap_surface_no_cell grid view_rect :
  List.concat grid = [] -> create_heatmap_surface grid view_rect = Raise ValueError.
Proof.
  intros Hc. unfold create_heatmap_surface.
  assert (E : heatmap_extrema grid = (0, 1e20)).
  { unfold heatmap_extrema. clear view_rect. generalize (0, 1e20).
    induction grid as [| row grid IH]; intros acc; [reflexivity |].
    cbn [List.concat] in Hc. apply app_eq_nil in Hc. destruct Hc as [-> Hc].
    cbn [fold_left]. apply IH. exact Hc. }
  rewrite E. rewrite Reqb_false by lra. rewrite py_div_ok by lra. cbn [bind].
  unfold math_log. destruct (Rle_dec (0 / 1e20) 0) as [_ | N]; [reflexivity | lra].
Qed.

Lemma update_heatmap_due p delta scale view_rect :
  _heatmap_active p = true ->
  HEATMAP_UPDATE_INTERVAL <= _heatmap_update_time p ->
  update_heatmap p delta scale view_rect =
  (grid <- heatmap_grid (heap p) (bodies p) scale view_rect ;;
   surface <- create_heatmap_surface grid view_rect ;;
   Ok {| bodies := bodies p; heap := heap p; center := center p;
         _heatmap := grid; _heatmap_active := _heatmap_active p;
         _heatmap_update_time := 0.0;
         _heatmap_surface := Some surface |}).
Proof.
  intros Ha Ht. unfold update_heatmap. rewrite Ha. cbn [negb].
  rewrite Rltb_false by exact Ht. reflexivity.
Qed.

(** A loop that appends one computed element per step. *)
Lemma for_each_collect {A B} (step : list B -> A -> Result (list B)) (g : A -> B) xs :
  (forall row x, step row x = Ok (row ++ [g x])) ->
  forall acc, for_each step xs acc = Ok (acc ++ map g xs).
Proof.
  intros Hstep. induction xs as [| x xs IH]; intros acc.
  - cbn. rewrite app_nil_r. reflexivity.
  - cbn [for_each map]. rewrite Hstep. cbn [bind]. rewrite IH.
    rewrite <- app_assoc. reflexivity.
Qed.

(** The grid of an empty pool: zero everywhere. *)
Lemma heatmap_row_empty_pool h scale view_rect yv :
  scale <> 0 ->
  heatmap_row h [] scale view_rect yv
  = Ok (map (fun _ => 0)
          (py_range (HEATMAP_CELL_SIZE / 2)
             (width view_rect + HEATMAP_CELL_SIZE / 2) HEATMAP_CELL_SIZE)).
Proof.
  intros Hs. unfold heatmap_row.
  assert (Hd : SYSTEM_SCALE * scale <> 0).
  { unfold SYSTEM_SCALE. intros K. apply Hs. lra. }
  apply (for_each_collect _ (fun _ => 0) _) with (acc := []).
  intros row xv. rewrite !py_div_ok by exact Hd. reflexivity.
Qed.

Lemma heatmap_grid_empty_pool h scale view_rect :
  scale <> 0 ->
  heatmap_grid h [] scale view_rect
  = Ok (map (fun _ =>
               map (fun _ => 0)
                 (py_range (HEATMAP_CELL_SIZE / 2)
                    (width view_rect + HEATMAP_CELL_SIZE / 2) HEATMAP_CELL_SIZE))
          (py_range (HEATMAP_CELL_SIZE / 2)
             (height view_rect + HEATMAP_CELL_SIZE / 2) HEATMAP_CELL_SIZE)).
Proof.
  intros Hs. unfold heatmap_grid.
  apply (for_each_collect _ _ _) with (acc := []).
  intros grid yv. rewrite heatmap_row_empty_pool by exact Hs. reflexivity.
Qed.

Lemma py_range_nonempty start stop step :
  (0 < step)%Z -> (start < stop)%Z -> py_range start stop step <> [].
Proof.
  intros Hs Hl. unfold py_range.
  assert (1 <= (stop - start + step - 1) / step)%Z.
  { apply Z.div_le_lower_bound; lia. }
  destruct (Z.to_nat ((stop - start + step - 1) / step)) eqn:E; [lia |].
  cbn. discriminate.
Qed.

Lemma py_int_negative x : x <= -1 -> (py_int x < 0)%Z.
Proof.
  intros Hx. unfold py_int. destruct (Rle_dec 0 x) as [K | _]; [lra |].
  destruct (base_Int_part (- x)) as [_ Hb].
  assert (0 < IZR (Int_part (- x))) by lra.
  apply lt_IZR in H. lia.
Qed.

Lemma ln_le_pred x : 0 < x -> ln x <= x - 1.
Proof.
  intros Hx. pose proof (exp_ineq1_le (ln x)) as K.
  rewrite exp_ln in K by exact Hx. lra.
Qed.

Lemma create_heatmap_surface_lone_cell v view_rect :
  1e20 < v ->
  create_heatmap_surface [[v]] view_rect
  = Ok [{| rect_left := 0; rect_top := 0;
           rect_w := HEATMAP_CELL_SIZE; rect_h := HEATMAP_CELL_SIZE;
           rect_intensity := lone_cell_intensity v |}].
Proof.
  intros Hv. unfold create_heatmap_surface.
  assert (E : heatmap_extrema [[v]] = (v, 1e20)).
  { unfold heatmap_extrema. cbn [fold_left fst snd]. unfold py_max, py_min.
    destruct (Rlt_dec 0 v); [| lra]. destruct (Rlt_dec v 1e20); [lra | reflexivity]. }
  rewrite E. rewrite Reqb_false by lra.
  rewrite py_div_ok by lra. cbn [bind].
  assert (Hr : 1 < v / 1e20) by lra.
  rewrite math_log_ok by lra. cbn [bind].
  assert (Hd : 0 < ln (v / 1e20)).
  { rewrite <- ln_1. apply ln_increasing; lra. }
  rewrite !py_div_ok by lra. cbn [bind].
  cbn [enumerate List.length seq map combine for_each fst snd].
  unfold heatmap_cell. rewrite math_log_ok by lra. cbn [bind].
  rewrite py_div_ok by lra. cbn [bind].
  rewrite py_div_ok.
  - reflexivity.
  - intros K.
    assert (K' : (v - 1e20) / ln (v / 1e20) = 0) by (rewrite <- K; field; lra).
    apply Rmult_eq_compat_r with (r := ln (v / 1e20)) in K'.
    unfold Rdiv in K'. rewrite Rmult_assoc, Rinv_l in K' by lra. lra.
Qed.

Lemma lone_cell_intensity_negative v :
  1e20 < v -> v <= 1e22 -> (lone_cell_intensity v < 0)%Z.
Proof.
  intros Hlo Hhi. unfold lone_cell_intensity. apply py_int_negative.
  assert (Hd : 0 < ln (v / 1e20)).
  { rewrite <- ln_1. apply ln_increasing; lra. }
  assert (Hl : ln v <= 2e11).
  { assert (ln v <= ln 1e22).
    { destruct (Req_dec_T v 1e22) as [-> | N]; [lra |].
      left. apply ln_increasing; lra. }
    assert (E : ln 1e22 = ln 1e11 + ln 1e11).
    { rewrite <- ln_mult by lra. f_equal. lra. }
    pose proof (ln_le_pred 1e11 ltac:(lra)). lra. }
  replace ((ln v / ln (v / 1e20) - 1e20 / ln (v / 1e20))
           / (v / ln (v / 1e20) - 1e20 / ln (v / 1e20)) * 255)
    with ((ln v - 1e20) / (v - 1e20) * 255) by (field; lra).
  apply Rmult_le_reg_r with (r := v - 1e20); [lra |].
  replace ((ln v - 1e20) / (v - 1e20) * 255 * (v - 1e20))
    with ((ln v - 1e20) * 255) by (field; lra).
  lra.
Qed.

Lemma speck_grid :
  heatmap_grid (heap speck_pool) (bodies speck_pool) 1 one_cell_view
  = Ok [[6.6743e21]].
Proof.
  unfold heatmap_grid, heatmap_row.
  change (py_range (HEATMAP_CELL_SIZE / 2)
            (height one_cell_view + HEATMAP_CELL_SIZE / 2) HEATMAP_CELL_SIZE)
    with [5%Z].
  change (py_range (HEATMAP_CELL_SIZE / 2)
            (width one_cell_view + HEATMAP_CELL_SIZE / 2) HEATMAP_CELL_SIZE)
    with [5%Z].
  cbn [for_each].
  change (5 - width one_cell_view / 2)%Z with 0%Z.
  change (5 - height one_cell_view / 2)%Z with 0%Z.
  rewrite !py_div_ok by (unfold SYSTEM_SCALE; lra). cbn [bind].
  unfold total_accel_at. cbn [for_each bodies heap speck_pool].
  rewrite calc_gravity_at_point_ok by (unfold speck; cbn [radius SystemBody_init]; lra).
  cbn [bind force app].
  assert (E : floored_dist_sqr speck
                (0 / (SYSTEM_SCALE * 1) + IZR (x one_cell_view),
                 0 / (SYSTEM_SCALE * 1) + IZR (y one_cell_view)) = 1e-18).
  { unfold floored_dist_sqr, py_max, speck, SYSTEM_SCALE.
    cbn [position radius SystemBody_init fst snd x y one_cell_view].
    destruct (Rlt_dec _ _) as [_ | N]; [lra |]. exfalso. apply N. lra. }
  rewrite E. unfold GRAVITY_CONSTANT. do 3 f_equal. lra.
Qed.

(** * The claims *)

Lemma head_on_tick_resolution :
  tick_resolution (pg := grey_pygame) head_on_pool = Ok head_on_resolution.
Proof.
  destruct head_on_resolve as (pend' & Er). unfold tick_resolution.
  rewrite collect_updates_eval by exact head_on_pairs_ok.
  rewrite head_on_pending. cbn [bind]. rewrite Er. reflexivity.
Qed.

Lemma head_on_NoDup : NoDup (bodies head_on_pool).
Proof. repeat constructor; cbn; intuition discriminate. Qed.

(** C1: for every merge pair (b1, b2) resolved in a tick, the pool after the
    tick holds a new body whose mass is mass(b1) + mass(b2), whose position
    and velocity are the mass-weighted averages, whose radius is
    radius(b1) + radius(b2), whose colour is the blend at bias 0.5 and whose
    name joins both names (with an underscore); b1 and b2 are gone from the
    pool.  The masses, radii, positions, velocities and colours are those at
    the start of the tick; the pool lists no body twice. *)
Theorem merge_pair_synthesis `{pg : PygameColor} (p p' : SystemBodyPool)
    (res : Resolution) (b1 b2 : Ref) :
  NoDup (bodies p) ->
  update_system p = Ok p' ->
  tick_resolution p = Ok res ->
  In (b1, b2) (body_merge_info res) ->
  let body1 := heap p b1 in
  let body2 := heap p b2 in
  exists new_body : Ref,
    In new_body (bodies p') /\ ~ In new_body (bodies p) /\
    mass (heap p' new_body) = mass body1 + mass body2 /\
    position (heap p' new_body)
    = ((fst (position body1) * mass body1 + fst (position body2) * mass body2)
       / (mass body1 + mass body2),
       (snd (position body1) * mass body1 + snd (position body2) * mass body2)
       / (mass body1 + mass body2)) /\
    velocity (heap p' new_body)
    = ((fst (velocity body1) * mass body1 + fst (velocity body2) * mass body2)
       / (mass body1 + mass body2),
       (snd (velocity body1) * mass body1 + snd (velocity body2) * mass body2)
       / (mass body1 + mass body2)) /\
    radius (heap p' new_body) = radius body1 + radius body2 /\
    calc_blended_color body1 body2 0.5 = Ok (color (heap p' new_body)) /\
    name (heap p' new_body) = (name body1 ++ "_" ++ name body2)%string /\
    ~ In b1 (bodies p') /\ ~ In b2 (bodies p').
Proof.
  intros Hd E Er Hin body1 body2.
  destruct (merge_pair_result p p' res b1 b2 Hd E Er Hin)
    as (r & c & I & N & Ec & Eh & N1 & N2).
  exists r. rewrite Eh. cbn [mass position velocity radius color name merged_of].
  repeat split; assumption.
Qed.

Lemma merge_pair_synthesis_witness :
  exists p' new_body,
    update_system (pg := grey_pygame) head_on_pool = Ok p' /\
    In new_body (bodies p') /\
    mass (heap p' new_body) = mass sun + mass moon /\
    ~ In 0%nat (bodies p') /\ ~ In 1%nat (bodies p').
Proof.
  destruct head_on_tick as (p' & E & _).
  destruct (merge_pair_synthesis (pg := grey_pygame) head_on_pool p'
              head_on_resolution 0%nat 1%nat head_on_NoDup E
              head_on_tick_resolution (or_introl eq_refl))
    as (r & I & _ & Em & _ & _ & _ & _ & _ & N1 & N2).
  exists p', r. repeat split; assumption.
Defined.

(** C10: a body claimed by a merge pair is skipped by the commit loop: the
    heap the merge loop reads still holds, for both bodies of the pair, what
    the first loop left (the start-of-tick mass, radius, colour, position
    and velocity), so the merged body is computed from start-of-tick
    values whatever the pending records accumulated. *)
Theorem merge_claim_discards_pending `{pg : PygameColor} (p : SystemBodyPool)
    (res : Resolution) (committed : Heap) (b1 b2 : Ref) :
  tick_resolution p = Ok res ->
  tick_committed p = Ok committed ->
  In (b1, b2) (body_merge_info res) ->
  committed b1 = heap_after_gravity p b1 /\
  committed b2 = heap_after_gravity p b2 /\
  same_but_acceleration (heap p b1) (committed b1) /\
  same_but_acceleration (heap p b2) (committed b2) /\
  merged_body (committed b1) (committed b2)
  = merged_body (heap p b1) (heap p b2).
Proof.
  intros Er Ec Hin.
  destruct (tick_resolution_closed p res Er) as [C _].
  destruct (C _ _ Hin) as [M1 M2].
  pose proof (merge_pair_frame p res committed b1 Er Ec M1) as E1.
  pose proof (merge_pair_frame p res committed b2 Er Ec M2) as E2.
  assert (S1 : same_but_acceleration (heap p b1) (committed b1))
    by (rewrite E1; apply heap_after_gravity_agree).
  assert (S2 : same_but_acceleration (heap p b2) (committed b2))
    by (rewrite E2; apply heap_after_gravity_agree).
  repeat split; try assumption; try apply S1; try apply S2.
  apply merged_body_ext; apply same_but_acceleration_sym; assumption.
Qed.

Lemma head_on_tick_committed :
  exists committed,
    tick_committed (pg := grey_pygame) head_on_pool = Ok committed.
Proof.
  destruct head_on_resolve as (pend' & Er). unfold tick_committed.
  rewrite collect_updates_eval by exact head_on_pairs_ok.
  rewrite head_on_pending. cbn [bind]. rewrite Er. cbn [bind]. eauto.
Qed.

Lemma merge_claim_discards_pending_witness :
  exists committed,
    tick_committed (pg := grey_pygame) head_on_pool = Ok committed /\
    same_but_acceleration sun (committed 0%nat) /\
    same_but_acceleration moon (committed 1%nat) /\
    merged_body (pg := grey_pygame) (committed 0%nat) (committed 1%nat)
    = merged_body (pg := grey_pygame) sun moon.
Proof.
  destruct head_on_tick_committed as (committed & Ec).
  destruct (merge_claim_discards_pending (pg := grey_pygame) head_on_pool
              head_on_resolution committed 0%nat 1%nat
              head_on_tick_resolution Ec (or_introl eq_refl))
    as (_ & _ & S1 & S2 & Em).
  exists committed. repeat split; try apply S1; try apply S2; assumption.
Defined.

(** C2, amended: a pending pair (affected, affector) whose bias is below 0.1
    marks affected for removal; that pairing changes nothing else in the
    resolution (no merge claim, no partial transfer), and after a tick that
    raises nothing, on a pool that lists no body twice, affected is absent
    from the pool. *)
Theorem absorbed_body_removed `{pg : PygameColor} (p p' : SystemBodyPool)
    (affected_body affector : Ref) (col_info : CollisionInfo) :
  NoDup (bodies p) ->
  update_system p = Ok p' ->
  In affected_body (bodies p) -> In affector (bodies p) ->
  affected_body <> affector ->
  calc_collision_bias (heap p affected_body) (heap p affector)
  = Ok (Some col_info) ->
  bias col_info < 0.1 ->
  (exists res, tick_resolution p = Ok res
               /\ In affected_body (bodies_to_remove res)) /\
  (forall h res this_update,
      affected this_update = affected_body ->
      resolve_collision h (res, this_update) (affector, col_info)
      = Ok ({| bodies_to_remove := ref_add affected_body (bodies_to_remove res);
               bodies_to_merge := bodies_to_merge res;
               body_merge_info := body_merge_info res |}, this_update)) /\
  ~ In affected_body (bodies p').
Proof.
  intros Hd E Ia Ib Hn Hc Hb.
  destruct (absorbed_result p p' affected_body affector col_info
              Hd E Ia Ib Hn Hc Hb) as [Hr Hout].
  split; [exact Hr |]. split; [| exact Hout].
  intros h res u Hu. rewrite <- Hu. apply resolve_collision_absorb; [| exact Hb].
  rewrite Hu. exact Hn.
Qed.

Lemma absorbed_body_removed_witness :
  exists p',
    update_system (pg := grey_pygame) head_on_pool = Ok p' /\
    bias (collision_info moon sun) < 0.1 /\
    ~ In 1%nat (bodies p').
Proof.
  destruct head_on_tick as (p' & E & _).
  assert (Hb : bias (collision_info moon sun) < 0.1)
    by (rewrite moon_sun_bias; lra).
  destruct (absorbed_body_removed (pg := grey_pygame) head_on_pool p'
              1%nat 0%nat (collision_info moon sun) head_on_NoDup E
              (or_intror (or_introl eq_refl)) (or_introl eq_refl)
              (fun K : 1%nat = 0%nat =>
                 eq_ind 1%nat
                   (fun n => match n with O => False | S _ => True end)
                   I 0%nat K)
              moon_sun_info Hb)
    as (_ & _ & Hout).
  exists p'. repeat split; assumption.
Defined.

(** C2, as stated, fails: the dust is negligible next to the giant (bias
    1/101) and is marked for removal, yet the loop goes on to its next
    collision and claims the merge pair (dust, pebble); the giant's own
    pairing claims (giant, dust).  The two bodies left after the tick have
    mass 1 + 1 and 100 + 1: the mass of the dust went into both. *)
Lemma absorbed_body_still_merges :
  calc_collision_bias (heap crowd_pool 0%nat) (heap crowd_pool 1%nat)
  = Ok (Some (collision_info dust giant)) /\
  bias (collision_info dust giant) < 0.1 /\
  tick_resolution (pg := grey_pygame) crowd_pool = Ok crowd_resolution /\
  In 0%nat (bodies_to_remove crowd_resolution) /\
  In (0%nat, 2%nat) (body_merge_info crowd_resolution) /\
  exists p',
    update_system (pg := grey_pygame) crowd_pool = Ok p' /\
    bodies p' = [3; 4]%nat /\
    mass (heap p' 3%nat) = mass dust + mass pebble /\
    mass (heap p' 4%nat) = mass giant + mass dust.
Proof.
  split; [exact dust_giant_info |].
  split; [exact dust_giant_bias |].
  split; [exact crowd_tick_resolution |].
  split; [left; reflexivity |].
  split; [left; reflexivity |].
  destruct crowd_tick as (p' & E & Eb & E3 & E4).
  exists p'. split; [exact E |]. split; [exact Eb |].
  rewrite E3, E4. split; reflexivity.
Qed.

(** C3: when the normal component of the relative velocity of two bodies of
    a pool is not negative, [calc_collision_bias] returns [None] both ways,
    neither body is recorded among the other's affectors, and in a pool of
    just these two the tick leaves both in place with no pending update:
    every field but the acceleration is unchanged, and the acceleration is
    the one gravity gave.  (The normal exists when the positions differ.) *)
Theorem separating_pair_no_response `{pg : PygameColor} (p : SystemBodyPool)
    (a b : Ref) :
  rel_pos_mag (heap p a) (heap p b) <> 0 ->
  0 <= rel_vel_n (heap p a) (heap p b) ->
  calc_collision_bias (heap p a) (heap p b) = Ok None /\
  calc_collision_bias (heap p b) (heap p a) = Ok None /\
  (forall h pending_updates this_update,
      collect_updates p = Ok (h, pending_updates) ->
      In this_update pending_updates ->
      (affected this_update = a -> ~ In b (map fst (affectors this_update))) /\
      (affected this_update = b -> ~ In a (map fst (affectors this_update)))) /\
  (bodies p = [a; b] ->
   collect_updates p = Ok (heap_after_gravity p, []) /\
   update_system p = Ok (with_bodies p [a; b] (heap_after_gravity p)) /\
   same_but_acceleration (heap p a) (heap_after_gravity p a) /\
   same_but_acceleration (heap p b) (heap_after_gravity p b)).
Proof.
  intros Hp Hv.
  assert (Hab : calc_collision_bias (heap p a) (heap p b) = Ok None)
    by (apply calc_collision_bias_separating; assumption).
  assert (Hba : calc_collision_bias (heap p b) (heap p a) = Ok None).
  { apply calc_collision_bias_separating.
    - rewrite rel_pos_mag_sym. exact Hp.
    - rewrite rel_vel_n_sym. exact Hv. }
  split; [exact Hab |]. split; [exact Hba |]. split.
  - intros h pend u Ec Hu. apply collect_updates_spec in Ec.
    destruct Ec as (_ & -> & _). apply In_pending_of in Hu.
    destruct Hu as (i & _ & _ & ->). cbn [affected affectors update_info_of].
    split; intros -> K; apply in_map_iff in K; destruct K as ([j ci] & Ej & K);
      cbn [fst] in Ej; subst j; apply In_detected in K;
      destruct K as (_ & _ & K); congruence.
  - intros Eb.
    assert (Hne : a <> b).
    { intros ->. apply Hp. unfold rel_pos_mag, rel_pos. cbn [fst snd]. ring. }
    assert (Hok : pairs_ok (heap p) (bodies p) (bodies p)).
    { rewrite Eb. apply pairs_ok_intro. intros i j Hi Hj Hn.
      cbn in Hi, Hj. destruct Hi as [<- | [<- | []]]; destruct Hj as [<- | [<- | []]];
        try (exfalso; apply Hn; reflexivity).
      - apply (pair_ok_intro _ _ _ None); assumption.
      - apply (pair_ok_intro _ _ _ None); [rewrite rel_pos_mag_sym |]; assumption. }
    assert (Hpe : pending_of (heap p) (bodies p) (bodies p) = []).
    { apply pending_of_nil. rewrite Eb. intros i j Hi Hj.
      cbn in Hi, Hj. destruct Hi as [<- | [<- | []]]; destruct Hj as [<- | [<- | []]];
        first [apply detected_one_self | apply detected_one_none; assumption]. }
    split; [rewrite collect_updates_eval by exact Hok; rewrite Hpe; reflexivity |].
    split; [rewrite <- Eb; apply no_collision_tick; assumption |].
    split; apply heap_after_gravity_agree.
Qed.

Lemma separating_pair_no_response_witness :
  calc_collision_bias body_A body_B = Ok None /\
  update_system (pg := grey_pygame) scenario_pool
  = Ok (with_bodies scenario_pool [0; 1]%nat (heap_after_gravity scenario_pool)).
Proof.
  assert (Hv : 0 <= rel_vel_n (heap scenario_pool 0%nat) (heap scenario_pool 1%nat)).
  { change (0 <= rel_vel_n body_A body_B). unfold rel_vel_n, rel_vel.
    cbn [velocity body_A body_B SystemBody_init fst snd]. lra. }
  destruct (separating_pair_no_response (pg := grey_pygame) scenario_pool 0%nat 1%nat
              scenario_apart Hv) as (Hab & _ & _ & Htwo).
  split; [exact Hab |]. destruct (Htwo eq_refl) as (_ & E & _). exact E.
Defined.

Lemma calc_gravity_acceleration_coincident a b :
  position a = position b ->
  calc_gravity_acceleration a b = Raise ZeroDivisionError.
Proof.
  intros Hp. unfold calc_gravity_acceleration. rewrite Hp.
  replace ((fst (position b) - fst (position b)) ^ 2
           + (snd (position b) - snd (position b)) ^ 2) with 0 by ring.
  apply py_div_zero.
Qed.

(** A zero relative velocity never reaches the normalisation. *)
Lemma calc_collision_bias_no_relative_velocity a b :
  rel_pos_mag a b <> 0 -> velocity a = velocity b ->
  calc_collision_bias a b = Ok None.
Proof.
  intros Hp Hv. apply calc_collision_bias_separating; [exact Hp |].
  unfold rel_vel_n, rel_vel. rewrite Hv. cbn [fst snd]. lra.
Qed.

(** C4: the collision computation divides by zero for two bodies at the same
    position: [calc_collision_bias] raises ZeroDivisionError at the normal,
    and so does the whole tick (already at the gravity of the pair). *)
Theorem coincident_bodies_divide_by_zero :
  calc_collision_bias twin_a twin_b = Raise ZeroDivisionError /\
  update_system (pg := grey_pygame) twin_pool = Raise ZeroDivisionError.
Proof.
  split.
  - apply calc_collision_bias_coincident; [reflexivity |].
    unfold twin_a, twin_b. cbn [radius SystemBody_init]. lra.
  - unfold update_system, collect_updates.
    cbn [bodies heap twin_pool add_body with_bodies SystemBodyPool_init app for_each].
    rewrite collect_update_step. cbn [for_each].
    rewrite gravity_and_collision_step. cbn [Nat.eqb bind].
    rewrite gravity_and_collision_step. cbn [Nat.eqb bind].
    change (twin_heap 0%nat) with twin_a. change (twin_heap 1%nat) with twin_b.
    rewrite calc_gravity_acceleration_coincident by reflexivity. reflexivity.
Qed.

(** C5, amended: construction validates nothing: the mass, the radius and the
    colour are stored as given, the position and velocity are copied and the
    acceleration starts at zero. *)
Theorem body_init_stores_arguments (nm : string) (m r : R) (c : Color)
    (pos vel : Vec2) :
  let b := SystemBody_init nm m r c pos vel in
  name b = nm /\ mass b = m /\ radius b = r /\ color b = c /\
  position b = pos /\ velocity b = vel /\ acceleration b = (0, 0).
Proof.
  destruct pos, vel. cbn. repeat split.
Qed.

(** C5, as stated, fails: a body of negative mass, zero radius and colour
    channels outside [0, 255] is constructed as asked. *)
Lemma body_init_accepts_invalid :
  SystemBody_init "void" (-5) 0 [300; -1; 0]%Z (0, 0) (0, 0)
  = {| name := "void"; mass := -5; radius := 0; color := [300; -1; 0]%Z;
       position := (0, 0); velocity := (0, 0); acceleration := (0, 0) |}.
Proof. reflexivity. Qed.

(** Where the test for a degenerate field works: when a refresh is due and
    the grid it computes is not empty and holds one value v everywhere, with
    0 <= v <= 1e20 (the empty pool gives v = 0), the sampler returns a surface
    with nothing drawn on it and takes no logarithm. *)
Lemma uniform_field_blank (p : SystemBodyPool) (delta scale : R)
    (view_rect : Rect) (grid : list (list R)) (v : R) :
  _heatmap_active p = true ->
  HEATMAP_UPDATE_INTERVAL <= _heatmap_update_time p ->
  heatmap_grid (heap p) (bodies p) scale view_rect = Ok grid ->
  List.concat grid <> [] ->
  Forall (Forall (eq v)) grid ->
  0 <= v <= 1e20 ->
  create_heatmap_surface grid view_rect = Ok [] /\
  exists p',
    update_heatmap p delta scale view_rect = Ok p' /\
    _heatmap p' = grid /\ _heatmap_surface p' = Some [] /\ blank [].
Proof.
  intros Ha Ht Eg Hne Hu Hv.
  pose proof (create_heatmap_surface_uniform v grid view_rect Hu Hne Hv) as Es.
  split; [exact Es |].
  rewrite (update_heatmap_due p delta scale view_rect Ha Ht).
  rewrite Eg. cbn [bind]. rewrite Es. cbn [bind].
  eexists. split; [reflexivity |]. cbn [_heatmap _heatmap_surface].
  repeat split. constructor.
Qed.

Lemma uniform_field_blank_witness :
  exists p',
    update_heatmap empty_pool 1 1 screen_view = Ok p' /\
    _heatmap_surface p' = Some [].
Proof.
  assert (Hx : py_range (HEATMAP_CELL_SIZE / 2)
                 (width screen_view + HEATMAP_CELL_SIZE / 2) HEATMAP_CELL_SIZE <> [])
    by (apply py_range_nonempty; reflexivity).
  assert (Hy : py_range (HEATMAP_CELL_SIZE / 2)
                 (height screen_view + HEATMAP_CELL_SIZE / 2) HEATMAP_CELL_SIZE <> [])
    by (apply py_range_nonempty; reflexivity).
  assert (Hs : (1 : R) <> 0) by lra.
  destruct (uniform_field_blank empty_pool 1 1 screen_view _ 0
              eq_refl
              ltac:(unfold HEATMAP_UPDATE_INTERVAL; cbn [_heatmap_update_time empty_pool]; lra)
              (heatmap_grid_empty_pool (heap empty_pool) 1 screen_view Hs))
    as (_ & p' & E & _ & Es & _).
  - destruct (py_range (HEATMAP_CELL_SIZE / 2)
                (height screen_view + HEATMAP_CELL_SIZE / 2) HEATMAP_CELL_SIZE)
      as [| yv ys]; [congruence |].
    destruct (py_range (HEATMAP_CELL_SIZE / 2)
                (width screen_view + HEATMAP_CELL_SIZE / 2) HEATMAP_CELL_SIZE)
      as [| xv xs]; [congruence |].
    cbn. discriminate.
  - apply Forall_forall. intros row Hrow. apply in_map_iff in Hrow.
    destruct Hrow as (yv & <- & _). apply Forall_forall. intros c Hc.
    apply in_map_iff in Hc. destruct Hc as (xv & <- & _). reflexivity.
  - lra.
  - exists p'. split; assumption.
Defined.

(** C6: a grid of a single cell is uniform, its minimum being its maximum;
    yet when its value (6.6743e21, under a body of radius 1e-9) tops 1e20,
    the value the running minimum starts from, the test for a degenerate
    field misses it: the sampler takes logarithms and draws the cell, with a
    negative intensity. *)
Theorem speck_field_not_blank :
  exists p' c,
    update_heatmap speck_pool 0 1 one_cell_view = Ok p' /\
    _heatmap p' = [[6.6743e21]] /\
    _heatmap_surface p'
    = Some [{| rect_left := 0; rect_top := 0; rect_w := 10; rect_h := 10;
               rect_intensity := c |}] /\
    (c < 0)%Z.
Proof.
  exists {| bodies := bodies speck_pool; heap := heap speck_pool;
            center := center speck_pool; _heatmap := [[6.6743e21]];
            _heatmap_active := true; _heatmap_update_time := 0.0;
            _heatmap_surface :=
              Some [{| rect_left := 0; rect_top := 0; rect_w := 10; rect_h := 10;
                       rect_intensity := lone_cell_intensity 6.6743e21 |}] |},
         (lone_cell_intensity 6.6743e21).
  split; [| split; [reflexivity | split; [reflexivity |]]].
  - rewrite update_heatmap_due;
      [| reflexivity
       | unfold HEATMAP_UPDATE_INTERVAL; cbn [_heatmap_update_time speck_pool]; lra].
    rewrite speck_grid. cbn [bind].
    rewrite create_heatmap_surface_lone_cell by lra. reflexivity.
  - apply lone_cell_intensity_negative; lra.
Qed.

Lemma scenario_tick_resolution :
  tick_resolution (pg := grey_pygame) scenario_pool = Ok no_resolution.
Proof.
  unfold tick_resolution. rewrite collect_updates_eval by exact scenario_pairs_ok.
  rewrite scenario_pending. reflexivity.
Qed.

(** C7, amended: in the scenario both bodies are at rest, so the normal
    component of their relative velocity is 0 and [calc_collision_bias]
    returns [None] both ways; nothing is marked for removal or merge, and
    after the tick the pool still holds A and B, each with its mass and
    radius (only the accelerations changed, by gravity). *)
Theorem scenario_keeps_both_bodies :
  calc_collision_bias body_A body_B = Ok None /\
  calc_collision_bias body_B body_A = Ok None /\
  tick_resolution (pg := grey_pygame) scenario_pool = Ok no_resolution /\
  exists p',
    update_system (pg := grey_pygame) scenario_pool = Ok p' /\
    bodies p' = [0; 1]%nat /\
    same_but_acceleration body_A (heap p' 0%nat) /\
    same_but_acceleration body_B (heap p' 1%nat) /\
    mass (heap p' 0%nat) = 1000 /\ radius (heap p' 0%nat) = 50 /\
    mass (heap p' 1%nat) = 10 /\ radius (heap p' 1%nat) = 5.
Proof.
  split; [exact scenario_AB |]. split; [exact scenario_BA |].
  split; [exact scenario_tick_resolution |].
  eexists. split; [exact scenario_tick |].
  split; [reflexivity |].
  split; [exact (heap_after_gravity_agree scenario_pool 0%nat) |].
  split; [exact (heap_after_gravity_agree scenario_pool 1%nat) |].
  repeat split; reflexivity.
Qed.

(** C7, as stated, fails: after the tick B is still in the pool, with its
    mass and radius. *)
Lemma scenario_B_survives :
  exists p',
    update_system (pg := grey_pygame) scenario_pool = Ok p' /\
    In 1%nat (bodies p') /\
    heap scenario_pool 1%nat = body_B /\
    mass (heap p' 1%nat) = 10 /\ radius (heap p' 1%nat) = 5.
Proof.
  eexists. split; [exact scenario_tick |].
  split; [right; left; reflexivity |]. repeat split; reflexivity.
Qed.

Section OrderClaim.
Context `{pg : PygameColor}.

(** C8, amended: when the tick detects no collision (the first loop leaves
    no pending update), running it on any permutation of the bodies
    collection raises nothing either and gives the same bodies: the same
    multiset of masses, radii, colours, positions, velocities and
    accelerations. *)
Theorem no_collision_order_independent (p : SystemBodyPool) (l' : list Ref)
    (h : Heap) :
  Permutation (bodies p) l' ->
  collect_updates p = Ok (h, []) ->
  exists p1 p2,
    update_system p = Ok p1 /\
    update_system (with_bodies p l' (heap p)) = Ok p2 /\
    Permutation (outcome p1) (outcome p2).
Proof.
  intros Hp Hc. destruct (no_collision_permuted p l' h Hp Hc) as [E1 E2].
  eexists. eexists. split; [exact E1 |]. split; [exact E2 |].
  unfold outcome. cbn [bodies heap with_bodies]. apply Permutation_map. exact Hp.
Qed.

End OrderClaim.

Lemma no_collision_order_independent_witness :
  exists p1 p2,
    update_system (pg := grey_pygame) scenario_pool = Ok p1 /\
    update_system (pg := grey_pygame)
      (with_bodies scenario_pool [1; 0]%nat (heap scenario_pool)) = Ok p2 /\
    Permutation (outcome p1) (outcome p2).
Proof.
  apply (no_collision_order_independent (pg := grey_pygame) scenario_pool
           [1; 0]%nat (heap_after_gravity scenario_pool)).
  - apply perm_swap.
  - rewrite collect_updates_eval by exact scenario_pairs_ok.
    rewrite scenario_pending. reflexivity.
Defined.

(** C8, as stated, fails: three bodies X (mass 3), Y (mass 2), Z (mass 1)
    close in on one line, every pairing a weak one.  Listed as X, Y, Z the
    tick merges (X, Y) and (Z, X) into bodies of mass 5 and 4; listed as
    Y, Z, X it merges (Y, Z) and (X, Y) into bodies of mass 3 and 5. *)
Lemma merge_claims_depend_on_order :
  Permutation (bodies triple_pool) (bodies triple_pool_rotated) /\
  heap triple_pool = heap triple_pool_rotated /\
  exists p1 p2,
    update_system (pg := grey_pygame) triple_pool = Ok p1 /\
    update_system (pg := grey_pygame) triple_pool_rotated = Ok p2 /\
    map (fun r => mass (heap p1 r)) (bodies p1) = [3 + 2; 1 + 3] /\
    map (fun r => mass (heap p2 r)) (bodies p2) = [2 + 1; 3 + 2] /\
    (Permutation (outcome p1) (outcome p2) -> False).
Proof.
  split.
  { change (Permutation [0%nat; 1%nat; 2%nat] ([1%nat; 2%nat] ++ [0%nat])).
    apply Permutation_cons_append. }
  split; [reflexivity |].
  destruct triple_tick as (p1 & E1 & B1 & H13 & H14).
  destruct triple_rotated_tick as (p2 & E2 & B2 & H23 & H24).
  exists p1, p2. split; [exact E1 |]. split; [exact E2 |].
  assert (M1 : map (fun r => mass (heap p1 r)) (bodies p1) = [3 + 2; 1 + 3]).
  { rewrite B1. cbn [map]. rewrite H13, H14. reflexivity. }
  assert (M2 : map (fun r => mass (heap p2 r)) (bodies p2) = [2 + 1; 3 + 2]).
  { rewrite B2. cbn [map]. rewrite H23, H24. reflexivity. }
  split; [exact M1 |]. split; [exact M2 |].
  intros K.
  apply (Permutation_map (fun s => fst (fst (fst (fst (fst s)))))) in K.
  unfold outcome in K. rewrite !map_map in K. cbn [physics fst] in K.
  rewrite M1, M2 in K.
  assert (Hin : In (1 + 3) [2 + 1; 3 + 2]).
  { eapply Permutation_in; [exact K |]. right. left. reflexivity. }
  cbn in Hin. destruct Hin as [Hin | [Hin | []]]; lra.
Qed.

(** C9, amended: for a body of positive radius the squared distance is
    floored at radius^2, the force is G over the floored squared distance,
    and the direction is the displacement over the floored distance: a unit
    vector when the point is at or beyond the radius, and a shorter one
    (actual distance over radius) when the point is inside the body. *)
Theorem gravity_at_point_floored (self : SystemBody) (point : Vec2) :
  0 < radius self ->
  let dist_x := fst point - fst (position self) in
  let dist_y := snd point - snd (position self) in
  let dist_sqr := floored_dist_sqr self point in
  exists info,
    calc_gravity_at_point self point = Ok info /\
    radius self ^ 2 <= dist_sqr /\ dist_x ^ 2 + dist_y ^ 2 <= dist_sqr /\
    force info = GRAVITY_CONSTANT / dist_sqr /\
    direction info = (dist_x / sqrt dist_sqr, dist_y / sqrt dist_sqr) /\
    (radius self ^ 2 <= dist_x ^ 2 + dist_y ^ 2 -> norm (direction info) = 1) /\
    (dist_x ^ 2 + dist_y ^ 2 < radius self ^ 2 ->
     norm (direction info) = sqrt (dist_x ^ 2 + dist_y ^ 2) / radius self /\
     norm (direction info) < 1).
Proof.
  intros Hr dist_x dist_y dist_sqr.
  assert (Hr0 : radius self <> 0) by lra.
  eexists. split; [apply calc_gravity_at_point_ok; exact Hr0 |].
  cbn [force direction].
  split; [apply py_max_ge_r |]. split; [apply py_max_ge_l |].
  split; [reflexivity |]. split; [reflexivity |].
  destruct (direction_norm self point Hr0) as [Hout Hin].
  split; [exact Hout |]. intros Hlt. destruct (Hin Hlt) as [E L].
  rewrite Rabs_pos_eq in E by lra. split; assumption.
Qed.

Lemma gravity_at_point_floored_witness :
  exists info,
    calc_gravity_at_point planet (3, 4) = Ok info /\
    force info = GRAVITY_CONSTANT / floored_dist_sqr planet (3, 4) /\
    norm (direction info) = 1.
Proof.
  assert (Hr : 0 < radius planet) by (unfold planet; cbn [radius SystemBody_init]; lra).
  destruct (gravity_at_point_floored planet (3, 4) Hr)
    as (info & E & _ & _ & Ef & _ & Hout & _).
  exists info. split; [exact E |]. split; [exact Ef |]. apply Hout.
  unfold planet. cbn [radius position SystemBody_init fst snd]. lra.
Defined.

(** C9, as stated, fails: one unit from the centre of a body of radius 2 the
    squared distance is floored to 4 and the direction returned has
    magnitude 1/2. *)
Lemma direction_inside_body_is_short :
  calc_gravity_at_point planet (1, 0)
  = Ok {| force := GRAVITY_CONSTANT / 4; direction := (1 / 2, 0) |} /\
  norm (1 / 2, 0) = 1 / 2.
Proof.
  assert (E : floored_dist_sqr planet (1, 0) = 4).
  { unfold floored_dist_sqr, py_max, planet.
    cbn [position radius SystemBody_init fst snd].
    destruct (Rlt_dec _ _) as [_ | N]; [lra | exfalso; apply N; lra]. }
  assert (S4 : sqrt 4 = 2).
  { replace 4 with (2 * 2) by lra. apply sqrt_square. lra. }
  split.
  - rewrite calc_gravity_at_point_ok
      by (unfold planet; cbn [radius SystemBody_init]; lra).
    rewrite E, S4. unfold planet. cbn [position SystemBody_init fst snd].
    do 2 f_equal. f_equal; lra.
  - unfold norm. cbn [fst snd].
    replace ((1 / 2) ^ 2 + 0 ^ 2) with ((1 / 2) * (1 / 2)) by lra.
    apply sqrt_square. lra.
Qed.

(** * Motion and forces *)

Lemma sqrt_one_plus_sqr_ratio x y :
  x <> 0 -> sqrt (1 + (y / x) ^ 2) = sqrt (x ^ 2 + y ^ 2) / Rabs x.
Proof.
  intros Hx.
  assert (Ha : 0 < Rabs x) by (apply Rabs_pos_lt; exact Hx).
  assert (Hs : 0 <= sqrt (x ^ 2 + y ^ 2) / Rabs x).
  { apply Rmult_le_pos; [apply sqrt_pos | left; apply Rinv_0_lt_compat; exact Ha]. }
  apply sqrt_lem_1; [nra | exact Hs |].
  assert (Hq : sqrt (x ^ 2 + y ^ 2) * sqrt (x ^ 2 + y ^ 2) = x ^ 2 + y ^ 2)
    by (apply sqrt_sqrt; nra).
  assert (Hr : Rabs x * Rabs x = x ^ 2).
  { unfold Rabs. destruct (Rcase_abs x); ring. }
  unfold Rdiv.
  replace (sqrt (x ^ 2 + y ^ 2) * / Rabs x * (sqrt (x ^ 2 + y ^ 2) * / Rabs x))
    with (sqrt (x ^ 2 + y ^ 2) * sqrt (x ^ 2 + y ^ 2) * / (Rabs x * Rabs x))
    by (field; lra).
  rewrite Hq, Hr. field. exact Hx.
Qed.

Lemma cos_atan_ratio x y :
  x <> 0 -> cos (atan (y / x)) = Rabs x / sqrt (x ^ 2 + y ^ 2).
Proof.
  intros Hx. rewrite cos_atan.
  replace ((y / x)²) with ((y / x) ^ 2) by (unfold Rsqr; ring).
  rewrite sqrt_one_plus_sqr_ratio by exact Hx.
  assert (Ha : 0 < Rabs x) by (apply Rabs_pos_lt; exact Hx).
  assert (Hs : 0 < sqrt (x ^ 2 + y ^ 2)) by (apply sqrt_lt_R0; nra).
  field. lra.
Qed.

Lemma sin_atan_ratio x y :
  x <> 0 -> sin (atan (y / x)) = y / x * Rabs x / sqrt (x ^ 2 + y ^ 2).
Proof.
  intros Hx. rewrite sin_atan.
  replace ((y / x)²) with ((y / x) ^ 2) by (unfold Rsqr; ring).
  rewrite sqrt_one_plus_sqr_ratio by exact Hx.
  assert (Ha : 0 < Rabs x) by (apply Rabs_pos_lt; exact Hx).
  assert (Hs : 0 < sqrt (x ^ 2 + y ^ 2)) by (apply sqrt_lt_R0; nra).
  field. lra.
Qed.

(** The cosine and sine of [math.atan2(y, x)] are the coordinates of the
    point over its distance from the origin. *)
Lemma cos_sin_atan2 x y :
  x ^ 2 + y ^ 2 <> 0 ->
  cos (math_atan2 y x) = x / sqrt (x ^ 2 + y ^ 2) /\
  sin (math_atan2 y x) = y / sqrt (x ^ 2 + y ^ 2).
Proof.
  intros Hxy. unfold math_atan2.
  destruct (Rlt_dec 0 x) as [Hpos | Hnp].
  - rewrite cos_atan_ratio, sin_atan_ratio by lra.
    rewrite Rabs_right by lra.
    assert (Hs : 0 < sqrt (x ^ 2 + y ^ 2)) by (apply sqrt_lt_R0; nra).
    split; field; lra.
  - destruct (Rlt_dec x 0) as [Hneg | Hnn].
    + assert (Hs : 0 < sqrt (x ^ 2 + y ^ 2)) by (apply sqrt_lt_R0; nra).
      destruct (Rle_dec 0 y).
      * rewrite neg_cos, neg_sin, cos_atan_ratio, sin_atan_ratio by lra.
        rewrite Rabs_left by lra. split; field; lra.
      * unfold Rminus. 
        replace (atan (y / x) + - PI) with (- (- atan (y / x) + PI)) by ring.
        rewrite cos_neg, sin_neg, neg_cos, neg_sin, cos_neg, sin_neg.
        rewrite cos_atan_ratio, sin_atan_ratio by lra.
        rewrite Rabs_left by lra. split; field; lra.
    + assert (Hx : x = 0) by lra. subst x.
      replace (0 ^ 2 + y ^ 2) with (y * y) in * by ring.
      destruct (Rlt_dec 0 y) as [Hy | Hy].
      * rewrite cos_PI2, sin_PI2, sqrt_square by lra. split; field; lra.
      * destruct (Rlt_dec y 0) as [Hy' | Hy'].
        -- rewrite cos_neg, sin_neg, cos_PI2, sin_PI2.
           replace (y * y) with ((- y) * (- y)) by ring.
           rewrite sqrt_square by lra. split; field; lra.
        -- exfalso. apply Hxy. assert (y = 0) by lra. subst y. ring.
Qed.

Lemma vec2_eq (a b c d : R) : a = c -> b = d -> (a, b) = (c, d).
Proof. intros -> ->. reflexivity. Qed.

(** X1: a body with no acceleration moves uniformly: two successive moves
    are the move by the sum of the two time steps. *)
Theorem move_uniform (b : SystemBody) (d1 d2 : R) :
  acceleration b = (0, 0) ->
  move (move b d1) d2 = move b (d1 + d2).
Proof.
  intros Ha. unfold move. rewrite Ha. cbn [fst snd name mass radius color position velocity acceleration].
  f_equal; apply vec2_eq; ring.
Qed.

Lemma move_uniform_witness :
  move (move body_A 2) 3 = move body_A (2 + 3).
Proof. apply (move_uniform body_A 2 3). reflexivity. Defined.

(** X2: [add_force] adds the force over the mass to the acceleration and
    raises ZeroDivisionError for a body of mass zero (before it changes
    anything); applying two forces in turn is applying their sum. *)
Theorem add_force_newton (b : SystemBody) (f g : Vec2) :
  add_force b f
  = (if Req_dec_T (mass b) 0 then Raise ZeroDivisionError
     else Ok (add_acceleration b (fst f / mass b, snd f / mass b))) /\
  (b' <- add_force b f ;; add_force b' g)
  = add_force b (fst f + fst g, snd f + snd g).
Proof.
  unfold add_force. destruct (Req_dec_T (mass b) 0) as [Hm | Hm].
  - rewrite Hm, !py_div_zero. split; reflexivity.
  - rewrite !py_div_ok by exact Hm. cbn [bind]. split; [reflexivity |].
    cbn [mass set_acceleration acceleration fst snd].
    rewrite !py_div_ok by exact Hm. cbn [bind].
    unfold set_acceleration.
    cbn [name mass radius color position velocity acceleration].
    f_equal. f_equal. apply vec2_eq; field; exact Hm.
Qed.

(** ** Gravity *)

Lemma rel_pos_mag_dist a b :
  (fst (position b) - fst (position a)) ^ 2
  + (snd (position b) - snd (position a)) ^ 2 = rel_pos_mag a b.
Proof. unfold rel_pos_mag, rel_pos. cbn [fst snd]. ring. Qed.

(** The pull of [b] on [a]: along the line to [b], inverse-square. *)
Lemma gravity_vector_law a b :
  rel_pos_mag a b <> 0 ->
  gravity_vector a b
  = (GRAVITY_CONSTANT * mass b / (rel_pos_mag a b * sqrt (rel_pos_mag a b))
     * (fst (position b) - fst (position a)),
     GRAVITY_CONSTANT * mass b / (rel_pos_mag a b * sqrt (rel_pos_mag a b))
     * (snd (position b) - snd (position a))).
Proof.
  intros Hd. unfold gravity_vector. cbv zeta.
  rewrite rel_pos_mag_dist.
  assert (Hd' : (fst (position a) - fst (position b)) ^ 2
                + (snd (position a) - snd (position b)) ^ 2 <> 0) by exact Hd.
  destruct (cos_sin_atan2 _ _ Hd') as [Hc Hs]. rewrite Hc, Hs.
  fold (rel_pos_mag a b) in *.
  change ((fst (position a) - fst (position b)) ^ 2
          + (snd (position a) - snd (position b)) ^ 2) with (rel_pos_mag a b).
  assert (Hq : 0 < sqrt (rel_pos_mag a b)).
  { apply sqrt_lt_R0. pose proof (rel_pos_mag_nonneg a b). lra. }
  apply vec2_eq; field; lra.
Qed.

(** Action and reaction. *)
Lemma gravity_vector_third_law a b :
  rel_pos_mag a b <> 0 ->
  mass a * fst (gravity_vector a b) + mass b * fst (gravity_vector b a) = 0 /\
  mass a * snd (gravity_vector a b) + mass b * snd (gravity_vector b a) = 0.
Proof.
  intros Hd. rewrite (gravity_vector_law a b) by exact Hd.
  rewrite (gravity_vector_law b a) by (rewrite rel_pos_mag_sym; exact Hd).
  rewrite (rel_pos_mag_sym a b). cbn [fst snd].
  assert (Hq : 0 < sqrt (rel_pos_mag a b)).
  { apply sqrt_lt_R0. pose proof (rel_pos_mag_nonneg a b). lra. }
  split; field; lra.
Qed.

(** X3: one step of the gravity loop pulls the affected body towards the
    affector along the line between them, with magnitude G * m / d^2 for
    the squared distance d^2 (which cannot be zero when the step returns);
    no other body changes. *)
Theorem gravity_step_inverse_square (i j : Ref) (h h' : Heap)
    (affs affs' : list (Ref * CollisionInfo)) :
  i <> j ->
  gravity_and_collision i (h, affs) j = Ok (h', affs') ->
  let d2 := rel_pos_mag (h i) (h j) in
  let k := GRAVITY_CONSTANT * mass (h j) / (d2 * sqrt d2) in
  d2 <> 0 /\
  h' i = set_acceleration (h i)
           (fst (acceleration (h i))
            + k * (fst (position (h j)) - fst (position (h i))),
            snd (acceleration (h i))
            + k * (snd (position (h j)) - snd (position (h i)))) /\
  (forall r, r <> i -> h' r = h r) /\
  norm (gravity_vector (h i) (h j)) = GRAVITY_CONSTANT * Rabs (mass (h j)) / d2.
Proof.
  intros Hn E. cbv zeta. rewrite gravity_and_collision_step in E.
  apply Nat.eqb_neq in Hn. rewrite Hn in E.
  apply bind_ok in E. destruct E as (a & Eg & E).
  apply bind_ok in E. destruct E as (o & Ec & E).
  injection E as <- <-.
  assert (Hd : rel_pos_mag (h i) (h j) <> 0).
  { unfold calc_gravity_acceleration in Eg. cbv zeta in Eg.
    rewrite rel_pos_mag_dist in Eg. unfold py_div in Eg.
    destruct (Req_dec_T (rel_pos_mag (h i) (h j)) 0); [discriminate | assumption]. }
  split; [exact Hd |]. split; [| split].
  - rewrite heap_set_same. rewrite gravity_vector_law by exact Hd. reflexivity.
  - intros r Hr. apply heap_set_other. exact Hr.
  - rewrite gravity_vector_law by exact Hd. unfold norm. cbn [fst snd].
    assert (Hpos : 0 < rel_pos_mag (h i) (h j))
      by (pose proof (rel_pos_mag_nonneg (h i) (h j)); lra).
    set (d2 := rel_pos_mag (h i) (h j)) in *.
    assert (Hq : 0 < sqrt d2) by (apply sqrt_lt_R0; exact Hpos).
    assert (Hsq : sqrt d2 * sqrt d2 = d2) by (apply sqrt_sqrt; lra).
    apply sqrt_lem_1.
    + apply sum_sqr_nonneg.
    + apply Rmult_le_pos.
      * apply Rmult_le_pos; [unfold GRAVITY_CONSTANT; lra | apply Rabs_pos].
      * left. apply Rinv_0_lt_compat. exact Hpos.
    + assert (Hab : Rabs (mass (h j)) * Rabs (mass (h j)) = mass (h j) * mass (h j)).
      { unfold Rabs. destruct (Rcase_abs (mass (h j))); ring. }
      assert (Hdd : (fst (position (h j)) - fst (position (h i))) ^ 2
                    + (snd (position (h j)) - snd (position (h i))) ^ 2 = d2)
        by apply rel_pos_mag_dist.
      set (dx := fst (position (h j)) - fst (position (h i))) in *.
      set (dy := snd (position (h j)) - snd (position (h i))) in *.
      transitivity (GRAVITY_CONSTANT * GRAVITY_CONSTANT
                    * (Rabs (mass (h j)) * Rabs (mass (h j))) / (d2 * d2));
        [field; lra |].
      rewrite Hab.
      transitivity (GRAVITY_CONSTANT * GRAVITY_CONSTANT * (mass (h j) * mass (h j))
                    * (dx ^ 2 + dy ^ 2) / (d2 * d2 * (sqrt d2 * sqrt d2)));
        [rewrite Hdd, Hsq; field; lra | field; lra].
Qed.

(** ** No net force *)

Lemma Rsum_map_plus {A} (f g : A -> R) l :
  Rsum (map (fun x => f x + g x) l) = Rsum (map f l) + Rsum (map g l).
Proof.
  induction l as [| a l IH]; cbn [map Rsum fold_right]; [ring |].
  fold (Rsum (map (fun x => f x + g x) l)). fold (Rsum (map f l)).
  fold (Rsum (map g l)). rewrite IH. ring.
Qed.

Lemma Rsum_map_zero {A} (f : A -> R) l :
  (forall x, In x l -> f x = 0) -> Rsum (map f l) = 0.
Proof.
  induction l as [| a l IH]; intros H; cbn [map Rsum fold_right]; [reflexivity |].
  fold (Rsum (map f l)). rewrite IH by (intros x Hx; apply H; right; exact Hx).
  rewrite (H a) by (left; reflexivity). ring.
Qed.

Lemma Rsum_map_ext {A} (f g : A -> R) l :
  (forall x, In x l -> f x = g x) -> Rsum (map f l) = Rsum (map g l).
Proof. intros H. f_equal. apply map_ext_in. exact H. Qed.

Lemma Rsum_map_scal {A} (c : R) (f : A -> R) l :
  Rsum (map (fun x => c * f x) l) = c * Rsum (map f l).
Proof.
  induction l as [| a l IH]; cbn [map Rsum fold_right]; [ring |].
  fold (Rsum (map (fun x => c * f x) l)). fold (Rsum (map f l)).
  rewrite IH. ring.
Qed.

(** A double sum of terms that cancel in pairs is zero. *)
Lemma Rsum_antisymmetric {A} (F : A -> A -> R) l :
  (forall i j, In i l -> In j l -> F i j + F j i = 0) ->
  Rsum (map (fun i => Rsum (map (F i) l)) l) = 0.
Proof.
  induction l as [| a l IH]; intros H; [reflexivity |].
  cbn [map Rsum fold_right].
  fold (Rsum (map (F a) l)).
  fold (Rsum (map (fun i => F i a + fold_right Rplus 0 (map (F i) l)) l)).
  change (fun i => F i a + fold_right Rplus 0 (map (F i) l))
    with (fun i => F i a + Rsum (map (F i) l)).
  rewrite (Rsum_map_plus (fun i => F i a) (fun i => Rsum (map (F i) l))).
  rewrite IH by (intros i j Hi Hj; apply H; right; assumption).
  assert (Haa : F a a = 0).
  { pose proof (H a a (or_introl eq_refl) (or_introl eq_refl)). lra. }
  assert (Hc : Rsum (map (F a) l) + Rsum (map (fun i => F i a) l) = 0).
  { rewrite <- Rsum_map_plus. apply Rsum_map_zero.
    intros x Hx. apply H; [left; reflexivity | right; exact Hx]. }
  lra.
Qed.

Lemma gravity_total_sum h i l : forall acc,
  gravity_total h i l acc
  = (fst acc + Rsum (map (fun j => if Nat.eqb i j then 0
                                   else fst (gravity_vector (h i) (h j))) l),
     snd acc + Rsum (map (fun j => if Nat.eqb i j then 0
                                   else snd (gravity_vector (h i) (h j))) l)).
Proof.
  unfold gravity_total.
  induction l as [| j l IH]; intros acc; cbn [fold_left map Rsum fold_right].
  - destruct acc. cbn [fst snd]. apply vec2_eq; ring.
  - rewrite IH. destruct (Nat.eqb i j); unfold vadd; cbn [fst snd];
      apply vec2_eq; unfold Rsum; ring.
Qed.

Lemma accel_after_absent h all l r : forall acc,
  ~ In r l -> accel_after h all l r acc = acc.
Proof.
  unfold accel_after. induction l as [| a l IH]; intros acc Hr; [reflexivity |].
  cbn [fold_left]. destruct (Nat.eqb r a) eqn:E.
  - apply Nat.eqb_eq in E. exfalso. apply Hr. left. symmetry. exact E.
  - apply IH. intros K. apply Hr. right. exact K.
Qed.

Lemma accel_after_once h all l r : forall acc,
  NoDup l -> In r l -> accel_after h all l r acc = gravity_total h r all acc.
Proof.
  induction l as [| a l IH]; intros acc Hd Hr; [destruct Hr |].
  inversion Hd as [| ? ? Ha Hl]; subst.
  unfold accel_after. cbn [fold_left]. fold (accel_after h all l r).
  destruct (Nat.eqb r a) eqn:E.
  - apply Nat.eqb_eq in E. subst a. apply accel_after_absent. exact Ha.
  - apply Nat.eqb_neq in E. destruct Hr as [-> | Hr]; [congruence |].
    apply IH; assumption.
Qed.

Lemma net_force_sum h l :
  net_force h l
  = (Rsum (map (fun r => mass (h r) * fst (acceleration (h r))) l),
     Rsum (map (fun r => mass (h r) * snd (acceleration (h r))) l)).
Proof.
  unfold net_force. induction l as [| a l IH]; [reflexivity |].
  cbn [fold_right map Rsum]. rewrite IH. reflexivity.
Qed.

Lemma pair_ok_apart h i j : pair_ok h i j -> rel_pos_mag (h i) (h j) <> 0.
Proof.
  intros [[a Eg] _]. unfold calc_gravity_acceleration in Eg. cbv zeta in Eg.
  rewrite rel_pos_mag_dist in Eg. unfold py_div in Eg.
  destruct (Req_dec_T (rel_pos_mag (h i) (h j)) 0); [discriminate | assumption].
Qed.

(** X4: the gravity loop of a tick exerts no net force: over a pool that
    lists no body twice, the mass-weighted sum of the accelerations is the
    same after the loop as before. *)
Theorem gravity_adds_no_net_force (p : SystemBodyPool) (h : Heap)
    (pending_updates : list UpdateInfo) :
  NoDup (bodies p) ->
  collect_updates p = Ok (h, pending_updates) ->
  net_force h (bodies p) = net_force (heap p) (bodies p).
Proof.
  intros Hd E. apply collect_updates_spec in E. destruct E as (Hh & _ & Hok).
  rewrite !net_force_sum.
  set (F1 := fun i j => if Nat.eqb i j then 0
                        else mass (heap p i)
                             * fst (gravity_vector (heap p i) (heap p j))).
  set (F2 := fun i j => if Nat.eqb i j then 0
                        else mass (heap p i)
                             * snd (gravity_vector (heap p i) (heap p j))).
  assert (Hanti : forall i j, In i (bodies p) -> In j (bodies p) ->
            F1 i j + F1 j i = 0 /\ F2 i j + F2 j i = 0).
  { intros i j Hi Hj. unfold F1, F2. destruct (Nat.eqb i j) eqn:Eij.
    - apply Nat.eqb_eq in Eij. subst j. rewrite Nat.eqb_refl. split; ring.
    - rewrite Nat.eqb_sym, Eij. apply Nat.eqb_neq in Eij.
      apply gravity_vector_third_law. apply pair_ok_apart.
      unfold pairs_ok in Hok. rewrite Forall_forall in Hok.
      specialize (Hok i Hi). rewrite Forall_forall in Hok.
      apply Hok; [exact Hj | congruence]. }
  assert (Hacc : forall r, In r (bodies p) ->
            mass (h r) = mass (heap p r) /\
            fst (acceleration (h r))
            = fst (acceleration (heap p r))
              + Rsum (map (fun j => if Nat.eqb r j then 0
                            else fst (gravity_vector (heap p r) (heap p j)))
                        (bodies p)) /\
            snd (acceleration (h r))
            = snd (acceleration (heap p r))
              + Rsum (map (fun j => if Nat.eqb r j then 0
                            else snd (gravity_vector (heap p r) (heap p j)))
                        (bodies p))).
  { intros r Hr. rewrite Hh. unfold heap_after_gravity.
    cbn [mass acceleration set_acceleration].
    rewrite accel_after_once by assumption. rewrite gravity_total_sum.
    cbn [fst snd]. repeat split. }
  apply vec2_eq.
  - transitivity
      (Rsum (map (fun r => mass (heap p r) * fst (acceleration (heap p r))
                           + Rsum (map (F1 r) (bodies p))) (bodies p))).
    + apply Rsum_map_ext. intros r Hr. destruct (Hacc r Hr) as (-> & -> & _).
      rewrite Rmult_plus_distr_l. f_equal. rewrite <- Rsum_map_scal.
      apply Rsum_map_ext. intros j _. unfold F1. destruct (Nat.eqb r j); ring.
    + rewrite Rsum_map_plus.
      rewrite Rsum_antisymmetric
        by (intros i j Hi Hj; apply (Hanti i j Hi Hj)).
      ring.
  - transitivity
      (Rsum (map (fun r => mass (heap p r) * snd (acceleration (heap p r))
                           + Rsum (map (F2 r) (bodies p))) (bodies p))).
    + apply Rsum_map_ext. intros r Hr. destruct (Hacc r Hr) as (-> & _ & ->).
      rewrite Rmult_plus_distr_l. f_equal. rewrite <- Rsum_map_scal.
      apply Rsum_map_ext. intros j _. unfold F2. destruct (Nat.eqb r j); ring.
    + rewrite Rsum_map_plus.
      rewrite Rsum_antisymmetric
        by (intros i j Hi Hj; apply (Hanti i j Hi Hj)).
      ring.
Qed.

(** * Collisions, both ways *)

Lemma positions_differ a b :
  position a <> position b -> rel_pos_mag a b <> 0.
Proof.
  intros Hp K. apply Hp. unfold rel_pos_mag, rel_pos in K. cbn [fst snd] in K.
  destruct (position a) as [xa ya], (position b) as [xb yb]. cbn [fst snd] in K.
  replace ((xa - xb) ^ 2 + (ya - yb) ^ 2) with (Rsqr (xa - xb) + Rsqr (ya - yb)) in K
    by (unfold Rsqr; ring).
  apply Rplus_sqr_eq_0 in K. destruct K as [Kx Ky].
  apply vec2_eq; lra.
Qed.

(** What [calc_collision_bias] has checked when it returns a record. *)
Lemma calc_collision_bias_some_inv a b ci :
  calc_collision_bias a b = Ok (Some ci) ->
  rel_pos_mag a b <> 0 /\ 0 <= intersection a b /\ rel_vel_n a b < 0 /\
  mass a <> 0 /\ mass b <> 0 /\ 1 / mass a + 1 / mass b <> 0 /\
  mass a + mass b <> 0 /\ ci = collision_info a b.
Proof.
  intros E.
  destruct (Rlt_dec (intersection a b) 0) as [Hi | Hi].
  { rewrite calc_collision_bias_apart in E by exact Hi. discriminate. }
  destruct (Req_dec_T (rel_pos_mag a b) 0) as [Hp | Hp].
  { exfalso. rewrite calc_collision_bias_unfold in E.
    rewrite math_sqrt_ok in E by apply rel_pos_mag_nonneg. cbn [bind] in E.
    fold (intersection a b) in E. rewrite Rltb_false in E by lra.
    rewrite Hp, py_div_zero in E. discriminate. }
  destruct (Rle_dec 0 (rel_vel_n a b)) as [Hv | Hv].
  { rewrite calc_collision_bias_separating in E by assumption. discriminate. }
  assert (Hfail : forall (P : Prop),
            (mass a = 0 \/ mass b = 0 \/ 1 / mass a + 1 / mass b = 0
             \/ mass a + mass b = 0) -> P).
  { intros P Hz. exfalso. rewrite calc_collision_bias_unfold in E.
    rewrite math_sqrt_ok in E by apply rel_pos_mag_nonneg. cbn [bind] in E.
    fold (intersection a b) in E. rewrite Rltb_false in E by lra.
    rewrite !py_div_ok in E by exact Hp. cbn [bind] in E. cbv zeta in E.
    change (fst (rel_vel a b) * (fst (rel_pos a b) / rel_pos_mag a b)
            + snd (rel_vel a b) * (snd (rel_pos a b) / rel_pos_mag a b))
      with (rel_vel_n a b) in E.
    rewrite Rleb_false in E by lra.
    destruct (Req_dec_T (mass a) 0) as [Ha | Ha].
    { rewrite Ha, py_div_zero in E. discriminate. }
    rewrite (py_div_ok 1 (mass a)) in E by exact Ha. cbn [bind] in E.
    destruct (Req_dec_T (mass b) 0) as [Hb | Hb].
    { rewrite Hb, py_div_zero in E. discriminate. }
    rewrite (py_div_ok 1 (mass b)) in E by exact Hb. cbn [bind] in E.
    destruct (Req_dec_T (1 / mass a + 1 / mass b) 0) as [Hs | Hs].
    { rewrite Hs, py_div_zero in E. discriminate. }
    rewrite py_div_ok in E by exact Hs. cbn [bind] in E.
    rewrite py_div_ok in E by exact Ha. cbn [bind] in E.
    rewrite py_div_ok in E by (unfold SYSTEM_SCALE; lra). cbn [bind] in E.
    assert (Hm : 0 < fst (rel_vel a b) ^ 2 + snd (rel_vel a b) ^ 2)
      by (apply approaching_moves; lra).
    rewrite math_sqrt_ok in E by lra. cbn [bind] in E.
    pose proof (sqrt_lt_R0 _ Hm) as Hq.
    rewrite !py_div_ok in E by lra. cbn [bind] in E.
    destruct Hz as [Hz | [Hz | [Hz | Hz]]]; try contradiction.
    rewrite Hz, py_div_zero in E. discriminate. }
  assert (Ha : mass a <> 0) by (intros K; apply Hfail; tauto).
  assert (Hb : mass b <> 0) by (intros K; apply Hfail; tauto).
  assert (Hs : 1 / mass a + 1 / mass b <> 0) by (intros K; apply Hfail; tauto).
  assert (Hm : mass a + mass b <> 0) by (intros K; apply Hfail; tauto).
  repeat (split; [first [assumption | lra] |]).
  rewrite calc_collision_bias_some in E by (first [assumption | lra]).
  injection E as <-. reflexivity.
Qed.

Lemma impulse_closed_form a b :
  mass a <> 0 -> mass b <> 0 -> mass a + mass b <> 0 ->
  impulse (collision_info a b)
  = -2 * rel_vel_n a b * (mass b * mass b) / (mass a + mass b).
Proof.
  intros Ha Hb Hs. unfold collision_info, COLLISION_DAMPENING, SYSTEM_SCALE.
  cbn [impulse]. field. repeat split; try assumption; lra.
Qed.

(** X5: a collision is detected from both sides: when [calc_collision_bias]
    returns a record for (a, b), with positive masses, it returns one for
    (b, a); the two biases lie strictly between 0 and 1 and add up to 1 (so
    at most one of the two bodies is negligible), and the impulses are
    positive, in the ratio of the squared masses. *)
Theorem collision_detected_both_ways (a b : SystemBody) (ci : CollisionInfo) :
  0 < mass a -> 0 < mass b ->
  calc_collision_bias a b = Ok (Some ci) ->
  exists ci',
    calc_collision_bias b a = Ok (Some ci') /\
    bias ci + bias ci' = 1 /\ 0 < bias ci < 1 /\
    (bias ci < 0.1 -> 0.9 < bias ci') /\
    0 < impulse ci /\
    impulse ci * (mass a * mass a) = impulse ci' * (mass b * mass b).
Proof.
  intros Ha Hb E.
  destruct (calc_collision_bias_some_inv a b ci E)
    as (Hp & Hi & Hv & _ & _ & _ & _ & ->).
  assert (Hinv : 0 < 1 / mass a + 1 / mass b).
  { assert (0 < / mass a) by (apply Rinv_0_lt_compat; exact Ha).
    assert (0 < / mass b) by (apply Rinv_0_lt_compat; exact Hb). lra. }
  exists (collision_info b a). split.
  - apply calc_collision_bias_some.
    + rewrite rel_pos_mag_sym. exact Hp.
    + rewrite intersection_sym. exact Hi.
    + rewrite rel_vel_n_sym. exact Hv.
    + lra.
    + lra.
    + lra.
    + lra.
  - assert (Hb1 : bias (collision_info a b) = mass a / (mass a + mass b))
      by reflexivity.
    assert (Hb2 : bias (collision_info b a) = mass b / (mass a + mass b))
      by (cbn [bias collision_info]; f_equal; ring).
    assert (Hq1 : 0 < mass a / (mass a + mass b))
      by (apply Rdiv_lt_0_compat; lra).
    assert (Hq2 : 0 < mass b / (mass a + mass b))
      by (apply Rdiv_lt_0_compat; lra).
    assert (Hsum : mass a / (mass a + mass b) + mass b / (mass a + mass b) = 1)
      by (field; lra).
    rewrite Hb1, Hb2.
    split; [exact Hsum |]. split; [lra |]. split; [lra |].
    rewrite !impulse_closed_form by lra. rewrite (rel_vel_n_sym a b).
    split.
    + apply Rdiv_lt_0_compat; [| lra].
      assert (0 < mass b * mass b) by nra. nra.
    + field. lra.
Qed.

(** ** Nothing to raise *)

Lemma calc_collision_bias_total a b :
  position a <> position b -> 0 < mass a -> 0 < mass b ->
  exists o, calc_collision_bias a b = Ok o.
Proof.
  intros Hpos Ha Hb. pose proof (positions_differ a b Hpos) as Hp.
  destruct (Rlt_dec (intersection a b) 0) as [Hi | Hi].
  { eexists. apply calc_collision_bias_apart. exact Hi. }
  destruct (Rle_dec 0 (rel_vel_n a b)) as [Hv | Hv].
  { eexists. apply calc_collision_bias_separating; assumption. }
  eexists. apply calc_collision_bias_some; try lra.
  assert (0 < / mass a) by (apply Rinv_0_lt_compat; exact Ha).
  assert (0 < / mass b) by (apply Rinv_0_lt_compat; exact Hb). lra.
Qed.

Lemma well_placed_pairs_ok h l : well_placed h l -> pairs_ok h l l.
Proof.
  intros [Hm Hp]. apply pairs_ok_intro. intros i j Hi Hj Hn.
  assert (Hpos : position (h i) <> position (h j)) by (apply Hp; congruence).
  split.
  - apply calc_gravity_acceleration_ok. apply positions_differ. exact Hpos.
  - apply calc_collision_bias_total; [exact Hpos | apply Hm; exact Hi | apply Hm; exact Hj].
Qed.

Lemma for_each_total {S A} (body : S -> A -> Result S) xs :
  (forall s x, In x xs -> exists s', body s x = Ok s') ->
  forall s, exists s', for_each body xs s = Ok s'.
Proof.
  induction xs as [| x xs IH]; intros H s; cbn [for_each]; [eauto |].
  destruct (H s x (or_introl eq_refl)) as (s1 & E1). rewrite E1. cbn [bind].
  apply IH. intros s2 y Hy. apply H. right. exact Hy.
Qed.

Lemma NoDup_ref_add r s : NoDup s -> NoDup (ref_add r s).
Proof.
  intros Hs. unfold ref_add. destruct (ref_mem r s) eqn:E; [exact Hs |].
  apply ref_mem_not_In in E. apply NoDup_app; [exact Hs | repeat constructor; intros [] | ].
  intros x Hx [<- | []]. contradiction.
Qed.

Lemma list_remove_length l r : forall l',
  list_remove l r = Ok l' -> List.length l = S (List.length l').
Proof.
  induction l as [| a l IH]; intros l' E; cbn [list_remove] in E; [discriminate |].
  destruct (Nat.eqb a r).
  - injection E as <-. reflexivity.
  - apply bind_ok in E. destruct E as (l1 & E1 & E). injection E as <-.
    cbn [List.length]. f_equal. apply IH. exact E1.
Qed.

Lemma list_remove_succeeds l r : In r l -> exists l', list_remove l r = Ok l'.
Proof.
  induction l as [| a l IH]; intros Hr; [destruct Hr |].
  cbn [list_remove]. destruct (Nat.eqb a r) eqn:E; [eauto |].
  apply Nat.eqb_neq in E. destruct Hr as [-> | Hr]; [congruence |].
  destruct (IH Hr) as (l' & ->). cbn [bind]. eauto.
Qed.

Lemma remove_loop_succeeds rs : forall l,
  NoDup rs -> incl rs l -> exists l', for_each list_remove rs l = Ok l'.
Proof.
  induction rs as [| r rs IH]; intros l Hd Hi; cbn [for_each]; [eauto |].
  inversion Hd as [| ? ? Hr Hrs]; subst.
  destruct (list_remove_succeeds l r (Hi r (or_introl eq_refl))) as (l1 & E1).
  rewrite E1. cbn [bind]. apply IH; [exact Hrs |].
  intros x Hx. apply list_remove_spec in E1. destruct E1 as (_ & _ & Hkeep & _).
  apply Hkeep; [| apply Hi; right; exact Hx].
  intros ->. contradiction.
Qed.

Lemma remove_loop_length rs : forall l l',
  for_each list_remove rs l = Ok l' ->
  List.length l = (List.length rs + List.length l')%nat.
Proof.
  induction rs as [| r rs IH]; intros l l' E; cbn [for_each] in E.
  - injection E as <-. reflexivity.
  - apply bind_ok in E. destruct E as (l1 & E1 & E).
    apply list_remove_length in E1. apply IH in E. cbn [List.length]. lia.
Qed.

Section Safety.
Context `{pg : PygameColor}.
Hypothesis Htotal : colours_total pg.

Lemma calc_blended_color_total a b bias :
  exists c, calc_blended_color a b bias = Ok c.
Proof.
  destruct Htotal as [H1 H2]. unfold calc_blended_color.
  destruct (H1 (color a)) as ([[[h1 s1] v1] a1] & ->). cbn [bind].
  destruct (H1 (color b)) as ([[[h2 s2] v2] a2] & ->). cbn [bind].
  apply H2.
Qed.

Lemma transfer_total h u j ci : exists u', transfer h u j ci = Ok u'.
Proof.
  unfold transfer. cbv zeta.
  destruct (calc_blended_color_total (h (affected u)) (h j) (bias ci)) as (c & ->).
  cbn [bind]. eauto.
Qed.

Lemma resolve_collision_total h st pr :
  exists st', resolve_collision h st pr = Ok st'.
Proof.
  destruct st as [res u], pr as [j ci]. unfold resolve_collision.
  destruct (Nat.eqb (affected u) j); [eauto |].
  destruct (Rltb (bias ci) 0.1); [eauto |].
  destruct (transfer_total h u j ci) as (u' & Eu).
  destruct (weak_reflection ci).
  - destruct (ref_mem (affected u) (bodies_to_merge res)); [eauto |].
    cbv zeta. rewrite Eu. cbn [bind]. eauto.
  - rewrite Eu. cbn [bind]. eauto.
Qed.

Lemma resolve_updates_total h pend :
  exists res pend', resolve_updates h pend = Ok (res, pend').
Proof.
  unfold resolve_updates.
  destruct (for_each_total (resolve_update h) pend) with (s := (no_resolution, @nil UpdateInfo))
    as ([res pend'] & E).
  - intros [res resolved] u _. unfold resolve_update.
    destruct (for_each_total (resolve_collision h) (affectors u)) with (s := (res, u))
      as ([res' u'] & E).
    + intros s x _. apply resolve_collision_total.
    + rewrite E. cbn [bind]. eauto.
  - eauto.
Qed.

Lemma merge_loop_succeeds mi : forall st,
  (forall b1 b2, In (b1, b2) mi ->
     (b1 < m_next st)%nat /\ (b2 < m_next st)%nat /\
     mass (m_heap st b1) + mass (m_heap st b2) <> 0) ->
  exists m, for_each merge_pair mi st = Ok m.
Proof.
  induction mi as [| [b1 b2] mi IH]; intros st H; cbn [for_each]; [eauto |].
  destruct (H b1 b2 (or_introl eq_refl)) as (H1 & H2 & Hm).
  destruct (calc_blended_color_total (m_heap st b1) (m_heap st b2) 0.5) as (c & Ec).
  unfold merge_pair at 1. rewrite (merged_body_value _ _ c Ec Hm). cbn [bind].
  apply IH. cbn [m_next m_heap]. intros x1 x2 Hx.
  destruct (H x1 x2 (or_intror Hx)) as (Hx1 & Hx2 & Hxm).
  split; [lia |]. split; [lia |].
  rewrite !heap_set_other by lia. exact Hxm.
Qed.

End Safety.

Section Removal.
Context `{pg : PygameColor}.

Lemma resolve_collision_nodup h res u pr res' u' :
  resolve_collision h (res, u) pr = Ok (res', u') ->
  NoDup (bodies_to_remove res) -> NoDup (bodies_to_remove res').
Proof.
  destruct pr as [j ci]. intros E Hd.
  destruct (resolve_collision_cases h res u j ci res' u' E)
    as (_ & _ & [-> | [(_ & _ & ->) | (_ & _ & ->)]]); cbn [bodies_to_remove].
  - exact Hd.
  - apply NoDup_ref_add. exact Hd.
  - exact Hd.
Qed.

Lemma resolve_updates_nodup h pend res pend' :
  resolve_updates h pend = Ok (res, pend') -> NoDup (bodies_to_remove res).
Proof.
  unfold resolve_updates. intros E.
  apply (for_each_invariant (resolve_update h)
           (fun s => NoDup (bodies_to_remove (fst s))) pend) in E.
  - exact E.
  - intros [r1 l1] u [r2 l2] _ Hd Eu. cbn [fst] in *.
    apply resolve_update_ok in Eu. destruct Eu as (u' & Eu & _).
    apply (for_each_invariant (resolve_collision h)
             (fun s => NoDup (bodies_to_remove (fst s))) (affectors u)) in Eu.
    + exact Eu.
    + intros [r3 u3] x [r4 u4] _ Hd3 Ex. cbn [fst] in *.
      eapply resolve_collision_nodup; eassumption.
    + exact Hd.
  - cbn. constructor.
Qed.

Lemma merge_loop_nodup mi : forall st m,
  for_each merge_pair mi st = Ok m -> NoDup (m_remove st) -> NoDup (m_remove m).
Proof.
  induction mi as [| [b1 b2] mi IH]; intros st m E Hd; cbn [for_each] in E.
  - injection E as <-. exact Hd.
  - apply bind_ok in E. destruct E as (st1 & E1 & E).
    apply merge_pair_ok in E1. destruct E1 as (nb & _ & ->).
    eapply IH; [exact E |]. cbn [m_remove]. apply NoDup_ref_add, NoDup_ref_add, Hd.
Qed.

End Removal.

Section TickSafety.
Context `{pg : PygameColor}.


End TickSafety.

(** * The size of the pool *)

Section PoolSize.
Context `{pg : PygameColor}.

Lemma resolve_collision_claims_once h res u pr res' u' :
  resolve_collision h (res, u) pr = Ok (res', u') ->
  merge_closed res -> claims_once res -> claims_once res'.
Proof.
  destruct pr as [j ci]. unfold resolve_collision. intros E Hc [Hd Hw].
  destruct (Nat.eqb (affected u) j) eqn:Eaj.
  { injection E as <- <-. split; assumption. }
  apply Nat.eqb_neq in Eaj.
  destruct (Rltb (bias ci) 0.1).
  { injection E as <- <-. split; assumption. }
  destruct (weak_reflection ci).
  - destruct (ref_mem (affected u) (bodies_to_merge res)) eqn:Em.
    { injection E as <- <-. split; assumption. }
    apply ref_mem_not_In in Em. cbv zeta in E.
    apply bind_ok in E. destruct E as (u1 & _ & E). injection E as <- <-.
    unfold claims_once. cbn [body_merge_info].
    assert (Hfresh : ~ In (affected u) (map fst (body_merge_info res))).
    { intros K. apply in_map_iff in K. destruct K as ([a b] & Ea & K).
      cbn [fst] in Ea. subst a. apply Em. apply (Hc _ _ K). }
    split.
    + rewrite map_app. cbn [map fst]. apply NoDup_app; [exact Hd | | ].
      * constructor; [intros [] | constructor].
      * intros x Hx [<- | []]. contradiction.
    + intros _. destruct (body_merge_info res) as [| p0 rest] eqn:Ei.
      * exists (affected u), j. cbn [app map fst In]. split; [tauto |].
        intros [K | []]. congruence.
      * destruct Hw as (a & b & Hab & Hb); [discriminate |].
        exists a, b. split; [apply in_or_app; left; exact Hab |].
        rewrite map_app. cbn [map fst]. intros K. apply in_app_or in K.
        destruct K as [K | [K | []]]; [contradiction |].
        subst b. apply Em. rewrite <- Ei in Hab. apply (Hc _ _ Hab).
  - apply bind_ok in E. destruct E as (u1 & _ & E). injection E as <- <-.
    split; assumption.
Qed.

Lemma resolve_updates_claims_once h pend res pend' :
  resolve_updates h pend = Ok (res, pend') -> claims_once res.
Proof.
  unfold resolve_updates. intros E.
  apply (for_each_invariant (resolve_update h)
           (fun s => merge_closed (fst s) /\ claims_once (fst s)) pend) in E.
  - apply E.
  - intros [r1 l1] u [r2 l2] _ Hinv Eu. cbn [fst] in *.
    apply resolve_update_ok in Eu. destruct Eu as (u' & Eu & _).
    apply (for_each_invariant (resolve_collision h)
             (fun s => merge_closed (fst s) /\ claims_once (fst s))
             (affectors u)) in Eu.
    + exact Eu.
    + intros [r3 u3] x [r4 u4] _ [Hc Ho] Ex. cbn [fst] in *.
      destruct x as [j ci]. split.
      * eapply merge_closed_grows_step; eassumption.
      * eapply resolve_collision_claims_once; eassumption.
    + exact Hinv.
  - cbn [fst]. split; [apply merge_closed_none |].
    split; [constructor | intros K; exfalso; apply K; reflexivity].
Qed.

(** X7: a tick never grows the pool: on a pool that lists no body twice
    the new pool lists no body twice and is no longer; it is the same list
    when nothing was marked or merged, and strictly shorter otherwise. *)
Theorem tick_never_grows_pool (p p' : SystemBodyPool) :
  NoDup (bodies p) ->
  update_system p = Ok p' ->
  NoDup (bodies p') /\
  (List.length (bodies p') <= List.length (bodies p))%nat /\
  forall res, tick_resolution p = Ok res ->
    (bodies_to_remove res = [] /\ body_merge_info res = [] ->
     bodies p' = bodies p) /\
    (bodies_to_remove res <> [] \/ body_merge_info res <> [] ->
     (List.length (bodies p') < List.length (bodies p))%nat).
Proof.
  intros Hd E.
  destruct (tick_facts p p' E)
    as (res & pend' & m & remaining & Et & Er & _ & Hc & Hw & _ & Em & Erem & ->).
  pose proof (resolve_updates_claims_once _ _ _ _ Er) as [Hfst Hsnd].
  pose proof (resolve_updates_nodup _ _ _ _ Er) as Hnr.
  destruct (merge_loop_spec _ _ _ Em) as (_ & Hadd & _ & Hrem & _).
  cbn [m_remove m_add m_next app] in Hadd, Hrem.
  pose proof (merge_loop_nodup _ _ _ Em Hnr) as Hnm.
  destruct (remove_loop_spec _ _ _ Erem) as (Hsub & _ & Hnd).
  destruct (Hnd Hd) as [Hnrem _].
  pose proof (remove_loop_length _ _ _ Erem) as Hlen.
  cbn [bodies with_bodies]. rewrite Hadd.
  assert (Hk : (List.length (body_merge_info res) <= List.length (m_remove m))%nat).
  { rewrite <- (length_map fst). apply NoDup_incl_length; [exact Hfst |].
    intros x Hx. apply in_map_iff in Hx. destruct Hx as ([a b] & <- & Hab).
    apply Hrem. right. exists a, b. cbn [fst]. tauto. }
  split; [| split].
  - apply NoDup_app; [exact Hnrem | apply seq_NoDup |].
    intros x Hx Hs. apply in_seq in Hs. apply Hsub in Hx.
    apply fresh_ref_above in Hx. lia.
  - rewrite length_app, length_seq. lia.
  - intros res0 Et0. rewrite Et in Et0. injection Et0 as <-. split.
    + intros [R0 M0]. rewrite M0 in *. cbn [for_each] in Em.
      injection Em as <-. cbn [m_remove] in Erem. rewrite R0 in Erem.
      cbn [for_each] in Erem. injection Erem as <-. cbn. apply app_nil_r.
    + intros Hne. rewrite length_app, length_seq.
      assert (Hk' : (List.length (body_merge_info res) < List.length (m_remove m))%nat).
      { destruct (body_merge_info res) as [| p0 rest] eqn:Ei.
        - destruct Hne as [Hne | Hne]; [| congruence].
          cbn [List.length]. destruct (m_remove m) as [| x xs] eqn:Emr.
          + exfalso. destruct (bodies_to_remove res) as [| y ys]; [congruence |].
            assert (In y []) by (apply Hrem; left; left; reflexivity).
            contradiction.
          + cbn [List.length]. lia.
        - destruct Hsnd as (a & j & Haj & Hj); [discriminate |].
          rewrite <- Ei in *.
          assert (Hn : NoDup (j :: map fst (body_merge_info res)))
            by (constructor; assumption).
          assert (Hl : (List.length (j :: map fst (body_merge_info res))
                        <= List.length (m_remove m))%nat).
          { apply NoDup_incl_length; [exact Hn |].
            intros x [<- | Hx].
            - apply Hrem. right. exists a, j. tauto.
            - apply in_map_iff in Hx. destruct Hx as ([a1 b1] & <- & Hab).
              apply Hrem. right. exists a1, b1. cbn [fst]. tauto. }
          cbn [List.length] in Hl. rewrite length_map in Hl. lia. }
      lia.
Qed.

End PoolSize.

(** * A pair that bounces *)

Section Bounce.
Context `{pg : PygameColor}.

Lemma transfer_value h u j ci c :
  calc_blended_color (h (affected u)) (h j) (bias ci) = Ok c ->
  transfer h u j ci = Ok (after_transfer h u j ci c).
Proof. intros E. unfold transfer. cbv zeta. rewrite E. reflexivity. Qed.


End Bounce.

(** * Points and bodies *)

Lemma Rleb_spec x y : Rleb x y = true <-> x <= y.
Proof.
  unfold Rleb. destruct (Rle_dec x y); split; intros; try assumption;
    try reflexivity; try discriminate; contradiction.
Qed.

(** X11: [intersects_point] holds exactly when the point lies in some body
    of the pool, as [intersects_body] tells. *)
Theorem intersects_point_some_body (p : SystemBodyPool) (point : Vec2) :
  intersects_point p point = true <->
  exists body, In body (bodies p) /\ intersects_body (heap p body) point = true.
Proof.
  unfold intersects_point. induction (bodies p) as [| b l IH];
    cbn [intersects_first].
  - split; [discriminate | intros (r & [] & _)].
  - fold (intersects_body (heap p b) point).
    destruct (intersects_body (heap p b) point) eqn:E.
    + split; [| reflexivity]. intros _. exists b. split; [left; reflexivity | exact E].
    + rewrite IH. split.
      * intros (r & Hr & Er). exists r. split; [right; exact Hr | exact Er].
      * intros (r & [<- | Hr] & Er); [congruence |]. exists r. tauto.
Qed.

Lemma py_max_cases a b :
  (a < b /\ py_max a b = b) \/ (b <= a /\ py_max a b = a).
Proof. unfold py_max. destruct (Rlt_dec a b); [left | right]; split; lra. Qed.


Lemma vec2_eq_dec (u v : Vec2) : {u = v} + {u <> v}.
Proof.
  destruct u as [a b], v as [c d].
  destruct (Req_dec_T a c) as [-> | N]; [| right; congruence].
  destruct (Req_dec_T b d) as [-> | N]; [left; reflexivity | right; congruence].
Qed.

Lemma calc_gravity_at_point_centre body :
  radius body = 0 ->
  calc_gravity_at_point body (position body) = Raise ZeroDivisionError.
Proof.
  intros Hr. unfold calc_gravity_at_point. cbv zeta. rewrite Hr.
  replace ((fst (position body) - fst (position body)) ^ 2
           + (snd (position body) - snd (position body)) ^ 2) with 0 by ring.
  replace (py_max 0 (0 ^ 2)) with 0
    by (unfold py_max; destruct (Rlt_dec 0 (0 ^ 2)); lra).
  rewrite math_sqrt_ok by lra. cbn [bind]. rewrite py_div_zero. reflexivity.
Qed.

Lemma calc_gravity_at_point_total body point :
  ~ (radius body = 0 /\ point = position body) ->
  exists info, calc_gravity_at_point body point = Ok info.
Proof.
  intros Hn. unfold calc_gravity_at_point. cbv zeta.
  set (d2 := (fst point - fst (position body)) ^ 2
             + (snd point - snd (position body)) ^ 2).
  assert (Hd : 0 <= d2) by apply sum_sqr_nonneg.
  assert (Hpos : 0 < py_max d2 (radius body ^ 2)).
  { destruct (py_max_cases d2 (radius body ^ 2)) as [[Hlt ->] | [Hge ->]]; [lra |].
    destruct (Req_dec_T d2 0) as [Hz | Hz]; [| lra].
    exfalso. apply Hn. split.
    - assert (radius body ^ 2 <= 0) by lra.
      destruct (Rtotal_order (radius body) 0) as [|[|]]; nra.
    - unfold d2 in Hz.
      replace ((fst point - fst (position body)) ^ 2
               + (snd point - snd (position body)) ^ 2)
        with (Rsqr (fst point - fst (position body))
              + Rsqr (snd point - snd (position body))) in Hz
        by (unfold Rsqr; ring).
      apply Rplus_sqr_eq_0 in Hz. destruct Hz as [Kx Ky].
      destruct point as [px py], (position body) as [bx by_].
      cbn [fst snd] in Kx, Ky. apply vec2_eq; lra. }
  rewrite math_sqrt_ok by lra. cbn [bind].
  rewrite py_div_ok by lra. cbn [bind].
  pose proof (sqrt_lt_R0 _ Hpos).
  rewrite !py_div_ok by lra. cbn [bind]. eauto.
Qed.


(** * Moving the pool *)

Lemma move_loop_listing delta l : forall (h : Heap) r,
  fold_left (fun h body => heap_set h body (move (h body) delta)) l h r
  = Nat.iter (count_occ Nat.eq_dec l r) (fun b => move b delta) (h r).
Proof.
  induction l as [| a l IH]; intros h r; [reflexivity |].
  cbn [fold_left count_occ]. rewrite IH.
  destruct (Nat.eq_dec a r) as [-> | Hn].
  - rewrite heap_set_same. rewrite Nat.iter_succ_r. reflexivity.
  - rewrite heap_set_other by congruence. reflexivity.
Qed.

(** X10: [move_all] keeps the list of bodies and moves each body once per
    listing (a body listed twice moves twice); every listed body ends with
    zero acceleration, and bodies outside the pool are untouched. *)
Theorem move_all_moves_each_listing (p : SystemBodyPool) (delta : R) :
  bodies (move_all p delta) = bodies p /\
  (forall r, heap (move_all p delta) r
             = Nat.iter (count_occ Nat.eq_dec (bodies p) r)
                 (fun b => move b delta) (heap p r)) /\
  (forall r, In r (bodies p) ->
             acceleration (heap (move_all p delta) r) = (0, 0)) /\
  (forall r, ~ In r (bodies p) -> heap (move_all p delta) r = heap p r).
Proof.
  split; [reflexivity |].
  assert (H : forall r, heap (move_all p delta) r
                        = Nat.iter (count_occ Nat.eq_dec (bodies p) r)
                            (fun b => move b delta) (heap p r))
    by (intros r; apply move_loop_listing).
  split; [exact H |]. split.
  - intros r Hr. rewrite H. apply (count_occ_In Nat.eq_dec) in Hr.
    destruct (count_occ Nat.eq_dec (bodies p) r) as [| n]; [lia |].
    reflexivity.
  - intros r Hr. rewrite H. apply (count_occ_not_In Nat.eq_dec) in Hr.
    rewrite Hr. reflexivity.
Qed.

(** * Pools too small to interact *)

Section SmallPools.
Context `{pg : PygameColor}.

(** X9: a pool of at most one body is left as it is by a tick. *)
Theorem update_system_lonely (p : SystemBodyPool) :
  (List.length (bodies p) <= 1)%nat -> update_system p = Ok p.
Proof.
  intros Hl. destruct p as [l h c hm ha ht hs]. cbn [bodies] in Hl.
  destruct l as [| a [| b l]]; [| | cbn [List.length] in Hl; lia].
  - reflexivity.
  - unfold update_system, collect_updates. cbn [bodies heap for_each].
    rewrite collect_update_step. cbn [for_each].
    rewrite gravity_and_collision_step. rewrite Nat.eqb_refl. cbn [bind app].
    unfold resolve_updates. cbn [for_each bind no_resolution body_merge_info
      bodies_to_merge bodies_to_remove m_remove m_add m_heap apply_updates
      fold_left app with_bodies center _heatmap _heatmap_active
      _heatmap_update_time _heatmap_surface bodies].
    reflexivity.
Qed.

End SmallPools.

(** * The heatmap, cell by cell *)

Lemma range_from_length start step n :
  List.length (range_from start step n) = n.
Proof.
  revert start. induction n as [| n IH]; intros start; cbn; [reflexivity |].
  rewrite IH. reflexivity.
Qed.

Lemma py_range_length start stop step :
  List.length (py_range start stop step)
  = Z.to_nat ((stop - start + step - 1) / step).
Proof. unfold py_range. apply range_from_length. Qed.

Lemma sample_rows_length view_rect :
  List.length (sample_rows view_rect) = Z.to_nat ((height view_rect + 9) / 10).
Proof.
  unfold sample_rows. rewrite py_range_length. f_equal.
  change (HEATMAP_CELL_SIZE / 2)%Z with 5%Z. change HEATMAP_CELL_SIZE with 10%Z.
  f_equal. lia.
Qed.

Lemma sample_columns_length view_rect :
  List.length (sample_columns view_rect) = Z.to_nat ((width view_rect + 9) / 10).
Proof.
  unfold sample_columns. rewrite py_range_length. f_equal.
  change (HEATMAP_CELL_SIZE / 2)%Z with 5%Z. change HEATMAP_CELL_SIZE with 10%Z.
  f_equal. lia.
Qed.

Lemma total_accel_loop h all point : forall acc,
  (forall body, In body all -> radius (h body) <> 0) ->
  for_each
    (fun total_accel body =>
       new_info <- calc_gravity_at_point (h body) point ;;
       Ok (total_accel + force new_info))
    all acc
  = Ok (acc + field_at h all point).
Proof.
  unfold field_at. induction all as [| b all IH]; intros acc Hr;
    cbn [for_each map Rsum fold_right].
  - f_equal. ring.
  - rewrite calc_gravity_at_point_ok by (apply Hr; left; reflexivity).
    cbn [bind force]. rewrite IH by (intros x Hx; apply Hr; right; exact Hx).
    f_equal. unfold Rsum. ring.
Qed.

Lemma total_accel_at_value h all point :
  (forall body, In body all -> radius (h body) <> 0) ->
  total_accel_at h all point = Ok (field_at h all point).
Proof.
  intros Hr. unfold total_accel_at. rewrite total_accel_loop by exact Hr.
  f_equal. ring.
Qed.

Lemma heatmap_row_value h all scale view_rect yv :
  scale <> 0 -> (forall body, In body all -> radius (h body) <> 0) ->
  heatmap_row h all scale view_rect yv
  = Ok (map (fun xv => field_at h all (sample_point scale view_rect xv yv))
          (sample_columns view_rect)).
Proof.
  intros Hs Hr. unfold heatmap_row.
  assert (Hd : SYSTEM_SCALE * scale <> 0).
  { unfold SYSTEM_SCALE. intros K. apply Hs. lra. }
  apply (for_each_collect _
           (fun xv => field_at h all (sample_point scale view_rect xv yv)) _)
    with (acc := []).
  intros row xv. rewrite !py_div_ok by exact Hd. cbn [bind].
  rewrite total_accel_at_value by exact Hr. reflexivity.
Qed.

Lemma field_at_bounds h all point :
  (forall body, In body all -> radius (h body) <> 0) ->
  0 <= field_at h all point <= surface_field h all /\
  (all <> [] -> 0 < field_at h all point).
Proof.
  unfold field_at, surface_field.
  assert (HG : 0 < GRAVITY_CONSTANT) by (unfold GRAVITY_CONSTANT; lra).
  induction all as [| b all IH]; intros Hr; cbn [map Rsum fold_right].
  - split; [lra | congruence].
  - fold (Rsum (map (fun body => GRAVITY_CONSTANT / floored_dist_sqr (h body) point) all)).
    fold (Rsum (map (fun body => GRAVITY_CONSTANT / radius (h body) ^ 2) all)).
    destruct IH as [[IH1 IH2] _]; [intros x Hx; apply Hr; right; exact Hx |].
    assert (Hb : radius (h b) <> 0) by (apply Hr; left; reflexivity).
    assert (Hr2 : 0 < radius (h b) ^ 2)
      by (destruct (Rtotal_order (radius (h b)) 0) as [|[|]]; nra).
    assert (Hfl : radius (h b) ^ 2 <= floored_dist_sqr (h b) point)
      by (unfold floored_dist_sqr; apply py_max_ge_r).
    assert (H1 : 0 < GRAVITY_CONSTANT / floored_dist_sqr (h b) point)
      by (apply Rdiv_lt_0_compat; lra).
    assert (H2 : GRAVITY_CONSTANT / floored_dist_sqr (h b) point
                 <= GRAVITY_CONSTANT / radius (h b) ^ 2).
    { unfold Rdiv. apply Rmult_le_compat_l; [lra |].
      apply Rinv_le_contravar; lra. }
    split; [lra | intros _; lra].
Qed.


(** ** The normalisation *)

Lemma for_each_collect_in {A B} (step : list B -> A -> Result (list B))
    (g : A -> B) xs :
  (forall row x, In x xs -> step row x = Ok (row ++ [g x])) ->
  forall acc, for_each step xs acc = Ok (acc ++ map g xs).
Proof.
  induction xs as [| x xs IH]; intros Hstep acc.
  - cbn. rewrite app_nil_r. reflexivity.
  - cbn [for_each map]. rewrite Hstep by (left; reflexivity). cbn [bind].
    rewrite IH by (intros row y Hy; apply Hstep; right; exact Hy).
    rewrite <- app_assoc. reflexivity.
Qed.

Lemma for_each_collect_lists {A B} (step : list B -> A -> Result (list B))
    (g : A -> list B) xs :
  (forall acc x, In x xs -> step acc x = Ok (acc ++ g x)) ->
  forall acc, for_each step xs acc = Ok (acc ++ List.concat (map g xs)).
Proof.
  induction xs as [| x xs IH]; intros Hstep acc.
  - cbn. rewrite app_nil_r. reflexivity.
  - cbn [for_each map List.concat]. rewrite Hstep by (left; reflexivity).
    cbn [bind]. rewrite IH by (intros a y Hy; apply Hstep; right; exact Hy).
    rewrite <- app_assoc. reflexivity.
Qed.

Lemma In_enumerate {A} (l : list A) i v : In (i, v) (enumerate l) -> In v l.
Proof. unfold enumerate. apply in_combine_r. Qed.

Lemma absorb_bounds acc v :
  fst acc <= fst (absorb acc v) /\ snd (absorb acc v) <= snd acc /\
  snd (absorb acc v) <= v <= fst (absorb acc v).
Proof.
  unfold absorb, py_max, py_min. cbn [fst snd].
  destruct (Rlt_dec (fst acc) v), (Rlt_dec v (snd acc)); lra.
Qed.

Lemma extrema_row_bounds row : forall acc,
  fst acc <= fst (fold_left absorb row acc) /\
  snd (fold_left absorb row acc) <= snd acc /\
  forall v, In v row ->
    snd (fold_left absorb row acc) <= v <= fst (fold_left absorb row acc).
Proof.
  induction row as [| c row IH]; intros acc; cbn [fold_left].
  - split; [lra |]. split; [lra |]. intros v [].
  - destruct (IH (absorb acc c)) as (I1 & I2 & I3).
    destruct (absorb_bounds acc c) as (A1 & A2 & A3).
    split; [lra |]. split; [lra |].
    intros v [<- | Hv]; [lra | apply I3; exact Hv].
Qed.

Lemma extrema_grid_bounds grid : forall acc,
  let e := fold_left (fun acc row => fold_left absorb row acc) grid acc in
  fst acc <= fst e /\ snd e <= snd acc /\
  forall v, In v (List.concat grid) -> snd e <= v <= fst e.
Proof.
  induction grid as [| row grid IH]; intros acc; cbn [fold_left List.concat].
  - cbv zeta. split; [lra |]. split; [lra |]. intros v [].
  - cbv zeta. destruct (IH (fold_left absorb row acc)) as (I1 & I2 & I3).
    destruct (extrema_row_bounds row acc) as (R1 & R2 & R3).
    split; [lra |]. split; [lra |].
    intros v Hv. apply in_app_or in Hv. destruct Hv as [Hv | Hv].
    + specialize (R3 v Hv). lra.
    + apply I3. exact Hv.
Qed.

Lemma heatmap_extrema_bounds grid :
  0 <= fst (heatmap_extrema grid) /\ snd (heatmap_extrema grid) <= 1e20 /\
  forall v, In v (List.concat grid) ->
    snd (heatmap_extrema grid) <= v <= fst (heatmap_extrema grid).
Proof.
  unfold heatmap_extrema.
  change (fun acc row =>
            fold_left
              (fun acc0 value =>
                 (py_max (fst acc0) value, py_min (snd acc0) value))
              row acc)
    with (fun acc row => fold_left absorb row acc).
  apply (extrema_grid_bounds grid (0, 1e20)).
Qed.

Lemma py_int_below x (n : Z) : x < IZR n -> (0 < n)%Z -> (py_int x < n)%Z.
Proof.
  intros Hx Hn. unfold py_int. destruct (Rle_dec 0 x) as [H0 | H0].
  - destruct (base_Int_part x) as [Hb _].
    apply lt_IZR. lra.
  - destruct (base_Int_part (- x)) as [Hb Hc].
    assert (-1 < IZR (Int_part (- x))) by lra.
    assert (- 1 < Int_part (- x))%Z by (apply lt_IZR; lra).
    lia.
Qed.

Lemma py_int_nonpositive x : x <= 0 -> (py_int x <= 0)%Z.
Proof.
  intros Hx. unfold py_int. destruct (Rle_dec 0 x) as [H0 | H0].
  - destruct (base_Int_part x) as [Hb _].
    apply le_IZR. lra.
  - destruct (base_Int_part (- x)) as [Hb Hc].
    assert (-1 < IZR (Int_part (- x))) by lra.
    assert (- 1 < Int_part (- x))%Z by (apply lt_IZR; lra).
    lia.
Qed.


(** * The circle of [_circlepoints] *)

Lemma circle_loop_spec r x y e points :
  ((y <= x)%Z -> loop_inv r x y e) ->
  exists tail,
    circle_loop x y e points = points ++ tail /\
    Forall (fun p => octant_point r p /\ (y <= snd p)%Z) tail /\
    StronglySorted (fun p q => (snd p < snd q)%Z) tail /\
    ((y <= x)%Z -> In (x, y) tail).
Proof.
  funelim (circle_loop x y e points); intros Hinv.
  - (* x < y: the loop is over *)
    exists []. rewrite app_nil_r. split; [reflexivity |].
    split; [constructor |]. split; [constructor |]. intros Hle. lia.
  - (* e < 0: y advances *)
    match goal with
    | Hi : (?b <= ?a)%Z -> loop_inv _ ?a ?b _ |- _ =>
        assert (Hle : (b <= a)%Z) by lia;
        destruct (Hi Hle) as (He & Hy & Hx & Hlo & Hhi);
        match goal with
        | IH : forall r, _ -> exists tail, _ |- _ =>
            destruct (IH r) as (tail & Et & Hf & Hs & _);
              [intros Hle'; unfold loop_inv; lia |]
        end;
        exists ((a, b) :: tail)
    end.
    rewrite Et, <- app_assoc. split; [reflexivity |].
    split; [| split; [| intros _; left; reflexivity]].
    + constructor.
      * unfold octant_point. cbn [fst snd]. lia.
      * eapply Forall_impl; [| exact Hf]. intros p [Hp Hq]. split; [exact Hp | lia].
    + constructor; [exact Hs |].
      eapply Forall_impl; [| exact Hf]. intros p [_ Hq]. cbn [snd]. lia.
  - (* 0 <= e: x retreats *)
    match goal with
    | Hi : (?b <= ?a)%Z -> loop_inv _ ?a ?b _ |- _ =>
        assert (Hle : (b <= a)%Z) by lia;
        destruct (Hi Hle) as (He & Hy & Hx & Hlo & Hhi);
        match goal with
        | IH : forall r, _ -> exists tail, _ |- _ =>
            destruct (IH r) as (tail & Et & Hf & Hs & _);
              [intros Hle'; unfold loop_inv; lia |]
        end;
        exists ((a, b) :: tail)
    end.
    rewrite Et, <- app_assoc. split; [reflexivity |].
    split; [| split; [| intros _; left; reflexivity]].
    + constructor.
      * unfold octant_point. cbn [fst snd]. lia.
      * eapply Forall_impl; [| exact Hf]. intros p [Hp Hq]. split; [exact Hp | lia].
    + constructor; [exact Hs |].
      eapply Forall_impl; [| exact Hf]. intros p [_ Hq]. cbn [snd]. lia.
Qed.

Lemma octant_spec r :
  Forall (octant_point r) (circle_loop r 0 (1 - r) []) /\
  StronglySorted (fun p q => (snd p < snd q)%Z) (circle_loop r 0 (1 - r) []) /\
  ((0 <= r)%Z -> In (r, 0%Z) (circle_loop r 0 (1 - r) [])) /\
  ((r < 0)%Z -> circle_loop r 0 (1 - r) [] = []).
Proof.
  destruct (circle_loop_spec r r 0 (1 - r) []) as (tail & Et & Hf & Hs & Hin).
  { intros Hr. unfold loop_inv. lia. }
  rewrite Et. cbn [app]. split; [| split; [exact Hs | split; [exact Hin |]]].
  - eapply Forall_impl; [| exact Hf]. intros p [Hp _]. exact Hp.
  - intros Hr. destruct tail as [| p tail]; [reflexivity |].
    inversion Hf as [| ? ? [Hp _] _]; subst. unfold octant_point in Hp. lia.
Qed.

Lemma strictly_sorted_NoDup {A} (R : A -> A -> Prop) l :
  (forall a, ~ R a a) -> StronglySorted R l -> NoDup l.
Proof.
  intros Hirr Hs. induction Hs as [| a l Hs IH Hf]; constructor; [| exact IH].
  intros Ha. rewrite Forall_forall in Hf. apply (Hirr a). apply Hf. exact Ha.
Qed.

(** ** Sorting *)

Lemma pair_leb_total p q : pair_leb p q = false -> pair_leb q p = true.
Proof.
  unfold pair_leb. destruct p as [a b], q as [c d]. cbn [fst snd]. intros H.
  apply orb_false_iff in H. destruct H as [H1 H2].
  apply Z.ltb_ge in H1. apply andb_false_iff in H2.
  apply orb_true_iff. destruct H2 as [H2 | H2].
  - left. apply Z.eqb_neq in H2. apply Z.ltb_lt. lia.
  - apply Z.leb_gt in H2. destruct (Z.eq_dec a c) as [-> | N].
    + right. rewrite Z.eqb_refl. apply Z.leb_le. lia.
    + left. apply Z.ltb_lt. lia.
Qed.

Lemma pair_leb_trans p q s :
  pair_leb p q = true -> pair_leb q s = true -> pair_leb p s = true.
Proof.
  unfold pair_leb. destruct p as [a b], q as [c d], s as [e g]. cbn [fst snd].
  rewrite !orb_true_iff, !andb_true_iff, !Z.ltb_lt, !Z.eqb_eq, !Z.leb_le. lia.
Qed.

Lemma sorted_insert_perm p l : Permutation (sorted_insert p l) (p :: l).
Proof.
  induction l as [| q l IH]; cbn [sorted_insert]; [reflexivity |].
  destruct (pair_leb p q); [reflexivity |].
  rewrite IH. apply perm_swap.
Qed.

Lemma list_sort_perm l : Permutation (list_sort l) l.
Proof.
  induction l as [| p l IH]; cbn [list_sort fold_right]; [reflexivity |].
  fold (list_sort l). rewrite sorted_insert_perm. constructor. exact IH.
Qed.

Lemma sorted_insert_sorted p l :
  StronglySorted (fun a b => pair_leb a b = true) l ->
  StronglySorted (fun a b => pair_leb a b = true) (sorted_insert p l).
Proof.
  intros Hs. induction Hs as [| q l Hs IH Hf]; cbn [sorted_insert].
  - repeat constructor.
  - destruct (pair_leb p q) eqn:E.
    + constructor; [constructor; assumption |].
      constructor; [exact E |].
      eapply Forall_impl; [| exact Hf]. intros s Hq.
      eapply pair_leb_trans; eassumption.
    + constructor; [exact IH |].
      rewrite Forall_forall. intros s Hs'.
      apply (Permutation_in _ (sorted_insert_perm p l)) in Hs'.
      destruct Hs' as [<- | Hs'].
      * apply pair_leb_total. exact E.
      * rewrite Forall_forall in Hf. apply Hf. exact Hs'.
Qed.

Lemma list_sort_sorted l :
  StronglySorted (fun a b => pair_leb a b = true) (list_sort l).
Proof.
  induction l as [| p l IH]; cbn [list_sort fold_right]; [constructor |].
  apply sorted_insert_sorted. exact IH.
Qed.

Lemma pair_leb_lt p q : pair_leb p q = true -> p <> q -> pair_lt p q.
Proof.
  unfold pair_leb, pair_lt. destruct p as [a b], q as [c d]. cbn [fst snd].
  rewrite orb_true_iff, andb_true_iff, Z.ltb_lt, Z.eqb_eq, Z.leb_le.
  intros H Hn. destruct H as [H | [-> H]]; [left; exact H |].
  right. split; [reflexivity |].
  destruct (Z.eq_dec b d) as [-> | N]; [congruence | lia].
Qed.

Lemma list_sort_strict l :
  NoDup l -> StronglySorted pair_lt (list_sort l).
Proof.
  intros Hd.
  assert (Hn : NoDup (list_sort l)).
  { eapply Permutation_NoDup; [apply Permutation_sym, list_sort_perm | exact Hd]. }
  pose proof (list_sort_sorted l) as Hs.
  induction Hs as [| a s Hs IH Hf]; [constructor |].
  inversion Hn as [| ? ? Ha Hn']; subst.
  constructor; [apply IH; exact Hn' |].
  rewrite Forall_forall in *. intros q Hq. apply pair_leb_lt; [apply Hf; exact Hq |].
  intros ->. contradiction.
Qed.

(** ** The eight mirror images *)

Lemma In_mirror (f : Z * Z -> Z * Z) (keep : Z * Z -> bool) l p :
  In p (l ++ map f (filter keep l)) <->
  In p l \/ exists q, In q l /\ keep q = true /\ f q = p.
Proof.
  rewrite in_app_iff, in_map_iff. split.
  - intros [H | (q & <- & Hq)]; [left; exact H |].
    apply filter_In in Hq. right. exists q. tauto.
  - intros [H | (q & Hq & Hk & <-)]; [left; exact H |].
    right. exists q. split; [reflexivity | apply filter_In; tauto].
Qed.

Lemma NoDup_map_injective {A B} (f : A -> B) l :
  (forall p q, f p = f q -> p = q) -> NoDup l -> NoDup (map f l).
Proof.
  intros Hinj Hd. induction Hd as [| a l Ha Hd IH]; cbn [map]; constructor.
  - intros K. apply in_map_iff in K. destruct K as (q & E & Hq).
    apply Hinj in E. subst q. contradiction.
  - exact IH.
Qed.

Lemma NoDup_mirror (f : Z * Z -> Z * Z) (keep : Z * Z -> bool) l :
  NoDup l ->
  (forall p q, f p = f q -> p = q) ->
  (forall p q, In p l -> In q l -> keep q = true -> p <> f q) ->
  NoDup (l ++ map f (filter keep l)).
Proof.
  intros Hd Hinj Hsep. apply NoDup_app.
  - exact Hd.
  - apply NoDup_map_injective; [exact Hinj | apply NoDup_filter; exact Hd].
  - intros p Hp Hm. apply in_map_iff in Hm. destruct Hm as (q & <- & Hq).
    apply filter_In in Hq. destruct Hq as [Hq Hk].
    apply (Hsep (f q) q Hp Hq Hk). reflexivity.
Qed.

(** The points before sorting: which ones they are, each once. *)
Lemma circle_mirrors_spec P0 :
  (forall u v, In (u, v) P0 -> (0 <= v <= u)%Z) -> NoDup P0 ->
  NoDup (circle_mirrors P0) /\
  forall u v, In (u, v) (circle_mirrors P0) <->
              In (Z.abs u, Z.abs v) P0 \/ In (Z.abs v, Z.abs u) P0.
Proof.
  intros Hpos Hd0. unfold circle_mirrors. cbv zeta.
  set (P1 := P0 ++ map (fun p => (snd p, fst p))
                     (filter (fun p => (fst p >? snd p)%Z) P0)).
  set (P2 := P1 ++ map (fun p => ((- fst p)%Z, snd p))
                     (filter (fun p => negb (fst p =? 0)%Z) P1)).
  assert (H1 : forall u v, In (u, v) P1 <-> In (u, v) P0 \/ In (v, u) P0).
  { intros u v. unfold P1. rewrite In_mirror. split.
    - intros [H | ([x y] & Hq & _ & E)]; [left; exact H |].
      cbn [fst snd] in E. injection E as <- <-. right. exact Hq.
    - intros [H | H]; [left; exact H |].
      pose proof (Hpos _ _ H) as Hvu.
      destruct (Z.eq_dec u v) as [-> | N]; [left; exact H |].
      right. exists (v, u). cbn [fst snd]. split; [exact H |].
      split; [apply Z.gtb_lt; lia | reflexivity]. }
  assert (Hpos1 : forall u v, In (u, v) P1 -> (0 <= u /\ 0 <= v)%Z).
  { intros u v H. apply H1 in H. destruct H as [H | H]; apply Hpos in H; lia. }
  assert (H2 : forall u v, In (u, v) P2 <->
                           In (Z.abs u, v) P0 \/ In (v, Z.abs u) P0).
  { intros u v. unfold P2. rewrite In_mirror. split.
    - intros [H | ([x y] & Hq & Hk & E)].
      + pose proof (Hpos1 _ _ H). apply H1 in H.
        rewrite Z.abs_eq by lia. exact H.
      + cbn [fst snd] in *. injection E as <- <-.
        pose proof (Hpos1 _ _ Hq). apply H1 in Hq.
        rewrite Z.abs_opp, Z.abs_eq by lia. exact Hq.
    - intros H. destruct (Z_le_dec 0 u) as [Hu | Hu].
      + left. apply H1. rewrite Z.abs_eq in H by assumption. exact H.
      + right. exists (Z.abs u, v). cbn [fst snd]. split; [apply H1; exact H |].
        split; [apply negb_true_iff, Z.eqb_neq; lia |].
        f_equal. lia. }
  assert (Hpos2 : forall u v, In (u, v) P2 -> (0 <= v)%Z).
  { intros u v H. apply H2 in H. destruct H as [H | H]; apply Hpos in H; lia. }
  split.
  - apply NoDup_mirror.
    + apply NoDup_mirror.
      * apply NoDup_mirror; [exact Hd0 | |].
        -- intros [a b] [c d] E. cbn [fst snd] in E. congruence.
        -- intros [a b] [c d] Hp Hq Hk E. cbn [fst snd] in *.
           injection E as -> ->. apply Hpos in Hp. apply Z.gtb_lt in Hk. lia.
      * intros [a b] [c d] E. cbn [fst snd] in E.
        injection E as E1 E2. f_equal; lia.
      * intros [a b] [c d] Hp Hq Hk E. cbn [fst snd] in *.
        injection E as -> ->. apply Hpos1 in Hp. apply Hpos1 in Hq.
        apply negb_true_iff, Z.eqb_neq in Hk. lia.
    + intros [a b] [c d] E. cbn [fst snd] in E.
      injection E as E1 E2. f_equal; lia.
    + intros [a b] [c d] Hp Hq Hk E. cbn [fst snd] in *.
      injection E as -> ->. apply Hpos2 in Hp. apply Hpos2 in Hq.
      apply negb_true_iff, Z.eqb_neq in Hk. lia.
  - intros u v. fold P1. fold P2. rewrite In_mirror. split.
    + intros [H | ([x y] & Hq & Hk & E)].
      * pose proof (Hpos2 _ _ H). apply H2 in H.
        rewrite (Z.abs_eq v) by assumption. exact H.
      * cbn [fst snd] in *. injection E as <- <-.
        pose proof (Hpos2 _ _ Hq). apply H2 in Hq.
        rewrite Z.abs_opp, (Z.abs_eq y) by assumption. exact Hq.
    + intros H. destruct (Z_le_dec 0 v) as [Hv | Hv].
      * left. apply H2. rewrite (Z.abs_eq v) in H by assumption. exact H.
      * right. exists (u, Z.abs v). cbn [fst snd]. split; [apply H2; exact H |].
        split; [apply negb_true_iff, Z.eqb_neq; lia |].
        f_equal. lia.
Qed.

Lemma octant_facts r :
  (forall u v, In (u, v) (circle_loop r 0 (1 - r) []) -> (0 <= v <= u)%Z) /\
  NoDup (circle_loop r 0 (1 - r) []).
Proof.
  destruct (octant_spec r) as (Hoct & Hs & _ & _). split.
  - rewrite Forall_forall in Hoct. intros u v H. apply Hoct in H.
    unfold octant_point in H. cbn [fst snd] in H. lia.
  - apply (strictly_sorted_NoDup _ _ (fun a => Z.lt_irrefl (snd a)) Hs).
Qed.

Lemma circle_points_In r a b :
  In (a, b) (circle_points r) <->
  In (Z.abs a, Z.abs b) (circle_loop r 0 (1 - r) [])
  \/ In (Z.abs b, Z.abs a) (circle_loop r 0 (1 - r) []).
Proof.
  destruct (octant_facts r) as [Hpos Hd].
  destruct (circle_mirrors_spec _ Hpos Hd) as [_ Hin].
  rewrite <- Hin. unfold circle_points. cbv zeta. split; intros H.
  - eapply Permutation_in; [apply list_sort_perm | exact H].
  - eapply Permutation_in; [apply Permutation_sym, list_sort_perm | exact H].
Qed.

(** X17: the list of [_circlepoints] is strictly ascending in the order
    of pairs: sorted, and no point twice. *)
Theorem circle_points_sorted (r : Z) :
  StronglySorted pair_lt (circle_points r) /\ NoDup (circle_points r).
Proof.
  destruct (octant_facts r) as [Hpos Hd].
  destruct (circle_mirrors_spec _ Hpos Hd) as [Hn _].
  split.
  - apply list_sort_strict. exact Hn.
  - eapply Permutation_NoDup; [apply Permutation_sym, list_sort_perm | exact Hn].
Qed.

(** X16: the points of [_circlepoints] are closed under the mirror images
    across the diagonal and the two axes, and hold the point (r, 0). *)
Theorem circle_points_symmetric (r a b : Z) :
  In (a, b) (circle_points r) ->
  In (b, a) (circle_points r) /\
  In ((- a)%Z, b) (circle_points r) /\
  In (a, (- b)%Z) (circle_points r) /\
  In (r, 0%Z) (circle_points r).
Proof.
  intros H.
  assert (Hr : (0 <= r)%Z).
  { destruct (Z_le_dec 0 r) as [Hr | Hr]; [exact Hr | exfalso].
    destruct (octant_spec r) as (_ & _ & _ & He).
    unfold circle_points in H. rewrite He in H by lia. destruct H. }
  repeat split.
  - revert H. rewrite !circle_points_In. tauto.
  - revert H. rewrite !circle_points_In, !Z.abs_opp. tauto.
  - revert H. rewrite !circle_points_In, !Z.abs_opp. tauto.
  - apply circle_points_In. left.
    rewrite Z.abs_eq by exact Hr. cbn [Z.abs].
    apply (octant_spec r). exact Hr.
Qed.

Lemma circle_points_symmetric_witness :
  In (2, 1)%Z (circle_points 2) /\ In (1, 2)%Z (circle_points 2) /\
  In (-2, 1)%Z (circle_points 2) /\ In (2, -1)%Z (circle_points 2).
Proof.
  assert (H : In (2, 1)%Z (circle_points 2)) by (vm_compute; tauto).
  destruct (circle_points_symmetric 2 2 1 H) as (H1 & H2 & H3 & _).
  repeat split; assumption.
Defined.

(** X18: every point (a, b) of [_circlepoints] for the radius r (which is
    then not negative) lies within the square of side 2r around the origin
    and near the circle: r^2 - r <= a^2 + b^2 <= r^2 + 3r. *)
Theorem circle_points_near_circle (r a b : Z) :
  In (a, b) (circle_points r) ->
  (0 <= r /\ Z.abs a <= r /\ Z.abs b <= r /\
   r * r - r <= a * a + b * b <= r * r + 3 * r)%Z.
Proof.
  intros H. apply circle_points_In in H.
  destruct (octant_spec r) as (Hoct & _ & _ & _). rewrite Forall_forall in Hoct.
  assert (Ha : (a * a = Z.abs a * Z.abs a)%Z) by lia.
  assert (Hb : (b * b = Z.abs b * Z.abs b)%Z) by lia.
  destruct H as [H | H]; apply Hoct in H; unfold octant_point in H;
    cbn [fst snd] in H; nia.
Qed.
Lemma circle_points_near_circle_witness :
  In (2, 1)%Z (circle_points 2) /\ (2 * 2 - 2 <= 2 * 2 + 1 * 1 <= 2 * 2 + 3 * 2)%Z.
Proof.
  assert (H : In (2, 1)%Z (circle_points 2)) by (vm_compute; tauto).
  split; [exact H |]. apply (circle_points_near_circle 2 2 1 H).
Defined.

(** ** The cache *)

Lemma py_round_integer (n : Z) : py_round (IZR n) = n.
Proof.
  unfold py_round. cbv zeta.
  assert (E : Int_part (IZR n) = n).
  { symmetry. apply Int_part_spec. lra. }
  rewrite E. destruct (Rlt_dec (IZR n - IZR n) (1 / 2)) as [_ | N]; [reflexivity |].
  exfalso. apply N. lra.
Qed.

(** X19: the cache of [_circlepoints] is transparent: on a cache that
    holds only lists the function computed, a call returns the list for the
    rounded radius, stores it under that radius and nothing else, and the
    same call again returns the same list and leaves the cache alone. *)
Theorem circlepoints_cache_transparent (cache : CircleCache) (r : R) :
  cache_sound cache ->
  let (points, cache') := _circlepoints cache r in
  points = circle_points (py_round r) /\
  cache_sound cache' /\
  cache' (py_round r) = Some points /\
  (forall k, k <> py_round r -> cache' k = cache k) /\
  _circlepoints cache' r = (points, cache').
Proof.
  intros Hs. unfold _circlepoints. cbv zeta.
  destruct (cache (py_round r)) as [pts |] eqn:E.
  - split; [apply Hs; exact E |]. split; [exact Hs |].
    split; [exact E |]. split; [reflexivity |]. rewrite E. reflexivity.
  - split; [reflexivity |]. split; [| split; [| split]].
    + intros k pts. unfold cache_store. destruct (Z.eqb_spec k (py_round r)) as [-> | N].
      * intros K. injection K as <-. reflexivity.
      * apply Hs.
    + unfold cache_store. rewrite Z.eqb_refl. reflexivity.
    + intros k Hk. unfold cache_store. apply Z.eqb_neq in Hk. rewrite Hk. reflexivity.
    + unfold cache_store at 1. rewrite Z.eqb_refl. reflexivity.
Qed.

Lemma circlepoints_cache_transparent_witness :
  fst (_circlepoints (fun _ => None) 2) = circle_points (py_round 2).
Proof.
  assert (Hs : cache_sound (fun _ => None)) by (intros k pts K; discriminate).
  pose proof (circlepoints_cache_transparent (fun _ => None) 2 Hs) as H.
  destruct (_circlepoints (fun _ => None) 2) as [points cache'].
  destruct H as (H & _). exact H.
Defined.

Example circle_points_2 :
  circle_points 2
  = [(-2, -1); (-2, 0); (-2, 1); (-1, -2); (-1, 2); (0, -2); (0, 2);
     (1, -2); (1, 2); (2, -1); (2, 0); (2, 1)]%Z.
Proof. reflexivity. Qed.
Example circle_points_0 : circle_points 0 = [(0, 0)]%Z.
Proof. reflexivity. Qed.
Example circle_points_neg : circle_points (-3) = [].
Proof. reflexivity. Qed.

(** * The bouncing pair *)

Ltac pair_fields := unfold falling, resting; fields.

Lemma falling_resting_mag : rel_pos_mag falling resting = 1.
Proof. unfold rel_pos_mag, rel_pos. pair_fields. lra. Qed.

Lemma falling_resting_vn : rel_vel_n falling resting = -1.
Proof.
  unfold rel_vel_n, col_normal. rewrite falling_resting_mag.
  unfold rel_vel, rel_pos. pair_fields. lra.
Qed.

Lemma falling_resting_info :
  calc_collision_bias falling resting
  = Ok (Some (collision_info falling resting)).
Proof.
  apply calc_collision_bias_some.
  - rewrite falling_resting_mag. lra.
  - unfold intersection. rewrite falling_resting_mag. pair_fields.
    apply overlap_by_square; lra.
  - rewrite falling_resting_vn. lra.
  - pair_fields. lra.
  - pair_fields. lra.
  - pair_fields. lra.
  - pair_fields. lra.
Qed.

Lemma resting_falling_info :
  calc_collision_bias resting falling
  = Ok (Some (collision_info resting falling)).
Proof.
  apply calc_collision_bias_some.
  - rewrite rel_pos_mag_sym, falling_resting_mag. lra.
  - rewrite intersection_sym. unfold intersection. rewrite falling_resting_mag.
    pair_fields. apply overlap_by_square; lra.
  - rewrite rel_vel_n_sym, falling_resting_vn. lra.
  - pair_fields. lra.
  - pair_fields. lra.
  - pair_fields. lra.
  - pair_fields. lra.
Qed.

Lemma math_atan2_vertical y :
  y <> 0 -> Rabs (math_atan2 y 0) = PI / 2.
Proof.
  intros Hy. unfold math_atan2.
  destruct (Rlt_dec 0 0) as [K | _]; [lra |].
  pose proof PI2_1 as Hpi.
  destruct (Rlt_dec 0 y) as [Hp | Hp].
  - apply Rabs_right. lra.
  - destruct (Rlt_dec y 0) as [Hn | Hn]; [| lra].
    rewrite Rabs_Ropp. apply Rabs_right. lra.
Qed.

Lemma strong_vertical_reflection ci :
  fst (reflect_dir ci) = 0 -> snd (reflect_dir ci) <> 0 -> 10 <= impulse ci ->
  weak_reflection ci = false.
Proof.
  intros Hx Hy Hi. unfold weak_reflection. cbv zeta. rewrite Hx.
  rewrite math_atan2_vertical by exact Hy.
  pose proof PI2_1 as Hpi.
  rewrite Rleb_false by lra. rewrite Rltb_false by lra.
  rewrite Rltb_false by lra. reflexivity.
Qed.

Lemma norm_vertical y : norm (0, y) = Rabs y.
Proof.
  unfold norm. cbn [fst snd]. replace (0 ^ 2 + y ^ 2) with (Rsqr y)
    by (unfold Rsqr; ring).
  apply sqrt_Rsqr_abs.
Qed.

Lemma falling_resting_strong :
  weak_reflection (collision_info falling resting) = false.
Proof.
  assert (Hn : norm (rel_vel falling resting) = 1).
  { unfold rel_vel. pair_fields.
    replace (0 - 0) with 0 by ring. rewrite norm_vertical.
    replace (-1 - 0) with (-1) by ring. rewrite Rabs_left; lra. }
  apply strong_vertical_reflection.
  - unfold collision_info. fields. rewrite Hn, falling_resting_vn.
    unfold col_normal. rewrite falling_resting_mag.
    unfold rel_vel, rel_pos. pair_fields. lra.
  - unfold collision_info. fields. rewrite Hn, falling_resting_vn.
    unfold col_normal. rewrite falling_resting_mag.
    unfold rel_vel, rel_pos. pair_fields. lra.
  - unfold collision_info. fields. rewrite falling_resting_vn.
    unfold COLLISION_DAMPENING, SYSTEM_SCALE. pair_fields. lra.
Qed.

Lemma resting_falling_strong :
  weak_reflection (collision_info resting falling) = false.
Proof.
  assert (Hn : norm (rel_vel resting falling) = 1).
  { unfold rel_vel. pair_fields.
    replace (0 - 0) with 0 by ring. rewrite norm_vertical.
    replace (0 - -1) with 1 by ring. rewrite Rabs_right; lra. }
  assert (Hv : rel_vel_n resting falling = -1)
    by (rewrite rel_vel_n_sym; exact falling_resting_vn).
  assert (Hm : rel_pos_mag resting falling = 1)
    by (rewrite rel_pos_mag_sym; exact falling_resting_mag).
  apply strong_vertical_reflection.
  - unfold collision_info. fields. rewrite Hn, Hv.
    unfold col_normal. rewrite Hm.
    unfold rel_vel, rel_pos. pair_fields. lra.
  - unfold collision_info. fields. rewrite Hn, Hv.
    unfold col_normal. rewrite Hm.
    unfold rel_vel, rel_pos. pair_fields. lra.
  - unfold collision_info. fields. rewrite Hv.
    unfold COLLISION_DAMPENING, SYSTEM_SCALE. pair_fields. lra.
Qed.


(** * Witnesses *)

Lemma gravity_step_inverse_square_witness :
  exists h',
    gravity_and_collision 0%nat (scenario_heap, []) 1%nat = Ok (h', []) /\
    rel_pos_mag (scenario_heap 0%nat) (scenario_heap 1%nat) <> 0 /\
    forall r, r <> 0%nat -> h' r = scenario_heap r.
Proof.
  destruct (calc_gravity_acceleration_ok body_A body_B scenario_apart) as (g & Eg).
  assert (E : gravity_and_collision 0%nat (scenario_heap, []) 1%nat
              = Ok (heap_set scenario_heap 0%nat
                      (set_acceleration (scenario_heap 0%nat)
                         (vadd (acceleration (scenario_heap 0%nat))
                            (gravity_vector (scenario_heap 0%nat)
                               (scenario_heap 1%nat)))), [])).
  { rewrite gravity_and_collision_step. cbn [Nat.eqb].
    change (scenario_heap 0%nat) with body_A.
    change (scenario_heap 1%nat) with body_B.
    rewrite Eg. cbn [bind]. rewrite scenario_AB. cbn [bind].
    rewrite (detected_one_none scenario_heap 0%nat 1%nat scenario_AB).
    reflexivity. }
  destruct (gravity_step_inverse_square 0%nat 1%nat scenario_heap _ [] []
              ltac:(discriminate) E) as (Hd & _ & Hr & _).
  eexists. split; [exact E |]. split; [exact Hd | exact Hr].
Defined.

Lemma gravity_adds_no_net_force_witness :
  net_force (heap_after_gravity scenario_pool) (bodies scenario_pool)
  = net_force (heap scenario_pool) (bodies scenario_pool).
Proof.
  apply (gravity_adds_no_net_force scenario_pool (heap_after_gravity scenario_pool)
           (pending_of (heap scenario_pool) (bodies scenario_pool)
              (bodies scenario_pool))).
  - repeat constructor; cbn; intuition discriminate.
  - apply collect_updates_eval. exact scenario_pairs_ok.
Defined.

Lemma collision_detected_both_ways_witness :
  exists ci',
    calc_collision_bias moon sun = Ok (Some ci') /\
    bias (collision_info sun moon) + bias ci' = 1.
Proof.
  destruct (collision_detected_both_ways sun moon (collision_info sun moon)
              ltac:(unfold sun; fields; lra) ltac:(unfold moon; fields; lra)
              sun_moon_info) as (ci' & E & Hs & _).
  exists ci'. split; assumption.
Defined.

Lemma grey_pygame_total : colours_total grey_pygame.
Proof. split; intros; eexists; reflexivity. Qed.

Lemma head_on_well_placed : well_placed (heap head_on_pool) (bodies head_on_pool).
Proof.
  split.
  - intros i Hi. cbn in Hi. destruct Hi as [<- | [<- | []]].
    + change (0 < mass sun). unfold sun. fields. lra.
    + change (0 < mass moon). unfold moon. fields. lra.
  - intros i j Hi Hj Hn K. cbn in Hi, Hj.
    destruct Hi as [<- | [<- | []]]; destruct Hj as [<- | [<- | []]];
      try (apply Hn; reflexivity).
    + change (position sun = position moon) in K. unfold sun, moon in K.
      cbn [position SystemBody_init fst snd] in K. injection K as K. lra.
    + change (position moon = position sun) in K. unfold sun, moon in K.
      cbn [position SystemBody_init fst snd] in K. injection K as K. lra.
Qed.


Lemma tick_never_grows_pool_witness :
  exists p',
    update_system (pg := grey_pygame) head_on_pool = Ok p' /\
    NoDup (bodies p') /\
    (List.length (bodies p') <= List.length (bodies head_on_pool))%nat.
Proof.
  destruct head_on_tick as (p' & E & _).
  destruct (tick_never_grows_pool (pg := grey_pygame) head_on_pool p'
              head_on_NoDup E) as (Hn & Hl & _).
  exists p'. split; [exact E |]. split; assumption.
Defined.


Lemma update_system_lonely_witness :
  update_system (pg := grey_pygame) speck_pool = Ok speck_pool.
Proof.
  apply (update_system_lonely (pg := grey_pygame) speck_pool).
  cbn. lia.
Defined.



(** * Easing *)

(** X20: [ease_in_out] maps the unit interval onto itself: it is 0 at 0
    and 1 at 1, stays between 0 and 1 and grows with t on [0, 1], and is
    symmetric about the middle: ease(1 - t) = 1 - ease(t). *)
Theorem ease_in_out_unit_interval (t u : R) :
  0 <= t -> t <= u -> u <= 1 ->
  ease_in_out 0 = 0 /\ ease_in_out 1 = 1 /\
  0 <= ease_in_out t /\ ease_in_out t <= ease_in_out u /\ ease_in_out u <= 1 /\
  ease_in_out (1 - t) = 1 - ease_in_out t.
Proof.
  intros Ht Htu Hu. unfold ease_in_out.
  split; [ring |]. split; [ring |].
  split; [| split; [| split]].
  - assert (0 <= t ^ 2 * (3 - 2 * t)) by (apply Rmult_le_pos; nra). nra.
  - assert (H : 3 * u ^ 2 - 2 * u ^ 3 - (3 * t ^ 2 - 2 * t ^ 3)
                = (u - t) * (3 * (u + t) - 2 * (u ^ 2 + u * t + t ^ 2))) by ring.
    assert (0 <= 3 * (u + t) - 2 * (u ^ 2 + u * t + t ^ 2)) by nra.
    assert (0 <= (u - t) * (3 * (u + t) - 2 * (u ^ 2 + u * t + t ^ 2)))
      by (apply Rmult_le_pos; lra).
    lra.
  - assert (H : 1 - (3 * u ^ 2 - 2 * u ^ 3) = (1 - u) ^ 2 * (1 + 2 * u)) by ring.
    assert (0 <= (1 - u) ^ 2 * (1 + 2 * u)) by (apply Rmult_le_pos; nra).
    lra.
  - ring.
Qed.

Lemma ease_in_out_unit_interval_witness :
  0 <= ease_in_out (1 / 4) /\ ease_in_out (1 / 4) <= ease_in_out (1 / 2)
  /\ ease_in_out (1 / 2) <= 1.
Proof.
  destruct (ease_in_out_unit_interval (1 / 4) (1 / 2)
              ltac:(lra) ltac:(lra) ltac:(lra)) as (_ & _ & H1 & H2 & H3 & _).
  repeat split; assumption.
Defined.

(** * The viewer *)

Lemma scaled_zoom_nonzero z : 0 < z -> SYSTEM_SCALE * z <> 0.
Proof. unfold SYSTEM_SCALE. intros Hz. nra. Qed.

Lemma ControlState_eqb_eq a b : ControlState_eqb a b = true <-> a = b.
Proof. destruct a, b; cbn; split; intros H; try reflexivity; discriminate. Qed.

Lemma the_drag_body_ready v :
  viewer_ready v -> _control_state v <> STATE_NONE ->
  exists body, _drag_body v = Some body /\ the_drag_body v = Done body.
Proof.
  intros [_ Hb] Hs. unfold the_drag_body.
  destruct (_drag_body v) as [body |] eqn:E; [eauto |].
  exfalso. apply (Hb Hs). reflexivity.
Qed.

Lemma brighten_fails c : forall i e, brighten c i = Failed e -> e = IndexError.
Proof.
  induction c as [| a c IH]; intros i e E; cbn [brighten] in E.
  - destruct i; congruence.
  - destruct i as [| k]; [discriminate |].
    destruct (brighten c k) as [c' | e'] eqn:Ec; cbn [ui_bind] in E;
      [discriminate |].
    injection E as <-. eapply IH. exact Ec.
Qed.

Lemma draw_fails self screen_width screen_height zoom centre is_hovered e :
  draw self screen_width screen_height zoom centre is_hovered = Failed e ->
  e = IndexError.
Proof.
  unfold draw. destruct is_hovered; [| discriminate].
  destruct (brighten (color self) 0) as [c0 | e0] eqn:E0; cbn [ui_bind].
  2: { intros E. injection E as <-. eapply brighten_fails. exact E0. }
  destruct (brighten c0 1) as [c1 | e1] eqn:E1; cbn [ui_bind].
  2: { intros E. injection E as <-. eapply brighten_fails. exact E1. }
  destruct (brighten c1 2) as [c2 | e2] eqn:E2; cbn [ui_bind].
  2: { intros E. injection E as <-. eapply brighten_fails. exact E2. }
  discriminate.
Qed.

Lemma draw_each_fails {A : Type} (body : A -> UIResult (list DrawCommand))
    (P : UIError -> Prop) :
  (forall a e, body a = Failed e -> P e) ->
  forall xs drawn e, draw_each body xs drawn = Failed e -> P e.
Proof.
  intros Hb. induction xs as [| a xs IH]; intros drawn e E; cbn [draw_each] in E.
  - discriminate.
  - destruct (body a) as [d | e'] eqn:Ea; cbn [ui_bind] in E.
    + eapply IH. exact E.
    + injection E as <-. eapply Hb. exact Ea.
Qed.

Lemma draw_all_fails p screen_width screen_height view_pos zoom mouse_pos e :
  zoom <> 0 ->
  draw_all p screen_width screen_height view_pos zoom mouse_pos = Failed e ->
  e = IndexError.
Proof.
  intros Hz. unfold draw_all.
  assert (Hs : SYSTEM_SCALE * zoom <> 0) by (unfold SYSTEM_SCALE; nra).
  rewrite !py_div_ok by exact Hs. cbn [engine ui_bind].
  apply (draw_each_fails _ (fun e => e = IndexError)).
  intros a e'. apply draw_fails.
Qed.

Lemma RenderView_draw_fails v screen_width screen_height mouse_pos e :
  viewer_ready v ->
  RenderView_draw v screen_width screen_height mouse_pos = Failed e ->
  e = IndexError.
Proof.
  intros Hr. pose proof Hr as [Hz Hb]. unfold RenderView_draw.
  destruct (draw_all (_system v) screen_width screen_height (_view_pos v)
              (_zoom v) mouse_pos) as [drawn | e'] eqn:Ed; cbn [ui_bind].
  2: { intros E. injection E as <-. eapply draw_all_fails; [| exact Ed]. lra. }
  destruct (_control_state v) eqn:Es; [discriminate | |].
  all: destruct (the_drag_body_ready v Hr) as (body & _ & ->); [congruence |];
    cbn [ui_bind];
    match goal with
    | |- context [draw body ?w ?h ?z ?c ?hov] =>
        destruct (draw body w h z c hov) as [d | e'] eqn:Eb; cbn [ui_bind];
        [discriminate | intros E; injection E as <-; eapply draw_fails; exact Eb]
    end.
Qed.

Lemma RenderView_init_ready h : viewer_ready (RenderView_init h).
Proof. split; cbn; [lra | congruence]. Qed.

Lemma start_drag_body_ready v body :
  viewer_ready v -> viewer_ready (start_drag_body v body).
Proof. intros [Hz _]. split; cbn; [exact Hz | discriminate]. Qed.

Lemma on_event_ready v event rect mouse_pos delta_time_cur :
  viewer_ready v ->
  exists handled v',
    on_event v event rect mouse_pos delta_time_cur = Done (handled, v') /\
    viewer_ready v'.
Proof.
  intros Hr. pose proof Hr as [Hz Hb]. unfold on_event.
  destruct event as [wheel_y | button | button | key unicode |].
  - eexists _, _. split; [reflexivity |]. split; cbn.
    + destruct (0 <? wheel_y)%Z; nra.
    + exact Hb.
  - destruct (negb (collidepoint rect mouse_pos)); [eauto |].
    destruct (ControlState_eqb (_control_state v) STATE_DROPPED
              && (button =? BUTTON_LEFT)%Z) eqn:Ed.
    + apply andb_true_iff in Ed. destruct Ed as [Ed _].
      apply ControlState_eqb_eq in Ed.
      rewrite !py_div_ok by (apply scaled_zoom_nonzero; exact Hz).
      cbn [engine ui_bind].
      destruct (the_drag_body_ready v Hr) as (body & _ & ->); [congruence |].
      cbn [ui_bind]. eexists _, _. split; [reflexivity |].
      split; cbn; [exact Hz | congruence].
    + destruct ((button =? BUTTON_MIDDLE)%Z || (button =? BUTTON_LEFT)%Z);
        eexists _, _; (split; [reflexivity |]); [split; cbn; assumption | exact Hr].
  - destruct (ControlState_eqb (_control_state v) STATE_SELECTED
              && (button =? BUTTON_LEFT)%Z) eqn:Es.
    + apply andb_true_iff in Es. destruct Es as [Es _].
      apply ControlState_eqb_eq in Es.
      eexists _, _. split; [reflexivity |]. split; cbn; [exact Hz |].
      intros _. apply Hb. congruence.
    + destruct ((button =? BUTTON_MIDDLE)%Z || (button =? BUTTON_LEFT)%Z);
        eexists _, _; (split; [reflexivity |]); [split; cbn; assumption | exact Hr].
  - eauto.
  - eauto.
Qed.

Section Viewer.
Context `{pg : PygameColor} `{pr : PygameRect}.

Lemma pre_draw_ready v delta view_rect mouse_pos :
  viewer_ready v ->
  match pre_draw v delta view_rect mouse_pos with
  | Done v' => viewer_ready v'
  | Failed e =>
      exists pe, e = Py pe /\
        (update_system (_system v) = Raise pe \/
         exists p, update_system (_system v) = Ok p /\
                   update_heatmap p delta (_zoom v) (heatmap_view v) = Raise pe)
  end.
Proof.
  intros Hr. pose proof Hr as [Hz Hb]. unfold pre_draw.
  destruct (update_system (_system v)) as [p | pe] eqn:Eu; cbn [engine ui_bind].
  2: { exists pe. split; [reflexivity | left; reflexivity]. }
  fold (heatmap_view v).
  destruct (update_heatmap p delta (_zoom v) (heatmap_view v)) as [p' | pe] eqn:Eh;
    cbn [engine ui_bind].
  2: { exists pe. split; [reflexivity |]. right. exists p.
       split; [reflexivity | exact Eh]. }
  cbn [with_system _drag_view_active _zoom _view_pos _drag_last_pos
       _control_state _drop_pos _drag_body _system].
  destruct (_drag_view_active v).
  - rewrite py_div_ok by lra. cbn [engine ui_bind _control_state _zoom _view_pos
      _drag_body _system _drag_view_active _drag_last_pos _drop_pos].
    destruct (ControlState_eqb (_control_state v) STATE_SELECTED) eqn:Es.
    + apply ControlState_eqb_eq in Es.
      rewrite !py_div_ok by (apply scaled_zoom_nonzero; exact Hz).
      cbn [engine ui_bind]. unfold the_drag_body, with_system. cbn [_drag_body].
      destruct (_drag_body v) as [body |] eqn:Eb.
      * cbn [ui_bind]. split; cbn; [exact Hz | discriminate].
      * exfalso. apply Hb; [congruence | reflexivity].
    + split; cbn; assumption.
  - cbn [ui_bind with_system _control_state _zoom _view_pos _drag_body _system
         _drag_view_active _drag_last_pos _drop_pos].
    destruct (ControlState_eqb (_control_state v) STATE_SELECTED) eqn:Es.
    + apply ControlState_eqb_eq in Es.
      rewrite !py_div_ok by (apply scaled_zoom_nonzero; exact Hz).
      cbn [engine ui_bind]. unfold the_drag_body, with_system. cbn [_drag_body].
      destruct (_drag_body v) as [body |] eqn:Eb.
      * cbn [ui_bind]. split; cbn; [exact Hz | discriminate].
      * exfalso. apply Hb; [congruence | reflexivity].
    + split; cbn; assumption.
Qed.

Lemma viewer_call_ready v c v' :
  viewer_ready v -> viewer_call v c = Done v' -> viewer_ready v'.
Proof.
  intros Hr E.
  destruct c as [system | body | state | event rect m dt | delta vr m | delta];
    cbn [viewer_call] in E.
  - injection E as <-. exact Hr.
  - injection E as <-. apply start_drag_body_ready. exact Hr.
  - injection E as <-. exact Hr.
  - destruct (on_event_ready v event rect m dt Hr) as (handled & v1 & E1 & H1).
    rewrite E1 in E. cbn [ui_bind snd] in E. injection E as <-. exact H1.
  - pose proof (pre_draw_ready v delta vr m Hr) as H. rewrite E in H. exact H.
  - injection E as <-. exact Hr.
Qed.

Lemma viewer_run_ready calls : forall v v',
  viewer_ready v -> viewer_run v calls = Done v' -> viewer_ready v'.
Proof.
  induction calls as [| c calls IH]; intros v v' Hr E; cbn [viewer_run] in E.
  - injection E as <-. exact Hr.
  - destruct (viewer_call v c) as [v1 | e] eqn:E1; cbn [ui_bind] in E;
      [| discriminate].
    eapply IH; [| exact E]. eapply viewer_call_ready; eassumption.
Qed.

(** X21: whatever the application called on a new view before, the zoom is
    positive and a body is held whenever the control state is not
    STATE_NONE; so the code of [on_event] raises nothing, [pre_draw] raises
    only what [update_system] or [update_heatmap] raised, and the code of
    [draw] raises nothing but the IndexError of a colour of fewer than three
    components (what pygame makes of the drawing calls is not followed). *)
Theorem viewer_never_fails_alone (h : Heap) (calls : list ViewerCall)
    (v : RenderView) :
  viewer_run (RenderView_init h) calls = Done v ->
  0 < _zoom v /\
  (_control_state v <> STATE_NONE -> _drag_body v <> None) /\
  (forall event rect mouse_pos delta_time_cur,
     exists r, on_event v event rect mouse_pos delta_time_cur = Done r) /\
  (forall delta view_rect mouse_pos e,
     pre_draw v delta view_rect mouse_pos = Failed e ->
     exists pe, e = Py pe /\
       (update_system (_system v) = Raise pe \/
        exists p, update_system (_system v) = Ok p /\
                  update_heatmap p delta (_zoom v) (heatmap_view v)
                  = Raise pe)) /\
  (forall screen_width screen_height mouse_pos e,
     RenderView_draw v screen_width screen_height mouse_pos = Failed e ->
     e = IndexError).
Proof.
  intros E.
  assert (Hr : viewer_ready v)
    by (eapply viewer_run_ready; [apply RenderView_init_ready | exact E]).
  split; [apply Hr |]. split; [apply Hr |]. split; [| split].
  - intros event rect m dt.
    destruct (on_event_ready v event rect m dt Hr) as (handled & v1 & E1 & _).
    eauto.
  - intros delta vr m e Ef.
    pose proof (pre_draw_ready v delta vr m Hr) as H. rewrite Ef in H. exact H.
  - intros sw sh m e Ef. eapply RenderView_draw_fails; eassumption.
Qed.

End Viewer.

(** * Drawing the pool *)

Lemma draw_each_ext {A : Type} (f g : A -> UIResult (list DrawCommand)) xs :
  (forall a, In a xs -> f a = g a) ->
  forall drawn, draw_each f xs drawn = draw_each g xs drawn.
Proof.
  induction xs as [| a xs IH]; intros Hfg drawn; cbn [draw_each]; [reflexivity |].
  rewrite (Hfg a) by (left; reflexivity).
  destruct (g a) as [d | e]; cbn [ui_bind]; [| reflexivity].
  apply IH. intros b Hb. apply Hfg. right. exact Hb.
Qed.

Lemma Rleb_scale k a b : 0 < k -> Rleb (k * a) (k * b) = Rleb a b.
Proof.
  intros Hk. unfold Rleb.
  destruct (Rle_dec a b) as [H | H]; destruct (Rle_dec (k * a) (k * b)) as [K | K];
    try reflexivity; exfalso.
  - apply K. apply Rmult_le_compat_l; lra.
  - apply H. apply (Rmult_le_reg_l k); assumption.
Qed.

Lemma hover_on_screen body screen_width screen_height zoom view_pos mouse_pos :
  zoom <> 0 ->
  intersects_body body
    (fst view_pos
     + (IZR (fst mouse_pos) + IZR screen_width / 2) / (SYSTEM_SCALE * zoom),
     snd view_pos
     + (IZR (snd mouse_pos) + IZR screen_height / 2) / (SYSTEM_SCALE * zoom))
  = disc_holds_shifted_mouse body screen_width screen_height zoom view_pos
      mouse_pos.
Proof.
  intros Hz. unfold intersects_body, disc_holds_shifted_mouse, screen_position,
    screen_radius. cbn [fst snd].
  assert (Hs : SYSTEM_SCALE * zoom <> 0) by (unfold SYSTEM_SCALE; nra).
  assert (Hk : 0 < (SYSTEM_SCALE * zoom) ^ 2)
    by (apply pow_nonzero with (n := 2%nat) in Hs as Hs2;
        pose proof (pow2_ge_0 (SYSTEM_SCALE * zoom)); lra).
  rewrite <- (Rleb_scale ((SYSTEM_SCALE * zoom) ^ 2)) by exact Hk.
  f_equal; field; (split; [exact Hz | unfold SYSTEM_SCALE; lra]).
Qed.

(** X22: for a zoom other than zero, [draw_all] draws a body as hovered
    exactly when the point one screen width to the right of the mouse and
    one screen height below it lies in the disc drawn for the body. *)
Theorem draw_all_highlights_off_by_a_screen (p : SystemBodyPool)
    (screen_width screen_height : Z) (view_pos : Vec2) (zoom : R)
    (mouse_pos : Z * Z) :
  zoom <> 0 ->
  draw_all p screen_width screen_height view_pos zoom mouse_pos =
  draw_each
    (fun body =>
       draw (heap p body) screen_width screen_height zoom view_pos
         (disc_holds_shifted_mouse (heap p body) screen_width screen_height
            zoom view_pos mouse_pos))
    (bodies p)
    (match _heatmap_active p, _heatmap_surface p with
     | true, Some surface => [Blit_heatmap surface]
     | _, _ => []
     end).
Proof.
  intros Hz. unfold draw_all.
  assert (Hs : SYSTEM_SCALE * zoom <> 0) by (unfold SYSTEM_SCALE; nra).
  rewrite !py_div_ok by exact Hs. cbn [engine ui_bind].
  apply draw_each_ext. intros body _.
  rewrite hover_on_screen by exact Hz. reflexivity.
Qed.

Lemma clear_disc_not_hovered body screen_width screen_height zoom view_pos
    mouse_pos :
  (0 <= fst mouse_pos)%Z -> (0 <= snd mouse_pos)%Z ->
  clear_of_far_edges body screen_width screen_height zoom view_pos ->
  disc_holds_shifted_mouse body screen_width screen_height zoom view_pos
    mouse_pos = false.
Proof.
  intros Hx Hy (Hr & Hcx & Hcy). unfold disc_holds_shifted_mouse.
  set (sp := screen_position body screen_width screen_height zoom view_pos) in *.
  set (sr := screen_radius body zoom) in *.
  apply IZR_le in Hx, Hy.
  apply Rleb_false.
  assert (Ha : 0 < Rabs sr) by (apply Rabs_pos_lt; exact Hr).
  assert (Hq : sr ^ 2 = Rabs sr ^ 2) by (rewrite <- !Rsqr_pow2; apply Rsqr_abs).
  rewrite Hq.
  set (a := Rabs sr) in *.
  set (u := fst sp - (IZR (fst mouse_pos) + IZR screen_width)).
  set (w := snd sp - (IZR (snd mouse_pos) + IZR screen_height)).
  assert (Hu : u <= - a) by (unfold u; lra).
  assert (Hw : w <= - a) by (unfold w; lra).
  nra.
Qed.

Lemma draw_plain self screen_width screen_height zoom centre :
  exists d,
    draw self screen_width screen_height zoom centre false = Done d /\
    forallb (fun c => negb (is_Draw_info c)) d = true.
Proof. unfold draw. eexists. split; reflexivity. Qed.

Lemma draw_each_plain {A : Type} (body : A -> UIResult (list DrawCommand)) xs :
  (forall a, In a xs ->
     exists d, body a = Done d /\
               forallb (fun c => negb (is_Draw_info c)) d = true) ->
  forall drawn,
    forallb (fun c => negb (is_Draw_info c)) drawn = true ->
    exists cmds,
      draw_each body xs drawn = Done cmds /\
      forallb (fun c => negb (is_Draw_info c)) cmds = true.
Proof.
  induction xs as [| a xs IH]; intros Hb drawn Hd; cbn [draw_each].
  - eauto.
  - destruct (Hb a) as (d & -> & Hp); [left; reflexivity |]. cbn [ui_bind].
    apply IH.
    + intros b Hin. apply Hb. right. exact Hin.
    + rewrite forallb_app, Hd, Hp. reflexivity.
Qed.

(** X23: for a zoom other than zero and a mouse at non-negative
    coordinates, [draw_all] returns and draws no info label when the
    disc of every body (of radius other than zero) ends before the right and
    the lower edge of the screen: a body wholly on the screen is never drawn
    as hovered. *)
Theorem draw_all_never_highlights_inside (p : SystemBodyPool)
    (screen_width screen_height : Z) (view_pos : Vec2) (zoom : R)
    (mouse_pos : Z * Z) :
  zoom <> 0 ->
  (0 <= fst mouse_pos)%Z -> (0 <= snd mouse_pos)%Z ->
  (forall body, In body (bodies p) ->
     clear_of_far_edges (heap p body) screen_width screen_height zoom view_pos) ->
  exists cmds,
    draw_all p screen_width screen_height view_pos zoom mouse_pos = Done cmds /\
    forallb (fun c => negb (is_Draw_info c)) cmds = true.
Proof.
  intros Hz Hx Hy Hc. unfold draw_all.
  assert (Hs : SYSTEM_SCALE * zoom <> 0) by (unfold SYSTEM_SCALE; nra).
  rewrite !py_div_ok by exact Hs. cbn [engine ui_bind].
  apply draw_each_plain.
  - intros body Hin. rewrite hover_on_screen by exact Hz.
    rewrite clear_disc_not_hovered by (try assumption; apply Hc; exact Hin).
    apply draw_plain.
  - destruct (_heatmap_active p); [destruct (_heatmap_surface p) |]; reflexivity.
Qed.

(** * Dragging and dropping a body *)

Section Dragging.
Context `{pg : PygameColor} `{pr : PygameRect}.


(** X25: a left click inside the rectangle, in STATE_DROPPED with a zoom
    other than zero, is handled: the held body joins the end of the pool as
    a new body, with its velocity set to the arrow from the drop position to
    the mouse times DELTA_TIME_CUR * 0.1 / (SYSTEM_SCALE * zoom); the bodies
    of the pool are untouched, the view holds no body and is back in
    STATE_NONE. *)
Theorem drop_launches_the_body (v : RenderView) (body : SystemBody)
    (rect : Rect) (mouse_pos : Z * Z) (delta_time_cur : R) :
  _zoom v <> 0 ->
  _control_state v = STATE_DROPPED ->
  _drag_body v = Some body ->
  collidepoint rect mouse_pos = true ->
  exists v',
    on_event v (MOUSEBUTTONDOWN BUTTON_LEFT) rect mouse_pos delta_time_cur
    = Done (true, v') /\
    _control_state v' = STATE_NONE /\ _drag_body v' = None /\
    let r := fresh_ref (bodies (_system v)) in
    ~ In r (bodies (_system v)) /\
    bodies (_system v') = bodies (_system v) ++ [r] /\
    (forall r', In r' (bodies (_system v)) ->
       heap (_system v') r' = heap (_system v) r') /\
    heap (_system v') r =
      {| name := name body; mass := mass body; radius := radius body;
         color := color body; position := position body;
         velocity :=
           ((IZR (fst mouse_pos) - fst (_drop_pos v)) * delta_time_cur * 0.1
            / (SYSTEM_SCALE * _zoom v),
            (IZR (snd mouse_pos) - snd (_drop_pos v)) * delta_time_cur * 0.1
            / (SYSTEM_SCALE * _zoom v));
         acceleration := acceleration body |}.
Proof.
  intros Hz Hs Hb Hc.
  assert (Hsz : SYSTEM_SCALE * _zoom v <> 0) by (unfold SYSTEM_SCALE; nra).
  assert (Hfresh : ~ In (fresh_ref (bodies (_system v))) (bodies (_system v))).
  { intros Hin. apply fresh_ref_above in Hin. lia. }
  unfold on_event. rewrite Hc, Hs. cbn [negb ControlState_eqb andb].
  unfold BUTTON_LEFT at 1. cbn [Z.eqb Pos.eqb].
  rewrite !py_div_ok by exact Hsz. cbn [engine ui_bind].
  unfold the_drag_body. rewrite Hb. cbn [ui_bind].
  eexists. split; [reflexivity |].
  cbn [_control_state _drag_body _system add_body with_bodies bodies heap].
  split; [reflexivity |]. split; [reflexivity |].
  split; [exact Hfresh |]. split; [reflexivity |]. split.
  - intros r' Hin. unfold heap_set.
    destruct (Nat.eqb r' (fresh_ref (bodies (_system v)))) eqn:En; [| reflexivity].
    apply Nat.eqb_eq in En. subst r'. contradiction.
  - unfold heap_set. rewrite Nat.eqb_refl. reflexivity.
Qed.

End Dragging.

(** * Running the viewer *)

Lemma pick_and_release_run :
  viewer_run (pg := grey_pygame) (pr := int_rect)
    (RenderView_init (fun _ => planet)) pick_and_release = Done released_view.
Proof. reflexivity. Qed.

Lemma holding_pre_draw :
  exists v',
    pre_draw (pg := grey_pygame) (pr := int_rect) holding_view 1 screen_view
      (1000, 300)%Z = Done v'.
Proof.
  unfold pre_draw, holding_view, plain_view, start_drag_body,
    RenderView_toggle_heatmap, RenderView_init, with_system.
  cbn [_system _zoom _view_pos _drag_view_active _control_state _drag_body
       _drag_last_pos _drop_pos].
  replace (update_system
             (toggle_heatmap (SystemBodyPool_init (fun _ => planet)) false))
    with (Ok (toggle_heatmap (SystemBodyPool_init (fun _ => planet)) false))
    by reflexivity.
  cbn [engine ui_bind update_heatmap toggle_heatmap _heatmap_active negb
       ControlState_eqb _control_state _zoom].
  rewrite !py_div_ok by (unfold SYSTEM_SCALE; lra).
  cbn [engine ui_bind the_drag_body _drag_body]. eexists. reflexivity.
Qed.

Lemma planet_clear :
  clear_of_far_edges planet 1600 900 1 (0, 0).
Proof.
  unfold clear_of_far_edges, screen_position, screen_radius, planet, SYSTEM_SCALE.
  cbn [radius position SystemBody_init fst snd].
  replace (2 * 0.01 * 1) with 0.02 by lra.
  rewrite Rabs_pos_eq by lra. repeat split; lra.
Qed.

(** * Witnesses of the viewer *)

Lemma viewer_never_fails_alone_witness :
  0 < _zoom released_view /\
  forall event rect mouse_pos delta_time_cur,
    exists r, on_event released_view event rect mouse_pos delta_time_cur = Done r.
Proof.
  pose proof (viewer_never_fails_alone (pg := grey_pygame) (pr := int_rect)
                (fun _ => planet) pick_and_release released_view
                pick_and_release_run) as (Hz & _ & He & _).
  split; [exact Hz | exact He].
Defined.

Lemma draw_all_highlights_off_by_a_screen_witness :
  draw_all planet_pool 1600 900 (0, 0) 1 (800, 450)%Z =
  draw_each
    (fun body =>
       draw (heap planet_pool body) 1600 900 1 (0, 0)
         (disc_holds_shifted_mouse (heap planet_pool body) 1600 900 1 (0, 0)
            (800, 450)%Z))
    (bodies planet_pool) [].
Proof.
  apply (draw_all_highlights_off_by_a_screen planet_pool 1600 900 (0, 0) 1
           (800, 450)%Z). lra.
Defined.

Lemma draw_all_never_highlights_inside_witness :
  exists cmds,
    draw_all planet_pool 1600 900 (0, 0) 1 (800, 450)%Z = Done cmds /\
    forallb (fun c => negb (is_Draw_info c)) cmds = true.
Proof.
  apply (draw_all_never_highlights_inside planet_pool 1600 900 (0, 0) 1
           (800, 450)%Z); [lra | cbn; lia | cbn; lia |].
  intros body _. exact planet_clear.
Defined.


Lemma drop_launches_the_body_witness :
  exists v',
    on_event released_view (MOUSEBUTTONDOWN BUTTON_LEFT) screen_view
      (1000, 300)%Z 1 = Done (true, v') /\
    bodies (_system v') = [1%nat] /\
    _control_state v' = STATE_NONE.
Proof.
  destruct (drop_launches_the_body released_view planet screen_view
              (1000, 300)%Z 1) as (v' & E & Hs & _ & _ & Hb & _).
  - cbn. lra.
  - reflexivity.
  - reflexivity.
  - reflexivity.
  - exists v'. split; [exact E |]. split; [rewrite Hb; reflexivity | exact Hs].
Defined.

(** * The drawer *)

Lemma ease_in_out_range t : 0 <= t <= 1 -> 0 <= ease_in_out t <= 1.
Proof.
  intros [H0 H1]. unfold ease_in_out. split.
  - assert (0 <= t ^ 2 * (3 - 2 * t)) by (apply Rmult_le_pos; nra). nra.
  - assert (H : 1 - (3 * t ^ 2 - 2 * t ^ 3) = (1 - t) ^ 2 * (1 + 2 * t)) by ring.
    assert (0 <= (1 - t) ^ 2 * (1 + 2 * t)) by (apply Rmult_le_pos; nra).
    lra.
Qed.

Lemma py_int_between (a b : Z) v :
  IZR a <= v <= IZR b -> (a <= py_int v <= b)%Z.
Proof.
  intros [Ha Hb]. unfold py_int. destruct (Rle_dec 0 v) as [H0 | H0].
  - destruct (base_Int_part v) as [H1 H2]. split.
    + apply Z.lt_succ_r. apply lt_IZR. rewrite succ_IZR. lra.
    + apply le_IZR. lra.
  - destruct (base_Int_part (- v)) as [H1 H2]. split.
    + assert (H : IZR (Int_part (- v)) <= IZR (- a)) by (rewrite opp_IZR; lra).
      apply le_IZR in H. lia.
    + assert (H : IZR (- b) < IZR (Int_part (- v) + 1))
        by (rewrite opp_IZR, plus_IZR; lra).
      apply lt_IZR in H. lia.
Qed.

Lemma drawer_lerp_start (xc : Z) (off : Z) :
  (off = DRAWER_CLOSED_X \/ off = DRAWER_OPEN_X) ->
  (DRAWER_CLOSED_X <= xc <= DRAWER_OPEN_X)%Z ->
  0 <= Rabs (IZR (xc - off) / Rabs (IZR (DRAWER_OPEN_X - DRAWER_CLOSED_X))) <= 1.
Proof.
  unfold DRAWER_CLOSED_X, DRAWER_OPEN_X. intros Ho [H1 H2].
  replace (IZR (0 - -490)) with 490 by (cbn; lra).
  rewrite (Rabs_pos_eq 490) by lra.
  apply IZR_le in H1, H2. split; [apply Rabs_pos |].
  destruct Ho as [-> | ->]; rewrite minus_IZR; apply Rabs_le; lra.
Qed.

Lemma drawer_move_on_track (b e : Z) lerp :
  ((b = DRAWER_CLOSED_X /\ e = DRAWER_OPEN_X) \/
   (b = DRAWER_OPEN_X /\ e = DRAWER_CLOSED_X)) ->
  0 <= lerp <= 1 ->
  (DRAWER_CLOSED_X <= py_int (IZR b + IZR (e - b) * ease_in_out lerp)
   <= DRAWER_OPEN_X)%Z.
Proof.
  intros Hbe Hl. apply py_int_between.
  pose proof (ease_in_out_range lerp Hl) as [E0 E1].
  unfold DRAWER_CLOSED_X, DRAWER_OPEN_X in *.
  destruct Hbe as [[-> ->] | [-> ->]].
  - replace (IZR (0 - -490)) with 490 by (cbn; lra). lra.
  - replace (IZR (-490 - 0)) with (-490) by (cbn; lra). lra.
Qed.

(** The layers of the drawer, whatever its place. *)
Lemma drawer_position_layers d delta mouse_pos :
  let d' := drawer_position d delta mouse_pos in
  _body_preview d' = _body_preview d /\ _input_name d' = _input_name d /\
  _input_mass d' = _input_mass d /\ _input_radius d' = _input_radius d /\
  _input_color d' = _input_color d.
Proof.
  unfold drawer_position. cbv zeta.
  repeat match goal with
         | |- context [if ?c then _ else _] => destruct c
         end; cbn; repeat split; reflexivity.
Qed.

Lemma drawer_position_on_track d delta mouse_pos :
  0 <= delta -> drawer_on_track d ->
  drawer_on_track (drawer_position d delta mouse_pos).
Proof.
  intros Hd (Hx & Hl & Hm).
  assert (Hfin : forall d1 : BodyDrawerUI,
    (DRAWER_CLOSED_X <= _drawer_x_current d1 <= DRAWER_OPEN_X)%Z ->
    0 <= _drawer_lerp d1 <= 1 ->
    (_drawer_lerping d1 = false -> _drawer_lerp d1 < 1) ->
    (_drawer_lerping d1 = true ->
     (_drawer_x_begin d1 = DRAWER_CLOSED_X /\ _drawer_x_end d1 = DRAWER_OPEN_X) \/
     (_drawer_x_begin d1 = DRAWER_OPEN_X /\ _drawer_x_end d1 = DRAWER_CLOSED_X)) ->
    drawer_on_track
      (if _drawer_lerping d1 then
         let x_current :=
           py_int (IZR (_drawer_x_begin d1)
                   + IZR (_drawer_x_end d1 - _drawer_x_begin d1)
                     * ease_in_out (_drawer_lerp d1)) in
         let lerp := _drawer_lerp d1 + 0.02 * delta in
         if Rleb 1.0 lerp then
           {| _presets := _presets d1; _body_preview := _body_preview d1;
              _input_name := _input_name d1; _input_mass := _input_mass d1;
              _input_radius := _input_radius d1;
              _input_color := _input_color d1;
              _drawer_x_current := x_current; _drawer_lerping := false;
              _drawer_lerp := 0.0; _drawer_x_begin := _drawer_x_begin d1;
              _drawer_x_end := _drawer_x_end d1;
              _drawer_closing := _drawer_closing d1;
              _drawer_opening := _drawer_opening d1 |}
         else
           {| _presets := _presets d1; _body_preview := _body_preview d1;
              _input_name := _input_name d1; _input_mass := _input_mass d1;
              _input_radius := _input_radius d1;
              _input_color := _input_color d1;
              _drawer_x_current := x_current;
              _drawer_lerping := _drawer_lerping d1;
              _drawer_lerp := lerp; _drawer_x_begin := _drawer_x_begin d1;
              _drawer_x_end := _drawer_x_end d1;
              _drawer_closing := _drawer_closing d1;
              _drawer_opening := _drawer_opening d1 |}
       else d1)).
  { intros d1 H1 H2 H3 H4. destruct (_drawer_lerping d1) eqn:El.
    - specialize (H4 eq_refl). cbv zeta.
      pose proof (drawer_move_on_track _ _ _ H4 H2) as Hxc.
      unfold Rleb.
      destruct (Rle_dec 1.0 (_drawer_lerp d1 + 0.02 * delta)) as [K | K].
      + split; [exact Hxc |]. cbn. split; [lra | discriminate].
      + split; [exact Hxc |]. cbn. split; [lra | intros _; exact H4].
    - split; [exact H1 |]. split; [split; [apply H2 | apply H3; reflexivity] |].
      rewrite El. discriminate. }
  unfold drawer_position. cbv zeta.
  match goal with
  | |- context [if ?c then _ else if ?c' then _ else d] =>
      destruct c; [| destruct c']
  end.
  - apply Hfin; cbn.
    + exact Hx.
    + apply drawer_lerp_start; [left; reflexivity | exact Hx].
    + discriminate.
    + intros _. left. split; reflexivity.
  - apply Hfin; cbn.
    + exact Hx.
    + apply drawer_lerp_start; [right; reflexivity | exact Hx].
    + discriminate.
    + intros _. right. split; reflexivity.
  - apply Hfin; [exact Hx | lra | intros _; lra | exact Hm].
Qed.

Lemma BodyDrawerUI_init_on_track : drawer_on_track BodyDrawerUI_init.
Proof.
  unfold drawer_on_track, BodyDrawerUI_init, DRAWER_CLOSED_X, DRAWER_OPEN_X. cbn.
  split; [lia |]. split; [lra | discriminate].
Qed.

Lemma BodyDrawerUI_init_hints : hints_given BodyDrawerUI_init.
Proof. unfold hints_given. cbn. repeat split; discriminate. Qed.

Section Drawer.
Context `{font : SystemFont} `{parse : PythonParse}.

(** ** The textboxes *)

Lemma textbox_draw_hint t delta rect clip t' :
  BodyDrawerTextbox_draw t delta rect clip = Done t' -> _hint t' = _hint t.
Proof.
  unfold BodyDrawerTextbox_draw. cbv zeta.
  repeat match goal with
         | |- context [if ?c then _ else _] => destruct c
         end; intros E; try discriminate; injection E as <-; reflexivity.
Qed.

Lemma textbox_draw_ok t delta rect clip :
  _hint t <> ""%string ->
  exists t', BodyDrawerTextbox_draw t delta rect clip = Done t'.
Proof.
  intros Hh. unfold BodyDrawerTextbox_draw. cbv zeta.
  destruct (negb (clip _)); [eauto |].
  destruct (negb (String.eqb (_value t) "")); [eauto |].
  destruct (String.eqb (_hint t) "") eqn:E.
  - apply String.eqb_eq in E. contradiction.
  - cbn [negb]. eauto.
Qed.

Lemma textbox_on_event_hint t event rect mouse_pos :
  _hint (snd (BodyDrawerTextbox_on_event t event rect mouse_pos)) = _hint t.
Proof.
  unfold BodyDrawerTextbox_on_event. destruct event; cbn [snd]; try reflexivity.
  - match goal with
    | |- context [if ?c then _ else _] => destruct c
    end; reflexivity.
  - destruct (_focused t); [| reflexivity].
    destruct (key =? K_BACKSPACE)%Z; [reflexivity |].
    destruct (key =? K_RETURN)%Z; reflexivity.
Qed.

(** ** What the calls keep *)

Lemma relayered_on_track d d' :
  relayered d d' -> drawer_on_track d -> drawer_on_track d'.
Proof. intros (p & n & m & r & c & -> & _) H. exact H. Qed.

Lemma relayered_hints d d' : relayered d d' -> hints_given d -> hints_given d'.
Proof.
  intros (p & n & m & r & c & -> & Hn & Hm & Hr & Hc) (H1 & H2 & H3 & H4).
  unfold hints_given. cbn. rewrite Hn, Hm, Hr, Hc. repeat split; assumption.
Qed.

Lemma relayered_refl d : relayered d d.
Proof.
  exists (_body_preview d), (_input_name d), (_input_mass d), (_input_radius d),
    (_input_color d).
  split; [destruct d; reflexivity | repeat split; reflexivity].
Qed.

Lemma BodyDrawerUI_on_event_relayered d viewer event rect mouse_pos h d' v' :
  BodyDrawerUI_on_event d viewer event rect mouse_pos = Done (h, d', v') ->
  relayered d d'.
Proof.
  unfold BodyDrawerUI_on_event. cbv zeta.
  destruct (BodyPreviewUI_on_event _ _ _ _ _) as [[[h0 p0] v0] | e0];
    cbn [ui_bind]; [| discriminate].
  destruct h0.
  { intros E. injection E as _ <- _. do 5 eexists.
    split; [reflexivity | repeat split; reflexivity]. }
  cbn [_input_name _input_mass _input_radius _input_color _body_preview
       with_layers _drawer_x_current].
  pose proof (textbox_on_event_hint (_input_name d) event) as Hn.
  pose proof (textbox_on_event_hint (_input_mass d) event) as Hm.
  pose proof (textbox_on_event_hint (_input_radius d) event) as Hr.
  pose proof (textbox_on_event_hint (_input_color d) event) as Hc.
  match goal with
  | |- context [BodyDrawerTextbox_on_event (_input_name d) event ?r ?m] =>
      specialize (Hn r m);
      destruct (BodyDrawerTextbox_on_event (_input_name d) event r m)
        as [h1 name_box]
  end.
  cbn [snd] in Hn.
  cbn [_input_name _input_mass _input_radius _input_color _body_preview
       with_layers _drawer_x_current].
  destruct h1.
  { intros E. injection E as _ <- _. do 5 eexists.
    split; [reflexivity |]. cbn. repeat split; try reflexivity. exact Hn. }
  match goal with
  | |- context [BodyDrawerTextbox_on_event (_input_mass d) event ?r ?m] =>
      specialize (Hm r m);
      destruct (BodyDrawerTextbox_on_event (_input_mass d) event r m)
        as [h2 mass_box]
  end.
  cbn [snd] in Hm.
  cbn [_input_name _input_mass _input_radius _input_color _body_preview
       with_layers _drawer_x_current].
  destruct h2.
  { match goal with
    | |- context [ui_bind ?m _] => destruct m as [body | e]; cbn [ui_bind]
    end; [| discriminate].
    intros E. injection E as _ <- _. do 5 eexists.
    split; [reflexivity |]. cbn. repeat split; try reflexivity; assumption. }
  match goal with
  | |- context [BodyDrawerTextbox_on_event (_input_radius d) event ?r ?m] =>
      specialize (Hr r m);
      destruct (BodyDrawerTextbox_on_event (_input_radius d) event r m)
        as [h3 radius_box]
  end.
  cbn [snd] in Hr.
  cbn [_input_name _input_mass _input_radius _input_color _body_preview
       with_layers _drawer_x_current].
  destruct h3.
  { match goal with
    | |- context [ui_bind ?m _] => destruct m as [body | e]; cbn [ui_bind]
    end; [| discriminate].
    intros E. injection E as _ <- _. do 5 eexists.
    split; [reflexivity |]. cbn. repeat split; try reflexivity; assumption. }
  match goal with
  | |- context [BodyDrawerTextbox_on_event (_input_color d) event ?r ?m] =>
      specialize (Hc r m);
      destruct (BodyDrawerTextbox_on_event (_input_color d) event r m)
        as [h4 color_box]
  end.
  cbn [snd] in Hc.
  cbn [_input_name _input_mass _input_radius _input_color _body_preview
       with_layers _drawer_x_current].
  destruct h4.
  { match goal with
    | |- context [ui_bind ?m _] => destruct m as [body | e]; cbn [ui_bind]
    end; [| discriminate].
    intros E. injection E as _ <- _. do 5 eexists.
    split; [reflexivity |]. cbn. repeat split; try reflexivity; assumption. }
  intros E. injection E as _ <- _. do 5 eexists.
  split; [reflexivity |]. cbn. repeat split; try reflexivity; assumption.
Qed.

Lemma BodyDrawerUI_draw_spec d delta mouse_pos clip d' :
  BodyDrawerUI_draw d delta mouse_pos clip = Done d' ->
  exists d1, relayered d d1 /\ d' = drawer_position d1 delta mouse_pos.
Proof.
  unfold BodyDrawerUI_draw. cbv zeta.
  repeat match goal with
         | |- context [ui_bind (BodyDrawerTextbox_draw ?t ?dl ?r ?c) _] =>
             let E := fresh "E" in
             destruct (BodyDrawerTextbox_draw t dl r c) eqn:E; cbn [ui_bind];
             [apply textbox_draw_hint in E | discriminate]
         end.
  intros Ed. injection Ed as <-. eexists. split; [| reflexivity].
  do 5 eexists. split; [reflexivity | repeat split; assumption].
Qed.

Lemma drawer_position_hints d delta mouse_pos :
  hints_given d -> hints_given (drawer_position d delta mouse_pos).
Proof.
  intros H. unfold hints_given.
  destruct (drawer_position_layers d delta mouse_pos) as (_ & -> & -> & -> & ->).
  exact H.
Qed.

Lemma BodyDrawerUI_draw_ok d delta mouse_pos clip :
  hints_given d -> exists d', BodyDrawerUI_draw d delta mouse_pos clip = Done d'.
Proof.
  intros (H1 & H2 & H3 & H4). unfold BodyDrawerUI_draw. cbv zeta.
  repeat match goal with
         | |- context [ui_bind (BodyDrawerTextbox_draw ?t ?dl ?r ?c) _] =>
             let E := fresh "E" in
             destruct (textbox_draw_ok t dl r c) as [? E]; [assumption |];
             rewrite E; cbn [ui_bind]
         end.
  eauto.
Qed.

Lemma drawer_call_keeps s c s' :
  drawer_call s c = Done s' ->
  (hints_given (fst s) -> hints_given (fst s')) /\
  (0 <= call_delta c -> drawer_on_track (fst s) -> drawer_on_track (fst s')).
Proof.
  destruct s as [d v]. destruct c as [| presets | delta m clip | event rect m];
    cbn [drawer_call fst snd call_delta]; intros E.
  - injection E as <-. cbn [fst]. split; intros; assumption.
  - injection E as <-. cbn [fst]. split; intros; assumption.
  - destruct (BodyDrawerUI_draw d delta m clip) as [d1 |] eqn:Ed;
      cbn [ui_bind] in E; [| discriminate].
    injection E as <-. cbn [fst].
    apply BodyDrawerUI_draw_spec in Ed. destruct Ed as (d2 & Hr & ->). split.
    + intros H. apply drawer_position_hints. eapply relayered_hints; eassumption.
    + intros Hd H. apply drawer_position_on_track; [exact Hd |].
      eapply relayered_on_track; eassumption.
  - destruct (BodyDrawerUI_on_event d v event rect m) as [[[h d1] v1] |] eqn:Ee;
      cbn [ui_bind] in E; [| discriminate].
    injection E as <-. cbn [fst snd].
    apply BodyDrawerUI_on_event_relayered in Ee. split.
    + intros H. eapply relayered_hints; eassumption.
    + intros _ H. eapply relayered_on_track; eassumption.
Qed.

Lemma drawer_run_keeps calls : forall s s',
  drawer_run s calls = Done s' ->
  (hints_given (fst s) -> hints_given (fst s')) /\
  (Forall (fun c => 0 <= call_delta c) calls ->
   drawer_on_track (fst s) -> drawer_on_track (fst s')).
Proof.
  induction calls as [| c calls IH]; intros s s' E; cbn [drawer_run] in E.
  - injection E as <-. split; intros; assumption.
  - destruct (drawer_call s c) as [s1 |] eqn:Ec; cbn [ui_bind] in E;
      [| discriminate].
    apply drawer_call_keeps in Ec. destruct Ec as [Hh Ht].
    destruct (IH _ _ E) as [Hh' Ht']. split.
    + intros H. apply Hh', Hh, H.
    + intros Hf H. inversion Hf; subst. apply Ht'; [assumption |].
      apply Ht; assumption.
Qed.

(** X26: whatever the application called on a new drawer, with time steps
    that are not negative, the drawer is between its closed and its open
    position, -490 <= x <= 0, and the progress of its movement is in
    [0, 1). *)
Theorem drawer_stays_on_track (viewer viewer' : RenderView)
    (calls : list DrawerCall) (d : BodyDrawerUI) :
  Forall (fun c => 0 <= call_delta c) calls ->
  drawer_run (BodyDrawerUI_init, viewer) calls = Done (d, viewer') ->
  (DRAWER_CLOSED_X <= _drawer_x_current d <= DRAWER_OPEN_X)%Z /\
  0 <= _drawer_lerp d < 1.
Proof.
  intros Hf E. apply drawer_run_keeps in E. destruct E as [_ Ht].
  destruct (Ht Hf BodyDrawerUI_init_on_track) as (Hx & Hl & _).
  split; assumption.
Qed.

(** ** What the drawer raises *)

Lemma except_ValueError_pass_fails {A} (m : UIResult A) a e :
  except_ValueError_pass m a = Failed e ->
  m = Failed e /\ e <> Py ValueError.
Proof.
  unfold except_ValueError_pass. destruct m as [x | [| | | [|]]]; intros E;
    try discriminate; injection E as <-; split; (reflexivity || discriminate).
Qed.

Lemma commit_float_fails (set : SystemBody -> R -> SystemBody) body text e :
  except_ValueError_pass
    (m <~ py_float_str text ;; Done (set body m)) body <> Failed e.
Proof.
  unfold py_float_str. destruct (py_float_of text); cbn; discriminate.
Qed.

Lemma commit_color_fails body text e :
  commit_color body text = Failed e -> e = IndexError.
Proof.
  unfold commit_color. intros E. apply except_ValueError_pass_fails in E.
  destruct E as [E Hne]. cbv zeta in E. unfold item, py_int_str in E.
  repeat match type of E with
         | context [match ?o with Some _ => _ | None => _ end] =>
             destruct o; cbn [ui_bind] in E
         end; try discriminate; injection E as <-; try reflexivity;
    exfalso; apply Hne; reflexivity.
Qed.

Lemma BodyDrawerUI_on_event_fails d viewer event rect mouse_pos e :
  BodyDrawerUI_on_event d viewer event rect mouse_pos = Failed e ->
  (e = AttributeError /\ _system_viewer (_body_preview d) = false /\
   exists button, event = MOUSEBUTTONDOWN button) \/
  (e = IndexError /\ is_return event = true /\
   _focused (_input_color d) = true).
Proof.
  unfold BodyDrawerUI_on_event. cbv zeta.
  destruct (BodyPreviewUI_on_event _ _ _ _ _) as [[[h0 p0] v0] | e0] eqn:Ep;
    cbn [ui_bind].
  2: { intros E. injection E as <-. left.
       unfold BodyPreviewUI_on_event in Ep.
       destruct event; try discriminate.
       destruct (collidepoint _ mouse_pos); [| discriminate].
       destruct (_system_viewer (_body_preview d)) eqn:Es; [discriminate |].
       injection Ep as <-. repeat split. eauto. }
  destruct h0; [discriminate |].
  assert (Hprev : forall key unicode, event = KEYDOWN key unicode ->
                    p0 = _body_preview d).
  { intros key unicode ->. cbn in Ep. injection Ep as <- _. reflexivity. }
  cbn [_input_name _input_mass _input_radius _input_color _body_preview
       with_layers _drawer_x_current].
  destruct (BodyDrawerTextbox_on_event (_input_name d) _ _ _) as [h1 name_box].
  destruct h1; [discriminate |].
  cbn [_input_name _input_mass _input_radius _input_color _body_preview
       with_layers _drawer_x_current].
  destruct (BodyDrawerTextbox_on_event (_input_mass d) _ _ _) as [h2 mass_box].
  destruct h2.
  { destruct (is_return event); cbn [ui_bind]; [| discriminate].
    unfold commit_mass.
    match goal with
    | |- context [ui_bind ?m _] => destruct m eqn:Em; cbn [ui_bind]
    end; [discriminate |].
    exfalso. eapply commit_float_fails. exact Em. }
  cbn [_input_name _input_mass _input_radius _input_color _body_preview
       with_layers _drawer_x_current].
  destruct (BodyDrawerTextbox_on_event (_input_radius d) _ _ _)
    as [h3 radius_box].
  destruct h3.
  { destruct (is_return event); cbn [ui_bind]; [| discriminate].
    unfold commit_radius.
    match goal with
    | |- context [ui_bind ?m _] => destruct m eqn:Em; cbn [ui_bind]
    end; [discriminate |].
    exfalso. eapply commit_float_fails. exact Em. }
  cbn [_input_name _input_mass _input_radius _input_color _body_preview
       with_layers _drawer_x_current].
  destruct (BodyDrawerTextbox_on_event (_input_color d) _ _ _)
    as [h4 color_box] eqn:Ec.
  destruct h4; [| discriminate].
  destruct (is_return event) eqn:Er; cbn [ui_bind]; [| discriminate].
  match goal with
  | |- context [ui_bind ?m _] => destruct m eqn:Em; cbn [ui_bind]
  end; [discriminate |].
  intros E. injection E as <-. right.
  split; [eapply commit_color_fails; exact Em |]. split; [reflexivity |].
  destruct event; try discriminate. cbn in Ec.
  destruct (_focused (_input_color d)); [reflexivity | discriminate].
Qed.

(** X27: whatever the application called on a new drawer before, the code
    of [draw] raises nothing (the boxes keep their hints, so the unassigned
    [text_rect] is never read), and [on_event] raises only AttributeError,
    for a click on the preview when no viewer is set, and IndexError, for
    Return in the focused box of the colour. *)
Theorem drawer_raises_little (viewer viewer' : RenderView)
    (calls : list DrawerCall) (d : BodyDrawerUI) :
  drawer_run (BodyDrawerUI_init, viewer) calls = Done (d, viewer') ->
  (forall delta mouse_pos clip_collides,
     exists d', BodyDrawerUI_draw d delta mouse_pos clip_collides = Done d') /\
  (forall event rect mouse_pos e,
     BodyDrawerUI_on_event d viewer' event rect mouse_pos = Failed e ->
     (e = AttributeError /\ _system_viewer (_body_preview d) = false /\
      exists button, event = MOUSEBUTTONDOWN button) \/
     (e = IndexError /\ is_return event = true /\
      _focused (_input_color d) = true)).
Proof.
  intros E. apply drawer_run_keeps in E. destruct E as [Hh _].
  specialize (Hh BodyDrawerUI_init_hints). cbn [fst] in Hh. split.
  - intros delta m clip. apply BodyDrawerUI_draw_ok. exact Hh.
  - intros event rect m e. apply BodyDrawerUI_on_event_fails.
Qed.

End Drawer.

(** ** Typing in a textbox *)

Lemma append_assoc (a b c : string) : ((a ++ b) ++ c = a ++ (b ++ c))%string.
Proof. induction a as [| x a IH]; cbn; [reflexivity | rewrite IH; reflexivity]. Qed.

Lemma append_empty_r (a : string) : (a ++ "" = a)%string.
Proof. induction a as [| x a IH]; cbn; [reflexivity | rewrite IH; reflexivity]. Qed.

Lemma append_length (a b : string) :
  String.length (a ++ b) = (String.length a + String.length b)%nat.
Proof. induction a as [| x a IH]; cbn; [reflexivity | rewrite IH; reflexivity]. Qed.

Lemma drop_last_length s :
  String.length (drop_last s) = Nat.pred (String.length s).
Proof.
  induction s as [| a s IH]; [reflexivity |].
  destruct s as [| b s]; [reflexivity |].
  change (drop_last (String a (String b s)))
    with (String a (drop_last (String b s))).
  cbn [String.length]. rewrite IH. reflexivity.
Qed.

Lemma drop_last_append s u :
  u <> ""%string -> drop_last (s ++ u) = (s ++ drop_last u)%string.
Proof.
  intros Hu. induction s as [| a s IH]; [reflexivity |].
  cbn [String.append].
  destruct (s ++ u)%string as [| b w] eqn:E.
  - destruct s; [cbn in E; contradiction | discriminate].
  - change (drop_last (String a (String b w)))
      with (String a (drop_last (String b w))).
    rewrite IH. reflexivity.
Qed.

Lemma concat_characters_length (typed : list (Z * string)) :
  Forall types_a_character typed ->
  String.length (String.concat "" (map snd typed)) = List.length typed.
Proof.
  induction typed as [| k typed IH]; intros Ht; [reflexivity |].
  inversion Ht as [| ? ? (_ & _ & Hk) Ht']; subst. specialize (IH Ht').
  cbn [map List.length]. destruct typed as [| k' typed'].
  - cbn. exact Hk.
  - change (String.concat "" (snd k :: map snd (k' :: typed')))
      with (snd k ++ "" ++ String.concat "" (map snd (k' :: typed')))%string.
    rewrite append_length. cbn [String.append]. rewrite IH, Hk. reflexivity.
Qed.

Lemma concat_cons_append (u : string) (l : list string) :
  String.concat "" (u :: l) = (u ++ String.concat "" l)%string.
Proof.
  destruct l as [| v l]; cbn [String.concat].
  - rewrite append_empty_r. reflexivity.
  - reflexivity.
Qed.

Section Typing.
Context `{font : SystemFont}.

Lemma type_keys_characters typed : forall t rect mouse_pos,
  _focused t = true -> Forall types_a_character typed ->
  type_keys t typed rect mouse_pos
  = set_value t (_value t ++ String.concat "" (map snd typed))%string.
Proof.
  induction typed as [| k typed IH]; intros t rect m Hf Ht.
  - cbn. rewrite append_empty_r. destruct t; cbn in *. reflexivity.
  - inversion Ht as [| ? ? Hk Ht']; subst.
    unfold type_keys. cbn [fold_left].
    fold (type_keys
            (snd (BodyDrawerTextbox_on_event t (KEYDOWN (fst k) (snd k)) rect m))
            typed rect m).
    destruct Hk as (Hb & Hr & _). apply Z.eqb_neq in Hb, Hr.
    cbn [BodyDrawerTextbox_on_event]. rewrite Hf, Hb, Hr. cbn [snd].
    rewrite IH by (try assumption; exact Hf).
    unfold set_value. cbn [_label _hint _value _focused _focused_counter].
    cbn [map]. rewrite concat_cons_append, append_assoc. reflexivity.
Qed.

Lemma erase_characters n : forall t rect mouse_pos text chars,
  _focused t = true -> String.length chars = n ->
  _value t = (text ++ chars)%string ->
  type_keys t (repeat (K_BACKSPACE, ""%string) n) rect mouse_pos
  = set_value t text.
Proof.
  induction n as [| n IH]; intros t rect m text chars Hf Hl Hv.
  - destruct chars; [| discriminate]. rewrite append_empty_r in Hv.
    cbn. rewrite <- Hv. destruct t; reflexivity.
  - unfold type_keys. cbn [repeat fold_left fst snd].
    fold (type_keys
            (snd (BodyDrawerTextbox_on_event t (KEYDOWN K_BACKSPACE "") rect m))
            (repeat (K_BACKSPACE, ""%string) n) rect m).
    cbn [BodyDrawerTextbox_on_event]. rewrite Hf. rewrite Z.eqb_refl. cbn [snd].
    rewrite (IH _ rect m text (drop_last chars)).
    + reflexivity.
    + exact Hf.
    + rewrite drop_last_length, Hl. reflexivity.
    + cbn [set_value _value]. rewrite Hv. apply drop_last_append.
      destruct chars; [discriminate | discriminate].
Qed.

(** X28: in a focused textbox, keys that type one character each append
    their characters to the value and keep the focus, and as many
    backspaces afterwards give the textbox back as it was; a backspace on an
    empty value leaves it empty. *)
Theorem textbox_type_then_erase (t : BodyDrawerTextbox)
    (typed : list (Z * string)) (rect : Rect) (mouse_pos : Z * Z) :
  _focused t = true ->
  Forall types_a_character typed ->
  let t' := type_keys t typed rect mouse_pos in
  _value t' = (_value t ++ String.concat "" (map snd typed))%string /\
  _focused t' = true /\
  type_keys t' (repeat (K_BACKSPACE, ""%string) (List.length typed)) rect
    mouse_pos = t /\
  type_keys (set_value t "") [(K_BACKSPACE, ""%string)] rect mouse_pos
  = set_value t "".
Proof.
  intros Hf Ht. cbv zeta.
  rewrite (type_keys_characters typed t rect mouse_pos Hf Ht).
  split; [reflexivity |]. split; [exact Hf |]. split.
  - rewrite (erase_characters (List.length typed) _ rect mouse_pos (_value t)
               (String.concat "" (map snd typed))).
    + destruct t; reflexivity.
    + exact Hf.
    + apply concat_characters_length. exact Ht.
    + reflexivity.
  - unfold type_keys. cbn [fold_left fst snd BodyDrawerTextbox_on_event
      set_value _focused _value]. rewrite Hf, Z.eqb_refl. reflexivity.
Qed.

End Typing.

(** ** Entering a colour *)

Section Colour.
Context `{font : SystemFont} `{parse : PythonParse}.

Lemma commit_color_cases body text :
  commit_color body text =
  match map py_int_of (firstn 3 (split_commas text)) with
  | [Some c0; Some c1; Some c2] => Done (set_color body [c0; c1; c2])
  | fields => if existsb is_None fields then Done body else Failed IndexError
  end.
Proof.
  unfold commit_color. cbv zeta. unfold item, py_int_str.
  destruct (split_commas text) as [| s0 [| s1 [| s2 rest]]];
    cbn [nth_error firstn map ui_bind].
  - reflexivity.
  - destruct (py_int_of s0); reflexivity.
  - destruct (py_int_of s0); cbn [ui_bind]; [| reflexivity].
    destruct (py_int_of s1); reflexivity.
  - destruct (py_int_of s0); cbn [ui_bind].
    + destruct (py_int_of s1); cbn [ui_bind].
      * destruct (py_int_of s2); reflexivity.
      * destruct (py_int_of s2); reflexivity.
    + destruct (py_int_of s1); destruct (py_int_of s2); reflexivity.
Qed.

(** X29: Return in the box of the colour, the only focused box, reads the
    first three comma-separated fields of its text: when all three read as
    integers they become the colour of the preview's body; when one of them
    does not, the body is left as it is; when there are fewer than three,
    all reading as integers, IndexError is raised.  The box loses the
    focus. *)
Theorem color_entry (d : BodyDrawerUI) (viewer : RenderView) (unicode : string)
    (rect : Rect) (mouse_pos : Z * Z) :
  _focused (_input_name d) = false ->
  _focused (_input_mass d) = false ->
  _focused (_input_radius d) = false ->
  _focused (_input_color d) = true ->
  let body := get_body (_body_preview d) in
  BodyDrawerUI_on_event d viewer (KEYDOWN K_RETURN unicode) rect mouse_pos =
  match map py_int_of (firstn 3 (split_commas (value (_input_color d)))) with
  | [Some c0; Some c1; Some c2] =>
      Done (true, color_entered d (set_color body [c0; c1; c2]), viewer)
  | fields =>
      if existsb is_None fields then Done (true, color_entered d body, viewer)
      else Failed IndexError
  end.
Proof.
  intros Hn Hm Hr Hc. cbv zeta.
  unfold BodyDrawerUI_on_event. cbv zeta.
  cbn [BodyPreviewUI_on_event ui_bind].
  cbn [_input_name _input_mass _input_radius _input_color _body_preview
       with_layers _drawer_x_current BodyDrawerTextbox_on_event].
  rewrite Hn.
  cbn [_input_name _input_mass _input_radius _input_color _body_preview
       with_layers _drawer_x_current BodyDrawerTextbox_on_event].
  rewrite Hm.
  cbn [_input_name _input_mass _input_radius _input_color _body_preview
       with_layers _drawer_x_current BodyDrawerTextbox_on_event].
  rewrite Hr.
  cbn [_input_name _input_mass _input_radius _input_color _body_preview
       with_layers _drawer_x_current BodyDrawerTextbox_on_event].
  rewrite Hc. cbn [Z.eqb K_RETURN K_BACKSPACE Pos.eqb is_return].
  cbn [_input_name _input_mass _input_radius _input_color _body_preview
       with_layers _drawer_x_current value set_focused _value].
  rewrite commit_color_cases. unfold color_entered, value.
  destruct (map py_int_of (firstn 3 (split_commas (_value (_input_color d)))))
    as [| [c0 |] [| [c1 |] [| [c2 |] [| f fields]]]];
    cbn [existsb is_None orb ui_bind]; try reflexivity.
  all: destruct f; cbn [is_None orb ui_bind]; try reflexivity.
  all: destruct (existsb is_None fields); reflexivity.
Qed.

End Colour.

(** * Running the drawer *)

Lemma opening_run :
  exists d v,
    drawer_run (font := fixed_font) (parse := decimal_parse)
      (BodyDrawerUI_init, released_view) opening_calls = Done (d, v).
Proof.
  unfold opening_calls.
  cbn -[drawer_position BodyDrawerUI_init released_view].
  eexists _, _. reflexivity.
Qed.

Lemma drawer_stays_on_track_witness :
  exists d v,
    drawer_run (font := fixed_font) (parse := decimal_parse)
      (BodyDrawerUI_init, released_view)
      opening_calls
    = Done (d, v) /\
    (DRAWER_CLOSED_X <= _drawer_x_current d <= DRAWER_OPEN_X)%Z.
Proof.
  destruct opening_run as (d & v & E). exists d, v. split; [exact E |].
  apply (drawer_stays_on_track (font := fixed_font) (parse := decimal_parse)
           released_view v opening_calls d).
  - unfold opening_calls. repeat constructor; cbn; lra.
  - exact E.
Defined.

Lemma drawer_raises_little_witness :
  exists d v,
    drawer_run (font := fixed_font) (parse := decimal_parse)
      (BodyDrawerUI_init, released_view)
      opening_calls
    = Done (d, v) /\
    forall delta mouse_pos clip_collides,
      exists d',
        BodyDrawerUI_draw (font := fixed_font) d delta mouse_pos clip_collides
        = Done d'.
Proof.
  destruct opening_run as (d & v & E). exists d, v. split; [exact E |].
  apply (drawer_raises_little (font := fixed_font) (parse := decimal_parse)
           released_view v opening_calls d E).
Defined.

Lemma textbox_type_then_erase_witness :
  let t' := type_keys (font := fixed_font) box_12 [(51, "3"); (52, "4")]%Z%string
              screen_view (0, 0)%Z in
  _value t' = "1234"%string /\
  type_keys (font := fixed_font) t' (repeat (K_BACKSPACE, ""%string) 2)
    screen_view (0, 0)%Z = box_12.
Proof.
  destruct (textbox_type_then_erase (font := fixed_font) box_12
              [(51, "3"); (52, "4")]%Z%string screen_view (0, 0)%Z)
    as (Hv & _ & He & _).
  - reflexivity.
  - repeat constructor; cbn; unfold K_BACKSPACE, K_RETURN; lia.
  - split; [exact Hv | exact He].
Defined.

Lemma color_entry_witness :
  BodyDrawerUI_on_event (font := fixed_font) (parse := decimal_parse)
    (drawer_with_color "255") released_view (KEYDOWN K_RETURN "") screen_view
    (0, 0)%Z = Failed IndexError.
Proof.
  rewrite (color_entry (font := fixed_font) (parse := decimal_parse)
             (drawer_with_color "255") released_view "" screen_view (0, 0)%Z);
    reflexivity.
Defined.
